(* ===== verification/_CoqProject ===== *)
-Q . S2P
Prelude.v
CharConv.v
Resp.v
StreamId.v
StoreValue.v
StringStore.v
ListStore.v
StreamStore.v
Store.v
StoreCalls.v
Blocking.v
WatchManager.v
TransactionManager.v
ReplicaRegistry.v
Command.v
ServerConfig.v
World.v
BasicCommands.v
ListCommands.v
StreamCommands.v
TransactionCommands.v
CommandRegistry.v
Dispatch.v
Expiry.v
Invariants.v
WriteEffects.v
Transactions.v
BlockedClients.v
Timeouts.v
ResumedExec.v
BlockedReaders.v
WaitCommand.v
Connection.v
Server.v
Termination.v
OneReply.v
Replies.v
Network.v
Threads.v
OptimisticLocking.v
EndToEnd.v
Main.v
Reader.v
ReplicationSession.v
Acknowledgements.v
ReplicaLink.v
Logger.v
Startup.v
Lifecycle.v
Convergence.v
