(* ===== verification/Prelude.v ===== *)
(** * Redis clone: verification library

    A model in Rocq of the server under src/ (C++), written from the sources
    function by function, and theorems about it.

    ** The program

    A pool of network threads (Asio) accepts connections, reads requests and
    drives the handshakes; one store thread executes commands one at a time.  A
    request is parsed as a RESP value, turned into a [Command] and dispatched:
    inside MULTI it is queued, otherwise the handler registered for its type
    executes it on the [Store].  A write is then reported to the watches of
    other connections (WATCH) and to the replicas.  BLPOP, XREAD BLOCK and
    WAIT may answer later: they leave a callback and a timer behind, and a
    push or an XADD serves the oldest callbacks.  EXEC runs its queue through
    the same callbacks, so that a blocking command can suspend it.  A server
    started with --replicaof connects to a master, receives an RDB payload and
    then applies the stream of commands that the master propagates.

    ** Files (dependency order) and the sources they model

    - Prelude: byte strings, [outcome] (a result, an exception or undefined
      behaviour), list and map lemmas, tactics.
    - CharConv: <charconv>/<string> conversions and util/StringUtils.hpp;
      [stod] is exact binary64 arithmetic (SpecFloat).
    - Resp: resp/RespValue.hpp, resp/RespParser.cpp.
    - StreamId: store/types/StreamIdUtils.hpp and .cpp.
    - StoreValue: store/types/Stream.hpp, store/core/StoreValue.hpp,
      store/core/StoreType.hpp, util/MemoryEstimator.hpp.
    - StringStore, ListStore, StreamStore: store/impl/*.cpp.
    - Store: store/core/Store.hpp.
    - StoreCalls: the public methods of [Store] as data, lazy against eager
      expiry, and calls that commute.
    - Blocking: the template [BlockingRegistry] of state/BlockingManager.hpp.
    - WatchManager: state/WatchManager.cpp.
    - TransactionManager: command/execution/TransactionManager.cpp.
    - ReplicaRegistry: replication/ReplicaRegistry.cpp.
    - Command: command/core/Command.hpp, util/CommandUtils.hpp,
      [CommandHandler::parse_command].
    - ServerConfig: state/ServerConfig.hpp.
    - World: the shared state of the store thread, the monad of commands, and
      the callbacks as data; state/BlockingManager.cpp.
    - BasicCommands, ListCommands, StreamCommands, TransactionCommands:
      command/impl/*.cpp and the service loops of state/BlockingManager.cpp.
    - CommandRegistry: command/core/ICommand.hpp, CommandRegistry.hpp and .cpp,
      and the command classes of command/impl/*.hpp.
    - Dispatch: command/execution/TransactionDispatcher.cpp, CommandHandler.cpp.
    - Expiry: the options of SET and the deadline that is stored.
    - WriteEffects: what each write command does to the data, as a function.
    - Invariants, Termination, Transactions, BlockedClients, BlockedReaders,
      Timeouts, ResumedExec, WaitCommand: theorems on the dispatcher, its
      callbacks and its timers.
    - Connection: net/Connection.cpp, net/Server.cpp.
    - Server: the step relation of the whole server.
    - OneReply, Replies: which replies requests get, and their wire format.
    - Network: the pending reads and writes of net/Connection.cpp and
      net/Server.cpp, with their failures, composed with the store thread.
    - Threads: which state the handlers on the network threads touch.
    - OptimisticLocking: a watched key from WATCH to EXEC, through everything
      that happens in between.
    - EndToEnd: one round of a connection, from the bytes it reads to the
      bytes of the reply.
    - Main: the environment and the arguments of main.cpp.
    - Reader: the interface of a loop that reads a byte stream.
    - ReplicationSession: replication/ReplicationSession.cpp as a reader of
      the master's stream, and its acknowledgement timer.
    - Acknowledgements: registry, session, connection and WAIT composed.
    - ReplicaLink: the pending reads and writes of that session, with their
      failures.
    - Logger: util/Logger.hpp.
    - Startup: main.cpp up to its threads, replication/ReplicationManager.cpp.
    - Lifecycle: the threads of main.cpp, the accept loop, and the end of
      [main].
    - Convergence: a master and a replica composed, with the session's own
      command handler.

    Paths are relative to src/ of the repository.

    ** What the theorems show

    - Wire format: serializing and parsing a value is the identity
      ([resp_roundtrip]), the parser always terminates ([parse_terminates]),
      and its answer does not depend on bytes after the value
      ([parse_prefix_stable]).
    - Data: no operation leaves an empty list, and ids of streams stay sorted as
      long as XADD is given numbers between 0 and 2^63 - 1 ([store_invariant],
      [xadd_increasing]; the code does not check this); on such streams XRANGE
      and XREAD select what they should ([xrange_selects], [xread_selects]); every operation is characterised against an abstract view (a string
      with a deadline, a queue, a sequence of entries with increasing ids);
      expiry on access is indistinguishable from eager expiry for callers that
      do not use list and stream methods on expired keys, nor the memory
      estimate while there are any ([lazy_expiry_invisible]), calls on different keys commute
      ([disjoint_calls_commute]), and SET stores the deadline it was asked for
      as long as the arithmetic fits 64 bits ([set_expiry_bounds]).
    - Registries: the pair of maps behind blocked clients and watches simulates
      one ordered queue ([registry_simulates]).
    - Server: [server_invariant] holds in all reachable states; after MULTI the
      commands of a connection are collected in order and have no effect
      ([multi_queues_commands]); EXEC of the ten commands that neither block nor
      wake a blocked client is the sequence of its commands, if that raises no
      exception ([exec_is_sequence]), and EXEC runs nothing if a watched key has
      changed since WATCH, whatever happened in between, with the unannounced
      changes of the code made explicit ([exec_only_if_unchanged]); a push serves blocked clients
      in order ([push_serves_oldest]) and runs the rest of a transaction that
      was blocked on the list, alone and with only those ten commands left
      ([push_resumes_exec]), an XADD answers blocked
      readers ([xadd_serves_readers]), a BLPOP that nobody serves is answered
      at its deadline ([blpop_times_out]); every event comes to an end ([events_return]);
      every request is answered exactly once or its callback is still kept
      ([one_reply_per_request]), unless a transaction holds XRANGE or XREAD, an
      XREAD names a stream twice, a timeout handler runs after its client was
      served or an exception escapes; every reply is a RESP2 value, with two known
      exceptions ([replies_well_typed]); from bytes to bytes, GET returns what
      SET was given until its deadline ([set_get_roundtrip]).
    - Network: a connection has at most one operation under way and is counted
      off once, also when reads and writes fail
      ([one_activity_per_connection], under the same restrictions); the network
      threads stay out of the state of the store thread but for the destructor
      of a connection, which touches its own watches
      ([network_threads_confined]).
    - Start-up: the port is narrowed to 16 bits ([listening_port_bounds]);
      --replicaof reaches the master's address ([replicaof_reaches_master]);
      the process accepts clients for ever ([server_keeps_accepting]), and if
      the network threads could end, [main] would stop the store thread last
      ([shutdown_order]).
    - Replication: a connection becomes a replica by the full handshake only
      ([handshake_required]) and can then change nothing but its own
      acknowledged offset ([replica_link_readonly]); the session of a replica
      completes a full synchronisation however the bytes are cut into reads
      ([session_full_sync]) and then applies what the master sent, with the
      master's offset ([replica_mirrors_master]); its acknowledgements go on until a write of one
      fails ([ack_heartbeat]); failures of its connection lose
      a tail of the stream and nothing else ([link_refines_reader]); WAIT
      answers once, when enough replicas have acknowledged or its time is over
      ([wait_protocol]), and counts exactly the replicas that have received
      what was propagated before it ([wait_counts_received]).  Put together: a replica that starts with the data of
      its master and executes what it is sent has the data of its master
      ([replica_converges]), for requests that set no expiry time, let no
      stream id be generated from the clock, do not use BLPOP and have no XREAD
      or XRANGE inside a transaction, as long as no exception escapes;
      Convergence.v has runs outside this class that diverge.
    - The last properties, and the examples named in the files, describe
      inputs on which the code does something its authors can hardly have
      meant (exceptions that escape, split or pipelined commands dropped, and
      so on).

    ** Fuel and bounds

    The parser's loop gets two units of fuel more than the input has bytes,
    which [parse_terminates] proves to be enough.  The reading loop [drive] gets
    one unit more than the buffer has bytes and phases left; [drive_total]
    proves this enough.  [run], the interpretation of a call through a
    callback, is given a bound on the depth of nested calls; [events_return]
    proves that a sufficient bound exists in every state that satisfies the
    invariant and that the result does not depend on it.  The other theorems
    hold for every bound or say which one suffices.  Integers are [Z] kept in
    the range of their C++ type, with wrap-around, [from_chars] range errors
    and signed overflow ([UB]) written out.  Ids of registrations, the
    replication offset, memory sizes and the number of REPLCONFs of a connection
    ([replconf_count_], an [int]) are unbounded.

    ** Choices

    The clocks are part of the state and stand still during one command.  The
    unspecified order of an [unordered_map] is the order of [map_to_list].
    The text of a C++ exception is libstdc++'s, abbreviated for the [.at()] of
    [StreamStore::xread], which no command can make fail.

    ** Not modelled

    The Asio calls themselves (among them the exception that the synchronous
    write of the parse error may throw), the bytes of a reply that is partly
    written,
    data races between two network threads (completion handlers are atomic
    steps), the destructors that run when [main] returns, log lines other than
    those of the start-up,
    state/ConnectionRole.hpp (unused), and the generated util/Version.hpp, whose
    version string is a parameter.  Name resolution and connecting are
    parameters of Startup.  Memory is unlimited and a buffer is shorter than
    2 GB.  What the map of the sources leaves out are declarations, comments and
    includes of headers whose code is modelled from the .cpp files.  Replicas
    whose keys have deadlines are outside [replica_converges], since the code
    starts a relative expiry again on the replica. *)

From stdpp Require Export base gmap sets list strings fin_maps.
From Stdlib Require Export ZArith Lia Ascii.
#[global] Open Scope Z_scope.

(** ** Byte strings

    A [std::string] is a list of 8-bit characters; [b "PING"] turns a Rocq
    literal into one, and [CRLF] is the RESP line terminator. *)

Abbreviation bytes := (list ascii).

Definition b (s : string) : bytes := String.list_ascii_of_string s.

Definition CR : ascii := ascii_of_nat 13.
Definition LF : ascii := ascii_of_nat 10.
Definition CRLF : bytes := [CR; LF].

(** The size of a container as the integer that [std::format] prints. *)
Definition zlen {A} (l : list A) : Z := Z.of_nat (length l).

(** ** Machine integers *)

Definition INT_MIN : Z := - 2 ^ 31.
Definition INT_MAX : Z := 2 ^ 31 - 1.
Definition LLONG_MIN : Z := - 2 ^ 63.
Definition LLONG_MAX : Z := 2 ^ 63 - 1.
Definition ULLONG_MAX : Z := 2 ^ 64 - 1.

(** [static_cast<unsigned long long>] and [static_cast<long long>]. *)
Definition to_u64 (z : Z) : Z := z mod 2 ^ 64.
Definition to_i64 (z : Z) : Z :=
  let u := z mod 2 ^ 64 in if u <? 2 ^ 63 then u else u - 2 ^ 64.

Definition in_range (lo hi z : Z) : bool := (lo <=? z) && (z <=? hi).
Definition fits_i64 (z : Z) : bool := in_range LLONG_MIN LLONG_MAX z.

(** ** Outcomes

    Code that can raise returns an [outcome]: a value, a C++ exception with
    its [what()] text, undefined behaviour (signed overflow), or the model's
    own exhaustion of recursion fuel, which the termination theorems rule
    out. *)

Inductive exn :=
  | InvalidArgument (what : bytes)
  | OutOfRange (what : bytes)
  | LengthError (what : bytes).

Definition exn_what (e : exn) : bytes :=
  match e with
  | InvalidArgument w | OutOfRange w | LengthError w => w
  end.

Inductive outcome (A : Type) :=
  | Ok (a : A)
  | Throw (e : exn)
  | UB
  | NoFuel.
Arguments Ok {A} a.
Arguments Throw {A} e.
Arguments UB {A}.
Arguments NoFuel {A}.

Definition obind {A B} (m : outcome A) (f : A → outcome B) : outcome B :=
  match m with
  | Ok a => f a
  | Throw e => Throw e
  | UB => UB
  | NoFuel => NoFuel
  end.

(** [std::expected<T, std::string>]. *)
Inductive expected (A : Type) :=
  | Expected (a : A)
  | Unexpected (error : bytes).
Arguments Expected {A} a.
Arguments Unexpected {A} error.

Declare Scope outcome_scope.
Delimit Scope outcome_scope with outcome.
Notation "'let!' x := m 'in' k" := (obind m (λ x, k))
  (at level 10, x pattern, m at level 100, k at level 200)
  : outcome_scope.
#[global] Open Scope outcome_scope.

(** ** Automation

    [redis] holds the lemmas [eauto] may chain; [redis_rw] the rewriting
    rules that normalise lengths and list segments. *)

Create HintDb redis.
Create Rewrite HintDb redis_rw.

(** Case analysis on the innermost scrutinee of the goal or a hypothesis. *)
Ltac split_match :=
  match goal with
  | |- context [match ?x with _ => _ end] =>
      lazymatch x with context [match _ with _ => _ end] => fail | _ => destruct x eqn:? end
  | H : context [match ?x with _ => _ end] |- _ =>
      lazymatch x with context [match _ with _ => _ end] => fail | _ => destruct x eqn:? end
  end.

(** Turn boolean comparisons into propositions and close with [lia]. *)
Ltac bool_prop :=
  repeat match goal with
  | H : (_ && _)%bool = true |- _ => apply andb_prop in H; destruct H
  | H : (_ || _)%bool = false |- _ => apply orb_false_elim in H; destruct H
  | H : negb _ = true |- _ => apply negb_true_iff in H
  | H : negb _ = false |- _ => apply negb_false_iff in H
  | H : (_ <? _) = true |- _ => apply Z.ltb_lt in H
  | H : (_ <? _) = false |- _ => apply Z.ltb_ge in H
  | H : (_ <=? _) = true |- _ => apply Z.leb_le in H
  | H : (_ <=? _) = false |- _ => apply Z.leb_gt in H
  | H : (_ =? _) = true |- _ => apply Z.eqb_eq in H
  | H : (_ =? _) = false |- _ => apply Z.eqb_neq in H
  | H : bool_decide _ = true |- _ => apply bool_decide_eq_true in H
  | H : bool_decide _ = false |- _ => apply bool_decide_eq_false in H
  end.

Ltac blia := unfold zlen in *; bool_prop; lia.

(** Unfold the integer limits before [lia]. *)
Ltac limits := unfold INT_MIN, INT_MAX, LLONG_MIN, LLONG_MAX, ULLONG_MAX in *.

(** ** Shared lemmas *)

Lemma obind_Ok {A B} (m : outcome A) (f : A → outcome B) r :
  obind m f = Ok r ↔ ∃ a, m = Ok a ∧ f a = Ok r.
Proof.
  destruct m; simpl; (split; [|intros (x & Hx & Hf); congruence]); [|discriminate..].
  intros Hr. by exists a.
Qed.

Lemma to_i64_id z : LLONG_MIN ≤ z ≤ LLONG_MAX → to_i64 z = z.
Proof.
  limits. intros H. unfold to_i64.
  destruct (decide (0 ≤ z)).
  - rewrite Z.mod_small by lia. destruct (Z.ltb_spec z (2 ^ 63)); lia.
  - replace z with (z + 2 ^ 64 + (-1) * 2 ^ 64) by lia.
    rewrite Z.mod_add, Z.mod_small by lia.
    destruct (Z.ltb_spec (z + 2 ^ 64) (2 ^ 63)); lia.
Qed.

Lemma to_i64_range z : LLONG_MIN ≤ to_i64 z ≤ LLONG_MAX.
Proof.
  limits. unfold to_i64. pose proof (Z.mod_pos_bound z (2 ^ 64)).
  destruct (Z.ltb_spec (z mod 2 ^ 64) (2 ^ 63)); lia.
Qed.

Lemma to_u64_range z : 0 ≤ to_u64 z ≤ ULLONG_MAX.
Proof. limits. unfold to_u64. pose proof (Z.mod_pos_bound z (2 ^ 64)). lia. Qed.

Lemma zlen_app {A} (l k : list A) : zlen (l ++ k) = zlen l + zlen k.
Proof. unfold zlen. rewrite length_app. lia. Qed.

Lemma zlen_nonneg {A} (l : list A) : 0 ≤ zlen l.
Proof. unfold zlen. lia. Qed.

#[export] Hint Rewrite @zlen_app : redis_rw.
#[export] Hint Resolve zlen_nonneg : redis.

(** *** Filtering *)

Section filter.
Context {A B : Type} (P : A → Prop) `{∀ x, Decision (P x)}.

Lemma filter_all l : Forall P l → filter P l = l.
Proof. induction 1 as [|x l Hx _ IH]; [done|]. by rewrite filter_cons_True, IH. Qed.

Lemma filter_none l : Forall (λ x, ¬ P x) l → filter P l = [].
Proof. induction 1 as [|x l Hx _ IH]; [done|]. by rewrite filter_cons_False. Qed.

Lemma Forall_filter_keep (Q : A → Prop) l : Forall Q l → Forall Q (filter P l).
Proof.
  intros HQ. apply Forall_forall. intros x [_ Hx]%list_elem_of_filter.
  rewrite Forall_forall in HQ. auto.
Qed.

Lemma NoDup_fmap_filter (f : A → B) l : NoDup (f <$> l) → NoDup (f <$> filter P l).
Proof.
  induction l as [|x l IH]; [done|]. rewrite fmap_cons, NoDup_cons. intros [Hx Hl].
  rewrite filter_cons. destruct (decide (P x)); [|auto]. rewrite fmap_cons, NoDup_cons.
  split; [|auto]. intros (y & Hy & [_ Hin]%list_elem_of_filter)%list_elem_of_fmap.
  apply Hx. rewrite Hy. by apply list_elem_of_fmap_2.
Qed.
End filter.

#[export] Hint Resolve Forall_filter_keep NoDup_fmap_filter : redis.

(** *** Sums over finite maps *)

Section map_sum.
Context {K A : Type} `{Countable K} (f : A → nat).
Implicit Types m : gmap K A.

Definition map_sum m : nat := map_fold (λ _ x n, f x + n)%nat O m.

Lemma map_sum_delete i m : map_sum m = (from_option f O (m !! i) + map_sum (delete i m))%nat.
Proof.
  destruct (m !! i) as [x|] eqn:E; simpl; [|by rewrite delete_id].
  unfold map_sum. by rewrite (map_fold_delete_L _ _ i x m) by (done || (intros; lia)).
Qed.

Lemma map_sum_insert i x m : map_sum (<[i := x]> m) = (f x + map_sum (delete i m))%nat.
Proof. by rewrite (map_sum_delete i), lookup_insert_eq, delete_insert_eq. Qed.

Lemma map_sum_le_size m : map_Forall (λ _ x, f x ≤ 1)%nat m → (map_sum m ≤ size m)%nat.
Proof.
  induction m as [|i x m Hi IH] using map_ind; intros Hm; [done|].
  apply map_Forall_insert in Hm as [Hx Hm]; [|done].
  rewrite map_sum_insert, delete_id, map_size_insert_None by done. specialize (IH Hm). lia.
Qed.

Lemma map_bounded m : ∃ n, map_Forall (λ _ x, f x ≤ n)%nat m.
Proof.
  exists (map_sum m). intros i x Hx. rewrite (map_sum_delete i), Hx. simpl. lia.
Qed.

Lemma list_bounded (l : list A) : ∃ n, Forall (λ x, f x ≤ n)%nat l.
Proof.
  induction l as [|x l [n IH]]; [by exists O|]. exists (f x + n)%nat.
  constructor; [lia|]. eapply Forall_impl; [exact IH|]. simpl. lia.
Qed.
End map_sum.
