(* ===== verification/CharConv.v ===== *)
(** * Number/text conversions of the C++ standard library

    What the sources use of [<charconv>], [<string>] and [<cctype>]:
    [std::from_chars], [std::stoull], [std::stoll], [std::to_string] and the
    default formatting of integers by [std::format], [std::tolower] and
    [::toupper] in the "C" locale, together with src/util/StringUtils.hpp.
    [std::stoull] and [std::stoll] keep their documented laxness: leading white
    space, an optional sign (a negative [stoull] wraps modulo 2^64) and
    ignored trailing text.  [std::stod] reads a decimal or hexadecimal number,
    INF or NAN and rounds it exactly to binary64.  The [what()] text is
    libstdc++'s. *)

From Stdlib Require Export Floats.SpecFloat.
From S2P Require Import Prelude.

(** ** Characters *)

Definition code (c : ascii) : Z := Z.of_N (N_of_ascii c).
Definition of_code (z : Z) : ascii := ascii_of_N (Z.to_N z).

Definition is_digit (c : ascii) : bool := (48 <=? code c) && (code c <=? 57).
Definition digit_val (c : ascii) : Z := code c - 48.
Definition digit_char (d : Z) : ascii := of_code (48 + d).

(** [isspace] in the "C" locale: space and [\t \n \v \f \r]. *)
Definition is_space (c : ascii) : bool :=
  (code c =? 32) || ((9 <=? code c) && (code c <=? 13)).

(** [string_utils::to_lower]: only ['A'..'Z'] is shifted by ['a' - 'A']. *)
Definition to_lower (character : ascii) : ascii :=
  if (65 <=? code character) && (code character <=? 90)
  then of_code (code character + (97 - 65))
  else character.

(** [string_utils::lowercase]. *)
Definition lowercase (str : bytes) : bytes := to_lower <$> str.

(** [::toupper] in the "C" locale. *)
Definition to_upper (c : ascii) : ascii :=
  if (97 <=? code c) && (code c <=? 122) then of_code (code c - 32) else c.

Definition uppercase (str : bytes) : bytes := to_upper <$> str.

(** ** Printing integers *)

Fixpoint digits_aux (fuel : nat) (z : Z) (acc : bytes) : bytes :=
  match fuel with
  | O => acc
  | S fuel =>
      let acc := digit_char (z mod 10) :: acc in
      if z <? 10 then acc else digits_aux fuel (z / 10) acc
  end.

(** The decimal digits of [z >= 0]; the binary logarithm bounds their number. *)
Definition digits (z : Z) : bytes := digits_aux (S (Z.to_nat (Z.log2 z))) z [].

(** [std::to_string] and [std::format("{}", z)]. *)
Definition to_string (z : Z) : bytes :=
  if z <? 0 then "-"%char :: digits (- z) else digits z.

(** ** Reading integers *)

Fixpoint span_digits (s : bytes) : bytes * bytes :=
  match s with
  | c :: s' => if is_digit c then let '(ds, r) := span_digits s' in (c :: ds, r) else ([], s)
  | [] => ([], [])
  end.

Definition digits_value (ds : bytes) : Z :=
  fold_left (λ acc c, 10 * acc + digit_val c) ds 0.

(** [std::from_chars] in base 10: an optional minus sign (signed targets
    only), then digits.  [FcOk v rest] is [ec == errc{}] with [ptr] at [rest]. *)
Inductive from_chars_result :=
  | FcOk (value : Z) (rest : bytes)
  | FcInvalid
  | FcRange (rest : bytes).

Definition from_chars (signed : bool) (lo hi : Z) (s : bytes) : from_chars_result :=
  let '(neg, body) :=
    match s with
    | c :: s' => if signed && bool_decide (c = "-"%char) then (true, s') else (false, s)
    | [] => (false, s)
    end in
  let '(ds, rest) := span_digits body in
  match ds with
  | [] => FcInvalid
  | _ =>
      let v := if neg : bool then - digits_value ds else digits_value ds in
      if in_range lo hi v then FcOk v rest else FcRange rest
  end.

Definition from_chars_int := from_chars true INT_MIN INT_MAX.
Definition from_chars_llong := from_chars true LLONG_MIN LLONG_MAX.
Definition from_chars_size := from_chars false 0 ULLONG_MAX.

Fixpoint skip_space (s : bytes) : bytes :=
  match s with
  | c :: s' => if is_space c then skip_space s' else s
  | [] => []
  end.

(** The sign/digits scan that [strtoull] and [strtoll] share. *)
Definition scan_number (s : bytes) : bool * bytes :=
  match skip_space s with
  | c :: s' =>
      if bool_decide (c = "-"%char) then (true, fst (span_digits s'))
      else if bool_decide (c = "+"%char) then (false, fst (span_digits s'))
      else (false, fst (span_digits (c :: s')))
  | [] => (false, [])
  end.

Definition stoull (s : bytes) : outcome Z :=
  let '(neg, ds) := scan_number s in
  match ds with
  | [] => Throw (InvalidArgument (b "stoull"))
  | _ =>
      let v := digits_value ds in
      if v <=? ULLONG_MAX then Ok (to_u64 (if neg : bool then - v else v))
      else Throw (OutOfRange (b "stoull"))
  end.

Definition stoll (s : bytes) : outcome Z :=
  let '(neg, ds) := scan_number s in
  match ds with
  | [] => Throw (InvalidArgument (b "stoll"))
  | _ =>
      let v := if neg : bool then - digits_value ds else digits_value ds in
      if fits_i64 v then Ok v else Throw (OutOfRange (b "stoll"))
  end.

(** ** Reading floating-point numbers

    [std::stod] in the "C" locale: decimal and hexadecimal texts, infinities
    and NaN, rounded to the nearest binary64 number; [ERANGE] on overflow and
    when a result below the normal range is inexact. *)
Abbreviation double := spec_float.

Definition PREC : Z := 53.
Definition EMAX : Z := 1024.

(** The nearest double to [num / den]: 64 quotient bits and a sticky bit. *)
Definition double_of_ratio (neg : bool) (num den : Z) : double :=
  let k := Z.max 0 (64 + Z.log2 den - Z.log2 num) in
  let '(q, r) := Z.div_eucl (num * 2 ^ k) den in
  match 2 * q + (if r =? 0 then 0 else 1) with
  | Zpos m => binary_round PREC EMAX neg m (- (k + 1))
  | _ => S754_zero neg
  end.

(** [ERANGE] of [strtod] for the nonzero text [num / den] rounded to [d]. *)
Definition double_erange (d : double) (num den : Z) : bool :=
  match d with
  | S754_finite _ m e =>
      (Zpos m <? 2 ^ 52) && (e =? -1074) && negb (Zpos m * den =? num * 2 ^ 1074)
  | S754_zero _ | S754_infinity _ => true
  | S754_nan => false
  end.

Definition starts_with_ci (prefix s : bytes) : bool :=
  bool_decide (lowercase (take (length prefix) s) = prefix).

Definition hex_val (c : ascii) : option Z :=
  if is_digit c then Some (digit_val c)
  else if (97 <=? code (to_lower c)) && (code (to_lower c) <=? 102) then Some (code (to_lower c) - 87)
  else None.

(** The longest run of digits accepted by [val], as their values. *)
Fixpoint span_val (val : ascii → option Z) (s : bytes) : list Z * bytes :=
  match s with
  | c :: s' =>
      match val c with
      | Some d => let '(ds, r) := span_val val s' in (d :: ds, r)
      | None => ([], s)
      end
  | [] => ([], [])
  end.

Definition dec_val (c : ascii) : option Z := if is_digit c then Some (digit_val c) else None.

(** [digits [. digits]]. *)
Definition scan_mantissa (val : ascii → option Z) (s : bytes) : list Z * list Z * bytes :=
  let '(int_part, rest) := span_val val s in
  match rest with
  | c :: rest' =>
      if bool_decide (c = "."%char)
      then let '(frac_part, rest) := span_val val rest' in (int_part, frac_part, rest)
      else (int_part, [], rest)
  | [] => (int_part, [], rest)
  end.

Definition value_in_base (base : Z) (ds : list Z) : Z := fold_left (λ acc d, base * acc + d) ds 0.

(** An exponent part [e[+-]digits]; without digits it counts for nothing. *)
Definition scan_exponent (marker : ascii) (s : bytes) : Z :=
  match s with
  | c :: s' =>
      if bool_decide (to_lower c = marker) then
        let '(neg, ds) :=
          match s' with
          | x :: s'' =>
              if bool_decide (x = "-"%char) then (true, fst (span_digits s''))
              else if bool_decide (x = "+"%char) then (false, fst (span_digits s''))
              else (false, fst (span_digits s'))
          | [] => (false, [])
          end in
        if neg : bool then - digits_value ds else digits_value ds
      else 0
  | [] => 0
  end.

(** [mantissa * base ^ exponent], or [std::out_of_range]. *)
Definition stod_finite (neg : bool) (mantissa base exponent : Z) : outcome double :=
  if mantissa =? 0 then Ok (S754_zero neg)
  else
    let num := if 0 <=? exponent then mantissa * base ^ exponent else mantissa in
    let den := if 0 <=? exponent then 1 else base ^ (- exponent) in
    let d := double_of_ratio neg num den in
    if double_erange d num den then Throw (OutOfRange (b "stod")) else Ok d.

Definition stod (s : bytes) : outcome double :=
  let '(neg, s) :=
    match skip_space s with
    | c :: s' =>
        if bool_decide (c = "-"%char) then (true, s')
        else if bool_decide (c = "+"%char) then (false, s')
        else (false, c :: s')
    | [] => (false, [])
    end in
  if starts_with_ci (b "inf") s then Ok (S754_infinity neg)
  else if starts_with_ci (b "nan") s then Ok S754_nan
  else
    let '(hex_int, hex_frac, hex_rest) := scan_mantissa hex_val (drop 2 s) in
    if starts_with_ci (b "0x") s && negb (bool_decide (hex_int ++ hex_frac = [])) then
      stod_finite neg (value_in_base 16 (hex_int ++ hex_frac)) 2
        (scan_exponent "p"%char hex_rest - 4 * zlen hex_frac)
    else
      let '(int_part, frac_part, rest) := scan_mantissa dec_val s in
      if bool_decide (int_part ++ frac_part = []) then Throw (InvalidArgument (b "stod"))
      else stod_finite neg (value_in_base 10 (int_part ++ frac_part)) 10
             (scan_exponent "e"%char rest - zlen frac_part).

(** [timeout > 0]. *)
Definition positive (d : double) : bool := SFltb (S754_zero false) d.

(** [static_cast<long long>(d)]: toward zero, undefined when it does not fit. *)
Definition truncate (d : double) : outcome Z :=
  match d with
  | S754_zero _ => Ok 0
  | S754_finite s m e =>
      let a := if 0 <=? e then Zpos m * 2 ^ e else Zpos m / 2 ^ (- e) in
      let z := if s then - a else a in
      if fits_i64 z then Ok z else UB
  | _ => UB
  end.

(** [duration_cast<nanoseconds>(duration<double>(d))]: the count is multiplied
    as a double, then truncated. *)
Definition seconds_to_ns (d : double) : outcome Z :=
  truncate (SFmul PREC EMAX d (double_of_ratio false 1000000000 1)).

(** [str.find(c)]: the text before and after the first occurrence of [c]. *)
Fixpoint split_at (c : ascii) (s : bytes) : option (bytes * bytes) :=
  match s with
  | [] => None
  | x :: s' =>
      if decide (x = c) then Some ([], s')
      else match split_at c s' with
           | Some (before, after) => Some (x :: before, after)
           | None => None
           end
  end.

(** ** Lemmas *)

Lemma code_range c : 0 ≤ code c < 256.
Proof.
  unfold code. pose proof (nat_ascii_bounded c) as H. unfold nat_of_ascii in H. lia.
Qed.

Lemma code_of_code z : 0 ≤ z < 256 → code (of_code z) = z.
Proof. intros H. unfold code, of_code. rewrite N_ascii_embedding; lia. Qed.

Lemma of_code_code c : of_code (code c) = c.
Proof. unfold code, of_code. rewrite N2Z.id. apply ascii_N_embedding. Qed.

Lemma digit_char_spec d : 0 ≤ d < 10 → is_digit (digit_char d) = true ∧ digit_val (digit_char d) = d.
Proof.
  intros H. unfold is_digit, digit_val, digit_char. rewrite code_of_code by lia.
  split; [|lia]. apply andb_true_intro. split; apply Z.leb_le; lia.
Qed.

Lemma digits_value_snoc ds c : digits_value (ds ++ [c]) = 10 * digits_value ds + digit_val c.
Proof. unfold digits_value. by rewrite fold_left_app. Qed.

Lemma digits_aux_app fuel z acc : digits_aux fuel z acc = digits_aux fuel z [] ++ acc.
Proof.
  revert z acc. induction fuel as [|fuel IH]; intros z acc; simpl; [done|].
  destruct (z <? 10); [done|].
  rewrite IH, (IH _ [_]), <- app_assoc. done.
Qed.

Lemma digits_aux_spec fuel z :
  0 ≤ z < 2 ^ Z.of_nat fuel →
  let ds := digits_aux fuel z [] in
  digits_value ds = z ∧ Forall (λ c, is_digit c = true) ds ∧ ((0 < fuel)%nat → ds ≠ []).
Proof.
  revert z. induction fuel as [|fuel IH]; intros z Hz.
  { simpl in *. assert (z = 0) as -> by lia. repeat constructor. lia. }
  pose proof (Z.mod_pos_bound z 10). pose proof (Z.div_mod z 10).
  pose proof (digit_char_spec (z mod 10) ltac:(lia)) as [Hd Hv].
  cbn [digits_aux]. destruct (Z.ltb_spec z 10) as [Hlt|Hge].
  - unfold digits_value. simpl. rewrite Hv.
    split; [rewrite Z.mod_small by lia; lia|]. split; [by repeat constructor|done].
  - rewrite digits_aux_app. rewrite Nat2Z.inj_succ, Z.pow_succ_r in Hz by lia.
    destruct (IH (z / 10)) as (IHv & IHd & _).
    { split; [apply Z.div_pos; lia|]. apply Z.div_lt_upper_bound; lia. }
    split; [rewrite digits_value_snoc, IHv, Hv; lia|].
    split; [apply Forall_app; by repeat constructor|].
    intros _. by destruct (digits_aux fuel (z / 10) []).
Qed.

Lemma digits_spec z :
  0 ≤ z → digits_value (digits z) = z ∧ Forall (λ c, is_digit c = true) (digits z) ∧ digits z ≠ [].
Proof.
  intros Hz. unfold digits.
  destruct (digits_aux_spec (S (Z.to_nat (Z.log2 z))) z) as (? & ? & ?); [|auto with lia].
  split; [done|]. rewrite Nat2Z.inj_succ, Z2Nat.id by apply Z.log2_nonneg.
  destruct (decide (z = 0)) as [->|]; [by simpl|]. apply Z.log2_spec. lia.
Qed.

Lemma span_digits_app ds r :
  Forall (λ c, is_digit c = true) ds →
  (∀ c r', r = c :: r' → is_digit c = false) →
  span_digits (ds ++ r) = (ds, r).
Proof.
  intros Hds Hr. induction Hds as [|c ds Hc Hds IH]; simpl.
  - destruct r as [|c r]; simpl; [done|]. by rewrite (Hr c r).
  - by rewrite Hc, IH.
Qed.

(** The texts [r] that end a number: empty, or starting with a non-digit. *)
Definition ends_number (r : bytes) : Prop := ∀ c r', r = c :: r' → is_digit c = false.

Lemma ends_number_nil : ends_number [].
Proof. intros ?? [=]. Qed.

Lemma ends_number_cons c r : is_digit c = false → ends_number (c :: r).
Proof. by intros ? ?? [= <- <-]. Qed.

#[export] Hint Resolve ends_number_nil ends_number_cons : redis.

Lemma digits_head z : 0 ≤ z → ∃ c ds, digits z = c :: ds ∧ is_digit c = true.
Proof.
  intros Hz. destruct (digits_spec z Hz) as (_ & Hall & Hne).
  destruct (digits z) as [|c ds]; [done|]. inversion Hall; subst. eauto.
Qed.

Lemma is_digit_not_space c : is_digit c = true → is_space c = false.
Proof.
  unfold is_digit, is_space. intros H. bool_prop.
  apply orb_false_intro; [apply Z.eqb_neq; lia|].
  apply andb_false_iff. right. apply Z.leb_gt. lia.
Qed.

Lemma skip_space_digits z r : 0 ≤ z → skip_space (digits z ++ r) = digits z ++ r.
Proof.
  intros Hz. destruct (digits_head z Hz) as (c & ds & -> & Hc). simpl.
  by rewrite is_digit_not_space.
Qed.

Lemma digit_neq c d : is_digit c = true → is_digit d = false → bool_decide (c = d) = false.
Proof. intros. apply bool_decide_eq_false. congruence. Qed.

Lemma from_chars_digits signed lo hi z r :
  0 ≤ z → ends_number r → in_range lo hi z = true →
  from_chars signed lo hi (digits z ++ r) = FcOk z r.
Proof.
  intros Hz Hr Hin. destruct (digits_spec z Hz) as (Hv & Hall & Hne).
  destruct (digits_head z Hz) as (c & ds & Hd & Hc).
  unfold from_chars. rewrite Hd in *. cbn [app].
  rewrite (digit_neq c) by done. rewrite andb_false_r.
  rewrite app_comm_cons, span_digits_app by done. by rewrite Hv, Hin.
Qed.

(** [from_chars] reads back what [to_string] printed. *)
Lemma from_chars_to_string lo hi z r :
  ends_number r → in_range lo hi z = true →
  from_chars true lo hi (to_string z ++ r) = FcOk z r.
Proof.
  intros Hr Hin. unfold to_string. destruct (Z.ltb_spec z 0).
  - destruct (digits_spec (- z)) as (Hv & Hall & Hne); [lia|].
    unfold from_chars. cbn [app]. rewrite bool_decide_true by done. simpl andb. cbv iota beta.
    rewrite span_digits_app by done. rewrite Hv, Z.opp_involutive, Hin.
    by destruct (digits (- z)).
  - by apply from_chars_digits.
Qed.

Lemma scan_number_digits z r :
  0 ≤ z → ends_number r → scan_number (digits z ++ r) = (false, digits z).
Proof.
  intros Hz Hr. unfold scan_number. rewrite skip_space_digits by done.
  destruct (digits_spec z Hz) as (_ & Hall & _).
  destruct (digits_head z Hz) as (c & ds & Hd & Hc). rewrite Hd in *.
  cbn [app]. rewrite !(digit_neq c) by done.
  by rewrite app_comm_cons, span_digits_app by done.
Qed.

Lemma stoull_digits z r :
  0 ≤ z ≤ ULLONG_MAX → ends_number r → stoull (digits z ++ r) = Ok z.
Proof.
  intros Hz Hr. unfold stoull. rewrite scan_number_digits by (lia || done).
  destruct (digits_spec z) as (Hv & _ & Hne); [lia|].
  destruct (digits z) eqn:E; [done|]. rewrite Hv.
  destruct (Z.leb_spec z ULLONG_MAX); [|lia].
  unfold to_u64. rewrite Z.mod_small; [done|]. limits. lia.
Qed.

Lemma to_string_nonneg z : 0 ≤ z → to_string z = digits z.
Proof. intros. unfold to_string. destruct (Z.ltb_spec z 0); [lia|done]. Qed.

Lemma stoull_range s v : stoull s = Ok v → 0 ≤ v ≤ ULLONG_MAX.
Proof.
  unfold stoull. destruct (scan_number s) as [neg [|c ds]]; [done|].
  destruct (_ <=? _); [|done]. intros [= <-]. apply to_u64_range.
Qed.

Lemma split_at_app c s r : c ∉ s → split_at c (s ++ c :: r) = Some (s, r).
Proof.
  induction s as [|x s IH]; intros Hc; simpl.
  - by rewrite decide_True.
  - apply not_elem_of_cons in Hc as [Hx Hs].
    rewrite decide_False by congruence. by rewrite IH.
Qed.

Lemma digits_no_char c z : 0 ≤ z → is_digit c = false → c ∉ digits z.
Proof.
  intros Hz Hc Hin. destruct (digits_spec z Hz) as (_ & Hall & _).
  rewrite Forall_forall in Hall. apply Hall in Hin. congruence.
Qed.

(** [lowercase] only depends on the case-folded text, and is idempotent. *)
Lemma to_lower_idem c : to_lower (to_lower c) = to_lower c.
Proof.
  unfold to_lower at 2 3. destruct (_ && _) eqn:E; [|unfold to_lower; by rewrite E].
  bool_prop. unfold to_lower. rewrite code_of_code by lia.
  destruct (Z.leb_spec (code c + (97 - 65)) 90); [lia|]. by rewrite andb_false_r.
Qed.

Lemma lowercase_idem s : lowercase (lowercase s) = lowercase s.
Proof. induction s as [|c s IH]; simpl; [done|]. by rewrite to_lower_idem, IH. Qed.
