(* ===== verification/Resp.v ===== *)
(** * RESP2: values, parser and serializer

    Models src/resp/RespValue.hpp and src/resp/RespParser.cpp.  The parser
    keeps the code's shape: an explicit stack of [ArrayFrame]s (the vector's
    back is the list's head), a position in the input, and a loop.  The loop
    runs on fuel, one unit per iteration; [parse] gives it two more than the
    input has bytes, and [parse_terminates] shows that this is enough. *)

From S2P Require Import Prelude CharConv.

(** ** Values *)

Inductive RespType := SimpleString | Integer | BulkString | Array | Null.

#[warnings="-register-all"]
Inductive RespValue := mkResp {
  type : RespType;
  str : bytes;
  elements : list RespValue;
}.

#[export] Instance RespType_eq_dec : EqDecision RespType.
Proof. solve_decision. Defined.

(** ** Parser *)

Record ArrayFrame := mkFrame {
  frame_value : RespValue;
  remaining : Z;
}.

(** [input.find("\r\n", pos)], relative to [pos]. *)
Fixpoint find_crlf (s : bytes) : option nat :=
  match s with
  | c :: s' =>
      if bool_decide (take 2 s = CRLF) then Some O
      else match find_crlf s' with Some n => Some (S n) | None => None end
  | [] => None
  end.

(** [input.substr(pos, count)]. *)
Definition substr (input : bytes) (pos count : nat) : bytes := take count (drop pos input).

Definition read_line (input : bytes) (pos : nat) : option (bytes * nat) :=
  match find_crlf (drop pos input) with
  | None => None
  | Some n => Some (substr input pos n, (pos + n + 2)%nat)
  end.

Definition parse_int (line : bytes) : option Z :=
  match from_chars_int line with
  | FcOk out _ => Some out
  | _ => None
  end.

Definition push_element (f : ArrayFrame) (v : RespValue) : ArrayFrame :=
  mkFrame (mkResp (type (frame_value f)) (str (frame_value f)) (elements (frame_value f) ++ [v]))
          (remaining f - 1).

(** [false] is [Ok None]; [reserve] of a negative count, converted to
    [std::size_t], exceeds [max_size()] and throws. *)
Definition handle_array_header (input : bytes) (pos : nat) (stack : list ArrayFrame)
    : outcome (option (nat * list ArrayFrame * option RespValue)) :=
  match read_line input pos with
  | None => Ok None
  | Some (line, pos) =>
      match parse_int line with
      | None => Ok None
      | Some count =>
          if count =? -1 then Ok (Some (pos, stack, Some (mkResp Null [] [])))
          else if count =? 0 then Ok (Some (pos, stack, Some (mkResp Array [] [])))
          else if count <? 0 then Throw (LengthError (b "vector::reserve"))
          else Ok (Some (pos, mkFrame (mkResp Array [] []) count :: stack, None))
      end
  end.

(** The [while] loop of [process_stack]: [top] is [stack.back()]. *)
Fixpoint close_frames (top : ArrayFrame) (stack : list ArrayFrame)
    : list ArrayFrame * option RespValue :=
  if remaining top =? 0 then
    match stack with
    | [] => ([], Some (frame_value top))
    | f :: stack' => close_frames (push_element f (frame_value top)) stack'
    end
  else (top :: stack, None).

(** Only called with a non-empty stack. *)
Definition process_stack (stack : list ArrayFrame) (value : RespValue)
    : list ArrayFrame * option RespValue :=
  match stack with
  | [] => ([], None)
  | f :: stack' => close_frames (push_element f value) stack'
  end.

Definition parse_simple_string (input : bytes) (pos : nat) : option (RespValue * nat) :=
  match read_line input pos with
  | None => None
  | Some (line, pos) => Some (mkResp SimpleString line [], pos)
  end.

Definition parse_integer (input : bytes) (pos : nat) : option (RespValue * nat) :=
  match read_line input pos with
  | None => None
  | Some (line, pos) => Some (mkResp Integer line [], pos)
  end.

Definition parse_bulk_string (input : bytes) (pos : nat) : option (RespValue * nat) :=
  match read_line input pos with
  | None => None
  | Some (line, pos) =>
      match parse_int line with
      | None => None
      | Some len =>
          if len <? 0 then Some (mkResp Null [] [], pos)
          else if zlen input <? Z.of_nat pos + len + 2 then None
          else Some (mkResp BulkString (substr input pos (Z.to_nat len)) [],
                     (pos + Z.to_nat len + 2)%nat)
      end
  end.

Fixpoint parse_loop (fuel : nat) (input : bytes) (pos : nat) (stack : list ArrayFrame)
    (current_value : option RespValue) : outcome (option (RespValue * nat)) :=
  match fuel with
  | O => NoFuel
  | S fuel =>
      let finish pos v :=
        match stack with
        | [] => Ok (Some (v, pos))
        | _ :: _ =>
            let '(stack', current') := process_stack stack v in
            parse_loop fuel input pos stack' current'
        end in
      let scalar r :=
        match r with
        | None => Ok None
        | Some (v, pos) => finish pos v
        end in
      if bool_decide (pos < length input)%nat || negb (bool_decide (stack = [])) then
        match current_value with
        | Some v => finish pos v
        | None =>
            match input !! pos with
            | None => Ok None
            | Some type =>
                let pos := S pos in
                if bool_decide (type = "*"%char) then
                  let! header := handle_array_header input pos stack in
                  match header with
                  | None => Ok None
                  | Some (pos, stack, None) => parse_loop fuel input pos stack None
                  | Some (pos, _, Some v) => finish pos v
                  end
                else if bool_decide (type = ":"%char) then scalar (parse_integer input pos)
                else if bool_decide (type = "$"%char) then scalar (parse_bulk_string input pos)
                else if bool_decide (type = "+"%char) then scalar (parse_simple_string input pos)
                else Ok None
            end
        end
      else Ok (match current_value with Some v => Some (v, pos) | None => None end)
  end.

(** [RespParser::parse(input, consumed)]. *)
Definition parse (input : bytes) : outcome (option (RespValue * nat)) :=
  match input with
  | [] => Ok None
  | _ => parse_loop (length input + 2) input 0 [] None
  end.

(** ** Serializer *)

Definition bulk (s : bytes) : bytes := "$"%char :: to_string (zlen s) ++ CRLF ++ s ++ CRLF.

Definition array_header (n : Z) : bytes := "*"%char :: to_string n ++ CRLF.

Fixpoint serialize (value : RespValue) : bytes :=
  match type value with
  | SimpleString => "+"%char :: str value ++ CRLF
  | Integer => ":"%char :: str value ++ CRLF
  | BulkString => bulk (str value)
  | Null => "$"%char :: b "-1" ++ CRLF
  | Array => array_header (zlen (elements value)) ++ concat (map serialize (elements value))
  end.

(** ** Well-formed values

    What the serializer is meant to be given: lines without a line break, and
    sizes that the parser's [int] counts can hold. *)

Definition no_crlf (s : bytes) : bool := bool_decide (find_crlf s = None).

Definition is_nil {A} (l : list A) : bool := match l with [] => true | _ => false end.

Fixpoint wf_resp (v : RespValue) : bool :=
  match type v with
  | SimpleString | Integer => no_crlf (str v) && is_nil (elements v)
  | BulkString => (zlen (str v) <=? INT_MAX) && is_nil (elements v)
  | Null => is_nil (str v) && is_nil (elements v)
  | Array => is_nil (str v) && (zlen (elements v) <=? INT_MAX) && forallb wf_resp (elements v)
  end.

(** Loop iterations a value takes. *)
Fixpoint nodes (v : RespValue) : nat := S (sum_list_with nodes (elements v)).

Section RespValue_ind.
Variable P : RespValue → Prop.
Hypothesis step : ∀ ty s es, Forall P es → P (mkResp ty s es).

Fixpoint RespValue_ind' (v : RespValue) : P v :=
  match v with
  | mkResp ty s es =>
      step ty s es
        ((fix go (es : list RespValue) : Forall P es :=
            match es with
            | [] => List.Forall_nil P
            | e :: es => List.Forall_cons P e es (RespValue_ind' e) (go es)
            end) es)
  end.
End RespValue_ind.

(** ** Lines *)

Lemma find_crlf_bound s n : find_crlf s = Some n → (n + 2 ≤ length s)%nat.
Proof.
  revert n. induction s as [|c s IH]; intros n; [done|]. cbn [find_crlf].
  case_bool_decide as E.
  - intros [= <-]. destruct s; simpl in *; [done|lia].
  - destruct (find_crlf s) as [m|]; [|done]. intros [= <-]. simpl.
    specialize (IH m eq_refl). lia.
Qed.

Lemma find_crlf_app s t n : find_crlf s = Some n → find_crlf (s ++ t) = Some n.
Proof.
  revert n. induction s as [|c s IH]; intros n; [done|]. cbn [find_crlf app].
  destruct s as [|d s]; [by case_bool_decide|]. simpl take. rewrite !take_0.
  case_bool_decide; [done|].
  destruct (find_crlf (d :: s)) as [m|] eqn:E; [|done]. intros [= <-].
  by rewrite (IH m eq_refl).
Qed.

Lemma find_crlf_line s r : find_crlf s = None → find_crlf (s ++ CRLF ++ r) = Some (length s).
Proof.
  induction s as [|c s IH]; [done|]. cbn [find_crlf app length].
  destruct s as [|d s]; simpl take in *; rewrite ?take_0.
  - intros _. by rewrite bool_decide_eq_false_2 by (intros [=]; congruence).
  - case_bool_decide; [done|].
    destruct (find_crlf (d :: s)) eqn:E; [done|]. intros _. by rewrite IH.
Qed.

Lemma no_crlf_digits z : 0 ≤ z → find_crlf (digits z) = None.
Proof.
  intros Hz. destruct (digits_spec z Hz) as (_ & Hall & _).
  induction Hall as [|c ds Hc Hall IH]; [done|]. cbn [find_crlf]. rewrite IH.
  rewrite bool_decide_eq_false_2; [done|]. intros [= -> _]. done.
Qed.

Lemma read_line_bound input pos line pos' :
  read_line input pos = Some (line, pos') → (pos + 2 ≤ pos' ≤ length input)%nat.
Proof.
  unfold read_line. destruct (find_crlf _) as [n|] eqn:E; [|done]. intros [= <- <-].
  apply find_crlf_bound in E. rewrite length_drop in E. lia.
Qed.

Lemma read_line_app s t pos r : read_line s pos = Some r → read_line (s ++ t) pos = Some r.
Proof.
  unfold read_line. destruct (find_crlf (drop pos s)) as [n|] eqn:E; [|done].
  pose proof (find_crlf_bound _ _ E) as Hb. rewrite length_drop in Hb.
  rewrite drop_app_le, (find_crlf_app _ t _ E) by lia. intros <-.
  unfold substr. rewrite drop_app_le, take_app_le; [done|rewrite length_drop|]; lia.
Qed.

Lemma read_line_at input pos line r :
  drop pos input = line ++ CRLF ++ r → find_crlf line = None →
  read_line input pos = Some (line, (pos + length line + 2)%nat) ∧
  drop (pos + length line + 2) input = r.
Proof.
  intros Hd Hl. unfold read_line, substr. rewrite Hd, find_crlf_line by done.
  rewrite take_app_length. split; [done|].
  rewrite <- Nat.add_assoc, <- drop_drop, Hd, drop_app_add. done.
Qed.

Lemma parse_int_to_string z : INT_MIN ≤ z ≤ INT_MAX → parse_int (to_string z) = Some z.
Proof.
  intros Hz. unfold parse_int, from_chars_int.
  rewrite <- (app_nil_r (to_string z)), from_chars_to_string; auto with redis.
  apply andb_true_intro. split; apply Z.leb_le; lia.
Qed.

(** ** One iteration of the loop *)

(** What the loop does once a value is complete. *)
Definition after_value (n : nat) (input : bytes) (pos : nat) (stack : list ArrayFrame)
    (v : RespValue) : outcome (option (RespValue * nat)) :=
  match stack with
  | [] => Ok (Some (v, pos))
  | _ :: _ =>
      let '(stack', current') := process_stack stack v in
      parse_loop n input pos stack' current'
  end.

Definition after_scalar n input stack (r : option (RespValue * nat)) :=
  match r with
  | None => Ok None
  | Some (v, pos) => after_value n input pos stack v
  end.

(** What the loop does with the type character [c] at [pos - 1]. *)
Definition parse_char n input pos stack (c : ascii) :=
  if bool_decide (c = "*"%char) then
    let! header := handle_array_header input pos stack in
    match header with
    | None => Ok None
    | Some (pos, stack, None) => parse_loop n input pos stack None
    | Some (pos, _, Some v) => after_value n input pos stack v
    end
  else if bool_decide (c = ":"%char) then after_scalar n input stack (parse_integer input pos)
  else if bool_decide (c = "$"%char) then after_scalar n input stack (parse_bulk_string input pos)
  else if bool_decide (c = "+"%char) then after_scalar n input stack (parse_simple_string input pos)
  else Ok None.

Lemma parse_loop_Some n input pos stack v :
  parse_loop (S n) input pos stack (Some v) = after_value n input pos stack v.
Proof.
  cbn [parse_loop]. destruct stack; [|by rewrite orb_true_r].
  simpl. by destruct (_ || _).
Qed.

Lemma parse_loop_None n input pos stack :
  parse_loop (S n) input pos stack None =
  match input !! pos with
  | None => Ok None
  | Some c => parse_char n input (S pos) stack c
  end.
Proof.
  cbn [parse_loop]. destruct (input !! pos) as [c|] eqn:E.
  - rewrite bool_decide_eq_true_2 by (by eapply lookup_lt_Some).
    unfold parse_char, after_scalar, after_value. simpl orb. cbv iota.
    destruct (handle_array_header _ _ _) as [[[[? ?] [?|]]|]|?| |]; reflexivity.
  - by destruct (_ || _).
Qed.

Lemma parse_loop_at n input pos stack c r :
  drop pos input = c :: r →
  parse_loop (S n) input pos stack None = parse_char n input (S pos) stack c ∧
  drop (S pos) input = r.
Proof.
  intros Hd. rewrite parse_loop_None.
  replace (input !! pos) with (Some c).
  2:{ rewrite <- (Nat.add_0_r pos), <- lookup_drop, Hd. done. }
  split; [done|]. rewrite <- Nat.add_1_r, <- drop_drop, Hd. done.
Qed.

(** ** Reading back what the serializer wrote *)

Lemma length_CRLF : length CRLF = 2%nat.
Proof. done. Qed.

Lemma to_string_len_line n : 0 ≤ n → find_crlf (to_string n) = None.
Proof. intros. rewrite to_string_nonneg by done. by apply no_crlf_digits. Qed.

Lemma parse_bulk_at input pos s r :
  zlen s ≤ INT_MAX →
  drop pos input = to_string (zlen s) ++ CRLF ++ s ++ CRLF ++ r →
  parse_bulk_string input pos =
    Some (mkResp BulkString s [], (pos + (length (bulk s) - 1))%nat) ∧
  drop (pos + (length (bulk s) - 1)) input = r.
Proof.
  intros Hs Hd. unfold parse_bulk_string.
  destruct (read_line_at _ _ _ _ Hd) as [-> Hd']; [by apply to_string_len_line, zlen_nonneg|].
  rewrite parse_int_to_string by (limits; pose proof (zlen_nonneg s); lia).
  set (pos' := (pos + _ + 2)%nat) in *.
  destruct (Z.ltb_spec (zlen s) 0); [pose proof (zlen_nonneg s); lia|].
  assert (length input = pos' + length s + 2 + length r)%nat as Hlen.
  { pose proof (f_equal length Hd') as Hl.
    rewrite length_drop, !length_app, length_CRLF in Hl. lia. }
  destruct (Z.ltb_spec (zlen input) (Z.of_nat pos' + zlen s + 2)); [unfold zlen in *; lia|].
  assert (pos + (length (bulk s) - 1) = pos' + length s + 2)%nat as ->.
  { unfold bulk, pos'. cbn [length]. rewrite !length_app, length_CRLF. lia. }
  unfold zlen. rewrite Nat2Z.id. unfold substr. rewrite Hd', take_app_length.
  split; [done|]. rewrite <- Nat.add_assoc, <- drop_drop, Hd', drop_app_add. done.
Qed.

Lemma parse_null_at input pos r :
  drop pos input = b "-1" ++ CRLF ++ r →
  parse_bulk_string input pos = Some (mkResp Null [] [], (pos + 4)%nat) ∧
  drop (pos + 4) input = r.
Proof.
  intros Hd. unfold parse_bulk_string.
  destruct (read_line_at _ _ _ _ Hd) as [-> Hd']; [done|].
  replace (pos + 4)%nat with (pos + length (b "-1") + 2)%nat by (simpl; lia).
  by replace (parse_int (b "-1")) with (Some (-1)) by done.
Qed.

Lemma length_line_cons c line : length (c :: line ++ CRLF) = S (length line + 2).
Proof. simpl. by rewrite length_app. Qed.

(** The frame that closes an array hands the array to the frame below. *)
Lemma process_stack_close f stack v vs :
  remaining f = 1 → frame_value f = mkResp Array [] vs →
  process_stack (f :: stack) v =
    match stack with
    | [] => ([], Some (mkResp Array [] (vs ++ [v])))
    | _ => process_stack stack (mkResp Array [] (vs ++ [v]))
    end.
Proof.
  intros Hr Hf. destruct f as [fv rem]; simpl in *. subst.
  by destruct stack as [|[]].
Qed.

Lemma process_stack_open f stack v vs k :
  0 < k → remaining f = k + 1 → frame_value f = mkResp Array [] vs →
  process_stack (f :: stack) v = (mkFrame (mkResp Array [] (vs ++ [v])) k :: stack, None).
Proof.
  intros Hk Hr Hf. destruct f as [fv rem]; simpl in *. subst. unfold push_element. simpl.
  replace (k + 1 - 1) with k by lia.
  destruct stack; simpl; destruct (Z.eqb_spec k 0); (done || lia).
Qed.

(** The loop reads a serialized value and continues behind it. *)
Definition reads_back (v : RespValue) : Prop :=
  ∀ n input pos stack r,
    drop pos input = serialize v ++ r →
    parse_loop (nodes v + S n) input pos stack None =
      after_value (S n) input (pos + length (serialize v)) stack v ∧
    drop (pos + length (serialize v)) input = r.

Lemma reads_back_elements es : Forall reads_back es → ∀ n input pos stack r vs,
  es ≠ [] →
  drop pos input = concat (map serialize es) ++ r →
  let pos' := (pos + length (concat (map serialize es)))%nat in
  parse_loop (sum_list_with nodes es + S n) input pos
    (mkFrame (mkResp Array [] vs) (zlen es) :: stack) None =
    after_value (S n) input pos' stack (mkResp Array [] (vs ++ es)) ∧
  drop pos' input = r.
Proof.
  induction 1 as [|e es He Hes IH]; intros n input pos stack r vs Hne Hd; [done|].
  cbn [map concat sum_list_with] in *. rewrite <- app_assoc in Hd.
  rewrite length_app, Nat.add_assoc.
  replace (nodes e + sum_list_with nodes es + S n)%nat
    with (nodes e + S (sum_list_with nodes es + n))%nat by lia.
  edestruct He as [-> Hd']; [exact Hd|]. cbn [after_value].
  destruct es as [|e' es].
  - rewrite (process_stack_close _ _ _ vs) by done.
    cbn [map concat length sum_list_with] in *. rewrite Nat.add_0_r. split; [|done].
    destruct stack; [by rewrite parse_loop_Some|done].
  - rewrite (process_stack_open _ _ _ vs (zlen (e' :: es))) by (unfold zlen; simpl; lia || done).
    destruct (IH n input _ stack r (vs ++ [e]) ltac:(done) Hd') as [IH1 IH2].
    rewrite <- plus_n_Sm in IH1. rewrite IH1, <- app_assoc. done.
Qed.

(** The two line-shaped scalars share their proof. *)
Lemma reads_back_line ty c s (p : bytes → nat → option (RespValue * nat)) :
  (∀ n input pos stack, parse_char n input pos stack c = after_scalar n input stack (p input pos)) →
  (∀ input pos, p input pos =
     match read_line input pos with
     | None => None
     | Some (line, pos) => Some (mkResp ty line [], pos)
     end) →
  serialize (mkResp ty s []) = c :: s ++ CRLF →
  find_crlf s = None → reads_back (mkResp ty s []).
Proof.
  intros Hc Hp Hser Hs n input pos stack r Hd. rewrite Hser in *. cbn [app] in Hd.
  cbn [nodes elements sum_list_with Nat.add].
  edestruct parse_loop_at as [-> Hd']; [exact Hd|].
  rewrite <- app_assoc in Hd'. rewrite Hc, Hp.
  edestruct read_line_at as [-> Hd'']; [exact Hd'|done|].
  rewrite length_line_cons.
  replace (pos + S (length s + 2))%nat with (S pos + length s + 2)%nat by lia. done.
Qed.

Lemma reads_back_bulk s : zlen s ≤ INT_MAX → reads_back (mkResp BulkString s []).
Proof.
  intros Hs n input pos stack r Hd. cbn [serialize type str] in *.
  cbn [nodes elements sum_list_with Nat.add].
  assert (drop pos input = "$"%char :: to_string (zlen s) ++ CRLF ++ s ++ CRLF ++ r) as Hd1.
  { rewrite Hd. unfold bulk. cbn [app]. by rewrite <- !app_assoc. }
  edestruct parse_loop_at as [-> Hd']; [exact Hd1|].
  destruct (parse_bulk_at _ _ _ _ Hs Hd') as [Hb Hd''].
  unfold parse_char. simpl bool_decide. cbv iota. rewrite Hb.
  replace (pos + length (bulk s))%nat with (S pos + (length (bulk s) - 1))%nat by (simpl; lia).
  done.
Qed.

Lemma reads_back_null : reads_back (mkResp Null [] []).
Proof.
  intros n input pos stack r Hd. cbn [nodes elements sum_list_with Nat.add].
  edestruct parse_loop_at as [-> Hd']; [exact Hd|].
  destruct (parse_null_at _ _ _ Hd') as [Hb Hd''].
  unfold parse_char. simpl bool_decide. cbv iota. rewrite Hb.
  replace (pos + length (serialize (mkResp Null [] [])))%nat with (S pos + 4)%nat by (simpl; lia).
  done.
Qed.

Lemma reads_back_array es :
  zlen es ≤ INT_MAX → Forall reads_back es → reads_back (mkResp Array [] es).
Proof.
  intros Hlen Hes n input pos stack r Hd. cbn [serialize type elements] in *.
  cbn [nodes elements Nat.add]. unfold array_header in *.
  cbn [app length] in *. rewrite <- !app_assoc in Hd.
  edestruct parse_loop_at as [-> Hd']; [exact Hd|].
  unfold parse_char. simpl bool_decide. cbv iota. unfold handle_array_header.
  edestruct read_line_at as [-> Hd'']; [exact Hd'|by apply to_string_len_line, zlen_nonneg|].
  pose proof (zlen_nonneg es).
  rewrite parse_int_to_string by (limits; lia).
  destruct (Z.eqb_spec (zlen es) (-1)); [lia|].
  rewrite !length_app, length_CRLF.
  replace (pos + S (length (to_string (zlen es)) + 2 + length (concat (map serialize es))))%nat
    with (S pos + length (to_string (zlen es)) + 2 + length (concat (map serialize es)))%nat by lia.
  destruct (Z.eqb_spec (zlen es) 0) as [E|E].
  - destruct es; [|by unfold zlen in E]. cbn [map concat length] in *.
    by rewrite Nat.add_0_r.
  - destruct (Z.ltb_spec (zlen es) 0); [lia|]. cbn [obind].
    apply (reads_back_elements es Hes _ _ _ _ _ []); [by intros ->|done].
Qed.

Lemma serialize_reads_back v : wf_resp v = true → reads_back v.
Proof.
  induction v as [ty s es IH] using RespValue_ind'. intros Hwf.
  destruct ty; cbn [wf_resp type str elements] in Hwf; bool_prop;
    [destruct es; [|done]..|destruct s; [|done]|destruct es, s; done || apply reads_back_null].
  - by apply (reads_back_line SimpleString "+"%char s parse_simple_string); [..|apply bool_decide_eq_true in H].
  - by apply (reads_back_line Integer ":"%char s parse_integer); [..|apply bool_decide_eq_true in H].
  - by apply reads_back_bulk.
  - apply reads_back_array; [done|].
    rewrite Forall_forall in *. intros v Hv. apply IH; [done|].
    eapply forallb_forall; [done|]. by apply list_elem_of_In.
Qed.

Lemma find_crlf_take s n : find_crlf s = Some n → find_crlf (take n s) = None.
Proof.
  revert n. induction s as [|c s IH]; intros n; [done|]. cbn [find_crlf].
  case_bool_decide as E; [by intros [= <-]|].
  destruct (find_crlf s) as [m|] eqn:F; [|done]. intros [= <-].
  cbn [take firstn find_crlf]. specialize (IH m eq_refl).
  pose proof (find_crlf_bound _ _ F).
  rewrite bool_decide_eq_false_2; [by rewrite IH|].
  intros Ht. apply E. destruct s as [|d s]; [simpl in *; lia|].
  destruct m; [done|]. cbn in Ht |- *. by rewrite !take_0 in *.
Qed.

Lemma read_line_no_crlf input pos line pos' :
  read_line input pos = Some (line, pos') → no_crlf line = true.
Proof.
  unfold read_line. destruct (find_crlf _) as [n|] eqn:E; [|done]. intros [= <- <-].
  apply bool_decide_eq_true. by apply find_crlf_take.
Qed.

Lemma parse_int_range line z : parse_int line = Some z → INT_MIN ≤ z ≤ INT_MAX.
Proof.
  unfold parse_int, from_chars_int, from_chars. intros H.
  repeat split_match; try done; simplify_eq; unfold in_range in *; by bool_prop.
Qed.

(** ** Progress: every sub-parser moves forward and stays inside the input *)

Definition yields_wf (p : bytes → nat → option (RespValue * nat)) : Prop :=
  ∀ input pos v pos', p input pos = Some (v, pos') → wf_resp v = true.

Lemma simple_string_wf : yields_wf parse_simple_string.
Proof.
  intros input pos v pos'. unfold parse_simple_string.
  destruct (read_line _ _) as [[line q]|] eqn:E; [|done]. intros [= <- <-].
  cbn. by rewrite (read_line_no_crlf _ _ _ _ E).
Qed.

Lemma integer_wf : yields_wf parse_integer.
Proof.
  intros input pos v pos'. unfold parse_integer.
  destruct (read_line _ _) as [[line q]|] eqn:E; [|done]. intros [= <- <-].
  cbn. by rewrite (read_line_no_crlf _ _ _ _ E).
Qed.

Lemma bulk_string_wf : yields_wf parse_bulk_string.
Proof.
  intros input pos v pos'. unfold parse_bulk_string.
  destruct (read_line _ _) as [[line q]|] eqn:E; [|done].
  destruct (parse_int line) as [len|] eqn:Hi; [|done]. apply parse_int_range in Hi.
  destruct (Z.ltb_spec len 0); [by intros [= <- <-]|].
  destruct (_ <? _); [done|]. intros [= <- <-].
  cbn. rewrite andb_true_r. apply Z.leb_le. unfold zlen, substr.
  rewrite length_take. lia.
Qed.

Definition scalar_parser (p : bytes → nat → option (RespValue * nat)) : Prop :=
  (∀ input pos v pos', p input pos = Some (v, pos') → (pos < pos' ≤ length input)%nat) ∧
  (∀ s t pos r, p s pos = Some r → p (s ++ t) pos = Some r) ∧
  yields_wf p.

Lemma simple_string_parser : scalar_parser parse_simple_string.
Proof.
  split_and!; [| |apply simple_string_wf]; unfold parse_simple_string.
  - intros input pos v pos'. destruct (read_line _ _) as [[line q]|] eqn:E; [|done].
    apply read_line_bound in E. intros [= <- <-]. lia.
  - intros s t pos r. destruct (read_line s _) as [[line q]|] eqn:E; [|done].
    by rewrite (read_line_app _ t _ _ E).
Qed.

Lemma integer_parser : scalar_parser parse_integer.
Proof.
  split_and!; [| |apply integer_wf]; unfold parse_integer.
  - intros input pos v pos'. destruct (read_line _ _) as [[line q]|] eqn:E; [|done].
    apply read_line_bound in E. intros [= <- <-]. lia.
  - intros s t pos r. destruct (read_line s _) as [[line q]|] eqn:E; [|done].
    by rewrite (read_line_app _ t _ _ E).
Qed.

Lemma bulk_string_parser : scalar_parser parse_bulk_string.
Proof.
  split_and!; [| |apply bulk_string_wf]; unfold parse_bulk_string.
  - intros input pos v pos'. destruct (read_line _ _) as [[line q]|] eqn:E; [|done].
    apply read_line_bound in E. destruct (parse_int line) as [len|]; [|done].
    destruct (Z.ltb_spec len 0); [intros [= <- <-]; lia|].
    destruct (Z.ltb_spec (zlen input) (Z.of_nat q + len + 2)); [done|].
    intros [= <- <-]. unfold zlen in *. lia.
  - intros s t pos r. destruct (read_line s _) as [[line q]|] eqn:E; [|done].
    pose proof (read_line_bound _ _ _ _ E).
    rewrite (read_line_app _ t _ _ E). destruct (parse_int line) as [len|]; [|done].
    destruct (Z.ltb_spec len 0); [done|]. rewrite zlen_app. pose proof (zlen_nonneg t).
    destruct (Z.ltb_spec (zlen s) (Z.of_nat q + len + 2)); [done|].
    destruct (Z.ltb_spec (zlen s + zlen t) (Z.of_nat q + len + 2)); [lia|].
    intros <-. unfold substr, zlen in *.
    rewrite drop_app_le, take_app_le by (rewrite ?length_drop; lia). done.
Qed.

#[export] Hint Resolve simple_string_parser integer_parser bulk_string_parser : redis.

Lemma array_header_bound input pos stack pos' stack' cur :
  handle_array_header input pos stack = Ok (Some (pos', stack', cur)) →
  (pos < pos' ≤ length input)%nat.
Proof.
  unfold handle_array_header. destruct (read_line _ _) as [[line q]|] eqn:E; [|done].
  apply read_line_bound in E. destruct (parse_int line); [|done].
  repeat (destruct (_ =? _) || destruct (_ <? _)); intros [= <- <- <-]; lia.
Qed.

(** A header that was read, or that threw, does so with more input. *)
Lemma array_header_app s t pos stack r :
  handle_array_header s pos stack = r → r ≠ Ok None → handle_array_header (s ++ t) pos stack = r.
Proof.
  unfold handle_array_header. destruct (read_line s _) as [[line q]|] eqn:E; [|by intros <-].
  by rewrite (read_line_app _ t _ _ E).
Qed.

Lemma array_header_total input pos stack :
  handle_array_header input pos stack ≠ NoFuel ∧ handle_array_header input pos stack ≠ UB.
Proof.
  unfold handle_array_header. destruct (read_line _ _) as [[line q]|]; [|done].
  destruct (parse_int line); [|done]. by repeat (destruct (_ =? _) || destruct (_ <? _)).
Qed.

(** A completed value leaves the stack empty, otherwise there is none. *)
Lemma close_frames_current f stack stack' v :
  close_frames f stack = (stack', Some v) → stack' = [].
Proof.
  revert f. induction stack as [|g stack IH]; intros f; simpl;
    destruct (_ =? _); try (by intros [= <- <-]); eauto.
Qed.

Lemma process_stack_current stack value stack' v :
  process_stack stack value = (stack', Some v) → stack' = [].
Proof. destruct stack; [done|]. apply close_frames_current. Qed.

(** ** The loop, by cases on the type character *)

(** [parse_char] is one of four calls, each continuing with less fuel. *)
Inductive char_case (c : ascii) : Prop :=
  | case_array : c = "*"%char → char_case c
  | case_scalar p : scalar_parser p →
      (∀ n input pos stack, parse_char n input pos stack c = after_scalar n input stack (p input pos)) →
      char_case c
  | case_other : (∀ n input pos stack, parse_char n input pos stack c = Ok None) →
      char_case c.

Lemma char_cases c : char_case c.
Proof.
  destruct (decide (c = "*"%char)) as [->|]; [by apply case_array|].
  destruct (decide (c = ":"%char)) as [->|]; [by apply (case_scalar _ parse_integer); auto with redis|].
  destruct (decide (c = "$"%char)) as [->|]; [by apply (case_scalar _ parse_bulk_string); auto with redis|].
  destruct (decide (c = "+"%char)) as [->|]; [by apply (case_scalar _ parse_simple_string); auto with redis|].
  apply case_other. intros. unfold parse_char. by rewrite !bool_decide_eq_false_2.
Qed.

Lemma parse_array_char n input pos stack :
  parse_char n input pos stack "*"%char =
    match handle_array_header input pos stack with
    | Ok (Some (pos, stack', None)) => parse_loop n input pos stack' None
    | Ok (Some (pos, _, Some v)) => after_value n input pos stack v
    | Ok None => Ok None
    | Throw e => Throw e
    | UB => UB
    | NoFuel => NoFuel
    end.
Proof.
  unfold parse_char. simpl bool_decide. cbv iota.
  by destruct (handle_array_header _ _ _) as [[[[] []]|]|? | |].
Qed.

Lemma parse_loop_fuel n input pos stack cur :
  (length input - pos + 2 ≤ n)%nat → (cur ≠ None → stack = []) →
  parse_loop n input pos stack cur ≠ NoFuel.
Proof.
  revert pos stack cur. induction n as [|n IH]; intros pos stack cur Hn Hcur; [lia|].
  destruct cur as [v|]; [rewrite parse_loop_Some, Hcur by done; done|].
  rewrite parse_loop_None. destruct (input !! pos) as [c|] eqn:E; [|done].
  apply lookup_lt_Some in E.
  assert (∀ pos' stack v, (pos < pos')%nat → after_value n input pos' stack v ≠ NoFuel) as Hafter.
  { intros pos' [|f st] v Hp; [done|]. unfold after_value.
    destruct (process_stack _ _) as [st' [w|]] eqn:P; apply IH; try done; [lia| |lia].
    intros _. by eapply process_stack_current. }
  destruct (char_cases c) as [->|p (Hp & _) Hc|Hc]; rewrite ?Hc; [rewrite parse_array_char| |done].
  - destruct (array_header_total input (S pos) stack).
    destruct (handle_array_header _ _ _) as [[[[q st] [v|]]|]|? | |] eqn:Hh; try done;
      apply array_header_bound in Hh; [apply Hafter; lia|apply IH; [lia|done]].
  - destruct (p input (S pos)) as [[v q]|] eqn:H; [|done].
    apply Hp in H. apply Hafter. lia.
Qed.

Lemma parse_loop_stable n m s t pos stack cur r :
  parse_loop n s pos stack cur = r → r ≠ Ok None → r ≠ NoFuel →
  parse_loop (n + m) (s ++ t) pos stack cur = r.
Proof.
  revert pos stack cur. induction n as [|n IH]; intros pos stack cur Hr H1 H2; [done|].
  assert (∀ pos stack v, after_value n s pos stack v = r → after_value (n + m) (s ++ t) pos stack v = r) as Hafter.
  { intros pos' [|f st] v Hv; [done|]. unfold after_value in *.
    destruct (process_stack _ _) as [st' cur']. by apply IH. }
  cbn [Nat.add]. destruct cur as [v|].
  { rewrite parse_loop_Some in *. by apply Hafter. }
  rewrite parse_loop_None in *. destruct (s !! pos) as [c|] eqn:E; [|congruence].
  rewrite lookup_app_l by (by eapply lookup_lt_Some). rewrite E.
  destruct (char_cases c) as [->|p (_ & Hp & _) Hc|Hc]; rewrite ?Hc in *; [|..|congruence].
  - rewrite parse_array_char in *.
    destruct (handle_array_header s _ _) as [[[[q st] cur]|]|e| |] eqn:H; try congruence;
      rewrite (array_header_app _ t _ _ _ H) by done; [|done..].
    destruct cur; auto.
  - destruct (p s (S pos)) as [[v q]|] eqn:H; [|simpl in *; congruence].
    rewrite (Hp _ t _ _ H). simpl in *. auto.
Qed.

Lemma parse_loop_bound n input pos stack cur v c :
  parse_loop n input pos stack cur = Ok (Some (v, c)) → (pos ≤ length input)%nat →
  (pos ≤ c ≤ length input)%nat ∧ (cur = None → (pos < c)%nat).
Proof.
  revert pos stack cur. induction n as [|n IH]; intros pos stack cur Hr Hpos; [done|].
  assert (∀ pos' stack w, (pos ≤ pos' ≤ length input)%nat →
    after_value n input pos' stack w = Ok (Some (v, c)) → (pos' ≤ c ≤ length input)%nat) as Hafter.
  { intros pos' [|f st] w Hp Hv; [simpl in *; simplify_eq; lia|]. unfold after_value in *.
    destruct (process_stack _ _) as [st' cur']. apply IH in Hv; lia. }
  destruct cur as [w|].
  { rewrite parse_loop_Some in Hr. apply Hafter in Hr; [done|lia]. }
  rewrite parse_loop_None in Hr. destruct (input !! pos) as [ch|] eqn:E; [|done].
  apply lookup_lt_Some in E.
  destruct (char_cases ch) as [->|p (Hp & _) Hc|Hc]; rewrite ?Hc in Hr; [|..|done].
  - rewrite parse_array_char in Hr.
    destruct (handle_array_header _ _ _) as [[[[q st] [w|]]|]|e| |] eqn:H; try done;
      apply array_header_bound in H; [apply Hafter in Hr|apply IH in Hr]; lia.
  - destruct (p input (S pos)) as [[w q]|] eqn:H; [|done].
    apply Hp in H. apply Hafter in Hr; lia.
Qed.

(** ** The parser *)

(** Whatever [parse] decides on a prefix, it decides on the whole. *)
Lemma parse_stable s t r : parse s = r → r ≠ Ok None → parse (s ++ t) = r.
Proof.
  intros Hr Hne. destruct s as [|c s]; [by subst|]. unfold parse in *. cbn [app].
  rewrite length_cons, length_app. rewrite length_cons in Hr.
  replace (S (length s + length t) + 2)%nat with (S (length s) + 2 + length t)%nat by lia.
  rewrite app_comm_cons. apply parse_loop_stable; [done..|].
  rewrite <- Hr. apply parse_loop_fuel; [simpl; lia|done].
Qed.

Lemma parse_consumed s v n : parse s = Ok (Some (v, n)) → (0 < n ≤ length s)%nat.
Proof.
  unfold parse. destruct s as [|c s]; [done|]. intros H.
  apply parse_loop_bound in H as [? ?]; [|lia]. split; [|lia]. auto.
Qed.

Lemma parse_total s : parse s ≠ NoFuel.
Proof. unfold parse. destruct s; [done|]. apply parse_loop_fuel; [lia|done]. Qed.

(** ** What the parser builds is well-formed *)

Definition frame_ok (f : ArrayFrame) : Prop :=
  ∃ vs, frame_value f = mkResp Array [] vs ∧ forallb wf_resp vs = true ∧
        0 < remaining f ∧ zlen vs + remaining f ≤ INT_MAX.

Definition current_ok (cur : option RespValue) : Prop :=
  match cur with Some v => wf_resp v = true | None => True end.

Lemma close_frames_ok f stack v :
  frame_ok f → Forall frame_ok stack → wf_resp v = true →
  let '(stack', cur) := close_frames (push_element f v) stack in
  Forall frame_ok stack' ∧ current_ok cur.
Proof.
  revert f v. induction stack as [|g stack IH]; intros f v (vs & Hf & Hvs & Hr & Hlen) Hst Hv;
    destruct f as [fv rem]; simpl in *; subst fv; simpl.
  all: assert (wf_resp (mkResp Array [] (vs ++ [v])) = true) as Hwf
    by (cbn [wf_resp type str elements]; rewrite forallb_app, zlen_app; simpl; rewrite Hvs, Hv;
        unfold zlen in *; simpl; rewrite andb_true_r; apply Z.leb_le; lia).
  all: destruct (Z.eqb_spec (rem - 1) 0); try (split; [|exact I]; constructor; [|done];
    exists (vs ++ [v]); rewrite forallb_app, zlen_app; simpl; rewrite Hvs, Hv; unfold zlen in *; simpl;
    split_and!; (done || lia)).
  - done.
  - inversion Hst; subst. by apply IH.
Qed.

Lemma process_stack_ok stack v :
  Forall frame_ok stack → wf_resp v = true →
  let '(stack', cur) := process_stack stack v in Forall frame_ok stack' ∧ current_ok cur.
Proof.
  intros Hst Hv. destruct stack as [|f stack]; [done|]. inversion Hst; subst.
  by apply close_frames_ok.
Qed.

Lemma array_header_ok input pos stack pos' stack' cur :
  Forall frame_ok stack → handle_array_header input pos stack = Ok (Some (pos', stack', cur)) →
  Forall frame_ok stack' ∧ current_ok cur.
Proof.
  intros Hst. unfold handle_array_header.
  destruct (read_line _ _) as [[line q]|] eqn:E; [|done].
  destruct (parse_int line) as [count|] eqn:Hi; [|done]. apply parse_int_range in Hi.
  destruct (Z.eqb_spec count (-1)); [by intros [= <- <- <-]|].
  destruct (Z.eqb_spec count 0); [by intros [= <- <- <-]|].
  destruct (Z.ltb_spec count 0); [done|]. intros [= <- <- <-]. split; [|exact I].
  constructor; [|done]. exists []. unfold zlen. simpl. split_and!; (done || lia).
Qed.

Lemma parse_loop_wf n input pos stack cur v c :
  Forall frame_ok stack → current_ok cur →
  parse_loop n input pos stack cur = Ok (Some (v, c)) → wf_resp v = true.
Proof.
  revert pos stack cur. induction n as [|n IH]; intros pos stack cur Hst Hcur Hr; [done|].
  assert (∀ pos' w, wf_resp w = true →
    after_value n input pos' stack w = Ok (Some (v, c)) → wf_resp v = true) as Hafter.
  { intros pos' w Hw Hv. pose proof (process_stack_ok stack w Hst Hw) as Hok.
    destruct stack as [|f st]; [simpl in Hv; by simplify_eq|]. unfold after_value in Hv.
    destruct (process_stack _ _) as [st' cur']. destruct Hok. eauto. }
  destruct cur as [w|]; [rewrite parse_loop_Some in Hr; eauto|].
  rewrite parse_loop_None in Hr. destruct (input !! pos) as [ch|] eqn:E; [|done].
  destruct (char_cases ch) as [->|p (_ & _ & Hp) Hc|Hc]; rewrite ?Hc in Hr; [|..|done].
  - rewrite parse_array_char in Hr.
    destruct (handle_array_header _ _ _) as [[[[q st] cur']|]|e| |] eqn:H; try done.
    apply array_header_ok in H as [? ?]; [|done]. destruct cur'; eauto.
  - destruct (p input (S pos)) as [[w q]|] eqn:H; [|done]. apply Hp in H. eauto.
Qed.

Lemma parse_wf s v n : parse s = Ok (Some (v, n)) → wf_resp v = true.
Proof. unfold parse. destruct s; [done|]. by apply parse_loop_wf. Qed.

Lemma nodes_le v : wf_resp v = true → (nodes v ≤ length (serialize v))%nat.
Proof.
  induction v as [ty s es IH] using RespValue_ind'. intros Hwf.
  destruct ty; cbn [wf_resp type str elements] in Hwf; bool_prop;
    try (destruct es; [simpl; lia|done]).
  cbn [nodes serialize type elements]. unfold array_header.
  rewrite length_app. cbn [length]. rewrite length_app, length_CRLF.
  assert (sum_list_with nodes es ≤ length (concat (map serialize es)))%nat; [|lia].
  match goal with
  | H : forallb wf_resp es = true, H' : zlen es ≤ _ |- _ => clear H'; revert H
  end.
  induction IH as [|e es He Hes IH']; [simpl; lia|].
  cbn [sum_list_with map concat forallb]. rewrite length_app. intros. bool_prop.
  apply Nat.add_le_mono; [by apply He|by apply IH'].
Qed.

Lemma parse_serialize v : wf_resp v = true → parse (serialize v) = Ok (Some (v, length (serialize v))).
Proof.
  intros Hwf. pose proof (nodes_le v Hwf) as Hn.
  destruct (serialize_reads_back v Hwf 0%nat (serialize v) 0%nat [] []) as [H _];
    [by rewrite drop_0, app_nil_r|].
  simpl after_value in H. unfold parse.
  destruct (serialize v) as [|c s] eqn:E; [destruct v; simpl in *; lia|].
  eapply (parse_loop_stable _ (length (c :: s) + 1 - nodes v) _ []) in H; [|done..].
  rewrite app_nil_r in H. rewrite <- H. f_equal. lia.
Qed.

Lemma parse_serialize_app v r :
  wf_resp v = true → parse (serialize v ++ r) = Ok (Some (v, length (serialize v))).
Proof. intros Hwf. apply parse_stable; [by apply parse_serialize|done]. Qed.

Lemma parse_strict_prefix v p q :
  wf_resp v = true → serialize v = p ++ q → q ≠ [] → parse p = Ok None.
Proof.
  intros Hwf Hpq Hq. pose proof (parse_serialize v Hwf) as Hv. rewrite Hpq in Hv.
  destruct (parse p) as [[[w n]|]|e| |] eqn:P; [|done|..];
    pose proof (parse_stable _ q _ P ltac:(done)) as P'; rewrite Hv in P'; try done.
  injection P' as <- <-. apply parse_consumed in P. rewrite length_app in P.
  destruct q; [done|simpl in P; lia].
Qed.

(** The only exception is the one of a negative array length. *)
Definition only_reserve_throws {A} (r : outcome A) : Prop :=
  match r with
  | Throw e => e = LengthError (b "vector::reserve")
  | UB => False
  | _ => True
  end.

Lemma array_header_throws input pos stack : only_reserve_throws (handle_array_header input pos stack).
Proof.
  unfold handle_array_header. destruct (read_line _ _) as [[line q]|]; [|done].
  destruct (parse_int line); [|done]. by repeat (destruct (_ =? _) || destruct (_ <? _)).
Qed.

Lemma parse_loop_throws n input pos stack cur :
  only_reserve_throws (parse_loop n input pos stack cur).
Proof.
  revert pos stack cur. induction n as [|n IH]; intros pos stack cur; [done|].
  assert (∀ pos stack v, only_reserve_throws (after_value n input pos stack v)) as Hafter.
  { intros pos' [|f st] v; [done|]. unfold after_value. destruct (process_stack _ _). apply IH. }
  destruct cur as [v|]; [rewrite parse_loop_Some; auto|].
  rewrite parse_loop_None. destruct (input !! pos) as [c|]; [|done].
  destruct (char_cases c) as [->|p _ Hc|Hc]; rewrite ?Hc; [rewrite parse_array_char| |done].
  - pose proof (array_header_throws input (S pos) stack).
    destruct (handle_array_header _ _ _) as [[[[q st] [v|]]|]|? | |]; auto.
  - destruct (p input (S pos)) as [[v q]|]; simpl; auto.
Qed.

(** ** Properties *)

(** C22.  A serialized value is read back exactly, with exactly its own bytes
    consumed, whatever follows it; and no strict prefix of it is taken for a
    complete value, so a reader that waits for more bytes waits correctly. *)
Theorem resp_roundtrip (v : RespValue) (Hwf : wf_resp v = true) :
  (∀ r, parse (serialize v ++ r) = Ok (Some (v, length (serialize v)))) ∧
  (∀ p q, serialize v = p ++ q → q ≠ [] → parse p = Ok None).
Proof.
  split; [intros r; by apply parse_serialize_app|].
  intros p q. by apply parse_strict_prefix.
Qed.

Lemma resp_roundtrip_witness :
  let v := mkResp Array [] [mkResp BulkString (b "ECHO") []; mkResp Array [] [mkResp Integer (b "7") []];
                            mkResp Null [] []] in
  parse (serialize v ++ b "rest") = Ok (Some (v, length (serialize v))).
Proof. intros v. exact (proj1 (resp_roundtrip v eq_refl) (b "rest")). Defined.

Lemma parse_answers (input : bytes) :
  match parse input with
  | Ok _ => True
  | Throw e => e = LengthError (b "vector::reserve")
  | UB | NoFuel => False
  end.
Proof.
  assert (only_reserve_throws (parse input)) as Ht
    by (unfold parse; destruct input; [done|apply parse_loop_throws]).
  destruct (parse input) as [?|e| |] eqn:P; try done. by apply (parse_total input).
Qed.

(** C24.  [parse] always comes back, with nothing, with a well-formed value and a
    positive number of consumed bytes inside the input, or with the exception
    of a negative array length; its loop never runs out of iterations. *)
Theorem parse_terminates (input : bytes) :
  match parse input with
  | Ok None => True
  | Ok (Some (v, n)) => (0 < n ≤ length input)%nat ∧ wf_resp v = true
  | Throw e => e = LengthError (b "vector::reserve")
  | UB | NoFuel => False
  end.
Proof.
  pose proof (parse_answers input) as Ha. destruct (parse input) as [[[v n]|]|e| |] eqn:P; try done.
  eauto using parse_consumed, parse_wf.
Qed.

(** C23.  Bytes that arrive later never change what was already decided: a value
    or an exception found in a prefix is the answer for the whole input. *)
Theorem parse_prefix_stable (s t : bytes) :
  parse s ≠ Ok None → parse (s ++ t) = parse s.
Proof. intros H. by apply parse_stable. Qed.

Lemma parse_prefix_stable_witness :
  parse (b "+OK" ++ CRLF ++ b "garbage") = Ok (Some (mkResp SimpleString (b "OK") [], 5%nat)).
Proof.
  change (b "+OK" ++ CRLF ++ b "garbage") with ((b "+OK" ++ CRLF) ++ b "garbage").
  rewrite (parse_prefix_stable (b "+OK" ++ CRLF) (b "garbage")); [reflexivity|].
  vm_compute. discriminate.
Defined.

(** Serializing a parsed value and parsing it again gives the same value:
    what the dispatcher propagates is, for a replica, the command the master
    parsed, however the client spelled it on the wire. *)
Theorem reserialize_canonical (s : bytes) (v : RespValue) (n : nat)
    (Hparse : parse s = Ok (Some (v, n))) :
  parse (serialize v) = Ok (Some (v, length (serialize v))).
Proof. eapply parse_serialize, parse_wf, Hparse. Qed.

Lemma reserialize_canonical_witness :
  let v := mkResp Array [] [mkResp BulkString (b "PING") []] in
  parse (b "*1x" ++ CRLF ++ b "$04" ++ CRLF ++ b "PING??") = Ok (Some (v, 16%nat)) ∧
  parse (serialize v) = Ok (Some (v, 14%nat)).
Proof.
  intros v. split; [reflexivity|].
  exact (reserialize_canonical (b "*1x" ++ CRLF ++ b "$04" ++ CRLF ++ b "PING??") v 16 eq_refl).
Defined.

(** C39.  Any array header below -1 makes the parser throw instead of reporting
    a malformed request: [reserve] is called with the count converted to
    [std::size_t]. *)
Theorem parse_negative_array_throws (z : Z) (r : bytes) (Hz : INT_MIN ≤ z < -1) :
  parse ("*"%char :: to_string z ++ CRLF ++ r) = Throw (LengthError (b "vector::reserve")).
Proof.
  unfold parse. cbn [length Nat.add].
  edestruct parse_loop_at as [-> Hd]; [by rewrite drop_0|].
  rewrite parse_array_char. unfold handle_array_header.
  edestruct read_line_at as [-> _]; [exact Hd| |].
  { unfold to_string. destruct (Z.ltb_spec z 0); [|lia].
    cbn [find_crlf]. rewrite no_crlf_digits by lia.
    by rewrite bool_decide_eq_false_2 by (intros [=]). }
  rewrite parse_int_to_string by (limits; lia).
  destruct (Z.eqb_spec z (-1)); [lia|]. destruct (Z.eqb_spec z 0); [lia|].
  by destruct (Z.ltb_spec z 0); [|lia].
Qed.

Lemma parse_negative_array_throws_witness :
  parse (b "*-5" ++ CRLF) = Throw (LengthError (b "vector::reserve")).
Proof. exact (parse_negative_array_throws (-5) [] ltac:(split; [vm_compute; discriminate|reflexivity])). Defined.
