(* ===== verification/StreamId.v ===== *)
(** * Stream identifiers

    Models src/store/types/StreamIdUtils.hpp and .cpp: parsing of the XADD
    pattern, of the last entry's id and of XRANGE/XREAD bounds, the choice of a
    sequence number, and the validation that keeps ids increasing.  [long long]
    fields hold the [std::stoull] result after [static_cast<long long>]
    ([to_i64]); the one signed addition that can overflow yields [UB].  The
    system clock is the argument [now]. *)

From S2P Require Import Prelude CharConv.

Record StreamIdParts := mkParts {
  ms : Z;
  seq : Z;
  auto_seq : bool;
}.

Record LastIdParts := mkLast {
  last_ms : Z;
  last_seq : Z;
  valid : bool;
}.

Record StreamBoundParts := mkBound {
  bound_ms : Z;
  bound_seq : Z;
}.

Definition invalid_id : exn := InvalidArgument (b "Invalid stream ID specified").

(** [catch (...) { throw std::invalid_argument("Invalid stream ID specified"); }] *)
Definition rethrow_invalid {A} (m : outcome A) : outcome A :=
  match m with
  | Throw _ => Throw invalid_id
  | m => m
  end.

Definition parse_stream_id (now : Z) (streamId : bytes) : outcome StreamIdParts :=
  if bool_decide (streamId = b "*") then Ok (mkParts now 0 true)
  else
    match split_at "-"%char streamId with
    | None => Throw invalid_id
    | Some (ms_s, seq_s) =>
        let! ms := rethrow_invalid (stoull ms_s) in
        if bool_decide (seq_s = b "*") then Ok (mkParts (to_i64 ms) 0 true)
        else
          let! seq := rethrow_invalid (stoull seq_s) in
          Ok (mkParts (to_i64 ms) (to_i64 seq) false)
    end.

Definition parse_last_id (last_id : bytes) : outcome LastIdParts :=
  match last_id with
  | [] => Ok (mkLast 0 0 false)
  | _ =>
      match split_at "-"%char last_id with
      | None => Ok (mkLast 0 0 false)
      | Some (ms_s, seq_s) =>
          let! ms := stoull ms_s in
          let! seq := stoull seq_s in
          Ok (mkLast (to_i64 ms) (to_i64 seq) true)
      end
  end.

Definition resolve_seq (idParts : StreamIdParts) (lastIdParts : LastIdParts) : outcome Z :=
  if negb (auto_seq idParts) then Ok (seq idParts)
  else if valid lastIdParts && (ms idParts =? last_ms lastIdParts) then
    if fits_i64 (last_seq lastIdParts + 1) then Ok (last_seq lastIdParts + 1) else UB
  else if ms idParts =? 0 then Ok 1
  else Ok 0.

Definition zero_id : exn :=
  InvalidArgument (b "The ID specified in XADD must be greater than 0-0").
Definition small_id : exn :=
  InvalidArgument (b "The ID specified in XADD is equal or smaller than the target stream top item").

Definition validate_id (milliseconds seq : Z) (lastIdParts : LastIdParts) : outcome unit :=
  if (milliseconds =? 0) && (seq =? 0) then Throw zero_id
  else if valid lastIdParts &&
          ((milliseconds <? last_ms lastIdParts) ||
           ((milliseconds =? last_ms lastIdParts) && (seq <=? last_seq lastIdParts)))
       then Throw small_id
  else Ok tt.

Definition format_id (milliseconds seq : Z) : bytes :=
  to_string milliseconds ++ "-"%char :: to_string seq.

Definition generate_stream_id (now : Z) (streamIdPattern last_id : bytes) : outcome bytes :=
  let! streamIdParts := parse_stream_id now streamIdPattern in
  let! lastIdParts := parse_last_id last_id in
  let! seq := resolve_seq streamIdParts lastIdParts in
  let! _ := validate_id (ms streamIdParts) seq lastIdParts in
  Ok (format_id (ms streamIdParts) seq).

Definition parse_stream_bound (streamId : bytes) (is_start : bool) : outcome StreamBoundParts :=
  if bool_decide (streamId = b "-") then Ok (mkBound 0 0)
  else if bool_decide (streamId = b "+") then Ok (mkBound LLONG_MAX ULLONG_MAX)
  else
    match split_at "-"%char streamId with
    | None =>
        let! ms := stoull streamId in
        Ok (mkBound (to_i64 ms) (if is_start then 0 else ULLONG_MAX))
    | Some (ms_s, seq_s) =>
        let! ms := stoull ms_s in
        let! seq := stoull seq_s in
        Ok (mkBound (to_i64 ms) seq)
    end.

(** ** Order and printing of ids *)

(** The order of the code's comparisons: milliseconds first, then sequence. *)
Definition id_lt (m1 s1 m2 s2 : Z) : Prop := m1 < m2 ∨ (m1 = m2 ∧ s1 < s2).

(** Ids whose two halves a [long long] holds without changing sign. *)
Definition id_in_range (m s : Z) : Prop := 0 ≤ m ≤ LLONG_MAX ∧ 0 ≤ s ≤ LLONG_MAX.

Lemma minus_not_digit : is_digit "-"%char = false.
Proof. done. Qed.

Lemma split_format m s :
  0 ≤ m → split_at "-"%char (format_id m s) = Some (digits m, to_string s).
Proof.
  intros Hm. unfold format_id. rewrite to_string_nonneg by done.
  apply split_at_app. by apply digits_no_char.
Qed.

Lemma stoull_to_string z : 0 ≤ z ≤ LLONG_MAX → stoull (to_string z) = Ok z.
Proof.
  intros Hz. rewrite to_string_nonneg by lia.
  rewrite <- (app_nil_r (digits z)). apply stoull_digits; auto with redis. limits. lia.
Qed.

Lemma format_id_head m s : 0 ≤ m → ∃ c r, format_id m s = c :: r ∧ is_digit c = true.
Proof.
  intros Hm. unfold format_id. rewrite to_string_nonneg by done.
  destruct (digits_head m Hm) as (c & ds & -> & Hc). simpl. eauto.
Qed.

Lemma parse_last_format m s :
  id_in_range m s → parse_last_id (format_id m s) = Ok (mkLast m s true).
Proof.
  intros [Hm Hs]. unfold parse_last_id.
  destruct (format_id_head m s) as (c & r & E & _); [lia|].
  rewrite E, <- E, split_format by lia.
  rewrite <- (to_string_nonneg m), !stoull_to_string by lia. simpl.
  rewrite !to_i64_id by (limits; lia). done.
Qed.

Lemma parse_bound_format m s st :
  id_in_range m s → parse_stream_bound (format_id m s) st = Ok (mkBound m s).
Proof.
  intros [Hm Hs]. unfold parse_stream_bound.
  destruct (format_id_head m s) as (c & r & E & Hc); [lia|].
  rewrite !bool_decide_eq_false_2 by (rewrite E; intros [= -> ->]; done).
  rewrite split_format by lia.
  rewrite <- (to_string_nonneg m), !stoull_to_string by lia. simpl.
  rewrite to_i64_id by (limits; lia). done.
Qed.

Lemma format_id_inj m s m' s' :
  id_in_range m s → id_in_range m' s' → format_id m s = format_id m' s' → m = m' ∧ s = s'.
Proof.
  intros H H' E. pose proof (parse_last_format m s H) as P.
  rewrite E, parse_last_format in P by done. by injection P.
Qed.

(** ** Validation *)

Lemma validate_ok m s last u :
  validate_id m s last = Ok u →
  (m ≠ 0 ∨ s ≠ 0) ∧ (valid last = true → id_lt (last_ms last) (last_seq last) m s).
Proof.
  unfold validate_id, id_lt. destruct ((m =? 0) && (s =? 0)) eqn:E0; [done|].
  destruct (valid last); simpl; destruct (Z.ltb_spec m (last_ms last)); simpl; try done;
    destruct (Z.eqb_spec m (last_ms last)); simpl; try done;
    try (destruct (Z.leb_spec s (last_seq last)); simpl; [done|]); intros _;
    (split; [apply andb_false_iff in E0 as [?|?]; bool_prop; auto|intros; try done; lia]).
Qed.

Lemma generate_ok now pat last_id id :
  generate_stream_id now pat last_id = Ok id →
  ∃ parts last s,
    parse_stream_id now pat = Ok parts ∧ parse_last_id last_id = Ok last ∧
    resolve_seq parts last = Ok s ∧ id = format_id (ms parts) s ∧
    (ms parts ≠ 0 ∨ s ≠ 0) ∧
    (valid last = true → id_lt (last_ms last) (last_seq last) (ms parts) s).
Proof.
  unfold generate_stream_id. intros H.
  apply obind_Ok in H as (parts & Hp & H). apply obind_Ok in H as (last & Hl & H).
  apply obind_Ok in H as (s & Hs & H). apply obind_Ok in H as (u & Hv & H).
  injection H as <-. apply validate_ok in Hv as [? ?]. by exists parts, last, s.
Qed.

(** ** Ids outside the signed range *)

(** A printed negative millisecond part starts with the separator itself. *)
Lemma split_format_negative m s :
  m < 0 → split_at "-"%char (format_id m s) = Some ([], digits (- m) ++ "-"%char :: to_string s).
Proof.
  intros Hm. unfold format_id, to_string at 1.
  destruct (Z.ltb_spec m 0); [|lia]. cbn [app split_at].
  by rewrite decide_True.
Qed.

Lemma parse_last_negative m s :
  m < 0 → parse_last_id (format_id m s) = Throw (InvalidArgument (b "stoull")).
Proof.
  intros Hm. unfold parse_last_id. rewrite split_format_negative by done.
  by destruct (format_id m s) eqn:E; [unfold format_id in E; destruct (to_string m)|].
Qed.

Lemma parse_bound_negative m s st :
  m < 0 → parse_stream_bound (format_id m s) st = Throw (InvalidArgument (b "stoull")).
Proof.
  intros Hm. pose proof (split_format_negative m s Hm) as Hsp. unfold parse_stream_bound.
  destruct (digits_head (- m)) as (c & ds & Hd & _); [lia|]. rewrite Hd in Hsp.
  rewrite !bool_decide_eq_false_2; [by rewrite Hsp|..]; intros E; by rewrite E in Hsp.
Qed.

Lemma to_i64_high m : 2 ^ 63 ≤ m ≤ ULLONG_MAX → to_i64 m = m - 2 ^ 64.
Proof.
  limits. intros Hm. unfold to_i64. rewrite Z.mod_small by lia.
  destruct (Z.ltb_spec m (2 ^ 63)); lia.
Qed.

(** ** Properties *)

(** The pattern [m-*] continues the stream: the sequence number after the
    last entry's when the milliseconds agree, 0 when they are larger; an [m]
    behind the last entry is refused. *)
Theorem auto_sequence_next (now m lm ls : Z)
    (Hm : 0 ≤ m ≤ LLONG_MAX) (Hl : id_in_range lm ls) (Hls : ls < LLONG_MAX) :
  generate_stream_id now (to_string m ++ b "-*") (format_id lm ls) =
    if m =? lm then Ok (format_id m (ls + 1))
    else if m <? lm then Throw small_id
    else Ok (format_id m 0).
Proof.
  destruct Hl as [Hlm Hls']. unfold generate_stream_id, parse_stream_id.
  rewrite to_string_nonneg by lia.
  destruct (digits_head m) as (c & ds & Hd & Hc); [lia|].
  rewrite bool_decide_eq_false_2 by (rewrite Hd; intros [= -> E]; done).
  change (b "-*") with ("-"%char :: b "*").
  rewrite split_at_app by (by apply digits_no_char; [lia|]).
  rewrite <- (to_string_nonneg m), stoull_to_string by lia. cbn [rethrow_invalid obind].
  rewrite bool_decide_eq_true_2 by done. cbn [obind].
  rewrite parse_last_format by done. cbn [obind].
  rewrite to_i64_id by (limits; lia).
  unfold resolve_seq, validate_id. cbn [auto_seq negb valid ms last_ms last_seq andb].
  destruct (Z.eqb_spec m lm) as [->|Hne].
  - unfold fits_i64, in_range. replace (_ && _) with true.
    2:{ symmetry. apply andb_true_intro. split; apply Z.leb_le; limits; lia. }
    cbn [obind]. rewrite Z.ltb_irrefl. destruct (Z.eqb_spec (ls + 1) 0); [lia|].
    rewrite andb_false_r. cbn [negb orb andb].
    by destruct (Z.leb_spec (ls + 1) ls); [lia|].
  - destruct (Z.eqb_spec m 0) as [->|]; cbn [obind].
    + destruct (Z.ltb_spec 0 lm); [done|lia].
    + simpl. by destruct (Z.ltb_spec m lm).
Qed.

Lemma auto_sequence_next_witness :
  generate_stream_id 0 (b "5-*") (b "5-3") = Ok (b "5-4").
Proof.
  exact (auto_sequence_next 0 5 5 3 ltac:(vm_compute; intuition discriminate)
           ltac:(vm_compute; intuition discriminate) ltac:(reflexivity)).
Defined.

(** An explicit id whose milliseconds do not fit a signed 64-bit integer is
    accepted on an empty stream and stored with a negative prefix that the
    code cannot read back: after it no id is ever generated for that stream
    and no bound comparison on that entry returns. *)
Theorem oversized_ms_poisons (now m s : Z)
    (Hm : 2 ^ 63 ≤ m ≤ ULLONG_MAX) (Hs : 0 ≤ s ≤ LLONG_MAX) :
  let id := format_id (m - 2 ^ 64) s in
  generate_stream_id now (format_id m s) [] = Ok id ∧
  (∀ now' pat id', generate_stream_id now' pat id ≠ Ok id') ∧
  (∀ is_start, parse_stream_bound id is_start = Throw (InvalidArgument (b "stoull"))).
Proof.
  intros id. limits. split_and!.
  - unfold generate_stream_id, parse_stream_id.
    destruct (format_id_head m s) as (c & r & E & Hc); [lia|].
    rewrite bool_decide_eq_false_2 by (rewrite E; intros [= -> ->]; done).
    rewrite split_format by lia.
    replace (stoull (digits m)) with (Ok m : outcome Z).
    2:{ rewrite <- (app_nil_r (digits m)), stoull_digits; auto with redis. limits. lia. }
    cbn [rethrow_invalid obind]. rewrite bool_decide_eq_false_2.
    2:{ rewrite to_string_nonneg by lia. intros E'.
        destruct (digits_head s) as (c' & ds & Hd & Hc'); [lia|]. rewrite Hd in E'.
        by injection E' as -> ->. }
    rewrite stoull_to_string by (limits; lia). cbn [rethrow_invalid obind parse_last_id].
    unfold resolve_seq, validate_id. cbn [auto_seq negb valid ms seq andb obind].
    rewrite to_i64_high, (to_i64_id s) by (limits; lia).
    destruct (Z.eqb_spec (m - 2 ^ 64) 0); [lia|]. done.
  - intros now' pat id' H. apply generate_ok in H as (? & ? & ? & _ & Hl & _).
    unfold id in Hl. by rewrite parse_last_negative in Hl by lia.
  - intros st. apply parse_bound_negative. lia.
Qed.

Lemma oversized_ms_poisons_witness :
  generate_stream_id 0 (b "9223372036854775808-0") [] = Ok (b "-9223372036854775808-0").
Proof.
  exact (proj1 (oversized_ms_poisons 0 (2 ^ 63) 0 ltac:(vm_compute; intuition discriminate)
           ltac:(vm_compute; intuition discriminate))).
Defined.
