(* ===== verification/StoreValue.v ===== *)
(** * Stored values, their types and their size

    Models src/store/types/Stream.hpp, src/store/core/StoreValue.hpp,
    src/store/core/StoreType.hpp and src/util/MemoryEstimator.hpp.  The
    [std::unordered_map<std::string, StoreValue>] shared by the sub-stores is
    a [gmap]; time points of the steady clock are nanoseconds. *)

From S2P Require Import Prelude.

Record StreamEntry := mkEntry {
  entry_id : bytes;
  fields : list (bytes * bytes);
}.

Record Stream := mkStream { entries : list StreamEntry }.

Inductive ValueVariant :=
  | VString (s : bytes)
  | VList (l : list bytes)
  | VStream (s : Stream).

Record StoreValue := mkValue {
  value_ : ValueVariant;
  expires_at_ : option Z;
}.

(** [StoreValue()]: the first alternative, value-initialised, no expiry. *)
Definition default_StoreValue : StoreValue := mkValue (VString []) None.

Abbreviation Data := (gmap bytes StoreValue).

(** [data_[key]]: the value at [key], created by default construction. *)
Definition at_or_default (d : Data) (key : bytes) : StoreValue :=
  default default_StoreValue (d !! key).

Definition set_value (sv : StoreValue) (v : ValueVariant) : StoreValue :=
  mkValue v (expires_at_ sv).

(** [get_expires_at() && Clock::now() > *get_expires_at()]. *)
Definition is_expired (now : Z) (sv : StoreValue) : bool :=
  match expires_at_ sv with
  | Some t => t <? now
  | None => false
  end.

Inductive StoreType :=
  | TString | TList | TSet | TZSet | THash | TStream | TVectorSet | TNone.

#[export] Instance StoreType_eq_dec : EqDecision StoreType.
Proof. solve_decision. Defined.

Definition StoreType_to_string (t : StoreType) : bytes :=
  match t with
  | TString => b "string"
  | TList => b "list"
  | TSet => b "set"
  | TZSet => b "zset"
  | THash => b "hash"
  | TStream => b "stream"
  | TVectorSet => b "vectorset"
  | TNone => b "none"
  end.

Definition StoreValue_type (sv : StoreValue) : StoreType :=
  match value_ sv with
  | VString _ => TString
  | VList _ => TList
  | VStream _ => TStream
  end.

(** ** Memory estimate *)

Definition sum_sizes {A} (f : A → Z) (l : list A) : Z := fold_left (λ total x, total + f x) l 0.

Definition estimate_value_size (sv : StoreValue) : Z :=
  match value_ sv with
  | VString s => zlen s
  | VList items => sum_sizes zlen items
  | VStream stream =>
      fold_left (λ total e,
        fold_left (λ total '(field, field_value), total + (zlen field + zlen field_value))
          (fields e) (total + zlen (entry_id e)))
        (entries stream) 0
  end.

Definition estimate_dataset_size (data : Data) : Z :=
  map_fold (λ key value total, total + zlen key + estimate_value_size value) 0 data.

(** ** Lemmas *)

Lemma estimate_delete (k : bytes) (v : StoreValue) (d : Data) :
  d !! k = Some v →
  estimate_dataset_size d = zlen k + estimate_value_size v + estimate_dataset_size (delete k d).
Proof.
  intros H. unfold estimate_dataset_size.
  rewrite (map_fold_delete_L _ _ k v d) by (done || (intros; lia)). lia.
Qed.

Lemma estimate_insert (k : bytes) (v : StoreValue) (d : Data) :
  estimate_dataset_size (<[k := v]> d) =
  zlen k + estimate_value_size v + estimate_dataset_size (delete k d).
Proof.
  rewrite (estimate_delete k v) by apply lookup_insert_eq.
  by rewrite delete_insert_eq.
Qed.

Lemma at_or_default_insert (k : bytes) (v : StoreValue) (d : Data) : at_or_default (<[k := v]> d) k = v.
Proof. unfold at_or_default. by rewrite lookup_insert_eq. Qed.

Lemma at_or_default_lookup (k : bytes) (v : StoreValue) (d : Data) :
  d !! k = Some v → at_or_default d k = v.
Proof. unfold at_or_default. by intros ->. Qed.
