(* ===== verification/StringStore.v ===== *)
(** * String values

    Models src/store/impl/StringStore.cpp: SET with and without a TTL, GET with
    lazy expiry, INCR. *)

From S2P Require Import Prelude CharConv StoreValue.

Definition key_not_found : bytes := b "Key not found".
Definition wrong_type : bytes :=
  b "-WRONGTYPE Operation against a key holding the wrong kind of value".
Definition not_an_integer : bytes :=
  b "-ERR value is not an integer or out of range" ++ CRLF.

Definition set (key value : bytes) (d : Data) : Data :=
  <[key := mkValue (VString value) None]> d.

(** [Clock::now() + ttl]: the milliseconds become nanoseconds and are added,
    both in signed 64-bit arithmetic. *)
Definition set_ttl (now : Z) (key value : bytes) (ttl : Z) (d : Data) : outcome Data :=
  if fits_i64 (ttl * 1000000) && fits_i64 (now + ttl * 1000000)
  then Ok (<[key := mkValue (VString value) (Some (now + ttl * 1000000))]> d)
  else UB.

Definition get (now : Z) (key : bytes) (d : Data) : expected bytes * Data :=
  match d !! key with
  | None => (Unexpected key_not_found, d)
  | Some sv =>
      if is_expired now sv then (Unexpected key_not_found, delete key d)
      else match value_ sv with
           | VString s => (Expected s, d)
           | _ => (Unexpected wrong_type, d)
           end
  end.

Definition incr (now : Z) (key : bytes) (d : Data) : expected Z * Data :=
  let d :=
    match d !! key with
    | Some sv => if is_expired now sv then delete key d else d
    | None => d
    end in
  match d !! key with
  | None => (Expected 1, <[key := mkValue (VString (to_string 1)) None]> d)
  | Some sv =>
      match value_ sv with
      | VString s =>
          match from_chars_llong s with
          | FcOk val [] =>
              if val =? LLONG_MAX then (Unexpected not_an_integer, d)
              else (Expected (val + 1), <[key := set_value sv (VString (to_string (val + 1)))]> d)
          | _ => (Unexpected not_an_integer, d)
          end
      | _ => (Unexpected not_an_integer, d)
      end
  end.

(** ** Abstract view

    What a client may observe: the value of a key that has not expired. *)

Definition live (now : Z) (d : Data) (key : bytes) : option StoreValue :=
  match d !! key with
  | Some sv => if is_expired now sv then None else Some sv
  | None => None
  end.

Lemma live_insert_eq now key sv d :
  is_expired now sv = false → live now (<[key := sv]> d) key = Some sv.
Proof. intros H. unfold live. by rewrite lookup_insert_eq, H. Qed.

Lemma live_insert_ne now key key' sv d :
  key ≠ key' → live now (<[key := sv]> d) key' = live now d key'.
Proof. intros H. unfold live. by rewrite lookup_insert_ne. Qed.

Lemma live_delete_ne now key key' d :
  key ≠ key' → live now (delete key d) key' = live now d key'.
Proof. intros H. unfold live. by rewrite lookup_delete_ne. Qed.

Lemma live_delete_expired now key key' sv d :
  d !! key = Some sv → is_expired now sv = true →
  live now (delete key d) key' = live now d key'.
Proof.
  intros Hk He. destruct (decide (key = key')) as [->|]; [|by apply live_delete_ne].
  unfold live. by rewrite lookup_delete_eq, Hk, He.
Qed.

(** Expiry only ever removes keys as time passes. *)
Lemma live_antitone now now' d key sv :
  now ≤ now' → live now' d key = Some sv → live now d key = Some sv.
Proof.
  unfold live, is_expired. intros Hle. destruct (d !! key) as [sv'|]; [|done].
  destruct (expires_at_ sv') as [t|]; [|done].
  destruct (Z.ltb_spec t now'), (Z.ltb_spec t now); done || lia.
Qed.

#[export] Hint Rewrite live_insert_ne live_delete_ne using done : redis_rw.

(** A call touches no other key of the map. *)
Definition frames (key : bytes) (d d' : Data) : Prop :=
  ∀ key', key' ≠ key → d' !! key' = d !! key'.

Lemma frames_insert key sv d : frames key d (<[key := sv]> d).
Proof. intros k Hk. by rewrite lookup_insert_ne. Qed.

Lemma frames_delete key d : frames key d (delete key d).
Proof. intros k Hk. by rewrite lookup_delete_ne. Qed.

Lemma frames_refl key d : frames key d d.
Proof. done. Qed.

Lemma frames_trans key d1 d2 d3 : frames key d1 d2 → frames key d2 d3 → frames key d1 d3.
Proof. intros H1 H2 k Hk. by rewrite H2, H1. Qed.

#[export] Hint Resolve frames_insert frames_delete frames_refl : redis.

Lemma get_frames now key d : frames key d (snd (get now key d)).
Proof. unfold get. repeat case_match; simpl; auto with redis. Qed.

Lemma incr_frames now key d : frames key d (snd (incr now key d)).
Proof.
  unfold incr. intros k Hk.
  repeat (case_match; simpl; rewrite ?lookup_insert_ne, ?lookup_delete_ne by done); done.
Qed.

(** INCR first drops an expired value, so it acts on the live one. *)
Lemma incr_live now key d sv s :
  live now d key = Some sv → value_ sv = VString s →
  incr now key d =
    match from_chars_llong s with
    | FcOk val [] =>
        if val =? LLONG_MAX then (Unexpected not_an_integer, d)
        else (Expected (val + 1), <[key := set_value sv (VString (to_string (val + 1)))]> d)
    | _ => (Unexpected not_an_integer, d)
    end.
Proof.
  unfold live, incr. destruct (d !! key) as [sv'|] eqn:Hk; [|done].
  destruct (is_expired now sv') eqn:He; [done|]. intros [= ->] Hs. by rewrite Hk, Hs.
Qed.

Lemma incr_absent now key d :
  live now d key = None →
  fst (incr now key d) = Expected 1 ∧
  snd (incr now key d) !! key = Some (mkValue (VString (to_string 1)) None).
Proof.
  unfold live, incr. destruct (d !! key) as [sv|] eqn:Hk.
  - destruct (is_expired now sv); [|done]. intros _. rewrite lookup_delete_eq. simpl.
    by rewrite lookup_insert_eq.
  - intros _. rewrite Hk. simpl. by rewrite lookup_insert_eq.
Qed.

Lemma from_chars_llong_to_string v :
  LLONG_MIN ≤ v ≤ LLONG_MAX → from_chars_llong (to_string v) = FcOk v [].
Proof.
  intros Hv. unfold from_chars_llong. rewrite <- (app_nil_r (to_string v)).
  apply from_chars_to_string; auto with redis.
  apply andb_true_intro. split; apply Z.leb_le; lia.
Qed.

(** ** Properties *)

(** GET is the abstract lookup: it answers from the live value, and its lazy
    deletion is invisible at any key and any later time. *)
Theorem get_observes_live (now : Z) (key : bytes) (d : Data) :
  fst (get now key d) =
    match live now d key with
    | None => Unexpected key_not_found
    | Some sv => match value_ sv with VString s => Expected s | _ => Unexpected wrong_type end
    end ∧
  (∀ now' key', now ≤ now' → live now' (snd (get now key d)) key' = live now' d key').
Proof.
  unfold get, live at 1. destruct (d !! key) as [sv|] eqn:Hk; [|done].
  destruct (is_expired now sv) eqn:He; [|by destruct (value_ sv)].
  split; [done|]. intros now' key' Hle. simpl.
  apply (live_delete_expired _ _ _ sv); [done|].
  revert He. unfold is_expired. destruct (expires_at_ sv); [|done]. intros. bool_prop.
  apply Z.ltb_lt. lia.
Qed.

(** A value SET with a TTL is read back at every time up to its deadline,
    inclusively, and never after it; one SET without a TTL is read back at
    every time. *)
Theorem set_get_until_deadline (now now' ttl : Z) (key value : bytes) (d d' : Data)
    (Hset : set_ttl now key value ttl d = Ok d') :
  get now' key d' =
    (if now + ttl * 1000000 <? now' then (Unexpected key_not_found, delete key d')
     else (Expected value, d')) ∧
  get now' key (set key value d) = (Expected value, set key value d).
Proof.
  unfold set_ttl in Hset. destruct (_ && _); [|done]. injection Hset as <-.
  unfold get, set. by rewrite !lookup_insert_eq.
Qed.

Lemma set_get_until_deadline_witness :
  fst (get 5000000 (b "k") (<[b "k" := mkValue (VString (b "v")) (Some 5000000)]> ∅)) = Expected (b "v") ∧
  fst (get 5000001 (b "k") (<[b "k" := mkValue (VString (b "v")) (Some 5000000)]> ∅)) =
    Unexpected key_not_found.
Proof.
  split.
  - exact (f_equal fst (proj1 (set_get_until_deadline 0 5000000 5 (b "k") (b "v") ∅ _ eq_refl))).
  - exact (f_equal fst (proj1 (set_get_until_deadline 0 5000001 5 (b "k") (b "v") ∅ _ eq_refl))).
Defined.

(** INCR on every branch: an absent or expired key counts from 0, a decimal
    below the 64-bit maximum goes up by one and keeps its deadline, the maximum
    is refused without wrapping, and any other text or type is refused; a
    refusal stores nothing. *)
Theorem incr_spec (now : Z) (key : bytes) (d : Data) :
  match live now d key with
  | None =>
      fst (incr now key d) = Expected 1 ∧
      live now (snd (incr now key d)) key = Some (mkValue (VString (b "1")) None)
  | Some sv =>
      match value_ sv with
      | VString s =>
          match from_chars_llong s with
          | FcOk v [] =>
              if v <? LLONG_MAX then
                fst (incr now key d) = Expected (v + 1) ∧
                live now (snd (incr now key d)) key = Some (mkValue (VString (to_string (v + 1))) (expires_at_ sv)) ∧
                from_chars_llong (to_string (v + 1)) = FcOk (v + 1) []
              else incr now key d = (Unexpected not_an_integer, d)
          | _ => incr now key d = (Unexpected not_an_integer, d)
          end
      | _ => incr now key d = (Unexpected not_an_integer, d)
      end
  end.
Proof.
  destruct (live now d key) as [sv|] eqn:Hl.
  2:{ destruct (incr_absent now key d Hl) as [-> H]. split; [done|]. unfold live. by rewrite H. }
  destruct (value_ sv) as [s|l|st] eqn:Hv.
  - pose proof (incr_live now key d sv s Hl Hv) as Hi.
    destruct (from_chars_llong s) as [v [|c r]| |r] eqn:Hc; try done.
    assert (LLONG_MIN ≤ v ≤ LLONG_MAX) as Hr.
    { revert Hc. unfold from_chars_llong, from_chars. intros. repeat split_match; try done;
        simplify_eq; unfold in_range in *; by bool_prop. }
    destruct (Z.ltb_spec v LLONG_MAX), (Z.eqb_spec v LLONG_MAX); try lia; [|done].
    rewrite Hi. simpl. split_and!; [done| |apply from_chars_llong_to_string; lia].
    apply live_insert_eq. unfold live in Hl. destruct (d !! key) as [sv'|]; [|done].
    destruct (is_expired now sv') eqn:He; [done|]. by injection Hl as ->.
  - revert Hl. unfold live, incr. destruct (d !! key) eqn:Hk; [|done].
    destruct (is_expired _ _); [done|]. intros [= ->]. by rewrite Hk, Hv.
  - revert Hl. unfold live, incr. destruct (d !! key) eqn:Hk; [|done].
    destruct (is_expired _ _); [done|]. intros [= ->]. by rewrite Hk, Hv.
Qed.
