(* ===== verification/ListStore.v ===== *)
(** * List values

    Models src/store/impl/ListStore.cpp: RPUSH, LPUSH, LRANGE with its index
    resolution, LLEN and LPOP on [std::deque<std::string>] values.  None of
    them looks at the expiry time, and the pushes turn a value of another type
    into an empty list first, as the code does. *)

From S2P Require Import Prelude StoreValue StringStore.

Record ListRange := mkRange {
  start : Z;
  stop : Z;
  range_valid : bool;
}.

Definition resolve_list_indices (start stop size : Z) : ListRange :=
  let start := if start <? 0 then Z.max 0 (start + size) else start in
  let stop := if stop <? 0 then stop + size else stop in
  if (size <=? start) || (stop <? start) then mkRange 0 0 false
  else mkRange start (Z.min stop (size - 1)) true.

(** The deque at [key] that the pushes extend. *)
Definition as_list (sv : StoreValue) : list bytes :=
  match value_ sv with
  | VList l => l
  | _ => []
  end.

Definition rpush (key : bytes) (values : list bytes) (d : Data) : Z * Data :=
  let store_val := at_or_default d key in
  let l := fold_left (λ l value, l ++ [value]) values (as_list store_val) in
  (zlen l, <[key := set_value store_val (VList l)]> d).

Definition lpush (key : bytes) (values : list bytes) (d : Data) : Z * Data :=
  let store_val := at_or_default d key in
  let l := fold_left (λ l value, value :: l) values (as_list store_val) in
  (zlen l, <[key := set_value store_val (VList l)]> d).

Definition lrange (key : bytes) (start_ stop_ : Z) (d : Data) : list bytes :=
  match d !! key with
  | None => []
  | Some sv =>
      match value_ sv with
      | VList l =>
          let range := resolve_list_indices start_ stop_ (zlen l) in
          if range_valid range then
            take (Z.to_nat (stop range + 1 - start range)) (drop (Z.to_nat (start range)) l)
          else []
      | _ => []
      end
  end.

Definition llen (key : bytes) (d : Data) : Z :=
  match d !! key with
  | None => 0
  | Some sv => match value_ sv with VList l => zlen l | _ => 0 end
  end.

Definition lpop (key : bytes) (count : Z) (d : Data) : expected (list bytes) * Data :=
  match d !! key with
  | None => (Unexpected key_not_found, d)
  | Some sv =>
      match value_ sv with
      | VList l =>
          let popCount := Z.to_nat (Z.min count (zlen l)) in
          let l' := drop popCount l in
          (Expected (take popCount l),
           match l' with
           | [] => delete key d
           | _ => <[key := set_value sv (VList l')]> d
           end)
      | _ => (Unexpected wrong_type, d)
      end
  end.

(** ** Invariant: a stored list is never empty *)

Definition lists_nonempty (d : Data) : Prop :=
  ∀ (k : bytes) sv, d !! k = Some sv → value_ sv ≠ VList [].

Lemma lists_nonempty_empty : lists_nonempty ∅.
Proof. intros k sv. by rewrite lookup_empty. Qed.

Lemma lists_nonempty_insert d key sv :
  value_ sv ≠ VList [] → lists_nonempty d → lists_nonempty (<[key := sv]> d).
Proof. intros Hsv Hd k sv' [[-> <-]|[_ Hk]]%lookup_insert_Some; eauto. Qed.

Lemma lists_nonempty_delete d key : lists_nonempty d → lists_nonempty (delete key d).
Proof. intros Hd k sv' [_ Hk]%lookup_delete_Some; eauto. Qed.

#[export] Hint Resolve lists_nonempty_empty lists_nonempty_insert lists_nonempty_delete : redis.

Lemma fold_snoc {A} (values l : list A) : fold_left (λ l value, l ++ [value]) values l = l ++ values.
Proof.
  revert l. induction values as [|v values IH]; intros l; simpl; [by rewrite app_nil_r|].
  by rewrite IH, <- app_assoc.
Qed.

Lemma fold_cons {A} (values l : list A) : fold_left (λ l value, value :: l) values l = reverse values ++ l.
Proof.
  revert l. induction values as [|v values IH]; intros l; simpl; [done|].
  by rewrite IH, reverse_cons, <- app_assoc.
Qed.

Lemma rpush_eq key values d :
  let l := as_list (at_or_default d key) ++ values in
  rpush key values d = (zlen l, <[key := set_value (at_or_default d key) (VList l)]> d).
Proof. unfold rpush. by rewrite fold_snoc. Qed.

Lemma lpush_eq key values d :
  let l := reverse values ++ as_list (at_or_default d key) in
  lpush key values d = (zlen l, <[key := set_value (at_or_default d key) (VList l)]> d).
Proof. unfold lpush. by rewrite fold_cons. Qed.

Lemma lpop_list key count d sv l :
  d !! key = Some sv → value_ sv = VList l → 0 ≤ count →
  let n := Z.to_nat count in
  lpop key count d =
    (Expected (take n l),
     match drop n l with [] => delete key d | l' => <[key := set_value sv (VList l')]> d end).
Proof.
  intros Hk Hv Hc. unfold lpop. rewrite Hk, Hv. simpl.
  destruct (Z.min_spec count (zlen l)) as [[_ ->]|[Hle ->]];
    [by destruct (drop _ l)|].
  unfold zlen in *. rewrite Nat2Z.id, !take_ge, !drop_ge by lia. done.
Qed.

Lemma lpop_preserves_nonempty key count d :
  lists_nonempty d → lists_nonempty (snd (lpop key count d)).
Proof.
  intros Hd. unfold lpop. destruct (d !! key) as [sv|] eqn:Hk; [|done].
  destruct (value_ sv); simpl; [done| |done].
  destruct (drop _ _) eqn:E; auto with redis.
Qed.

Lemma rpush_preserves_nonempty key values d :
  values ≠ [] → lists_nonempty d → lists_nonempty (snd (rpush key values d)).
Proof.
  intros Hv Hd. rewrite rpush_eq. simpl. apply lists_nonempty_insert; [|done].
  simpl. intros [= E]. by apply app_nil in E as [_ ->].
Qed.

Lemma lpush_preserves_nonempty key values d :
  values ≠ [] → lists_nonempty d → lists_nonempty (snd (lpush key values d)).
Proof.
  intros Hv Hd. rewrite lpush_eq. simpl. apply lists_nonempty_insert; [|done].
  simpl. intros [= E]. apply app_nil in E as [E _].
  apply (f_equal reverse) in E. by rewrite reverse_involutive in E.
Qed.

(** Under the invariant a successful pop of at least one element returns one. *)
Lemma lpop_nonempty key count d vs :
  lists_nonempty d → 0 < count → fst (lpop key count d) = Expected vs → vs ≠ [].
Proof.
  intros Hd Hc. unfold lpop. destruct (d !! key) as [sv|] eqn:Hk; [|done].
  specialize (Hd key sv Hk). destruct (value_ sv) as [|l|]; simpl; try done.
  intros [= <-]. destruct l as [|x l]; [done|].
  destruct (Z.to_nat (Z.min count (zlen (x :: l)))) eqn:E; [|done].
  unfold zlen in E. simpl in E. lia.
Qed.

(** ** LRANGE against its specification *)

(** The index an integer denotes: negative ones count from the end. *)
Definition index_of (size i : Z) : Z := if i <? 0 then i + size else i.

(** The elements at the positions between the two denoted indices, with no
    clamping: positions outside the list simply do not exist. *)
Definition lrange_spec (l : list bytes) (start stop : Z) : list bytes :=
  let size := zlen l in
  map snd (filter (λ '(i, _), index_of size start ≤ Z.of_nat i ≤ index_of size stop)
                  (imap pair l)).

Lemma filter_imap_segment {A} (l : list A) (off : nat) (lo hi : Z) :
  map snd (filter (λ '(i, _), lo ≤ Z.of_nat i ≤ hi) (imap (λ i x, ((off + i)%nat, x)) l)) =
  take (Z.to_nat (hi + 1 - Z.max lo (Z.of_nat off))) (drop (Z.to_nat (lo - Z.of_nat off)) l).
Proof.
  revert off. induction l as [|x l IH]; intros off; [by rewrite drop_nil, take_nil|].
  rewrite imap_cons, Nat.add_0_r, filter_cons.
  assert (imap ((λ i y, ((off + i)%nat, y)) ∘ S) l = imap (λ i y, ((S off + i)%nat, y)) l) as E.
  { apply imap_ext. intros. simpl. f_equal. lia. }
  rewrite E. destruct (decide (lo ≤ Z.of_nat off ≤ hi)) as [Hin|Hout].
  - cbn [map snd]. rewrite IH.
    replace (Z.to_nat (lo - Z.of_nat off)) with 0%nat by lia.
    replace (Z.to_nat (lo - Z.of_nat (S off))) with 0%nat by lia.
    replace (Z.to_nat (hi + 1 - Z.max lo (Z.of_nat off)))
      with (S (Z.to_nat (hi + 1 - Z.max lo (Z.of_nat (S off))))) by lia.
    done.
  - rewrite IH. destruct (decide (lo ≤ Z.of_nat off)) as [Hlo|Hlo].
    + replace (Z.to_nat (hi + 1 - Z.max lo (Z.of_nat off))) with 0%nat by lia.
      replace (Z.to_nat (hi + 1 - Z.max lo (Z.of_nat (S off)))) with 0%nat by lia. done.
    + replace (Z.to_nat (lo - Z.of_nat off)) with (S (Z.to_nat (lo - Z.of_nat (S off)))) by lia.
      replace (Z.max lo (Z.of_nat off)) with (Z.max lo (Z.of_nat (S off))) by lia. done.
Qed.

Lemma lrange_spec_segment l start stop :
  lrange_spec l start stop =
  let lo := index_of (zlen l) start in
  take (Z.to_nat (index_of (zlen l) stop + 1 - Z.max lo 0)) (drop (Z.to_nat lo) l).
Proof.
  unfold lrange_spec. rewrite <- (imap_ext (λ i x, ((0 + i)%nat, x)) pair) by done.
  rewrite filter_imap_segment. by rewrite Z.sub_0_r.
Qed.

Lemma resolve_segment (l : list bytes) start_ stop_ :
  (let range := resolve_list_indices start_ stop_ (zlen l) in
   if range_valid range then
     take (Z.to_nat (stop range + 1 - start range)) (drop (Z.to_nat (start range)) l)
   else []) = lrange_spec l start_ stop_.
Proof.
  rewrite lrange_spec_segment. unfold resolve_list_indices, index_of. simpl.
  set (lo := if start_ <? 0 then start_ + zlen l else start_).
  set (hi := if stop_ <? 0 then stop_ + zlen l else stop_).
  assert ((if start_ <? 0 then Z.max 0 (start_ + zlen l) else start_) = Z.max lo 0) as ->.
  { unfold lo. destruct (Z.ltb_spec start_ 0); lia. }
  replace (Z.to_nat lo) with (Z.to_nat (Z.max lo 0)) by lia. set (lo' := Z.max lo 0).
  destruct (Z.leb_spec (zlen l) lo') as [Hge|Hlt]; simpl.
  { rewrite drop_ge by (unfold zlen in Hge; lia). by rewrite take_nil. }
  destruct (Z.ltb_spec hi lo') as [Hgt|Hle]; simpl.
  { by replace (Z.to_nat (hi + 1 - lo')) with 0%nat by lia. }
  destruct (Z.min_spec hi (zlen l - 1)) as [[_ ->]|[Hmin ->]]; [done|].
  unfold zlen in *. rewrite !take_ge; [done|rewrite length_drop; lia..].
Qed.

Lemma lrange_correct_aux (key : bytes) (start_ stop_ : Z) (d : Data) :
  lrange key start_ stop_ d =
    match d !! key with
    | Some (mkValue (VList l) _) => lrange_spec l start_ stop_
    | _ => []
    end.
Proof.
  unfold lrange. destruct (d !! key) as [[[s|l|st] e]|]; [done| |done..]. simpl.
  apply resolve_segment.
Qed.

Lemma lpop_frames key count d : frames key d (lpop key count d).2.
Proof. unfold lpop. repeat case_match; simpl; auto with redis. Qed.

(** ** Properties *)

(** C37. LRANGE, with its clamping, is the reference: the elements whose position
    lies between the two denoted indices; a missing key or another type is the
    empty list. *)
Theorem lrange_correct (key : bytes) (start_ stop_ : Z) (d : Data) :
  lrange key start_ stop_ d =
    match d !! key with
    | Some (mkValue (VList l) _) => lrange_spec l start_ stop_
    | _ => []
    end.
Proof. apply lrange_correct_aux. Qed.

(** The list is a queue: what RPUSH appends comes out of LPOP behind what was
    there, LPUSH reverses its arguments in front, LPOP returns the first
    [count] elements and keeps the rest, and the key disappears exactly when
    nothing is left. *)
Theorem push_pop_queue (key : bytes) (values : list bytes) (count : Z) (d : Data)
    (Hcount : 0 ≤ count) :
  let l := as_list (at_or_default d key) in
  let n := Z.to_nat count in
  let dr := snd (rpush key values d) in
  let dl := snd (lpush key values d) in
  fst (rpush key values d) = zlen (l ++ values) ∧
  fst (lpop key count dr) = Expected (take n (l ++ values)) ∧
  lrange key 0 (-1) (snd (lpop key count dr)) = drop n (l ++ values) ∧
  (snd (lpop key count dr) !! key = None ↔ drop n (l ++ values) = []) ∧
  fst (lpush key values d) = zlen (reverse values ++ l) ∧
  fst (lpop key count dl) = Expected (take n (reverse values ++ l)).
Proof.
  intros l n dr dl. unfold dr, dl. rewrite rpush_eq, lpush_eq. cbn [fst snd].
  rewrite !(lpop_list key count _ (set_value (at_or_default d key) (VList _)) _
    (lookup_insert_eq _ _ _) eq_refl Hcount). cbn [fst snd]. fold n l.
  assert (∀ l', lrange_spec l' 0 (-1) = l') as Hall.
  { intros l'. rewrite lrange_spec_segment. unfold index_of. simpl.
    apply take_ge. unfold zlen. lia. }
  split_and!; try done.
  - rewrite lrange_correct_aux. destruct (drop n (l ++ values)) eqn:E;
      [by rewrite lookup_delete_eq|]. rewrite lookup_insert_eq. simpl. apply Hall.
  - destruct (drop n (l ++ values)) eqn:E; [by rewrite lookup_delete_eq|].
    by rewrite lookup_insert_eq.
Qed.

Lemma push_pop_queue_witness :
  fst (lpop (b "k") 2 (snd (rpush (b "k") [b "x"; b "y"; b "z"] ∅))) = Expected [b "x"; b "y"].
Proof.
  exact (proj1 (proj2 (push_pop_queue (b "k") [b "x"; b "y"; b "z"] 2 ∅ ltac:(discriminate)))).
Defined.
