(* ===== verification/StreamStore.v ===== *)
(** * Stream values

    Models src/store/impl/StreamStore.cpp: XADD, XRANGE and XREAD.  XADD returns
    the map together with its outcome, because the map may already have
    changed (a stream created) when an exception is turned into an error reply
    or escapes. *)

From stdpp Require Import sorting.
From S2P Require Import Prelude CharConv StreamId StoreValue StringStore.

Definition as_stream (sv : StoreValue) : Stream :=
  match value_ sv with
  | VStream s => s
  | _ => mkStream []
  end.

Definition last_entry_id (stream : Stream) : bytes :=
  match last (entries stream) with
  | Some e => entry_id e
  | None => []
  end.

Definition is_stream (sv : StoreValue) : bool :=
  match value_ sv with VStream _ => true | _ => false end.

Definition xadd (now : Z) (key stream_id : bytes) (flds : list (bytes * bytes)) (d : Data)
    : Data * outcome (expected bytes) :=
  if match d !! key with Some sv => negb (is_stream sv) | None => false end
  then (d, Ok (Unexpected wrong_type))
  else
    let store_val := at_or_default d key in
    let stream := as_stream store_val in
    let d := <[key := set_value store_val (VStream stream)]> d in
    match generate_stream_id now stream_id (last_entry_id stream) with
    | Ok new_id =>
        let stream' := mkStream (entries stream ++ [mkEntry new_id flds]) in
        (<[key := set_value store_val (VStream stream')]> d, Ok (Expected new_id))
    | Throw (InvalidArgument what) => (d, Ok (Unexpected (b "-ERR " ++ what)))
    | Throw e => (d, Throw e)
    | UB => (d, UB)
    | NoFuel => (d, NoFuel)
    end.

(** [a.ms > b.ms || (a.ms == b.ms && a.seq > b.seq)]. *)
Definition bound_gt (x y : StreamBoundParts) : bool :=
  (bound_ms y <? bound_ms x) || ((bound_ms x =? bound_ms y) && (bound_seq y <? bound_seq x)).

(** [a.ms > b.ms || (a.ms == b.ms && a.seq >= b.seq)]. *)
Definition bound_ge (x y : StreamBoundParts) : bool :=
  (bound_ms y <? bound_ms x) || ((bound_ms x =? bound_ms y) && (bound_seq y <=? bound_seq x)).

Fixpoint xrange_loop (start_bound end_bound : StreamBoundParts) (es : list StreamEntry)
    : outcome (list StreamEntry) :=
  match es with
  | [] => Ok []
  | entry :: es =>
      let! entry_bound := parse_stream_bound (entry_id entry) true in
      if bound_gt entry_bound end_bound then Ok []
      else
        let! result := xrange_loop start_bound end_bound es in
        Ok (if bound_ge entry_bound start_bound then entry :: result else result)
  end.

Definition xrange (key start_ end_ : bytes) (d : Data) : outcome (list StreamEntry) :=
  match d !! key with
  | None => Ok []
  | Some sv =>
      match value_ sv with
      | VStream stream =>
          let! start_bound := parse_stream_bound start_ true in
          let! end_bound := parse_stream_bound end_ false in
          xrange_loop start_bound end_bound (entries stream)
      | _ => Ok []
      end
  end.

Fixpoint xread_entries (target_bound : StreamBoundParts) (es : list StreamEntry)
    : outcome (list StreamEntry) :=
  match es with
  | [] => Ok []
  | entry :: es =>
      let! entry_bound := parse_stream_bound (entry_id entry) true in
      let! result := xread_entries target_bound es in
      Ok (if bound_gt entry_bound target_bound then entry :: result else result)
  end.

(** [ids.at(i)] throws when there are fewer ids than keys. *)
Fixpoint xread (keys ids : list bytes) (d : Data)
    : outcome (list (bytes * list StreamEntry)) :=
  match keys, ids with
  | [], _ => Ok []
  | _ :: _, [] => Throw (OutOfRange (b "vector::_M_range_check"))
  | streamKey :: keys, streamId :: ids =>
      let! target_bound := parse_stream_bound streamId true in
      match d !! streamKey with
      | Some (mkValue (VStream stream) _) =>
          let! es := xread_entries target_bound (entries stream) in
          let! result := xread keys ids d in
          Ok (match es with [] => result | _ => (streamKey, es) :: result end)
      | _ => xread keys ids d
      end
  end.

(** ** Invariant: ids are canonical, in range and strictly increasing *)

Definition pair_lt (p q : Z * Z) : Prop := id_lt p.1 p.2 q.1 q.2.

#[export] Instance pair_lt_trans : Transitive pair_lt.
Proof. intros [] [] []. unfold pair_lt, id_lt. simpl. lia. Qed.

Definition stream_ids (stream : Stream) (ids : list (Z * Z)) : Prop :=
  map entry_id (entries stream) = map (λ p, format_id p.1 p.2) ids ∧
  Forall (λ p, id_in_range p.1 p.2) ids ∧
  StronglySorted pair_lt ids.

Definition stream_ok (stream : Stream) : Prop := ∃ ids, stream_ids stream ids.

Definition streams_ok (d : Data) : Prop :=
  ∀ (key : bytes) sv stream, d !! key = Some sv → value_ sv = VStream stream → stream_ok stream.

(** The XADD patterns whose numbers survive the conversion to [long long]. *)
Definition pattern_in_range (now : Z) (pat : bytes) : Prop :=
  ∀ parts, parse_stream_id now pat = Ok parts →
    0 ≤ ms parts ≤ LLONG_MAX ∧ 0 ≤ seq parts ≤ LLONG_MAX.

Lemma stream_ids_nil : stream_ids (mkStream []) [].
Proof. split_and!; [done|by constructor|by constructor]. Qed.

Lemma stream_ids_last stream ids :
  stream_ids stream ids →
  last_entry_id stream = match last ids with Some p => format_id p.1 p.2 | None => [] end.
Proof.
  intros (Hmap & _ & _). unfold last_entry_id.
  pose proof (f_equal last Hmap) as H. rewrite !fmap_last in H.
  destruct (last (entries stream)), (last ids); simpl in H; congruence.
Qed.

Lemma in_range_last (ids : list (Z * Z)) p :
  Forall (λ p, id_in_range p.1 p.2) ids → last ids = Some p → id_in_range p.1 p.2.
Proof. intros Hall Hl. rewrite Forall_forall in Hall. by apply Hall, last_Some_elem_of. Qed.

Lemma parse_last_entry stream ids :
  stream_ids stream ids →
  parse_last_id (last_entry_id stream) =
    Ok (match last ids with Some p => mkLast p.1 p.2 true | None => mkLast 0 0 false end).
Proof.
  intros Hs. rewrite (stream_ids_last _ _ Hs). destruct Hs as (_ & Hr & _).
  destruct (last ids) as [p|] eqn:E; [|done].
  by apply parse_last_format, (in_range_last ids).
Qed.

Lemma sorted_below_last {A} (R : relation A) (l : list A) q x :
  StronglySorted R l → last l = Some q → x ∈ l → x = q ∨ R x q.
Proof.
  intros Hs [l' ->]%last_Some Hx. apply elem_of_app in Hx as [Hx|Hx].
  - right. eapply StronglySorted_app_1_elem_of; [done|done|by apply list_elem_of_singleton].
  - left. by apply list_elem_of_singleton in Hx.
Qed.

Lemma stream_ids_snoc stream ids p flds :
  stream_ids stream ids → id_in_range p.1 p.2 →
  (∀ q, last ids = Some q → pair_lt q p) →
  stream_ids (mkStream (entries stream ++ [mkEntry (format_id p.1 p.2) flds])) (ids ++ [p]) ∧
  (∀ q, q ∈ ids → pair_lt q p).
Proof.
  intros (Hmap & Hr & Hs) Hp Hlast.
  assert (∀ q, q ∈ ids → pair_lt q p) as Hbelow.
  { intros q Hq. destruct (last ids) as [x|] eqn:E.
    - destruct (sorted_below_last _ _ _ _ Hs E Hq) as [->|?]; [auto|].
      etrans; [done|auto].
    - apply last_None in E. subst. by apply elem_of_nil in Hq. }
  split; [|done]. split_and!.
  - simpl. by rewrite !map_app, Hmap.
  - apply Forall_app. split; [done|]. by constructor.
  - apply StronglySorted_app_2; [|done|by repeat constructor].
    intros x y Hx ->%list_elem_of_singleton. auto.
Qed.

Lemma resolve_seq_range parts last s :
  0 ≤ seq parts ≤ LLONG_MAX → (valid last = true → 0 ≤ last_seq last) →
  resolve_seq parts last = Ok s → 0 ≤ s ≤ LLONG_MAX.
Proof.
  intros Hseq Hlast. unfold resolve_seq. destruct (auto_seq parts); simpl; [|by intros [= <-]].
  destruct (valid last); simpl.
  - destruct (_ =? _).
    + destruct (fits_i64 _) eqn:E; [|done]. intros [= <-]. unfold fits_i64, in_range in E.
      bool_prop. specialize (Hlast eq_refl). lia.
    + destruct (_ =? _); intros [= <-]; limits; lia.
  - destruct (_ =? _); intros [= <-]; limits; lia.
Qed.

(** The id that XADD generates on a well-formed stream. *)
Lemma generate_on_stream now pat stream ids new_id :
  stream_ids stream ids → pattern_in_range now pat →
  generate_stream_id now pat (last_entry_id stream) = Ok new_id →
  ∃ p : Z * Z, new_id = format_id p.1 p.2 ∧ id_in_range p.1 p.2 ∧ p ≠ (0, 0) ∧
    (∀ q, last ids = Some q → pair_lt q p).
Proof.
  intros Hs Hpat H. apply generate_ok in H as (parts & la & s & Hp & Hl & Hr & -> & Hnz & Hlt).
  rewrite (parse_last_entry _ _ Hs) in Hl. injection Hl as <-.
  destruct (Hpat parts Hp) as [Hms Hseq].
  exists (ms parts, s). simpl. split_and!; [done| | |].
  - split; [done|]. eapply resolve_seq_range; [done| |done].
    destruct (last ids) as [q|] eqn:E; [|done]. intros _. simpl.
    destruct Hs as (_ & Hall & _). destruct (in_range_last ids q Hall E). lia.
  - intros [= ? ?]. lia.
  - intros q Hq. rewrite Hq in Hlt. by apply Hlt.
Qed.

(** What XADD leaves at the key: the extended stream, or what was there. *)
Lemma xadd_state now key pat flds d d' r :
  xadd now key pat flds d = (d', r) →
  frames key d d' ∧
  match r with
  | Ok (Expected new_id) =>
      generate_stream_id now pat (last_entry_id (as_stream (at_or_default d key))) = Ok new_id ∧
      d' !! key = Some (set_value (at_or_default d key)
        (VStream (mkStream (entries (as_stream (at_or_default d key)) ++ [mkEntry new_id flds]))))
  | _ => d' = d ∨
      (d' !! key = Some (set_value (at_or_default d key) (VStream (as_stream (at_or_default d key)))) ∧
       as_stream (at_or_default d key) = as_stream (at_or_default d' key))
  end.
Proof.
  unfold xadd. destruct (match d !! key with Some _ => _ | None => _ end) eqn:E.
  { intros [= <- <-]. auto with redis. }
  assert (∀ d0 : Data, d0 = <[key:=set_value (at_or_default d key) (VStream (as_stream (at_or_default d key)))]> d →
    d0 !! key = Some (set_value (at_or_default d key) (VStream (as_stream (at_or_default d key)))) ∧
    as_stream (at_or_default d key) = as_stream (at_or_default d0 key)) as Hsame.
  { intros d0 ->. by rewrite lookup_insert_eq, at_or_default_insert. }
  destruct (generate_stream_id _ _ _) as [new_id|[]| |]; intros [= <- <-];
    (split; [intros k Hk; by rewrite !lookup_insert_ne|]); auto.
  by rewrite lookup_insert_eq.
Qed.

Lemma xadd_streams_ok now key pat flds d :
  streams_ok d → pattern_in_range now pat → streams_ok (fst (xadd now key pat flds d)).
Proof.
  intros Hd Hpat k sv stream Hk Hv.
  destruct (xadd now key pat flds d) as [d' r] eqn:E. simpl in *.
  apply xadd_state in E as [Hf Hr].
  destruct (decide (k = key)) as [->|Hne]; [|rewrite Hf in Hk by done; by eapply Hd].
  assert (stream_ok (as_stream (at_or_default d key))) as [ids Hids].
  { unfold at_or_default, as_stream. destruct (d !! key) as [sv'|] eqn:Hk'; simpl;
      [|by exists []; apply stream_ids_nil].
    destruct (value_ sv') eqn:Hv'; [by exists []; apply stream_ids_nil..|by eapply Hd]. }
  assert (∀ s, d' !! key = Some (set_value (at_or_default d key) (VStream s)) → s = stream) as Hsame.
  { intros s Hs. rewrite Hs in Hk. injection Hk as <-. by injection Hv. }
  destruct r as [[new_id|e]|e| |].
  1: { destruct Hr as [Hg Hr]. apply Hsame in Hr as <-.
       destruct (generate_on_stream _ _ _ _ _ Hids Hpat Hg) as (p & -> & Hp & _ & Hlast).
       exists (ids ++ [p]). by apply stream_ids_snoc. }
  all: destruct Hr as [->|[Hr _]]; [by eapply Hd|apply Hsame in Hr as <-; by exists ids].
Qed.

(** ** XRANGE and XREAD select by id *)

(** [lo <= id <= hi], as the code compares bounds. *)
Definition entry_within (lo hi : StreamBoundParts) (e : StreamEntry) : bool :=
  match parse_stream_bound (entry_id e) true with
  | Ok bound => bound_ge bound lo && negb (bound_gt bound hi)
  | _ => false
  end.

Definition entry_after (target : StreamBoundParts) (e : StreamEntry) : bool :=
  match parse_stream_bound (entry_id e) true with
  | Ok bound => bound_gt bound target
  | _ => false
  end.

(** Entries with their ids, in increasing order. *)
Definition entries_ids (es : list StreamEntry) (ids : list (Z * Z)) : Prop :=
  map entry_id es = map (λ p, format_id p.1 p.2) ids ∧ Forall (λ p, id_in_range p.1 p.2) ids.

Lemma entries_ids_cons e es p ids :
  entries_ids (e :: es) (p :: ids) →
  parse_stream_bound (entry_id e) true = Ok (mkBound p.1 p.2) ∧ entries_ids es ids.
Proof.
  intros [[= He Hmap] Hr]. inversion Hr; subst. rewrite He, parse_bound_format by done. done.
Qed.

Lemma bound_gt_mono p q hi :
  pair_lt p q → bound_gt (mkBound p.1 p.2) hi = true → bound_gt (mkBound q.1 q.2) hi = true.
Proof.
  unfold pair_lt, id_lt, bound_gt. simpl. intros Hpq H. apply orb_true_iff.
  apply orb_true_iff in H as [H|H]; bool_prop.
  - left. apply Z.ltb_lt. lia.
  - destruct Hpq; [left; apply Z.ltb_lt; lia|right].
    apply andb_true_intro. split; [apply Z.eqb_eq|apply Z.ltb_lt]; lia.
Qed.

Lemma filter_beyond lo hi ids es :
  entries_ids es ids → Forall (λ q, bound_gt (mkBound q.1 q.2) hi = true) ids →
  List.filter (entry_within lo hi) es = [].
Proof.
  revert es. induction ids as [|q ids IH]; intros [|e es] Hids Hgt; simpl; try done;
    [by destruct Hids|].
  inversion Hgt as [|? ? Hq Hgt']; subst. apply entries_ids_cons in Hids as [He Hids].
  unfold entry_within at 1. rewrite He, Hq, andb_false_r. eauto.
Qed.

Lemma xrange_loop_filter lo hi ids es :
  entries_ids es ids → StronglySorted pair_lt ids →
  xrange_loop lo hi es = Ok (List.filter (entry_within lo hi) es).
Proof.
  revert es. induction ids as [|p ids IH]; intros [|e es] Hids Hs; simpl; try done;
    [by destruct Hids|].
  apply StronglySorted_cons in Hs as [Hall Hs]. apply entries_ids_cons in Hids as [He Hids].
  unfold entry_within at 1. rewrite He. simpl.
  destruct (bound_gt (mkBound p.1 p.2) hi) eqn:Hgt.
  - rewrite andb_false_r, (filter_beyond lo hi ids); [done..|].
    eapply Forall_impl; [exact Hall|]. intros q Hq. by eapply bound_gt_mono.
  - rewrite andb_true_r, IH by done. simpl. by destruct (bound_ge _ lo).
Qed.

Lemma xread_entries_filter t ids es :
  entries_ids es ids → xread_entries t es = Ok (List.filter (entry_after t) es).
Proof.
  revert es. induction ids as [|p ids IH]; intros [|e es] Hids; simpl; try done;
    [by destruct Hids|].
  apply entries_ids_cons in Hids as [He Hids].
  unfold entry_after at 1. rewrite He, IH by done. simpl. by destruct (bound_gt _ t).
Qed.

(** [- +] spans every id. *)
Lemma within_everything es ids :
  entries_ids es ids →
  List.filter (entry_within (mkBound 0 0) (mkBound LLONG_MAX ULLONG_MAX)) es = es.
Proof.
  revert es. induction ids as [|[m s] ids IH]; intros [|e es] Hids; simpl; try done;
    [by destruct Hids|].
  destruct (Forall_cons_1 _ _ _ (proj2 Hids)) as [[Hm Hs] _]. simpl in *.
  apply entries_ids_cons in Hids as [He Hids]. unfold entry_within at 1. rewrite He, (IH es) by done.
  replace (_ && _) with true; [done|]. symmetry. unfold bound_ge, bound_gt. simpl.
  destruct (Z.ltb_spec LLONG_MAX m); [lia|]. destruct (Z.ltb_spec ULLONG_MAX s); [limits; lia|].
  rewrite andb_false_r. simpl. rewrite andb_true_r.
  destruct (Z.ltb_spec 0 m); [done|]. simpl.
  destruct (Z.eqb_spec m 0); [|lia]. by destruct (Z.leb_spec 0 s); [|lia].
Qed.

Lemma stream_ok_entries stream : stream_ok stream → ∃ ids, entries_ids (entries stream) ids ∧ StronglySorted pair_lt ids.
Proof. intros (ids & Hm & Hr & Hs). exists ids. by split. Qed.

(** The stream at a key, if there is one. *)
Definition stream_at (d : Data) (key : bytes) : option Stream :=
  match d !! key with
  | Some (mkValue (VStream stream) _) => Some stream
  | _ => None
  end.

(** XREAD as a comprehension over the requested streams. *)
Definition xread_spec (d : Data) (requests : list (bytes * StreamBoundParts))
    : list (bytes * list StreamEntry) :=
  omap (λ '(key, target),
    match stream_at d key with
    | Some stream =>
        match List.filter (entry_after target) (entries stream) with
        | [] => None
        | es => Some (key, es)
        end
    | None => None
    end) requests.

Lemma xread_filter (keys ids : list bytes) (d : Data) (targets : list StreamBoundParts) :
  streams_ok d → length keys = length ids →
  Forall2 (λ i t, parse_stream_bound i true = Ok t) ids targets →
  xread keys ids d = Ok (xread_spec d (zip keys targets)).
Proof.
  intros Hd Hlen Hf. revert keys Hlen.
  induction Hf as [|i t ids targets Ht Hf IH]; intros [|k keys] Hlen; try done.
  cbn [xread zip zip_with xread_spec omap list_omap]. rewrite Ht. cbn [obind].
  injection Hlen as Hlen. specialize (IH keys Hlen). unfold xread_spec, zip in IH.
  unfold stream_at at 1. destruct (d !! k) as [[[s|l|stream] e]|] eqn:Hk; [exact IH..| |exact IH].
  destruct (stream_ok_entries stream) as (es_ids & Hids & _); [by eapply Hd|].
  rewrite (xread_entries_filter _ _ _ Hids). cbn [obind]. rewrite IH. cbn [obind].
  by destruct (List.filter _ _).
Qed.

(** ** Properties *)

(** C26. XADD with an id whose explicit numbers (and the clock, where it generates
    the milliseconds) lie between 0 and 2^63 - 1, on data whose streams have
    canonical, strictly increasing ids in that range: on success the new id is canonical, not
    0-0, strictly above every id of the stream, and the entry is appended; on
    an error reply the stream's entries are untouched.  Other keys never
    change, and well-formedness of all streams is preserved.  Ids outside the
    range, such as 1--1, are accepted by the code too: see
    [negative_seq_hides_entries]. *)
Theorem xadd_increasing (now : Z) (key pat : bytes) (flds : list (bytes * bytes)) (d : Data)
    (Hok : streams_ok d) (Hpat : pattern_in_range now pat) :
  let stream := as_stream (at_or_default d key) in
  let '(d', r) := xadd now key pat flds d in
  streams_ok d' ∧ frames key d d' ∧
  match r with
  | Ok (Expected new_id) =>
      as_stream (at_or_default d' key) = mkStream (entries stream ++ [mkEntry new_id flds]) ∧
      ∃ ids p, stream_ids stream ids ∧ new_id = format_id p.1 p.2 ∧ id_in_range p.1 p.2 ∧
        p ≠ (0, 0) ∧ ∀ q, q ∈ ids → pair_lt q p
  | _ => as_stream (at_or_default d' key) = stream
  end.
Proof.
  intros stream. pose proof (xadd_streams_ok now key pat flds d Hok Hpat) as Hok'.
  destruct (xadd now key pat flds d) as [d' r] eqn:E. simpl in *.
  apply xadd_state in E as [Hf Hr]. split_and!; [done..|].
  assert (stream_ok stream) as [ids Hids].
  { unfold stream, at_or_default, as_stream. destruct (d !! key) as [sv'|] eqn:Hk'; simpl;
      [|by exists []; apply stream_ids_nil].
    destruct (value_ sv') eqn:Hv'; [by exists []; apply stream_ids_nil..|by eapply Hok]. }
  destruct r as [[new_id|e]|e| |]; [|by destruct Hr as [->|[_ Heq]]; [|symmetry]..].
  destruct Hr as [Hg Hr]. split; [by rewrite (at_or_default_lookup _ _ _ Hr)|].
  destruct (generate_on_stream _ _ _ _ _ Hids Hpat Hg) as (p & Heq & Hp & Hnz & Hlast).
  exists ids, p. split_and!; [done..|].
  by eapply (stream_ids_snoc stream ids p flds).
Qed.

Lemma xadd_increasing_witness :
  streams_ok (fst (xadd 0 (b "s") (b "5-1") [] ∅)) ∧
  snd (xadd 0 (b "s") (b "5-1") [] ∅) = Ok (Expected (b "5-1")).
Proof.
  pose proof (xadd_increasing 0 (b "s") (b "5-1") [] ∅
    ltac:(by intros ???; rewrite lookup_empty)
    ltac:(intros parts [= <-]; vm_compute; intuition discriminate)) as H.
  split; [|reflexivity].
  destruct (xadd 0 (b "s") (b "5-1") [] ∅) as [d r]. exact (proj1 H).
Defined.

(** C28. On a stream whose ids are canonical, between 0 and 2^63 - 1 and strictly
    increasing, and for bounds that can be parsed, XRANGE, with its early
    [break], returns exactly the entries whose id lies between the two bounds, in
    order; [- +] returns the whole stream.  (With negative sequence numbers it
    does not: [negative_seq_hides_entries].) *)
Theorem xrange_selects (key start_ end_ : bytes) (d : Data) (stream : Stream)
    (lo hi : StreamBoundParts)
    (Hkey : stream_at d key = Some stream) (Hok : stream_ok stream)
    (Hlo : parse_stream_bound start_ true = Ok lo) (Hhi : parse_stream_bound end_ false = Ok hi) :
  xrange key start_ end_ d = Ok (List.filter (entry_within lo hi) (entries stream)) ∧
  xrange key (b "-") (b "+") d = Ok (entries stream).
Proof.
  destruct (stream_ok_entries _ Hok) as (ids & Hids & Hs).
  unfold xrange. unfold stream_at in Hkey.
  destruct (d !! key) as [[[]]|]; try done. injection Hkey as ->. simpl. rewrite Hlo, Hhi. simpl.
  rewrite !(xrange_loop_filter _ _ ids) by done. split; [done|].
  by rewrite (within_everything _ ids).
Qed.

Lemma xrange_selects_witness :
  let d : Data := <[b "s" := mkValue (VStream (mkStream [mkEntry (b "1-1") []; mkEntry (b "2-0") []])) None]> ∅ in
  xrange (b "s") (b "2") (b "+") d = Ok [mkEntry (b "2-0") []].
Proof.
  intros d.
  refine (proj1 (xrange_selects (b "s") (b "2") (b "+") d _ _ _ eq_refl _ eq_refl eq_refl)).
  exists [(1, 1); (2, 0)]. split_and!; [reflexivity| |].
  - repeat constructor; vm_compute; discriminate.
  - repeat constructor; left; reflexivity.
Defined.

(** C29. On data whose streams have canonical, strictly increasing ids between 0
    and 2^63 - 1, and for as many ids as keys, all of which can be parsed, XREAD
    returns, stream by stream and in request order, the entries strictly after
    the requested id, leaving out missing keys, other types and streams with
    nothing new. *)
Theorem xread_selects (keys ids : list bytes) (d : Data) (targets : list StreamBoundParts)
    (Hok : streams_ok d) (Hlen : length keys = length ids)
    (Hids : Forall2 (λ i t, parse_stream_bound i true = Ok t) ids targets) :
  xread keys ids d = Ok (xread_spec d (zip keys targets)).
Proof. by apply xread_filter. Qed.

Lemma xread_selects_witness :
  let d : Data := <[b "s" := mkValue (VStream (mkStream [mkEntry (b "1-1") []; mkEntry (b "2-0") []])) None]> ∅ in
  xread [b "s"; b "t"] [b "1-1"; b "0"] d = Ok [(b "s", [mkEntry (b "2-0") []])].
Proof.
  intros d.
  refine (xread_selects [b "s"; b "t"] [b "1-1"; b "0"] d [mkBound 1 1; mkBound 0 0] _ eq_refl _).
  - intros k sv st Hk Hv. unfold d in Hk. apply lookup_insert_Some in Hk as [[_ <-]|[_ Hk]]; [|by rewrite lookup_empty in Hk].
    simpl in Hv. injection Hv as <-. exists [(1, 1); (2, 0)]. split_and!; [reflexivity| |].
    + repeat constructor; vm_compute; discriminate.
    + repeat constructor; left; reflexivity.
  - repeat constructor.
Defined.

(** A negative sequence number is stored signed but compared unsigned: after
    [XADD s 1--1] the entry 1-5 is accepted behind it, and XRANGE over 1-0 to
    1-9 stops at the first entry and returns nothing. *)
Theorem negative_seq_hides_entries :
  let d := fst (xadd 0 (b "s") (b "1--1") [] ∅) in
  let '(d', r) := xadd 0 (b "s") (b "1-5") [] d in
  r = Ok (Expected (b "1-5")) ∧
  option_map entries (stream_at d' (b "s")) = Some [mkEntry (b "1--1") []; mkEntry (b "1-5") []] ∧
  xrange (b "s") (b "1-0") (b "1-9") d' = Ok [].
Proof. vm_compute. repeat split. Qed.
