(* ===== verification/Store.v ===== *)
(** * The store facade

    Models src/store/core/Store.hpp: TYPE with its lazy expiry, the memory
    estimate, and the facade's mutating operations taken together as a step
    relation, whose invariant the command layer relies on. *)

From S2P Require Import Prelude CharConv StreamId StoreValue StringStore ListStore StreamStore.

(** [Store::type]. *)
Definition store_type (now : Z) (key : bytes) (d : Data) : StoreType * Data :=
  match d !! key with
  | None => (TNone, d)
  | Some sv =>
      if is_expired now sv then (TNone, delete key d) else (StoreValue_type sv, d)
  end.

(** [Store::approximate_memory_usage]. *)
Definition approximate_memory_usage (d : Data) : Z := estimate_dataset_size d.

(** The operations of the facade that can change the map, at any clock
    readings.  RPUSH and LPUSH are called with at least one value, as their
    commands check; with [in_range] the ids given to XADD fit the code's signed
    integers, without it they are arbitrary. *)
Inductive store_step (in_range : bool) : Data → Data → Prop :=
  | step_set key value d : store_step in_range d (set key value d)
  | step_set_ttl now key value ttl d d' : set_ttl now key value ttl d = Ok d' → store_step in_range d d'
  | step_get now key d : store_step in_range d (snd (get now key d))
  | step_incr now key d : store_step in_range d (snd (incr now key d))
  | step_rpush key values d : values ≠ [] → store_step in_range d (snd (rpush key values d))
  | step_lpush key values d : values ≠ [] → store_step in_range d (snd (lpush key values d))
  | step_lpop key count d : store_step in_range d (snd (lpop key count d))
  | step_type now key d : store_step in_range d (snd (store_type now key d))
  | step_xadd now key pat flds d :
      (in_range = true → pattern_in_range now pat) → store_step in_range d (fst (xadd now key pat flds d)).

(** No empty list is stored and, as long as all ids were in range, every stream
    is well-formed. *)
Definition store_ok (in_range : bool) (d : Data) : Prop :=
  lists_nonempty d ∧ (in_range = true → streams_ok d).

(** ** Lemmas *)

Lemma store_ok_empty r : store_ok r ∅.
Proof. split; [apply lists_nonempty_empty|]. intros _ ???. by rewrite lookup_empty. Qed.

Lemma streams_ok_insert d key sv :
  (∀ stream, value_ sv = VStream stream → stream_ok stream) →
  streams_ok d → streams_ok (<[key := sv]> d).
Proof. intros Hsv Hd k sv' st [[-> <-]|[_ Hk]]%lookup_insert_Some; eauto. Qed.

Lemma streams_ok_delete d key : streams_ok d → streams_ok (delete key d).
Proof. intros Hd k sv' st [_ Hk]%lookup_delete_Some; eauto. Qed.

Lemma store_ok_insert r d key sv :
  value_ sv ≠ VList [] → (∀ stream, value_ sv ≠ VStream stream) →
  store_ok r d → store_ok r (<[key := sv]> d).
Proof.
  intros Hl Hs [H1 H2]. split; [by apply lists_nonempty_insert|].
  intros Hr. apply streams_ok_insert; [|by apply H2]. intros st Hst. by destruct (Hs st).
Qed.

Lemma store_ok_delete r d key : store_ok r d → store_ok r (delete key d).
Proof. intros [H1 H2]. split; [by apply lists_nonempty_delete|]. intros Hr. by apply streams_ok_delete, H2. Qed.

#[export] Hint Resolve store_ok_empty store_ok_delete : redis.

Lemma get_store_ok r now key d : store_ok r d → store_ok r (snd (get now key d)).
Proof. intros Hd. unfold get. repeat case_match; simpl; auto with redis. Qed.

Lemma store_type_ok r now key d : store_ok r d → store_ok r (snd (store_type now key d)).
Proof. intros Hd. unfold store_type. repeat case_match; simpl; auto with redis. Qed.

Lemma incr_store_ok r now key d : store_ok r d → store_ok r (snd (incr now key d)).
Proof.
  intros Hd. unfold incr.
  set (d1 := match d !! key with Some _ => _ | None => _ end).
  assert (store_ok r d1) as Hd1 by (unfold d1; repeat case_match; auto with redis).
  clearbody d1. repeat case_match; simpl; try done; by apply store_ok_insert.
Qed.

Lemma rpush_store_ok r key values d : values ≠ [] → store_ok r d → store_ok r (snd (rpush key values d)).
Proof.
  intros Hv [H1 H2]. split; [by apply rpush_preserves_nonempty|].
  intros Hr. rewrite rpush_eq. apply streams_ok_insert; [done|by apply H2].
Qed.

Lemma lpush_store_ok r key values d : values ≠ [] → store_ok r d → store_ok r (snd (lpush key values d)).
Proof.
  intros Hv [H1 H2]. split; [by apply lpush_preserves_nonempty|].
  intros Hr. rewrite lpush_eq. apply streams_ok_insert; [done|by apply H2].
Qed.

Lemma lpop_store_ok r key count d : store_ok r d → store_ok r (snd (lpop key count d)).
Proof.
  intros [H1 H2]. split; [by apply lpop_preserves_nonempty|]. intros Hr. specialize (H2 Hr).
  unfold lpop. destruct (d !! key) as [sv|] eqn:Hk; [|done].
  destruct (value_ sv) eqn:Hv; simpl; try done.
  destruct (drop _ _); [by apply streams_ok_delete|by apply streams_ok_insert].
Qed.

Lemma xadd_preserves_nonempty now key pat flds d :
  lists_nonempty d → lists_nonempty (fst (xadd now key pat flds d)).
Proof.
  intros H1. destruct (xadd now key pat flds d) as [d' r] eqn:E. apply xadd_state in E as [Hf Hr].
  intros k sv Hk. destruct (decide (k = key)) as [->|]; [|rewrite Hf in Hk by done; by eapply H1].
  destruct r as [[id|e]|e| |]; [destruct Hr as [_ Hr]|destruct Hr as [->|[Hr _]]; [by eapply H1|]..];
    simpl in Hk; rewrite Hr in Hk; by injection Hk as <-.
Qed.

Lemma xadd_store_ok r now key pat flds d :
  (r = true → pattern_in_range now pat) → store_ok r d → store_ok r (fst (xadd now key pat flds d)).
Proof.
  intros Hp [H1 H2]. split; [by apply xadd_preserves_nonempty|]. intros Hr.
  apply xadd_streams_ok; [by apply H2|by apply Hp].
Qed.

Lemma set_ttl_Ok now key value ttl d d' :
  set_ttl now key value ttl d = Ok d' →
  d' = <[key := mkValue (VString value) (Some (now + ttl * 1000000))]> d.
Proof. unfold set_ttl. destruct (_ && _); [|done]. by intros [= <-]. Qed.

#[export] Hint Resolve get_store_ok store_type_ok incr_store_ok rpush_store_ok
  lpush_store_ok lpop_store_ok xadd_store_ok : redis.

(** ** Properties *)

(** C27. Every sequence of operations of the store from the empty one (pushes
    with at least one value, as the commands check) keeps its invariant: no empty
    list is ever stored, whatever ids XADD is given; and if the explicit numbers
    of the ids given to XADD (and the clock behind a generated id) lie between 0
    and 2^63 - 1, the ids of every stream stay canonical, in that range and
    strictly increasing.  XADD itself does not check the range:
    [negative_seq_hides_entries] shows what an id outside it leads to. *)
Theorem store_invariant (in_range : bool) (d : Data) (Hreach : rtc (store_step in_range) ∅ d) :
  lists_nonempty d ∧ (in_range = true → streams_ok d).
Proof.
  assert (store_ok in_range ∅) as H0 by apply store_ok_empty. revert H0. change (store_ok in_range ∅ → store_ok in_range d).
  induction Hreach as [|d1 d2 d3 Hstep _ IH]; [done|]. intros H. apply IH. clear IH.
  destruct Hstep; auto with redis; [by apply store_ok_insert|].
  erewrite (set_ttl_Ok _ _ _ _ _ d') by done. by apply store_ok_insert.
Qed.

(** Pushing and popping with sound ids, and an entry with a negative sequence
    number between a push and a pop. *)
Lemma store_invariant_witness :
  streams_ok (snd (lpop (b "k") 1 (snd (rpush (b "k") [b "x"; b "y"] ∅)))) ∧
  lists_nonempty (snd (lpop (b "k") 1 (fst (xadd 0 (b "s") (b "1--1") [] (snd (rpush (b "k") [b "x"] ∅)))))).
Proof.
  split.
  - refine (proj2 (store_invariant true _ _) eq_refl).
    eapply rtc_l; [apply (step_rpush _ (b "k") [b "x"; b "y"] ∅); discriminate|].
    eapply rtc_l; [apply step_lpop|]. apply rtc_refl.
  - refine (proj1 (store_invariant false _ _)).
    eapply rtc_l; [apply (step_rpush _ (b "k") [b "x"] ∅); discriminate|].
    eapply rtc_l; [apply (step_xadd _ 0 (b "s") (b "1--1")); discriminate|].
    eapply rtc_l; [apply step_lpop|]. apply rtc_refl.
Defined.

(** TYPE names the live value's type and, like GET, its lazy deletion is
    invisible. *)
Theorem type_observes_live (now : Z) (key : bytes) (d : Data) :
  fst (store_type now key d) =
    match live now d key with None => TNone | Some sv => StoreValue_type sv end ∧
  (∀ key', live now (snd (store_type now key d)) key' = live now d key').
Proof.
  unfold store_type, live at 1. destruct (d !! key) as [sv|] eqn:Hk; [|done].
  destruct (is_expired now sv) eqn:He; [|done]. split; [done|].
  intros key'. by apply (live_delete_expired _ _ _ sv).
Qed.

(** The memory estimate is the size of every key and value: writing a key
    replaces exactly that key's share. *)
Theorem memory_estimate_write (key : bytes) (sv : StoreValue) (d : Data) :
  approximate_memory_usage (<[key := sv]> d) =
    approximate_memory_usage d + zlen key + estimate_value_size sv -
    match d !! key with Some old => zlen key + estimate_value_size old | None => 0 end.
Proof.
  unfold approximate_memory_usage. rewrite estimate_insert.
  destruct (d !! key) as [old|] eqn:Hk.
  - rewrite (estimate_delete key old d) by done. lia.
  - rewrite delete_id by done. lia.
Qed.

(** An XADD refused for its id has already created the key: an absent key
    holds an empty stream afterwards and TYPE reports it. *)
Theorem refused_xadd_creates_stream (now clock : Z) (key pat : bytes)
    (flds : list (bytes * bytes)) (d : Data) (what : bytes)
    (Habsent : d !! key = None)
    (Hrefused : generate_stream_id clock pat [] = Throw (InvalidArgument what)) :
  let '(d', r) := xadd clock key pat flds d in
  r = Ok (Unexpected (b "-ERR " ++ what)) ∧
  d' !! key = Some (mkValue (VStream (mkStream [])) None) ∧
  fst (store_type now key d') = TStream.
Proof.
  unfold xadd, at_or_default. rewrite Habsent.
  replace (last_entry_id (as_stream (default default_StoreValue None))) with ([] : bytes) by done.
  rewrite Hrefused.
  unfold store_type. by rewrite lookup_insert_eq.
Qed.

Lemma refused_xadd_creates_stream_witness :
  fst (store_type 0 (b "s") (fst (xadd 0 (b "s") (b "0-0") [] ∅))) = TStream.
Proof.
  exact (proj2 (proj2 (refused_xadd_creates_stream 0 0 (b "s") (b "0-0") [] ∅ _ eq_refl eq_refl))).
Defined.

(** RPUSH on a string replaces it by a list and keeps the string's deadline,
    which LRANGE and LLEN then ignore while TYPE still honours it. *)
Theorem rpush_takes_over_string (now now' ttl : Z) (key value : bytes) (values : list bytes)
    (d d' : Data)
    (Hset : set_ttl now key value ttl d = Ok d') (Hlate : now + ttl * 1000000 < now') :
  let '(n, d'') := rpush key values d' in
  n = zlen values ∧ llen key d'' = zlen values ∧ lrange key 0 (-1) d'' = values ∧
  fst (store_type now' key d'') = TNone.
Proof.
  apply set_ttl_Ok in Hset as ->. rewrite rpush_eq, at_or_default_insert.
  split_and!; [done|..].
  - unfold llen. by rewrite lookup_insert_eq.
  - rewrite lrange_correct_aux, lookup_insert_eq. simpl. rewrite lrange_spec_segment.
    unfold index_of. simpl. apply take_ge. unfold zlen. lia.
  - unfold store_type. rewrite lookup_insert_eq. unfold is_expired. simpl.
    by destruct (Z.ltb_spec (now + ttl * 1000000) now'); [|lia].
Qed.

Lemma rpush_takes_over_string_witness :
  lrange (b "k") 0 (-1)
    (snd (rpush (b "k") [b "x"] (<[b "k" := mkValue (VString (b "v")) (Some 5000000)]> ∅))) = [b "x"].
Proof.
  exact (proj1 (proj2 (proj2 (rpush_takes_over_string 0 5000001 5 (b "k") (b "v") [b "x"] ∅ _
    eq_refl eq_refl)))).
Defined.
