(* ===== verification/StoreCalls.v ===== *)
(** * Calls of the store

    Models the class [Store] of src/store/core/Store.hpp as its clients see it:
    [StoreCall] lists the public methods with their arguments, [StoreResult]
    what they return, and [store_apply] performs a call by delegating to the
    string, list or stream operations, as the class does.  A call carries the
    readings of the two clocks it may consult.

    Two facts about all methods together follow.  A call depends on and
    changes only the keys it names, so calls on different keys commute.  And
    expired values, which the store removes only when GET, INCR or TYPE come
    across them, might as well have been removed at once: what a client sees is
    what a store with eager expiry would show, as long as no list or stream
    method, which ignore expiry, is called on an expired key, and the memory
    estimate is not asked for while an expired value is in the map. *)

From S2P Require Import Prelude CharConv StreamId StoreValue StringStore ListStore StreamStore Store.

Record StreamRange := mkStreamRange {
  range_start : bytes;
  range_end : bytes;
}.

Inductive StoreCall :=
  | CallSet (key value : bytes)
  | CallSetTtl (key value : bytes) (ttl : Z)
  | CallGet (key : bytes)
  | CallRPush (key : bytes) (values : list bytes)
  | CallLPush (key : bytes) (values : list bytes)
  | CallLRange (key : bytes) (start_ stop_ : Z)
  | CallLLen (key : bytes)
  | CallLPop (key : bytes) (count : Z)
  | CallType (key : bytes)
  | CallXAdd (key stream_id : bytes) (flds : list (bytes * bytes))
  | CallXRange (key : bytes) (range : StreamRange)
  | CallXRead (keys ids : list bytes)
  | CallIncr (key : bytes)
  | CallMemory.

Inductive StoreResult :=
  | ResVoid
  | ResText (r : expected bytes)
  | ResSize (n : Z)
  | ResValues (l : list bytes)
  | ResPopped (r : expected (list bytes))
  | ResType (t : StoreType)
  | ResEntries (l : list StreamEntry)
  | ResStreams (l : list (bytes * list StreamEntry))
  | ResNumber (r : expected Z).

(** The clock readings of a call: the steady clock of the expiry times and the
    system clock of the stream ids. *)
Record Clocks := mkClocks {
  steady_ : Z;
  system_ : Z;
}.

Definition store_apply (now : Clocks) (c : StoreCall) (d : Data) : Data * outcome StoreResult :=
  match c with
  | CallSet key value => (set key value d, Ok ResVoid)
  | CallSetTtl key value ttl =>
      match set_ttl (steady_ now) key value ttl d with
      | Ok d' => (d', Ok ResVoid)
      | Throw e => (d, Throw e)
      | UB => (d, UB)
      | NoFuel => (d, NoFuel)
      end
  | CallGet key => let '(r, d') := get (steady_ now) key d in (d', Ok (ResText r))
  | CallRPush key values => let '(n, d') := rpush key values d in (d', Ok (ResSize n))
  | CallLPush key values => let '(n, d') := lpush key values d in (d', Ok (ResSize n))
  | CallLRange key start_ stop_ => (d, Ok (ResValues (lrange key start_ stop_ d)))
  | CallLLen key => (d, Ok (ResSize (llen key d)))
  | CallLPop key count => let '(r, d') := lpop key count d in (d', Ok (ResPopped r))
  | CallType key => let '(t, d') := store_type (steady_ now) key d in (d', Ok (ResType t))
  | CallXAdd key stream_id flds =>
      let '(d', r) := xadd (system_ now) key stream_id flds d in (d', let! r := r in Ok (ResText r))
  | CallXRange key range =>
      (d, let! es := xrange key (range_start range) (range_end range) d in Ok (ResEntries es))
  | CallXRead keys ids => (d, let! r := xread keys ids d in Ok (ResStreams r))
  | CallIncr key => let '(r, d') := incr (steady_ now) key d in (d', Ok (ResNumber r))
  | CallMemory => (d, Ok (ResSize (approximate_memory_usage d)))
  end.

(** ** Locality *)

(** The keys a call names; [None] for the one method that looks at all. *)
Definition call_keys (c : StoreCall) : option (list bytes) :=
  match c with
  | CallSet key _ | CallSetTtl key _ _ | CallGet key | CallRPush key _ | CallLPush key _
  | CallLRange key _ _ | CallLLen key | CallLPop key _ | CallType key | CallXAdd key _ _
  | CallXRange key _ | CallIncr key => Some [key]
  | CallXRead keys _ => Some keys
  | CallMemory => None
  end.

(** Two stores that hold the same at [keys]. *)
Definition agree (keys : list bytes) (d d' : Data) : Prop := ∀ key, key ∈ keys → d !! key = d' !! key.

(** A call reads and writes the entries at [keys] only. *)
Record local_call (keys : list bytes) (op : Data → Data * outcome StoreResult) : Prop := {
  local_reads d d' : agree keys d d' → (op d).2 = (op d').2 ∧ agree keys (op d).1 (op d').1;
  local_writes d key : key ∉ keys → (op d).1 !! key = d !! key;
}.

Lemma agree_one key d d' : agree [key] d d' ↔ d !! key = d' !! key.
Proof. split; [intros H; apply H; left|]. intros H k ->%list_elem_of_singleton. done. Qed.

(** For a method on one key: the result and the new entry depend on the old
    entry. *)
Lemma local_one key op :
  (∀ d, frames key d (op d).1) →
  (∀ d d', d !! key = d' !! key → (op d).2 = (op d').2 ∧ (op d).1 !! key = (op d').1 !! key) →
  local_call [key] op.
Proof.
  intros Hf Ho. split.
  - intros d d' H%agree_one. destruct (Ho d d' H) as [? ?]. split; [done|]. by apply agree_one.
  - intros d k Hk. apply Hf. intros ->. apply Hk. left.
Qed.

Lemma store_type_frames now key d : frames key d (store_type now key d).2.
Proof. unfold store_type. repeat case_match; simpl; auto with redis. Qed.

Lemma at_or_default_agree d d' key : d !! key = d' !! key → at_or_default d key = at_or_default d' key.
Proof. unfold at_or_default. by intros ->. Qed.

Lemma xread_agree keys ids d d' : agree keys d d' → xread keys ids d = xread keys ids d'.
Proof.
  revert ids. induction keys as [|key keys IH]; intros [|id ids] H; cbn [xread]; try done.
  rewrite (H key) by left. rewrite IH; [done|]. intros k Hk. apply H. by right.
Qed.

(** The entry after an update of the map, where the old entries agree. *)
Ltac same_entry H :=
  rewrite ?(at_or_default_agree _ _ _ H), ?H; repeat case_match; simplify_eq/=;
  rewrite ?lookup_insert_eq, ?lookup_delete_eq; split; congruence.

Lemma store_apply_local now c keys : call_keys c = Some keys → local_call keys (store_apply now c).
Proof.
  destruct c as [key value|key value ttl|key|key values|key values|key start_ stop_|key|key count|key
    |key pat flds|key range|keys' ids|key|]; intros [= <-].
  - apply local_one; intros; simpl; [apply frames_insert|]. unfold set. by rewrite !lookup_insert_eq.
  - apply local_one; [intros d|intros d d' H]; simpl; unfold set_ttl;
      destruct (_ && _); simpl; rewrite ?lookup_insert_eq; auto with redis.
  - apply local_one; [intros d|intros d d' H]; simpl.
    + pose proof (get_frames (steady_ now) key d). by destruct (get _ _ _).
    + unfold get. same_entry H.
  - apply local_one; [intros d|intros d d' H]; simpl; unfold rpush; simpl; [apply frames_insert|]. same_entry H.
  - apply local_one; [intros d|intros d d' H]; simpl; unfold lpush; simpl; [apply frames_insert|]. same_entry H.
  - apply local_one; [done|intros d d' H]; simpl. unfold lrange. by rewrite H.
  - apply local_one; [done|intros d d' H]; simpl. unfold llen. by rewrite H.
  - apply local_one; [intros d|intros d d' H]; simpl.
    + pose proof (lpop_frames key count d). by destruct (lpop _ _ _).
    + unfold lpop. same_entry H.
  - apply local_one; [intros d|intros d d' H]; simpl.
    + pose proof (store_type_frames (steady_ now) key d). by destruct (store_type _ _ _).
    + unfold store_type. same_entry H.
  - apply local_one; [intros d|intros d d' H]; simpl.
    + destruct (xadd _ _ _ _ _) as [d' r] eqn:E. by apply xadd_state in E as [? _].
    + unfold xadd. rewrite H, (at_or_default_agree _ _ _ H). destruct (match d' !! key with Some sv => negb (is_stream sv) | None => false end); [done|].
      destruct (generate_stream_id _ _ _) as [|[]| |]; simpl; by rewrite !lookup_insert_eq.
  - apply local_one; [done|intros d d' H]; simpl. unfold xrange. by rewrite H.
  - split; simpl; [|done]. intros d d' H. split; [by rewrite (xread_agree _ _ _ _ H)|done].
  - apply local_one; [intros d|intros d d' H]; simpl.
    + pose proof (incr_frames (steady_ now) key d). by destruct (incr _ _ _).
    + unfold incr. rewrite H. destruct (d' !! key) as [sv|] eqn:E; [destruct (is_expired _ sv)|];
        rewrite ?lookup_delete_eq, ?H, ?E; simpl; rewrite ?lookup_insert_eq; [done| |done].
      destruct (value_ sv) as [s| |]; [destruct (from_chars_llong s) as [v [|]| |]; [destruct (v =? LLONG_MAX)|..]|..];
        simpl; rewrite ?lookup_insert_eq, ?H, ?E; done.
Qed.

(** ** Lazy and eager expiry *)

(** The map without its expired entries. *)
Definition purge (now : Z) (d : Data) : Data := filter (λ kv, is_expired now kv.2 = false) d.

Lemma purge_lookup now d key : purge now d !! key = live now d key.
Proof.
  unfold purge, live. destruct (d !! key) as [sv|] eqn:E.
  - destruct (is_expired now sv) eqn:He.
    + apply map_lookup_filter_None. right. intros sv' Hsv. rewrite E in Hsv. injection Hsv as <-. simpl. congruence.
    + by apply map_lookup_filter_Some.
  - apply map_lookup_filter_None. by left.
Qed.

Lemma is_expired_mono now now' sv : now ≤ now' → is_expired now sv = true → is_expired now' sv = true.
Proof. unfold is_expired. destruct (expires_at_ sv); [|done]. rewrite !Z.ltb_lt. lia. Qed.

Lemma purge_purge now now' d : now ≤ now' → purge now' (purge now d) = purge now' d.
Proof.
  intros Hle. apply map_eq. intros key. rewrite !purge_lookup. unfold live at 1. rewrite purge_lookup.
  unfold live. destruct (d !! key) as [sv|]; [|done]. destruct (is_expired now sv) eqn:E; [|done].
  by rewrite (is_expired_mono now now').
Qed.

(** Whether a method looks at the expiry time or overwrites the entry. *)
Definition minds_expiry (c : StoreCall) : bool :=
  match c with
  | CallSet _ _ | CallSetTtl _ _ _ | CallGet _ | CallIncr _ | CallType _ => true
  | _ => false
  end.

(** The other methods must find no expired entry: the list and stream methods
    none under their keys, the memory estimate, which counts all entries, none at
    all. *)
Definition transparent (now : Clocks) (c : StoreCall) (d : Data) : bool :=
  match call_keys c with
  | None => bool_decide (map_Forall (λ _ sv, is_expired (steady_ now) sv = false) d)
  | Some keys => minds_expiry c ||
      forallb (λ key, negb (from_option (is_expired (steady_ now)) false (d !! key))) keys
  end.

Lemma purge_agree now keys op d :
  local_call keys op → (op d).2 = (op (purge now d)).2 → agree keys (op d).1 (op (purge now d)).1 →
  (op d).2 = (op (purge now d)).2 ∧ purge now (op d).1 = purge now (op (purge now d)).1.
Proof.
  intros Hloc Hr Ha. split; [done|]. apply map_eq. intros key. rewrite !purge_lookup.
  destruct (decide (key ∈ keys)) as [Hk|Hk].
  - unfold live. by rewrite (Ha key Hk).
  - unfold live. rewrite !(local_writes _ _ Hloc _ key Hk), purge_lookup. unfold live.
    destruct (d !! key) as [sv|]; [|done]. destruct (is_expired now sv) eqn:E; [done|]. by rewrite E.
Qed.

Lemma purge_apply now c d :
  transparent now c d = true →
  (store_apply now c d).2 = (store_apply now c (purge (steady_ now) d)).2 ∧
  purge (steady_ now) (store_apply now c d).1 =
    purge (steady_ now) (store_apply now c (purge (steady_ now) d)).1.
Proof.
  unfold transparent. intros Ht. destruct (call_keys c) as [keys|] eqn:Hk.
  2: { unfold purge. apply bool_decide_eq_true in Ht. by rewrite (map_filter_id _ d) by exact Ht. }
  pose proof (store_apply_local now c keys Hk) as Hloc.
  assert (minds_expiry c = true ∨ Forall (λ key, from_option (is_expired (steady_ now)) false (d !! key) = false) keys) as Ht'.
  { apply orb_true_iff in Ht as [Ht|Ht]; [by left|right]. apply List.Forall_forall. intros key Hkey.
    rewrite forallb_forall in Ht. by apply negb_true_iff, Ht. }
  destruct (decide (Forall (λ key, from_option (is_expired (steady_ now)) false (d !! key) = false) keys)) as [Hf|Hf].
  { assert (agree keys d (purge (steady_ now) d)) as Ha.
    { intros key Hkey. rewrite purge_lookup. unfold live. rewrite Forall_forall in Hf. specialize (Hf key Hkey).
      destruct (d !! key); [|done]. simpl in Hf. by rewrite Hf. }
    destruct (local_reads _ _ Hloc d _ Ha) as [Hr Ha']. by eapply purge_agree. }
  destruct Ht' as [Hm|]; [|done].
  assert (∃ key sv, keys = [key] ∧ d !! key = Some sv ∧ is_expired (steady_ now) sv = true) as (key & sv & -> & Hd & He).
  { destruct c; try done; injection Hk as <-;
      (match goal with |- context [[?k]] => exists k end);
      (match goal with |- context [d !! ?k] => destruct (d !! k) as [sv|] eqn:E end;
       [|exfalso; apply Hf; constructor; [by rewrite E|done]]);
      exists sv; (split_and!; [done..|]); apply not_false_iff_true; intros He; apply Hf;
      (constructor; [by rewrite E|done]). }
  assert (purge (steady_ now) d !! key = None) as Hp by (rewrite purge_lookup; unfold live; by rewrite Hd, He).
  destruct (match c with CallSetTtl _ _ ttl => negb (fits_i64 (ttl * 1000000) &&
    fits_i64 (steady_ now + ttl * 1000000)) | _ => false end) eqn:Eub.
  { destruct c; try done. simpl. unfold set_ttl. apply negb_true_iff in Eub. rewrite Eub. simpl.
    by rewrite purge_purge. }
  apply (purge_agree _ [key]); [done|..]; rewrite ?agree_one;
    destruct c; try done; injection Hk as ->; simpl; unfold set, set_ttl, get, incr, store_type;
    try (apply negb_false_iff in Eub; rewrite Eub);
    rewrite ?Hd, ?Hp, ?He, ?lookup_delete_eq, ?lookup_insert_eq; simpl;
    by rewrite ?lookup_delete_eq, ?lookup_insert_eq.
Qed.

(** *** Sequences of calls *)

Section runs.
Context (apply : Clocks → StoreCall → Data → Data * outcome StoreResult).

Fixpoint run_calls (trace : list (Clocks * StoreCall)) (d : Data) : Data * list (outcome StoreResult) :=
  match trace with
  | [] => (d, [])
  | (now, c) :: trace =>
      let '(d, r) := apply now c d in
      let '(d, rs) := run_calls trace d in
      (d, r :: rs)
  end.
End runs.

(** A store that removes expired entries before every call. *)
Definition eager_apply (now : Clocks) (c : StoreCall) (d : Data) : Data * outcome StoreResult :=
  store_apply now c (purge (steady_ now) d).

(** The steady clock does not go back, and no method that ignores expiry meets
    an expired entry. *)
Fixpoint fair_calls (time : Z) (trace : list (Clocks * StoreCall)) (d : Data) : bool :=
  match trace with
  | [] => true
  | (now, c) :: trace => (time <=? steady_ now) && transparent now c d &&
      fair_calls (steady_ now) trace (store_apply now c d).1
  end.

Lemma eager_simulates trace : ∀ time d a,
  purge time d = purge time a → fair_calls time trace d = true →
  (run_calls store_apply trace d).2 = (run_calls eager_apply trace a).2.
Proof.
  induction trace as [|[now c] trace IH]; intros time d a Hda Hf; [done|].
  apply andb_true_iff in Hf as [[Ht%Z.leb_le Htr]%andb_true_iff Hf]. cbn [run_calls].
  assert (purge (steady_ now) d = purge (steady_ now) a) as Hnow.
  { by rewrite <- (purge_purge time _ d), <- (purge_purge time _ a), Hda by done. }
  destruct (purge_apply now c d Htr) as [Hr Hs]. unfold eager_apply at 1. rewrite <- Hnow.
  destruct (store_apply now c d) as [d1 r1], (store_apply now c (purge (steady_ now) d)) as [a1 r2]. simpl in *.
  specialize (IH _ _ _ Hs Hf).
  destruct (run_calls store_apply trace d1), (run_calls eager_apply trace a1). simpl in *. congruence.
Qed.

(** ** Properties *)

(** C20. Lazy expiry is invisible.  Let a client perform any sequence of calls
    while the steady clock does not go back, of which the list and stream methods
    are not called on keys whose value has expired (SET, GET, INCR and TYPE may
    be), and the memory estimate not while any expired value is in the map.
    Every call returns what a store would return that deletes all expired
    values at the moment they expire. *)
Theorem lazy_expiry_invisible (time : Z) (trace : list (Clocks * StoreCall)) (d : Data)
    (Hfair : fair_calls time trace d = true) :
  (run_calls store_apply trace d).2 = (run_calls eager_apply trace d).2.
Proof. by apply (eager_simulates trace time). Qed.

(** A value expires, is not seen by TYPE, GET and INCR, and INCR starts anew. *)
Definition expiry_trace : list (Clocks * StoreCall) :=
  [(mkClocks 0 0, CallSetTtl (b "k") (b "7") 5); (mkClocks 5000000 0, CallIncr (b "k"));
   (mkClocks 5000001 0, CallRPush (b "l") [b "x"]); (mkClocks 6000000 0, CallIncr (b "k"));
   (mkClocks 7000000 0, CallGet (b "k")); (mkClocks 7000000 0, CallLPop (b "l") 1);
   (mkClocks 8000000 0, CallMemory)].

Lemma lazy_expiry_invisible_witness :
  (run_calls store_apply expiry_trace ∅).2 = (run_calls eager_apply expiry_trace ∅).2 ∧
  (run_calls eager_apply expiry_trace ∅).2 =
    [Ok ResVoid; Ok (ResNumber (Expected 8)); Ok (ResSize 1); Ok (ResNumber (Expected 1));
     Ok (ResText (Expected (b "1"))); Ok (ResPopped (Expected [b "x"])); Ok (ResSize 2)].
Proof.
  assert (fair_calls 0 expiry_trace ∅ = true) as Hfair by (by vm_compute).
  split; [exact (lazy_expiry_invisible 0 expiry_trace ∅ Hfair)|by vm_compute].
Defined.

(** Without the condition on the memory estimate the expired value shows: it is
    counted until something comes across it. *)
Example memory_counts_expired :
  let trace := [(mkClocks 0 0, CallSetTtl (b "k") (b "v") 5); (mkClocks 6000000 0, CallMemory)] in
  (run_calls store_apply trace ∅).2 ≠ (run_calls eager_apply trace ∅).2.
Proof. by vm_compute. Qed.

(** Without the condition on lists the deletion shows: LPOP on an expired string fails
    with WRONGTYPE, and once a GET has come across the string it does not find
    the key. *)
Theorem expired_string_blocks_lpop :
  let now := mkClocks 6000000 0 in
  let set_k := (mkClocks 0 0, CallSetTtl (b "k") (b "v") 5) in
  last (run_calls store_apply [set_k; (now, CallLPop (b "k") 1)] ∅).2 =
    Some (Ok (ResPopped (Unexpected wrong_type))) ∧
  last (run_calls store_apply [set_k; (now, CallGet (b "k")); (now, CallLPop (b "k") 1)] ∅).2 =
    Some (Ok (ResPopped (Unexpected key_not_found))).
Proof. by vm_compute. Qed.

(** C33. Calls on different keys are independent.  Two calls that name no common
    key give the same results and leave the same store in either order,
    whatever their clock readings. *)
Theorem disjoint_calls_commute (now1 now2 : Clocks) (c1 c2 : StoreCall) (keys1 keys2 : list bytes) (d : Data)
    (Hkeys1 : call_keys c1 = Some keys1) (Hkeys2 : call_keys c2 = Some keys2)
    (Hdisjoint : ∀ key, key ∈ keys1 → key ∉ keys2) :
  let '(d1, r1) := store_apply now1 c1 d in
  let '(d12, r2) := store_apply now2 c2 d1 in
  let '(d2, r2') := store_apply now2 c2 d in
  let '(d21, r1') := store_apply now1 c1 d2 in
  d12 = d21 ∧ r1 = r1' ∧ r2 = r2'.
Proof.
  pose proof (store_apply_local now1 c1 keys1 Hkeys1) as L1.
  pose proof (store_apply_local now2 c2 keys2 Hkeys2) as L2.
  set (op1 := store_apply now1 c1) in *. set (op2 := store_apply now2 c2) in *.
  assert (agree keys1 d (op2 d).1) as A1
    by (intros key Hk; by rewrite (local_writes _ _ L2 d key (Hdisjoint key Hk))).
  assert (agree keys2 d (op1 d).1) as A2
    by (intros key Hk; rewrite (local_writes _ _ L1 d key); [done|]; intros Hk1; by eapply Hdisjoint).
  destruct (local_reads _ _ L1 _ _ A1) as [R1 S1], (local_reads _ _ L2 _ _ A2) as [R2 S2].
  pose proof (local_writes _ _ L1) as W1. pose proof (local_writes _ _ L2) as W2.
  assert ((op2 (op1 d).1).1 = (op1 (op2 d).1).1) as E.
  { apply map_eq. intros key. destruct (decide (key ∈ keys1)) as [Hk|Hk].
    - rewrite W2 by auto. by apply S1.
    - rewrite (W1 _ key Hk). destruct (decide (key ∈ keys2)) as [Hk2|Hk2]; [symmetry; by apply S2|].
      by rewrite !W2, W1. }
  destruct (op1 d) as [d1 r1], (op2 d) as [d2 r2]. simpl in *.
  destruct (op2 d1), (op1 d2). simpl in *. by subst.
Qed.

Lemma disjoint_calls_commute_witness :
  let d := (rpush (b "l") [b "x"] ∅).2 in
  (store_apply (mkClocks 1 0) (CallLPop (b "l") 1) (set (b "k") (b "v") d)).1 =
  set (b "k") (b "v") ∅.
Proof.
  pose proof (disjoint_calls_commute (mkClocks 0 0) (mkClocks 1 0) (CallSet (b "k") (b "v")) (CallLPop (b "l") 1)
    [b "k"] [b "l"] (rpush (b "l") [b "x"] ∅).2 eq_refl eq_refl
    ltac:(intros key ->%list_elem_of_singleton; by intros [=]%list_elem_of_singleton)) as H.
  vm_compute in H. vm_compute. exact (proj1 H).
Defined.
