(* ===== verification/Blocking.v ===== *)
(** * The registry of blocked clients

    Models the class template [BlockingRegistry<CallbackType>] of
    src/state/BlockingManager.hpp, which BLPOP and XREAD BLOCK use.  Two maps
    that must agree, from keys to queues of registrations and from ids to
    keys, are shown to implement one abstract queue of waiters in order of
    registration ([registry_refines]).  Ids are unbounded; the code's
    [uint64_t] would wrap after 2^64 registrations. *)

From S2P Require Import Prelude.

Record Registration (C : Type) := mkReg {
  reg_id : N;
  reg_callback : C;
}.
Arguments mkReg {C} _ _.
Arguments reg_id {C} _.
Arguments reg_callback {C} _.

Record BlockingRegistry (C : Type) := mkRegistry {
  callbacks_ : gmap bytes (list (Registration C));
  id_to_keys_ : gmap N (list bytes);
  next_id_ : N;
}.
Arguments mkRegistry {C} _ _ _.
Arguments callbacks_ {C} _.
Arguments id_to_keys_ {C} _.
Arguments next_id_ {C} _.

Definition empty_registry {C} : BlockingRegistry C := mkRegistry ∅ ∅ 1.

Section BlockingRegistry.
Context {C : Type}.
Implicit Types (r : BlockingRegistry C) (key : bytes) (keys : list bytes).

Definition register_callbacks keys (callback : C) r : N * BlockingRegistry C :=
  let callbackId := next_id_ r in
  (callbackId,
   mkRegistry
     (fold_left (λ m key, <[key := default [] (m !! key) ++ [mkReg callbackId callback]]> m)
        keys (callbacks_ r))
     (<[callbackId := keys]> (id_to_keys_ r))
     (callbackId + 1)).

(** [std::erase_if(callbackList, reg.id == callbackId)]. *)
Definition erase_id (callbackId : N) (l : list (Registration C)) : list (Registration C) :=
  filter (λ reg, reg_id reg ≠ callbackId) l.

Definition unregister_key (callbackId : N) (m : gmap bytes (list (Registration C))) key :=
  match erase_id callbackId (default [] (m !! key)) with
  | [] => delete key m
  | callbackList => <[key := callbackList]> m
  end.

Definition unregister (callbackId : N) r : BlockingRegistry C :=
  match id_to_keys_ r !! callbackId with
  | None => r
  | Some keys =>
      mkRegistry (fold_left (unregister_key callbackId) keys (callbacks_ r))
        (delete callbackId (id_to_keys_ r)) (next_id_ r)
  end.

(** [find(key)]: the queue at [key], if any. *)
Definition registry_find key r : option (list (Registration C)) := callbacks_ r !! key.

(** ** Abstract queue *)

(** One blocked client: its id, the keys it waits for, its callback. *)
Record waiter := mkWaiter {
  w_id : N;
  w_keys : list bytes;
  w_callback : C;
}.

(** A client that names a key twice sits twice in that key's queue. *)
Definition registrations_of key (w : waiter) : list (Registration C) :=
  (λ _, mkReg (w_id w) (w_callback w)) <$> filter (λ k, k = key) (w_keys w).

Definition queue_for key (ws : list waiter) : list (Registration C) :=
  concat (registrations_of key <$> ws).

(** An empty queue is represented by an absent key. *)
Definition queue_repr (l : list (Registration C)) : option (list (Registration C)) :=
  match l with [] => None | _ => Some l end.

Record registry_refines r (ws : list waiter) : Prop := {
  refines_callbacks : ∀ key, callbacks_ r !! key = queue_repr (queue_for key ws);
  refines_ids : ∀ i keys, id_to_keys_ r !! i = Some keys ↔
    ∃ w, w ∈ ws ∧ w_id w = i ∧ w_keys w = keys;
  refines_nodup : NoDup (w_id <$> ws);
  refines_fresh : Forall (λ w, (w_id w < next_id_ r)%N) ws;
}.

(** ** Lemmas *)

Lemma default_queue_repr l : default [] (queue_repr l) = l.
Proof. by destruct l. Qed.

Lemma queue_for_app key ws1 ws2 : queue_for key (ws1 ++ ws2) = queue_for key ws1 ++ queue_for key ws2.
Proof. unfold queue_for. by rewrite fmap_app, concat_app. Qed.

Lemma register_fold_lookup (callbackId : N) (callback : C) keys (m : gmap bytes (list (Registration C))) key :
  default [] (fold_left (λ m key, <[key := default [] (m !! key) ++ [mkReg callbackId callback]]> m) keys m !! key)
    = default [] (m !! key) ++ registrations_of key (mkWaiter callbackId keys callback) ∧
  (m !! key ≠ Some [] →
   fold_left (λ m key, <[key := default [] (m !! key) ++ [mkReg callbackId callback]]> m) keys m !! key ≠ Some []).
Proof.
  revert m. induction keys as [|k keys IH]; intros m; simpl; [by rewrite app_nil_r|].
  destruct (IH (<[k := default [] (m !! k) ++ [mkReg callbackId callback]]> m)) as [IH1 IH2].
  rewrite IH1. unfold registrations_of in *. simpl in *. rewrite filter_cons.
  destruct (decide (k = key)) as [->|Hne].
  - rewrite lookup_insert_eq in *. simpl. rewrite <- app_assoc. split; [done|].
    intros _. apply IH2. intros [= E]. by destruct (default [] (m !! key)).
  - rewrite lookup_insert_ne in * by done. done.
Qed.

Lemma queue_repr_default o : o ≠ Some [] → o = queue_repr (default [] o).
Proof. by destruct o as [[|]|]. Qed.

Lemma erase_id_idem i l : erase_id i (erase_id i l) = erase_id i l.
Proof. unfold erase_id. by rewrite list_filter_filter_l by auto. Qed.

Lemma unregister_key_lookup (i : N) (m : gmap bytes (list (Registration C))) (k : bytes) key :
  unregister_key i m k !! key =
    if decide (key = k) then queue_repr (erase_id i (default [] (m !! key))) else m !! key.
Proof.
  unfold unregister_key. destruct (decide (key = k)) as [->|Hne].
  - destruct (erase_id i (default [] (m !! k))) eqn:E; simpl;
      by rewrite ?lookup_delete_eq, ?lookup_insert_eq.
  - destruct (erase_id _ _); by rewrite ?lookup_delete_ne, ?lookup_insert_ne.
Qed.

Lemma unregister_fold_lookup (i : N) keys (m : gmap bytes (list (Registration C))) key :
  fold_left (unregister_key i) keys m !! key =
    if decide (key ∈ keys) then queue_repr (erase_id i (default [] (m !! key))) else m !! key.
Proof.
  revert m. induction keys as [|k keys IH]; intros m; [done|]. cbn [fold_left].
  rewrite IH, !unregister_key_lookup.
  destruct (decide (key = k)) as [->|Hne].
  - rewrite (decide_True (P := k ∈ k :: keys)) by apply list_elem_of_here.
    destruct (decide (k ∈ keys)); [|done]. by rewrite default_queue_repr, erase_id_idem.
  - destruct (decide (key ∈ keys)), (decide (key ∈ k :: keys)) as [Hin|Hin]; try done; exfalso.
    + apply Hin. by apply list_elem_of_further.
    + by apply elem_of_cons in Hin as [|].
Qed.

Lemma erase_id_registrations i key w :
  erase_id i (registrations_of key w) = if decide (w_id w = i) then [] else registrations_of key w.
Proof.
  unfold erase_id, registrations_of. induction (filter _ (w_keys w)) as [|k ks IH].
  - by destruct (decide _).
  - rewrite fmap_cons, filter_cons, IH. cbn [reg_id].
    by destruct (decide (w_id w = i)), (decide (w_id w ≠ i)).
Qed.

Lemma erase_id_queue i key ws :
  erase_id i (queue_for key ws) = queue_for key (filter (λ w, w_id w ≠ i) ws).
Proof.
  unfold queue_for. induction ws as [|w ws IH]; [done|].
  rewrite fmap_cons, filter_cons. cbn [concat].
  unfold erase_id in *. rewrite filter_app, IH.
  fold (erase_id i (registrations_of key w)). rewrite erase_id_registrations.
  by destruct (decide (w_id w = i)), (decide (w_id w ≠ i)).
Qed.

Lemma registrations_of_not_in key w : key ∉ w_keys w → registrations_of key w = [].
Proof.
  unfold registrations_of. induction (w_keys w) as [|k ks IH]; intros Hk; [done|].
  apply not_elem_of_cons in Hk as [Hne Hk].
  rewrite filter_cons_False by congruence. by apply IH.
Qed.

(** Removing a waiter does not touch the queue of a key it does not name. *)
Lemma queue_for_filter_other i key ws :
  (∀ w, w ∈ ws → w_id w = i → key ∉ w_keys w) →
  queue_for key (filter (λ w, w_id w ≠ i) ws) = queue_for key ws.
Proof.
  unfold queue_for. induction ws as [|w ws IH]; intros H; [done|].
  rewrite filter_cons. destruct (decide (w_id w ≠ i)) as [Hne|Heq];
    rewrite ?fmap_cons; cbn [concat].
  - f_equal. apply IH. intros w' Hw'. apply H. by apply list_elem_of_further.
  - rewrite IH by (intros w' Hw'; apply H; by apply list_elem_of_further).
    rewrite registrations_of_not_in; [done|]. apply H; [apply list_elem_of_here|].
    by destruct (decide (w_id w = i)).
Qed.

Lemma refines_unique r ws w w' :
  registry_refines r ws → w ∈ ws → w' ∈ ws → w_id w = w_id w' → w = w'.
Proof.
  intros Hr Hw Hw' Heq. pose proof (refines_nodup _ _ Hr) as Hnd. clear Hr.
  induction ws as [|x ws IH]; [by apply elem_of_nil in Hw|].
  rewrite fmap_cons, NoDup_cons in Hnd. destruct Hnd as [Hx Hnd].
  apply elem_of_cons in Hw as [->|Hw], Hw' as [->|Hw']; auto; exfalso; apply Hx.
  - rewrite Heq. by apply list_elem_of_fmap_2.
  - rewrite <- Heq. by apply list_elem_of_fmap_2.
Qed.

Lemma refines_empty : registry_refines empty_registry [].
Proof.
  split; simpl; [done| |by constructor|by constructor].
  intros i keys. rewrite lookup_empty. split; [done|]. by intros (w & Hw%elem_of_nil & _).
Qed.

Lemma register_refines r ws keys callback :
  registry_refines r ws →
  let '(i, r') := register_callbacks keys callback r in
  registry_refines r' (ws ++ [mkWaiter i keys callback]) ∧ i ∉ w_id <$> ws.
Proof.
  intros Hr. simpl.
  assert (next_id_ r ∉ w_id <$> ws) as Hfresh.
  { intros (w & Hi & Hw)%list_elem_of_fmap. pose proof (refines_fresh _ _ Hr) as Hf.
    rewrite Forall_forall in Hf. specialize (Hf w Hw). simpl in Hf. lia. }
  split; [|done]. split; simpl.
  - intros key. destruct (register_fold_lookup (next_id_ r) callback keys (callbacks_ r) key) as [H1 H2].
    rewrite (refines_callbacks _ _ Hr) in H1, H2. rewrite default_queue_repr in H1.
    rewrite queue_for_app. unfold queue_for at 2. simpl. rewrite app_nil_r, <- H1.
    apply queue_repr_default, H2. by destruct (queue_for key ws).
  - intros i keys'. rewrite lookup_insert.
    setoid_rewrite elem_of_app. setoid_rewrite list_elem_of_singleton.
    destruct (decide (next_id_ r = i)) as [<-|Hne].
    + split.
      * intros [= <-]. eexists. split; [by right|done].
      * intros (w & [Hw| ->] & Hi & Hk); [|simpl in *; by rewrite Hk].
        exfalso. apply Hfresh. rewrite <- Hi. by apply list_elem_of_fmap_2.
    + rewrite (refines_ids _ _ Hr). split.
      * intros (w & Hw & ?). exists w. auto.
      * intros (w & [Hw| ->] & Hi & Hk); [by exists w|done].
  - rewrite fmap_app. apply NoDup_app. split_and!; [apply Hr| |apply NoDup_singleton].
    intros i Hi ->%list_elem_of_singleton. done.
  - apply Forall_app. split; [|constructor; [simpl; lia|done]].
    eapply Forall_impl; [apply Hr|]. simpl. lia.
Qed.

Lemma unregister_refines r ws i :
  registry_refines r ws → registry_refines (unregister i r) (filter (λ w, w_id w ≠ i) ws).
Proof.
  intros Hr. unfold unregister. destruct (id_to_keys_ r !! i) as [keys|] eqn:Hi.
  - apply (refines_ids _ _ Hr) in Hi as (w0 & Hw0 & Hid & Hkeys). split; simpl.
    + intros key. rewrite unregister_fold_lookup, !(refines_callbacks _ _ Hr), default_queue_repr.
      destruct (decide (key ∈ keys)) as [Hin|Hnin]; [by rewrite erase_id_queue|].
      rewrite queue_for_filter_other; [done|]. intros w Hw Hwi.
      by rewrite (refines_unique r ws w w0), Hkeys by congruence.
    + intros j keys'. rewrite lookup_delete. setoid_rewrite list_elem_of_filter.
      destruct (decide (i = j)) as [<-|Hne].
      * split; [done|]. by intros (w & [? ?] & ? & _).
      * rewrite (refines_ids _ _ Hr). split.
        -- intros (w & Hw & <- & Hk). exists w. by repeat split.
        -- intros (w & [_ Hw] & Hj & Hk). by exists w.
    + apply NoDup_fmap_filter, Hr.
    + apply Forall_filter_keep, Hr.
  - rewrite filter_all; [done|]. apply Forall_forall. intros w Hw Hwi.
    assert (id_to_keys_ r !! i = Some (w_keys w)) as E
      by (apply (refines_ids _ _ Hr); by exists w). congruence.
Qed.
End BlockingRegistry.

(** ** Properties *)

Section Simulation.
Context {C : Type}.

Inductive registry_op :=
  | OpRegister (keys : list bytes) (callback : C)
  | OpUnregister (callbackId : N).

Definition apply_op (r : BlockingRegistry C) (op : registry_op) : BlockingRegistry C :=
  match op with
  | OpRegister keys callback => snd (register_callbacks keys callback r)
  | OpUnregister i => unregister i r
  end.

(** The specification: one list of waiters and a counter. *)
Definition abstract_op (s : list (waiter (C := C)) * N) (op : registry_op) : list (waiter (C := C)) * N :=
  match op with
  | OpRegister keys callback => (s.1 ++ [mkWaiter s.2 keys callback], (s.2 + 1)%N)
  | OpUnregister i => (filter (λ w, w_id w ≠ i) s.1, s.2)
  end.

Lemma unregister_next (i : N) (r : BlockingRegistry C) : next_id_ (unregister i r) = next_id_ r.
Proof. unfold unregister. by destruct (id_to_keys_ r !! i). Qed.

Lemma apply_op_refines r s op :
  registry_refines r s.1 → next_id_ r = s.2 →
  registry_refines (apply_op r op) (abstract_op s op).1 ∧
  next_id_ (apply_op r op) = (abstract_op s op).2.
Proof.
  intros Hr Hn. destruct op as [keys callback|i]; simpl.
  - pose proof (register_refines r s.1 keys callback Hr) as [H _]. simpl in H.
    rewrite Hn in H. by rewrite Hn.
  - rewrite unregister_next. split; [by apply unregister_refines|done].
Qed.

(** The head of a key's queue belongs to the oldest waiter that names it. *)
Lemma queue_head_oldest key (ws : list (waiter (C := C))) :
  head (queue_for key ws) =
  (λ w, mkReg (w_id w) (w_callback w)) <$> head (filter (λ w, key ∈ w_keys w) ws).
Proof.
  unfold queue_for. induction ws as [|w ws IH]; [done|].
  rewrite fmap_cons, filter_cons. cbn [concat].
  destruct (decide (key ∈ w_keys w)) as [Hin|Hnin].
  - unfold registrations_of at 1.
    destruct (filter (λ k, k = key) (w_keys w)) as [|k ks] eqn:E; [|done].
    by apply (filter_nil_not_elem_of _ _ key) in E.
  - by rewrite registrations_of_not_in.
Qed.

(** The head of a queue is registered. *)
Lemma registry_head_waiter key (r : BlockingRegistry C) ws reg rest :
  registry_refines r ws → registry_find key r = Some (reg :: rest) →
  ∃ x, x ∈ ws ∧ reg = mkReg (w_id x) (w_callback x).
Proof.
  unfold registry_find. intros Hr Hf. rewrite (refines_callbacks _ _ Hr) in Hf.
  pose proof (queue_head_oldest key ws) as Hh.
  destruct (queue_for key ws) as [|reg' rest'] eqn:Eq; [done|]. injection Hf as -> ->.
  destruct (filter (λ w, key ∈ w_keys w) ws) as [|x xs] eqn:E; [done|]. injection Hh as ->.
  exists x. split; [|done].
  assert (x ∈ filter (λ w, key ∈ w_keys w) ws) as Hx by (rewrite E; left).
  by apply list_elem_of_filter in Hx as [_ ?].
Qed.

(** C30. The registry's two maps implement one queue of waiters: after any
    sequence of registrations and removals, every key's deque is exactly the
    pending waiters that name it, in order of registration, the oldest first,
    and no removed client or empty deque is left behind. *)
Theorem registry_simulates (ops : list registry_op) :
  let r := fold_left apply_op ops empty_registry in
  let ws := (fold_left abstract_op ops ([], 1%N)).1 in
  registry_refines r ws ∧
  ∀ key, registry_find key r = queue_repr (queue_for key ws) ∧
    (registry_find key r ≫= head) =
      (λ w, mkReg (w_id w) (w_callback w)) <$> head (filter (λ w, key ∈ w_keys w) ws).
Proof.
  intros r ws.
  assert (registry_refines r ws) as Hr.
  { unfold r, ws. clear r ws.
    assert (∀ r s, registry_refines r s.1 → next_id_ r = s.2 →
      registry_refines (fold_left apply_op ops r) (fold_left abstract_op ops s).1) as H.
    { induction ops as [|op ops IH]; intros r s Hr Hn; [done|]. simpl.
      destruct (apply_op_refines r s op Hr Hn). by apply IH. }
    apply H; [apply refines_empty|done]. }
  split; [done|]. intros key. unfold registry_find. rewrite (refines_callbacks _ _ Hr).
  split; [done|]. rewrite <- queue_head_oldest. by destruct (queue_for key ws).
Qed.
End Simulation.
