(* ===== verification/WatchManager.v ===== *)
(** * WATCH subscriptions

    Models src/state/WatchManager.cpp.  A callback only ever marks one
    transaction manager dirty, so it is represented by the identity of the
    command handler that owns it.  The structure is the one of
    [BlockingRegistry] with one key per id; [to_registry] makes that precise
    and carries its refinement over. *)

From S2P Require Import Prelude Blocking.

(** The identity of a command handler (and of its transaction manager). *)
Abbreviation HandlerId := N.

Record WatchManager := mkWatch {
  watchers_ : gmap bytes (list (Registration HandlerId));
  watch_keys_ : gmap N (list bytes);
  watch_next_ : N;
}.

Definition empty_watch : WatchManager := mkWatch ∅ ∅ 1.

Definition watch (key : bytes) (callback : HandlerId) (wm : WatchManager) : N * WatchManager :=
  let watch_id := watch_next_ wm in
  (watch_id,
   mkWatch (<[key := default [] (watchers_ wm !! key) ++ [mkReg watch_id callback]]> (watchers_ wm))
     (<[watch_id := default [] (watch_keys_ wm !! watch_id) ++ [key]]> (watch_keys_ wm))
     (watch_id + 1)).

Definition unwatch_key (watch_id : N) (m : gmap bytes (list (Registration HandlerId))) (key : bytes) :=
  match m !! key with
  | None => m
  | Some registrations =>
      match erase_id watch_id registrations with
      | [] => delete key m
      | registrations => <[key := registrations]> m
      end
  end.

Definition unwatch (watch_id : N) (wm : WatchManager) : WatchManager :=
  match watch_keys_ wm !! watch_id with
  | None => wm
  | Some keys =>
      mkWatch (fold_left (unwatch_key watch_id) keys (watchers_ wm))
        (delete watch_id (watch_keys_ wm)) (watch_next_ wm)
  end.

(** The callbacks that [notify_write] invokes, in order. *)
Definition notify_write (key : bytes) (wm : WatchManager) : list HandlerId :=
  match watchers_ wm !! key with
  | None => []
  | Some registrations => reg_callback <$> registrations
  end.

(** ** The registry behind it *)

Definition to_registry (wm : WatchManager) : BlockingRegistry HandlerId :=
  mkRegistry (watchers_ wm) (watch_keys_ wm) (watch_next_ wm).

(** One subscription: its id, the watched key, the handler to mark dirty. *)
Record subscription := mkSub {
  sub_id : N;
  sub_key : bytes;
  sub_handler : HandlerId;
}.

Definition sub_waiter (s : subscription) : waiter (C := HandlerId) :=
  mkWaiter (sub_id s) [sub_key s] (sub_handler s).

Definition watch_refines (wm : WatchManager) (subs : list subscription) : Prop :=
  registry_refines (to_registry wm) (sub_waiter <$> subs).

Lemma unwatch_key_eq i m key : unwatch_key i m key = unregister_key i m key.
Proof.
  unfold unwatch_key, unregister_key. destruct (m !! key) as [l|] eqn:E; [done|]. simpl.
  by rewrite delete_id.
Qed.

Lemma unwatch_registry i wm : to_registry (unwatch i wm) = unregister i (to_registry wm).
Proof.
  unfold unwatch, unregister, to_registry. simpl. destruct (watch_keys_ wm !! i) as [keys|]; [|done].
  simpl. f_equal. revert keys. generalize (watchers_ wm). intros m keys. revert m.
  induction keys as [|k keys IH]; intros m; [done|]. simpl. by rewrite unwatch_key_eq, IH.
Qed.

Lemma watch_registry key h wm :
  watch_keys_ wm !! watch_next_ wm = None →
  register_callbacks [key] h (to_registry wm) =
    (fst (watch key h wm), to_registry (snd (watch key h wm))).
Proof. intros E. unfold register_callbacks, watch, to_registry. simpl. by rewrite E. Qed.

Lemma watch_refines_empty : watch_refines empty_watch [].
Proof. apply refines_empty. Qed.

Lemma watch_fresh wm subs : watch_refines wm subs → watch_keys_ wm !! watch_next_ wm = None.
Proof.
  intros Hr. destruct (watch_keys_ wm !! watch_next_ wm) as [keys|] eqn:E; [|done].
  apply (refines_ids _ _ Hr) in E as (w & Hw & Hi & _).
  pose proof (refines_fresh _ _ Hr) as Hf. rewrite Forall_forall in Hf.
  specialize (Hf w Hw). simpl in Hf. lia.
Qed.

Lemma watch_sub wm subs key h :
  watch_refines wm subs →
  watch_refines (snd (watch key h wm)) (subs ++ [mkSub (watch_next_ wm) key h]) ∧
  watch_next_ wm ∉ sub_id <$> subs.
Proof.
  intros Hr. pose proof (register_refines _ _ [key] h Hr) as H.
  rewrite watch_registry in H by (by eapply watch_fresh).
  destruct H as [H1 H2]. split.
  - unfold watch_refines. by rewrite fmap_app.
  - by rewrite <- list_fmap_compose in H2.
Qed.

Lemma unwatch_sub wm subs i :
  watch_refines wm subs → watch_refines (unwatch i wm) (filter (λ s, sub_id s ≠ i) subs).
Proof.
  intros Hr. unfold watch_refines. rewrite unwatch_registry.
  apply unregister_refines with (i := i) in Hr.
  replace (sub_waiter <$> filter (λ s, sub_id s ≠ i) subs)
    with (filter (λ w : waiter, w_id w ≠ i) (sub_waiter <$> subs)); [done|].
  clear Hr. induction subs as [|s subs IH]; [done|]. rewrite fmap_cons, !filter_cons. simpl.
  destruct (decide (sub_id s ≠ i)); rewrite ?fmap_cons; by rewrite IH.
Qed.

(** Notification reaches exactly the subscriptions of the key, oldest first. *)
Lemma notify_subs wm subs key :
  watch_refines wm subs →
  notify_write key wm = sub_handler <$> filter (λ s, sub_key s = key) subs.
Proof.
  intros Hr. unfold notify_write. pose proof (refines_callbacks _ _ Hr key) as E. simpl in E.
  rewrite E. assert (reg_callback <$> queue_for key (sub_waiter <$> subs) =
    sub_handler <$> filter (λ s, sub_key s = key) subs) as <-.
  { clear. unfold queue_for. induction subs as [|s subs IH]; [done|].
    rewrite !fmap_cons, filter_cons. cbn [concat]. rewrite fmap_app, IH.
    unfold registrations_of. cbn [w_keys sub_waiter]. rewrite filter_cons.
    by destruct (decide (sub_key s = key)). }
  by destruct (queue_for key (sub_waiter <$> subs)).
Qed.
