(* ===== verification/TransactionManager.v ===== *)
(** * Transaction state of a connection

    Models src/command/execution/TransactionManager.cpp: the MULTI queue, the
    dirty flag, and the watched keys with their subscription ids in the shared
    [WatchManager], which the operations that clear watches update.  The code
    iterates over [watched_keys_] in an unspecified order; the lemmas about
    [clear_watches] show that the order does not matter. *)

From S2P Require Import Prelude CharConv Resp Blocking WatchManager.

Record TransactionManager := mkTM {
  in_transaction_ : bool;
  dirty_ : bool;
  queued_commands_ : list RespValue;
  watched_keys_ : gmap bytes N;
}.

Definition initial_tm : TransactionManager := mkTM false false [] ∅.

Definition begin (tm : TransactionManager) : TransactionManager :=
  mkTM true (dirty_ tm) [] (watched_keys_ tm).

Definition clear_watches (tm : TransactionManager) (wm : WatchManager)
    : TransactionManager * WatchManager :=
  (mkTM (in_transaction_ tm) (dirty_ tm) (queued_commands_ tm) ∅,
   fold_left (λ wm '(_, watch_id), unwatch watch_id wm) (map_to_list (watched_keys_ tm)) wm).

Definition finish_transaction (tm : TransactionManager) : TransactionManager :=
  mkTM false false (queued_commands_ tm) (watched_keys_ tm).

Definition reset (tm : TransactionManager) (wm : WatchManager) : TransactionManager * WatchManager :=
  let '(tm, wm) := clear_watches tm wm in
  let tm := finish_transaction tm in
  (mkTM (in_transaction_ tm) (dirty_ tm) [] (watched_keys_ tm), wm).

Definition mark_dirty (tm : TransactionManager) : TransactionManager :=
  mkTM (in_transaction_ tm) true (queued_commands_ tm) (watched_keys_ tm).

Definition is_dirty (tm : TransactionManager) : bool := dirty_ tm.

(** [watched_keys_.emplace(key, 0).second]. *)
Definition watch_key (key : bytes) (tm : TransactionManager) : bool * TransactionManager :=
  match watched_keys_ tm !! key with
  | Some _ => (false, tm)
  | None => (true, mkTM (in_transaction_ tm) (dirty_ tm) (queued_commands_ tm)
                     (<[key := 0%N]> (watched_keys_ tm)))
  end.

Definition associate_watch_id (key : bytes) (watch_id : N) (tm : TransactionManager)
    : TransactionManager :=
  match watched_keys_ tm !! key with
  | Some _ => mkTM (in_transaction_ tm) (dirty_ tm) (queued_commands_ tm)
                (<[key := watch_id]> (watched_keys_ tm))
  | None => tm
  end.

Definition queue_command (request : RespValue) (tm : TransactionManager) : TransactionManager :=
  mkTM (in_transaction_ tm) (dirty_ tm) (queued_commands_ tm ++ [request]) (watched_keys_ tm).

Definition is_active (tm : TransactionManager) : bool := in_transaction_ tm.

Definition pop_queued_commands (tm : TransactionManager) : list RespValue * TransactionManager :=
  (queued_commands_ tm, mkTM (in_transaction_ tm) (dirty_ tm) [] (watched_keys_ tm)).

(** The loop of [WatchCommand::execute] over one key: a key that is already
    watched is skipped, a new one is subscribed with a callback that marks the
    transaction of handler [h] dirty. *)
Definition watch_one (h : HandlerId) (s : TransactionManager * WatchManager) (key : bytes)
    : TransactionManager * WatchManager :=
  let '(tm, wm) := s in
  let '(added, tm) := watch_key key tm in
  if added : bool then
    let '(watch_id, wm) := watch key h wm in
    (associate_watch_id key watch_id tm, wm)
  else (tm, wm).

(** ** Watched keys and subscriptions agree *)

(** The subscriptions of handler [h] are exactly its watched keys. *)
Definition watches_agree (h : HandlerId) (tm : TransactionManager) (subs : list subscription) : Prop :=
  ∀ k i, watched_keys_ tm !! k = Some i ↔ mkSub i k h ∈ subs.

Lemma watch_refines_ids wm subs : watch_refines wm subs → NoDup (sub_id <$> subs).
Proof. intros Hr. pose proof (refines_nodup _ _ Hr) as H. by rewrite <- list_fmap_compose in H. Qed.

Lemma sub_unique subs s s' :
  NoDup (sub_id <$> subs) → s ∈ subs → s' ∈ subs → sub_id s = sub_id s' → s = s'.
Proof.
  intros Hnd Hs Hs' Heq. induction subs as [|x subs IH]; [by apply elem_of_nil in Hs|].
  rewrite fmap_cons, NoDup_cons in Hnd. destruct Hnd as [Hx Hnd].
  apply elem_of_cons in Hs as [->|Hs], Hs' as [->|Hs']; auto; exfalso; apply Hx;
    [rewrite Heq|rewrite <- Heq]; by apply list_elem_of_fmap_2.
Qed.

Lemma unwatch_all l wm subs :
  watch_refines wm subs →
  watch_refines (fold_left (λ wm '(_, i), unwatch i wm) l wm)
    (filter (λ s, sub_id s ∉ (snd : bytes * N → N) <$> l) subs).
Proof.
  revert wm subs. induction l as [|[k i] l IH]; intros wm subs Hr.
  - rewrite filter_all; [done|]. apply Forall_forall. intros s _. simpl. apply not_elem_of_nil.
  - cbn [fold_left]. apply (unwatch_sub _ _ i), IH in Hr.
    erewrite (list_filter_filter _ _) in Hr.
    replace (filter _ subs) with
      (filter (λ s, (sub_id s ∉ (snd : bytes * N → N) <$> l) ∧ sub_id s ≠ i) subs); [done|].
    apply list_filter_iff. intros s. rewrite fmap_cons, not_elem_of_cons. simpl. tauto.
Qed.

Lemma clear_watches_subs h tm wm subs :
  watch_refines wm subs → watches_agree h tm subs →
  let '(tm', wm') := clear_watches tm wm in
  let subs' := filter (λ s, sub_handler s ≠ h) subs in
  watch_refines wm' subs' ∧ watches_agree h tm' subs'.
Proof.
  intros Hr Hag. simpl. split.
  - apply (unwatch_all (map_to_list (watched_keys_ tm))) in Hr as Hr'.
    assert (∀ s, s ∈ subs →
      sub_id s ∉ (snd : bytes * N → N) <$> map_to_list (watched_keys_ tm) ↔ sub_handler s ≠ h) as Hiff.
    { intros [i k h'] Hs. simpl. split.
      - intros Hn ->. apply Hn. apply list_elem_of_fmap. exists (k, i). split; [done|].
        apply elem_of_map_to_list. by apply Hag.
      - intros Hne ([k' i'] & -> & Hin%elem_of_map_to_list)%list_elem_of_fmap.
        apply Hag in Hin. simpl in *.
        pose proof (sub_unique subs _ _ (watch_refines_ids _ _ Hr) Hs Hin eq_refl) as E.
        by injection E. }
    enough (∀ l, l ⊆ subs →
      filter (λ s, sub_handler s ≠ h) l =
      filter (λ s, sub_id s ∉ (snd : bytes * N → N) <$> map_to_list (watched_keys_ tm)) l) as ->
      by done.
    induction l as [|s l IH]; intros Hl; [done|]. rewrite !filter_cons.
    rewrite IH by (intros x Hx; apply Hl; by apply list_elem_of_further).
    destruct (Hiff s) as [Hi1 Hi2]; [apply Hl, list_elem_of_here|].
    repeat case_decide; tauto || done.
  - intros k i. simpl. rewrite lookup_empty, list_elem_of_filter. simpl.
    split; [done|]. by intros [? _].
Qed.

(** Other handlers keep their watches. *)
Lemma watches_agree_other h h' tm subs :
  h' ≠ h → watches_agree h' tm subs → watches_agree h' tm (filter (λ s, sub_handler s ≠ h) subs).
Proof.
  intros Hne Hag k i. rewrite (Hag k i), list_elem_of_filter. simpl.
  split; [by intros|by intros [_ ?]].
Qed.

Lemma watch_one_subs h tm wm subs key :
  watch_refines wm subs → watches_agree h tm subs →
  let '(tm', wm') := watch_one h (tm, wm) key in
  ∃ new, let subs' := subs ++ new in
    watch_refines wm' subs' ∧ watches_agree h tm' subs' ∧
    is_Some (watched_keys_ tm' !! key) ∧ Forall (λ s, sub_handler s = h) new.
Proof.
  intros Hr Hag. unfold watch_one, watch_key.
  destruct (watched_keys_ tm !! key) as [i|] eqn:Hk.
  - exists []. rewrite app_nil_r. split_and!; [done|done|rewrite Hk; eauto|done].
  - destruct (watch_sub wm subs key h Hr) as [Hr' Hfresh]. simpl.
    unfold associate_watch_id. simpl. rewrite lookup_insert_eq, insert_insert_eq. simpl.
    exists [mkSub (watch_next_ wm) key h]. split_and!; [done| | |by repeat constructor].
    + intros k i. rewrite elem_of_app, list_elem_of_singleton, <- (Hag k i). simpl.
      rewrite lookup_insert. destruct (decide (key = k)) as [<-|Hne].
      * rewrite Hk. split; [intros [= <-]; by right|intros [?|[= ->]]; done].
      * split; [by left|intros [?|[= -> ->]]; done].
    + rewrite lookup_insert_eq. eauto.
Qed.
