(* ===== verification/ReplicaRegistry.v ===== *)
(** * Connected replicas and the replication offset

    Models src/replication/ReplicaRegistry.cpp.  Every public method holds the
    mutex for its whole body, so each is one atomic step.  A [WriteFn] posts a
    string to one replica connection and is represented by that connection's
    identity; [propagate] returns the writes it makes.  The code visits the
    replicas in the unspecified order of an [unordered_map]; here it is the
    order of [map_to_list].  Ids and the byte counter are unbounded. *)

From S2P Require Import Prelude CharConv Resp.

(** The identity of a network connection. *)
Abbreviation ConnId := N.

Record ReplicaState := mkReplica {
  write_fn : ConnId;
  acked_offset_ : Z;
}.

Record ReplicaRegistry := mkReplicas {
  replicas_ : gmap N ReplicaState;
  replica_next_ : N;
  master_offset_ : Z;
}.

Definition empty_replicas : ReplicaRegistry := mkReplicas ∅ 0 0.

Definition add (write_fn : ConnId) (r : ReplicaRegistry) : N * ReplicaRegistry :=
  let replica_id := replica_next_ r in
  (replica_id,
   mkReplicas (<[replica_id := mkReplica write_fn 0]> (replicas_ r)) (replica_id + 1) (master_offset_ r)).

Definition remove (replica_id : N) (r : ReplicaRegistry) : ReplicaRegistry :=
  mkReplicas (delete replica_id (replicas_ r)) (replica_next_ r) (master_offset_ r).

Definition propagate (data : bytes) (r : ReplicaRegistry) : list (ConnId * bytes) * ReplicaRegistry :=
  ((λ '(_, state), (write_fn state, data)) <$> map_to_list (replicas_ r),
   mkReplicas (replicas_ r) (replica_next_ r) (master_offset_ r + zlen data)).

Definition master_offset (r : ReplicaRegistry) : Z := master_offset_ r.

Definition record_ack (replica_id : N) (offset : Z) (r : ReplicaRegistry) : ReplicaRegistry :=
  match replicas_ r !! replica_id with
  | Some entry =>
      mkReplicas (<[replica_id := mkReplica (write_fn entry) offset]> (replicas_ r))
        (replica_next_ r) (master_offset_ r)
  | None => r
  end.

Definition acked_offset (replica_id : N) (r : ReplicaRegistry) : option Z :=
  match replicas_ r !! replica_id with
  | Some entry => Some (acked_offset_ entry)
  | None => None
  end.

Definition acked_offsets (r : ReplicaRegistry) : list Z :=
  (λ '(_, state), acked_offset_ state) <$> map_to_list (replicas_ r).

Definition replica_count (r : ReplicaRegistry) : Z := Z.of_nat (size (replicas_ r)).

Definition bulk_value (s : bytes) : RespValue := mkResp BulkString s [].

Definition getack_command : RespValue :=
  mkResp Array [] [bulk_value (b "REPLCONF"); bulk_value (b "GETACK"); bulk_value (b "*")].

Definition request_getack (r : ReplicaRegistry) : list (ConnId * bytes) * ReplicaRegistry :=
  propagate (serialize getack_command) r.

Definition count_acked_at_least (offset : Z) (r : ReplicaRegistry) : Z :=
  zlen (List.filter (λ '(_, state), offset <=? acked_offset_ state) (map_to_list (replicas_ r))).

(** ** Lemmas *)

(** The ids in use are below the counter. *)
Definition replicas_fresh (r : ReplicaRegistry) : Prop :=
  ∀ i s, replicas_ r !! i = Some s → (i < replica_next_ r)%N.

Lemma filter_length_perm {A} (f : A → bool) (l k : list A) :
  l ≡ₚ k → length (List.filter f l) = length (List.filter f k).
Proof. induction 1; simpl; repeat case_match; simpl; lia. Qed.

(** How many entries of a map satisfy a test. *)
Definition count_map (f : N * ReplicaState → bool) (m : gmap N ReplicaState) : Z :=
  zlen (List.filter f (map_to_list m)).

Lemma count_map_insert f (m : gmap N ReplicaState) (i : N) (s : ReplicaState) :
  m !! i = None → count_map f (<[i := s]> m) = count_map f m + (if f (i, s) then 1 else 0).
Proof.
  intros Hi. unfold count_map, zlen.
  rewrite (filter_length_perm _ _ _ (map_to_list_insert _ _ _ Hi)). simpl.
  destruct (f (i, s)); simpl; lia.
Qed.

Lemma count_map_update f (m : gmap N ReplicaState) (i : N) (s s' : ReplicaState) :
  m !! i = Some s →
  count_map f (<[i := s']> m) =
    count_map f m - (if f (i, s) then 1 else 0) + (if f (i, s') then 1 else 0).
Proof.
  intros Hi.
  assert (∀ x, count_map f (<[i := x]> m) = count_map f (delete i m) + (if f (i, x) then 1 else 0)) as H.
  { intros x. rewrite <- (insert_delete_eq m i x). apply count_map_insert, lookup_delete_eq. }
  pose proof (H s) as Hs. rewrite insert_id in Hs by done. rewrite H. lia.
Qed.

Lemma filter_length_le {A} (f g : A → bool) (l : list A) :
  (∀ x, f x = true → g x = true) → (length (List.filter f l) ≤ length (List.filter g l) ≤ length l)%nat.
Proof.
  intros H. induction l as [|x l IH]; simpl; [lia|].
  specialize (H x). destruct (f x), (g x); simpl; try lia; by discriminate H.
Qed.

(** ** The stream of propagated bytes *)

(** The calls of the registry's methods; [propagate] is only ever called with a
    serialized command. *)
Inductive replica_op :=
  | OpAdd (c : ConnId)
  | OpRemove (replica_id : N)
  | OpPropagate (command : RespValue)
  | OpAck (replica_id : N) (offset : Z)
  | OpGetack.

Definition replica_step (r : ReplicaRegistry) (op : replica_op) : list (ConnId * bytes) * ReplicaRegistry :=
  match op with
  | OpAdd c => ([], snd (add c r))
  | OpRemove i => ([], remove i r)
  | OpPropagate command => propagate (serialize command) r
  | OpAck i offset => ([], record_ack i offset r)
  | OpGetack => request_getack r
  end.

Fixpoint replica_run (r : ReplicaRegistry) (ops : list replica_op) : list (ConnId * bytes) * ReplicaRegistry :=
  match ops with
  | [] => ([], r)
  | op :: ops =>
      let '(posts, r) := replica_step r op in
      let '(posts', r) := replica_run r ops in
      (posts ++ posts', r)
  end.

(** The commands, and their bytes, that an operation puts on the replication
    stream. *)
Definition op_commands (op : replica_op) : list RespValue :=
  match op with
  | OpPropagate command => [command]
  | OpGetack => [getack_command]
  | _ => []
  end.

Definition op_data (op : replica_op) : bytes := concat (serialize <$> op_commands op).

(** The bytes written to connection [c]. *)
Definition sent_to (c : ConnId) (posts : list (ConnId * bytes)) : bytes :=
  concat (snd <$> filter (λ p, p.1 = c) posts).

(** Replica [i], and only it, writes to connection [c]. *)
Definition sole_writer (i : N) (c : ConnId) (r : ReplicaRegistry) : Prop :=
  (∃ s, replicas_ r !! i = Some s ∧ write_fn s = c) ∧
  (∀ j s, replicas_ r !! j = Some s → write_fn s = c → j = i) ∧
  (i < replica_next_ r)%N.

(** Each connection registers once and [i] is not removed meanwhile. *)
Definition op_keeps (i : N) (c : ConnId) (op : replica_op) : Prop :=
  match op with
  | OpAdd c' => c' ≠ c
  | OpRemove j => j ≠ i
  | _ => True
  end.

Lemma sent_to_app c p q : sent_to c (p ++ q) = sent_to c p ++ sent_to c q.
Proof. unfold sent_to. by rewrite filter_app, fmap_app, concat_app. Qed.

Lemma propagate_reaches i c data r :
  sole_writer i c r → sent_to c (fst (propagate data r)) = data.
Proof.
  intros ((s & Hi & Hc) & Huniq & _). unfold sent_to, propagate. simpl.
  assert (filter (λ p : ConnId * bytes, p.1 = c)
    ((λ '(_, state), (write_fn state, data)) <$> map_to_list (replicas_ r)) = [(c, data)]) as ->.
  2:{ simpl. by rewrite app_nil_r. }
  apply Permutation_singleton_r.
  assert (map_to_list (replicas_ r) ≡ₚ (i, s) :: map_to_list (delete i (replicas_ r))) as ->.
  { rewrite <- map_to_list_insert by apply lookup_delete_eq. by rewrite insert_delete_id. }
  rewrite fmap_cons, filter_cons_True, Hc by done. constructor.
  rewrite filter_none; [done|]. apply Forall_forall.
  intros p ([j s'] & -> & [Hne Hj]%elem_of_map_to_list%lookup_delete_Some)%list_elem_of_fmap.
  simpl. intros Hw. by apply Hne, eq_sym, (Huniq j s').
Qed.

Lemma step_sole_writer i c r op :
  sole_writer i c r → op_keeps i c op → sole_writer i c (snd (replica_step r op)).
Proof.
  intros ((s & Hi & Hc) & Huniq & Hlt) Hop. destruct op as [c'|j|data|j offset|];
    simpl in *; try (by split_and!; [exists s|..]).
  - split_and!; simpl; [|..|lia].
    + exists s. by rewrite lookup_insert_ne by lia.
    + intros j s' [[<- <-]|[_ Hj]]%lookup_insert_Some; [done|eauto].
  - split_and!; simpl; [|..|done].
    + exists s. by rewrite lookup_delete_ne by done.
    + intros k s' [_ Hk]%lookup_delete_Some. eauto.
  - unfold record_ack. destruct (replicas_ r !! j) as [e|] eqn:Hj;
      [|by split_and!; [exists s|..]].
    split_and!; simpl; [|..|done].
    + destruct (decide (j = i)) as [->|]; [|exists s; by rewrite lookup_insert_ne].
      rewrite lookup_insert_eq. rewrite Hi in Hj. injection Hj as <-. by eexists.
    + intros k s' [[<- <-]|[_ Hk]]%lookup_insert_Some; [|eauto]. intros Hw. by apply (Huniq j e).
Qed.

Lemma step_stream i c r op :
  sole_writer i c r →
  sent_to c (fst (replica_step r op)) = op_data op ∧
  master_offset_ (snd (replica_step r op)) = master_offset_ r + zlen (op_data op).
Proof.
  intros Hw. unfold op_data. destruct op as [c'|j|command|j offset|];
    cbn [op_commands fmap list_fmap concat]; rewrite ?app_nil_r;
    try (split; [done|unfold zlen; simpl; lia]).
  - split; [by apply (propagate_reaches i)|done].
  - split; [done|]. unfold zlen. simpl. unfold record_ack. destruct (replicas_ r !! j); simpl; lia.
  - split; [by apply (propagate_reaches i)|done].
Qed.

(** From the moment a replica is registered, the bytes written to its
    connection are the bytes propagated, in order, and the master's offset
    advances by their number. *)
Lemma replica_run_stream i c r ops :
  sole_writer i c r → Forall (op_keeps i c) ops →
  let '(posts, r') := replica_run r ops in
  sent_to c posts = concat (serialize <$> concat (op_commands <$> ops)) ∧
  master_offset r' = master_offset r + zlen (sent_to c posts) ∧
  sole_writer i c r'.
Proof.
  intros Hreg Hops. revert r Hreg. induction Hops as [|op ops Hop Hops IH]; intros r Hreg; simpl.
  { split_and!; [done|unfold zlen; simpl; lia|done]. }
  destruct (step_stream i c r op Hreg) as [Hs Ho].
  pose proof (step_sole_writer i c r op Hreg Hop) as Hreg'.
  destruct (replica_step r op) as [posts r1]. simpl in *. specialize (IH r1 Hreg').
  destruct (replica_run r1 ops) as [posts' r2]. destruct IH as (IH1 & IH2 & IH3).
  unfold master_offset in *. rewrite sent_to_app, Hs, zlen_app, IH1 in *.
  rewrite fmap_app, concat_app. split_and!; [done|unfold op_data in *; lia|done].
Qed.

(** ** Properties *)

(** Acknowledgements.  [record_ack] sets exactly one replica's offset (an
    unknown id changes nothing), and the count that WAIT uses moves by exactly
    that replica's change of side; it never exceeds the number of replicas and
    only shrinks as the target grows. *)
Theorem ack_counting (i : N) (o off off' : Z) (r : ReplicaRegistry) :
  (∀ j, acked_offset j (record_ack i o r) =
     if decide (j = i) then (λ _, o) <$> acked_offset i r else acked_offset j r) ∧
  count_acked_at_least off (record_ack i o r) =
    match acked_offset i r with
    | Some old => count_acked_at_least off r - (if off <=? old then 1 else 0) + (if off <=? o then 1 else 0)
    | None => count_acked_at_least off r
    end ∧
  count_acked_at_least off r ≤ replica_count r ∧
  (off ≤ off' → count_acked_at_least off' r ≤ count_acked_at_least off r).
Proof.
  split_and!.
  - intros j. unfold acked_offset, record_ack. destruct (replicas_ r !! i) as [e|] eqn:Hi; simpl.
    + rewrite lookup_insert. by repeat (case_decide; subst).
    + case_decide; subst; [by rewrite Hi|done].
  - unfold acked_offset, record_ack. destruct (replicas_ r !! i) as [e|] eqn:Hi; [|done].
    exact (count_map_update (λ '(_, s), off <=? acked_offset_ s) (replicas_ r) i e _ Hi).
  - unfold count_acked_at_least, replica_count, zlen. rewrite <- length_map_to_list.
    pose proof (filter_length_le (λ '(_, s), off <=? acked_offset_ s) (λ _, true)
      (map_to_list (replicas_ r)) ltac:(done)). lia.
  - intros Hle. unfold count_acked_at_least, zlen. apply Nat2Z.inj_le.
    apply (filter_length_le (λ '(_, s), off' <=? acked_offset_ s) (λ '(_, s), off <=? acked_offset_ s)).
    intros [j s]. rewrite !Z.leb_le. lia.
Qed.
