(* ===== verification/Command.v ===== *)
(** * Commands and their arguments

    Models src/command/core/Command.hpp (command types, the case-insensitive
    lookup of a name, the write and replication classes),
    src/util/CommandUtils.hpp (arity check and expiry options of SET) and
    [CommandHandler::parse_command] of src/command/execution/CommandHandler.cpp. *)

From S2P Require Import Prelude CharConv Resp.

Inductive CommandType :=
  | Ping | Info | Echo | Set_ | Get | TypeCmd
  | RPush | LPush | LRange | LLen | LPop | BLPop
  | XAdd | XRange | XRead | Incr
  | Multi | Watch | Unwatch | Exec | Discard
  | Replconf | Psync | Wait | Unknown.

#[export] Instance CommandType_eq_dec : EqDecision CommandType.
Proof. solve_decision. Defined.

Record Command := mkCommand {
  cmd_type : CommandType;
  cmd_name : bytes;
  args : list bytes;
}.

(** [std::ranges::equal] under [std::tolower]. *)
Definition compareStrings (string1 string2 : bytes) : bool :=
  bool_decide (lowercase string1 = lowercase string2).

Definition parse_type (name : bytes) : CommandType :=
  if compareStrings name (b "ping") then Ping
  else if compareStrings name (b "info") then Info
  else if compareStrings name (b "echo") then Echo
  else if compareStrings name (b "set") then Set_
  else if compareStrings name (b "get") then Get
  else if compareStrings name (b "type") then TypeCmd
  else if compareStrings name (b "rpush") then RPush
  else if compareStrings name (b "lpush") then LPush
  else if compareStrings name (b "lrange") then LRange
  else if compareStrings name (b "llen") then LLen
  else if compareStrings name (b "lpop") then LPop
  else if compareStrings name (b "blpop") then BLPop
  else if compareStrings name (b "xadd") then XAdd
  else if compareStrings name (b "xrange") then XRange
  else if compareStrings name (b "xread") then XRead
  else if compareStrings name (b "incr") then Incr
  else if compareStrings name (b "multi") then Multi
  else if compareStrings name (b "watch") then Watch
  else if compareStrings name (b "unwatch") then Unwatch
  else if compareStrings name (b "exec") then Exec
  else if compareStrings name (b "discard") then Discard
  else if compareStrings name (b "replconf") then Replconf
  else if compareStrings name (b "psync") then Psync
  else if compareStrings name (b "wait") then Wait
  else Unknown.

Definition is_replication_command (t : CommandType) : bool :=
  match t with Replconf | Psync => true | _ => false end.

Definition is_write_command (t : CommandType) : bool :=
  match t with
  | Set_ | Incr | RPush | LPush | LPop | BLPop | XAdd => true
  | _ => false
  end.

(** What [std::vector::at(n)] throws outside a vector of [size] elements. *)
Definition range_check (n size : nat) : exn :=
  OutOfRange (b "vector::_M_range_check: __n (which is " ++ to_string (Z.of_nat n) ++
    b ") >= this->size() (which is " ++ to_string (Z.of_nat size) ++ b ")").

(** [request.elements.at(0)] throws on an empty array. *)
Definition parse_command (request : RespValue) : outcome Command :=
  match elements request with
  | [] => Throw (range_check 0 0)
  | e :: es => Ok (mkCommand (parse_type (str e)) (str e) (map str es))
  end.

Definition wrong_args (name : bytes) : bytes :=
  b "-ERR wrong number of arguments for '" ++ name ++ b "' command" ++ CRLF.

Definition check_args (cmd : Command) (min_args : nat) : option bytes :=
  if bool_decide (length (args cmd) < min_args)%nat then Some (wrong_args (cmd_name cmd)) else None.

(** The loop of [parse_expiry] over the options behind key and value, two
    arguments at a time; [seconds * 1000] is signed 64-bit arithmetic. *)
Fixpoint expiry_options (options : list bytes) : outcome (option Z) :=
  match options with
  | opt :: value :: rest =>
      if bool_decide (lowercase opt = b "ex") then
        let! seconds := stoll value in
        if fits_i64 (seconds * 1000) then Ok (Some (seconds * 1000)) else UB
      else if bool_decide (lowercase opt = b "px") then
        let! milliseconds := stoll value in Ok (Some milliseconds)
      else expiry_options rest
  | _ => Ok None
  end.

Definition parse_expiry (cmd : Command) : outcome (option Z) := expiry_options (drop 2 (args cmd)).

(** ** Lemmas *)

Lemma compareStrings_lowercase s t : compareStrings (lowercase s) t = compareStrings s t.
Proof. unfold compareStrings. by rewrite lowercase_idem. Qed.

Lemma parse_type_lowercase name : parse_type (lowercase name) = parse_type name.
Proof. unfold parse_type. by rewrite !compareStrings_lowercase. Qed.

(** The name under which a type is registered. *)
Definition type_name (t : CommandType) : bytes :=
  match t with
  | Ping => b "ping" | Info => b "info" | Echo => b "echo" | Set_ => b "set" | Get => b "get"
  | TypeCmd => b "type" | RPush => b "rpush" | LPush => b "lpush" | LRange => b "lrange"
  | LLen => b "llen" | LPop => b "lpop" | BLPop => b "blpop" | XAdd => b "xadd"
  | XRange => b "xrange" | XRead => b "xread" | Incr => b "incr" | Multi => b "multi"
  | Watch => b "watch" | Unwatch => b "unwatch" | Exec => b "exec" | Discard => b "discard"
  | Replconf => b "replconf" | Psync => b "psync" | Wait => b "wait" | Unknown => []
  end.

Lemma compareStrings_true s t : lowercase t = t → compareStrings s t = true → lowercase s = t.
Proof. unfold compareStrings. intros Ht H. bool_prop. congruence. Qed.

Lemma parse_type_sound name t : parse_type name = t → t ≠ Unknown → lowercase name = type_name t.
Proof.
  intros <- Hne. unfold parse_type in *.
  repeat match goal with
  | |- context [if ?x then _ else _] =>
      destruct x eqn:?; [by apply compareStrings_true|]
  end.
  done.
Qed.

(** ** Properties *)

(** A command name selects a type exactly when it spells that type's name in
    any mixture of upper and lower case. *)
Theorem parse_type_correct (name : bytes) (t : CommandType) (Hknown : t ≠ Unknown) :
  parse_type name = t ↔ lowercase name = type_name t.
Proof.
  split; [intros H; by apply parse_type_sound|].
  intros H. rewrite <- parse_type_lowercase, H. by destruct t.
Qed.

Lemma parse_type_correct_witness : parse_type (b "xRaNgE") = XRange.
Proof. apply (parse_type_correct (b "xRaNgE") XRange); [discriminate|reflexivity]. Defined.
