(* ===== verification/ServerConfig.v ===== *)
(** * Server configuration

    Models src/state/ServerConfig.hpp.  The random draws of [generate_replid]
    are an argument. *)

From S2P Require Import Prelude.

Inductive Role := Master | Slave.

#[export] Instance Role_eq_dec : EqDecision Role.
Proof. solve_decision. Defined.

Record ServerConfig := mkConfig {
  role : Role;
  replicaof : option bytes;
  master_replid : bytes;
  master_repl_offset : Z;
}.

Definition replid_chars : bytes :=
  b "0123456789abcdefghijklmnopqrstuvwxyzABCDEFGHIJKLMNOPQRSTUVWXYZ".

(** [chars.at(dist(gen))] for each draw; [dist] draws below [chars.size()]. *)
Definition generate_replid (draws : list nat) : bytes :=
  omap (λ i, replid_chars !! i) (take 40 draws).

Definition is_replica (config : ServerConfig) : bool := bool_decide (role config = Slave).

Definition role_str (config : ServerConfig) : bytes :=
  if is_replica config then b "slave" else b "master".

Definition master_config (draws : list nat) : ServerConfig :=
  mkConfig Master None (generate_replid draws) 0.

Definition replica_config (draws : list nat) (master_addr : bytes) : ServerConfig :=
  let config := master_config draws in
  mkConfig Slave (Some master_addr) (master_replid config) (master_repl_offset config).

Lemma length_omap_lookup {A} (chars : list A) (l : list nat) :
  Forall (λ i, (i < length chars)%nat) l → length (omap (λ i, chars !! i) l) = length l.
Proof.
  induction 1 as [|i l Hi _ IH]; [done|]. cbn [omap list_omap].
  destruct (lookup_lt_is_Some_2 _ _ Hi) as [c ->]. cbn [length]. by rewrite IH.
Qed.

(** ** Properties *)

(** A replication id has exactly 40 characters of the 62-letter alphabet,
    whatever the random draws, for a master and for a replica. *)
Theorem replid_shape (draws : list nat) (addr : bytes)
    (Hlen : (40 ≤ length draws)%nat) (Hdraws : Forall (λ i, (i < length replid_chars)%nat) draws) :
  length (master_replid (replica_config draws addr)) = 40%nat ∧
  Forall (λ c, c ∈ replid_chars) (master_replid (master_config draws)) ∧
  is_replica (replica_config draws addr) = true ∧ is_replica (master_config draws) = false.
Proof.
  split_and!; [|..|done|done]; simpl; unfold generate_replid.
  - rewrite length_omap_lookup by (by apply Forall_take). by apply length_take_le.
  - apply Forall_forall. intros c (i & _ & Hc)%list_elem_of_omap. by eapply list_elem_of_lookup_2.
Qed.

Lemma replid_shape_witness :
  length (master_replid (replica_config (replicate 40 61%nat) (b "localhost 6379"))) = 40%nat.
Proof.
  exact (proj1 (replid_shape (replicate 40 61%nat) (b "localhost 6379") ltac:(simpl; lia)
    ltac:(apply Forall_replicate; vm_compute; lia))).
Defined.
