(* ===== verification/World.v ===== *)
(** * The server's shared state and the callbacks on it

    Commands run one at a time on the store thread and share the store, the
    blocking and watch managers, the transaction managers of the connections
    and the replica registry.  [World] is that state, [M] the state monad in
    which commands are written: an exception keeps the state at the throw, as
    the code does.

    The [std::function] callbacks of the sources are data here: a [Reply] says
    what a reply callback does with its text, a [TimerWait] what an
    [async_wait] handler does, and [Task] names the calls through such values;
    Dispatch.v interprets them.  The shared [Context] of an EXEC lives in
    [w_execs] under an id, so that all callbacks that hold it see its updates. *)

From S2P Require Import Prelude CharConv Resp StoreValue Blocking WatchManager TransactionManager ReplicaRegistry Command ServerConfig.

(** ** Handlers and callbacks *)

Inductive RegistryKind := Client | Replication.

(** A [CommandHandler]: which registry it was built with, whether it was given
    a replica registry, and whether it was given the INFO callbacks. *)
Record Handler := mkHandler {
  h_id : HandlerId;
  h_kind : RegistryKind;
  h_replicated : bool;
  h_stats : bool;
}.

Inductive Reply :=
  (** [write_response] of a connection *)
  | ReplyTo (c : ConnId)
  (** the empty callback of a replication session *)
  | ReplyDiscard
  (** [propagating_reply] of the dispatcher *)
  | ReplyPropagate (raw : bytes) (on_reply : Reply)
  (** the callback EXEC gives to a queued command *)
  | ReplyExec (ctx : N) (command_type : CommandType) (next_req : RespValue).

(** [Context] of EXEC, with what [run_next] captures. *)
Record ExecContext := mkExec {
  exec_index : nat;
  exec_results : list bytes;
  exec_commands : list RespValue;
  exec_handler : Handler;
  exec_on_reply : Reply;
}.

(** The captures of the callbacks given to [register_blpop] and
    [register_xread]. *)
Record BlpopCallback := mkBlpop {
  blpop_reply : Reply;
  blpop_timer : N;
}.

Record XReadCallback := mkXRead {
  xread_reply : Reply;
  xread_timer : N;
  xread_keys : list bytes;
  xread_ids : list bytes;
}.

(** The handlers given to [async_wait]. *)
Inductive TimerWait :=
  | BlpopTimeout (id : N) (on_reply : Reply)
  | XReadTimeout (id : N) (on_reply : Reply)
  | WaitPoll (target_offset numreplicas : Z) (deadline : option Z) (on_reply : Reply).

(** A timer waits until [expiry] ([None]: [time_point::max()]); once it has
    fired its handler is queued and [cancel] no longer reaches it. *)
Record Timer := mkTimer {
  expiry : option Z;
  wait : TimerWait;
  fired : bool;
}.

(** What reaches the network: replies, after which the connection reads on,
    and propagated commands. *)
Inductive Output :=
  | Response (c : ConnId) (data : bytes)
  | Propagated (c : ConnId) (data : bytes).

Inductive Task :=
  (** a call of [on_reply] *)
  | TReply (on_reply : Reply) (response : bytes)
  (** [( *run_next)()] *)
  | TRunNext (ctx : N)
  (** an iteration of the loop of [serve_blpop_waiters] *)
  | TServeBlpop (key : bytes).

(** ** The state *)

Record World := mkWorld {
  w_store : Data;
  w_blpop : BlockingRegistry BlpopCallback;
  w_xread : BlockingRegistry XReadCallback;
  w_watch : WatchManager;
  w_tms : gmap HandlerId TransactionManager;
  w_replicas : ReplicaRegistry;
  w_timers : gmap N Timer;
  w_next_timer : N;
  w_execs : gmap N ExecContext;
  w_next_exec : N;
  w_out : list Output;
  w_steady : Z;
  w_system : Z;
  w_clients : Z;
  w_config : ServerConfig;
}.

Definition initial_world (config : ServerConfig) (steady system : Z) : World :=
  mkWorld ∅ empty_registry empty_registry empty_watch ∅ empty_replicas ∅ 0 ∅ 0 [] steady system 0 config.

Definition with_store (d : Data) (w : World) : World :=
  mkWorld d (w_blpop w) (w_xread w) (w_watch w) (w_tms w) (w_replicas w) (w_timers w)
    (w_next_timer w) (w_execs w) (w_next_exec w) (w_out w) (w_steady w) (w_system w)
    (w_clients w) (w_config w).
Definition with_blpop (r : BlockingRegistry BlpopCallback) (w : World) : World :=
  mkWorld (w_store w) r (w_xread w) (w_watch w) (w_tms w) (w_replicas w) (w_timers w)
    (w_next_timer w) (w_execs w) (w_next_exec w) (w_out w) (w_steady w) (w_system w)
    (w_clients w) (w_config w).
Definition with_xread (r : BlockingRegistry XReadCallback) (w : World) : World :=
  mkWorld (w_store w) (w_blpop w) r (w_watch w) (w_tms w) (w_replicas w) (w_timers w)
    (w_next_timer w) (w_execs w) (w_next_exec w) (w_out w) (w_steady w) (w_system w)
    (w_clients w) (w_config w).
Definition with_watch (wm : WatchManager) (w : World) : World :=
  mkWorld (w_store w) (w_blpop w) (w_xread w) wm (w_tms w) (w_replicas w) (w_timers w)
    (w_next_timer w) (w_execs w) (w_next_exec w) (w_out w) (w_steady w) (w_system w)
    (w_clients w) (w_config w).
Definition with_tms (tms : gmap HandlerId TransactionManager) (w : World) : World :=
  mkWorld (w_store w) (w_blpop w) (w_xread w) (w_watch w) tms (w_replicas w) (w_timers w)
    (w_next_timer w) (w_execs w) (w_next_exec w) (w_out w) (w_steady w) (w_system w)
    (w_clients w) (w_config w).
Definition with_replicas (r : ReplicaRegistry) (w : World) : World :=
  mkWorld (w_store w) (w_blpop w) (w_xread w) (w_watch w) (w_tms w) r (w_timers w)
    (w_next_timer w) (w_execs w) (w_next_exec w) (w_out w) (w_steady w) (w_system w)
    (w_clients w) (w_config w).
Definition with_timers (ts : gmap N Timer) (next : N) (w : World) : World :=
  mkWorld (w_store w) (w_blpop w) (w_xread w) (w_watch w) (w_tms w) (w_replicas w) ts
    next (w_execs w) (w_next_exec w) (w_out w) (w_steady w) (w_system w)
    (w_clients w) (w_config w).
Definition with_execs (es : gmap N ExecContext) (next : N) (w : World) : World :=
  mkWorld (w_store w) (w_blpop w) (w_xread w) (w_watch w) (w_tms w) (w_replicas w) (w_timers w)
    (w_next_timer w) es next (w_out w) (w_steady w) (w_system w)
    (w_clients w) (w_config w).
Definition with_out (out : list Output) (w : World) : World :=
  mkWorld (w_store w) (w_blpop w) (w_xread w) (w_watch w) (w_tms w) (w_replicas w) (w_timers w)
    (w_next_timer w) (w_execs w) (w_next_exec w) out (w_steady w) (w_system w)
    (w_clients w) (w_config w).
Definition with_clocks (steady system : Z) (w : World) : World :=
  mkWorld (w_store w) (w_blpop w) (w_xread w) (w_watch w) (w_tms w) (w_replicas w) (w_timers w)
    (w_next_timer w) (w_execs w) (w_next_exec w) (w_out w) steady system
    (w_clients w) (w_config w).
Definition with_clients (n : Z) (w : World) : World :=
  mkWorld (w_store w) (w_blpop w) (w_xread w) (w_watch w) (w_tms w) (w_replicas w) (w_timers w)
    (w_next_timer w) (w_execs w) (w_next_exec w) (w_out w) (w_steady w) (w_system w)
    n (w_config w).

(** ** The monad *)

Definition M (A : Type) : Type := World → World * outcome A.

#[export] Instance M_ret : MRet M := λ A a w, (w, Ok a).

#[export] Instance M_bind : MBind M := λ A B f m w,
  match m w with
  | (w', Ok a) => f a w'
  | (w', Throw e) => (w', Throw e)
  | (w', UB) => (w', UB)
  | (w', NoFuel) => (w', NoFuel)
  end.

Definition gets {A} (f : World → A) : M A := λ w, (w, Ok (f w)).
Definition modify (f : World → World) : M unit := λ w, (f w, Ok tt).
Definition lift {A} (o : outcome A) : M A := λ w, (w, o).

(** [try { m } catch (const std::exception& e) { handler(e) }]. *)
Definition try_catch {A} (m : M A) (handler : exn → M A) : M A := λ w,
  match m w with
  | (w', Throw e) => handler e w'
  | r => r
  end.

(** A store operation that returns a result and the changed map. *)
Definition on_store {A} (f : Data → A * Data) : M A := λ w,
  let '(a, d) := f (w_store w) in (with_store d w, Ok a).

(** A store operation that can raise; the map changes even when it does. *)
Definition on_store_outcome {A} (f : Data → Data * outcome A) : M A := λ w,
  let '(d, r) := f (w_store w) in (with_store d w, r).

(** The transaction manager of a handler, created with the handler. *)
Definition tm_of (h : HandlerId) (w : World) : TransactionManager :=
  default initial_tm (w_tms w !! h).

Definition set_tm (h : HandlerId) (tm : TransactionManager) (w : World) : World :=
  with_tms (<[h := tm]> (w_tms w)) w.

(** [notify_write]: each callback marks one transaction manager dirty. *)
Definition mark_dirty_of (w : World) (h : HandlerId) : World := set_tm h (mark_dirty (tm_of h w)) w.

Definition notify (key : bytes) : M unit :=
  modify (λ w, fold_left mark_dirty_of (notify_write key (w_watch w)) w).

(** [replica_registry_->propagate(data)]. *)
Definition propagate_all (data : bytes) : M unit :=
  modify (λ w,
    let '(posts, r) := propagate data (w_replicas w) in
    with_out (w_out w ++ ((λ '(c, s), Propagated c s) <$> posts)) (with_replicas r w)).

(** [BlockingManager]: one registry per kind of blocked client. *)
Definition register_blpop (keys : list bytes) (callback : BlpopCallback) : M N := λ w,
  let '(id, r) := register_callbacks keys callback (w_blpop w) in (with_blpop r w, Ok id).
Definition unregister_blpop (id : N) : M unit :=
  modify (λ w, with_blpop (unregister id (w_blpop w)) w).
Definition register_xread (keys : list bytes) (callback : XReadCallback) : M N := λ w,
  let '(id, r) := register_callbacks keys callback (w_xread w) in (with_xread r w, Ok id).
Definition unregister_xread (id : N) : M unit :=
  modify (λ w, with_xread (unregister id (w_xread w)) w).

(** A new timer with a pending [async_wait]. *)
Definition start_timer (t : Timer) : M N := λ w,
  (with_timers (<[w_next_timer w := t]> (w_timers w)) (w_next_timer w + 1) w, Ok (w_next_timer w)).

(** [timer->cancel()]: the pending handler completes with
    [operation_aborted], which all handlers ignore. *)
Definition cancel_timer (t : N) : M unit :=
  modify (λ w,
    match w_timers w !! t with
    | Some timer =>
        if fired timer then w else with_timers (delete t (w_timers w)) (w_next_timer w) w
    | None => w
    end).

(** ** Stepping through a computation *)

Lemma bind_on_store {A B : Type} (f : Data → A * Data) (g : A → M B) w :
  (on_store f ≫= g) w = g (f (w_store w)).1 (with_store (f (w_store w)).2 w).
Proof. unfold mbind, M_bind, on_store. by destruct (f (w_store w)). Qed.

Lemma bind_gets {A B : Type} (f : World → A) (g : A → M B) w : (gets f ≫= g) w = g (f w) w.
Proof. done. Qed.

Lemma bind_modify {B : Type} (f : World → World) (g : unit → M B) w : (modify f ≫= g) w = g tt (f w).
Proof. done. Qed.

Lemma bind_Ok {A B : Type} (m : M A) (g : A → M B) w w' a : m w = (w', Ok a) → (m ≫= g) w = g a w'.
Proof. intros E. unfold mbind, M_bind. by rewrite E. Qed.
