(* ===== verification/BasicCommands.v ===== *)
(** * Basic commands

    Models src/command/impl/BasicCommands.cpp: PING, INFO, ECHO, SET, GET,
    TYPE and INCR.  [redis_version] stands for the [REDIS_VERSION] of the
    generated header util/Version.hpp.  [call] is the interpretation of a
    callback (see World.v); the whole file is about any such interpretation. *)

From S2P Require Import Prelude CharConv Resp StoreValue StringStore ListStore Store Blocking WatchManager TransactionManager ReplicaRegistry Command ServerConfig World.

(** [cmd.args.at(i)]. *)
Definition arg (cmd : Command) (i : nat) : M bytes :=
  lift (match args cmd !! i with
        | Some a => Ok a
        | None => Throw (range_check i (length (args cmd)))
        end).

Lemma arg_Some cmd i a w : args cmd !! i = Some a → arg cmd i w = (w, Ok a).
Proof. intros E. unfold arg, lift. by rewrite E. Qed.

(** [std::string::contains]. *)
Fixpoint contains (needle s : bytes) : bool :=
  bool_decide (take (length needle) s = needle) ||
  match s with [] => false | _ :: s' => contains needle s' end.

(** ** The sections of INFO *)

Definition line (name value : bytes) : bytes := name ++ b ":" ++ value ++ CRLF.

Definition append_section (payload section : bytes) (first_section : bool) : bytes :=
  payload ++ (if first_section then [] else CRLF) ++ section.

Definition build_server_section (redis_version : bytes) : bytes :=
  b "# Server" ++ CRLF ++ line (b "redis_version") redis_version ++
  line (b "redis_mode") (b "standalone").

Definition build_clients_section (connected_clients : option Z) : bytes :=
  b "# Clients" ++ CRLF ++ line (b "connected_clients") (to_string (default 0 connected_clients)).

Definition build_memory_section (used_memory : option Z) : bytes :=
  b "# Memory" ++ CRLF ++ line (b "used_memory") (to_string (default 0 used_memory)).

Definition slave_line (i : nat) (offset : Z) : bytes :=
  b "slave" ++ to_string (Z.of_nat i) ++ b ":offset=" ++ to_string offset ++ CRLF.

Definition build_replication_section (config : ServerConfig) (registry : option ReplicaRegistry)
    : bytes :=
  let offset :=
    match registry with
    | Some r => if is_replica config then master_repl_offset config else master_offset r
    | None => master_repl_offset config
    end in
  b "# Replication" ++ CRLF ++ line (b "role") (role_str config) ++
  (if is_replica config then []
   else line (b "connected_slaves") (to_string (from_option replica_count 0 registry)) ++
        concat (imap slave_line (from_option acked_offsets [] registry))) ++
  line (b "master_replid") (master_replid config) ++
  line (b "master_repl_offset") (to_string offset) ++
  line (b "second_repl_offset") (b "-1") ++
  line (b "repl_backlog_active") (b "0") ++
  line (b "repl_backlog_size") (b "1048576") ++
  line (b "repl_backlog_first_byte_offset") (b "0") ++
  line (b "repl_backlog_histlen") [].

Definition build_info_payload (redis_version section : bytes) (config : ServerConfig)
    (connected_clients used_memory : option Z) (registry : option ReplicaRegistry) : bytes :=
  let normalized_section := lowercase section in
  if bool_decide (normalized_section = []) || bool_decide (normalized_section = b "all") then
    let payload := append_section [] (build_server_section redis_version) true in
    let payload := append_section payload (build_clients_section connected_clients) false in
    let payload := append_section payload (build_memory_section used_memory) false in
    append_section payload (build_replication_section config registry) false
  else if bool_decide (normalized_section = b "server") then build_server_section redis_version
  else if bool_decide (normalized_section = b "clients") then build_clients_section connected_clients
  else if bool_decide (normalized_section = b "memory") then build_memory_section used_memory
  else if bool_decide (normalized_section = b "replication")
       then build_replication_section config registry
  else [].

(** ** Replies *)

Definition null_bulk : bytes := b "$-1" ++ CRLF.
Definition ok_reply : bytes := b "+OK" ++ CRLF.
Definition integer_reply (z : Z) : bytes := b ":" ++ to_string z ++ CRLF.

(** ** Commands *)

(** [store_.set(key, value, *ttl)] or [store_.set(key, value)]. *)
Definition store_set (now : Z) (key value : bytes) (ttl : option Z) (d : Data) : Data * outcome unit :=
  match ttl with
  | Some ttl =>
      match set_ttl now key value ttl d with
      | Ok d => (d, Ok tt)
      | Throw e => (d, Throw e)
      | UB => (d, UB)
      | NoFuel => (d, NoFuel)
      end
  | None => (set key value d, Ok tt)
  end.

Section commands.
Context (call : Task → M unit) (redis_version : bytes).

Definition execute_ping (cmd : Command) (on_reply : Reply) : M unit :=
  if bool_decide (args cmd = []) then call (TReply on_reply (b "+PONG" ++ CRLF))
  else msg ← arg cmd 0; call (TReply on_reply (bulk msg)).

Definition execute_info (h : Handler) (cmd : Command) (on_reply : Reply) : M unit :=
  if bool_decide (1 < length (args cmd))%nat then
    call (TReply on_reply (b "-ERR wrong number of arguments for 'INFO' command" ++ CRLF))
  else
    payload ← gets (λ w,
      build_info_payload redis_version (default [] (args cmd !! 0%nat)) (w_config w)
        (if h_stats h then Some (w_clients w) else None)
        (if h_stats h then Some (approximate_memory_usage (w_store w)) else None)
        (if h_replicated h then Some (w_replicas w) else None));
    call (TReply on_reply (bulk payload)).

Definition execute_echo (cmd : Command) (on_reply : Reply) : M unit :=
  match check_args cmd 1 with
  | Some err => call (TReply on_reply err)
  | None => msg ← arg cmd 0; call (TReply on_reply (bulk msg))
  end.

Definition execute_set (cmd : Command) (on_reply : Reply) : M unit :=
  match check_args cmd 2 with
  | Some err => call (TReply on_reply err)
  | None =>
      ttl ← lift (parse_expiry cmd);
      if from_option (λ ttl, ttl <=? 0) false ttl then
        call (TReply on_reply (b "-ERR invalid expire time in 'SET' command" ++ CRLF))
      else
        key ← arg cmd 0;
        value ← arg cmd 1;
        now ← gets w_steady;
        on_store_outcome (store_set now key value ttl);;
        notify key;;
        call (TReply on_reply ok_reply)
  end.

Definition execute_get (cmd : Command) (on_reply : Reply) : M unit :=
  match check_args cmd 1 with
  | Some err => call (TReply on_reply err)
  | None =>
      key ← arg cmd 0;
      now ← gets w_steady;
      value ← on_store (get now key);
      match value with
      | Unexpected error =>
          if contains (b "-WRONGTYPE") error then call (TReply on_reply error)
          else call (TReply on_reply null_bulk)
      | Expected value => call (TReply on_reply (bulk value))
      end
  end.

Definition execute_type (cmd : Command) (on_reply : Reply) : M unit :=
  match check_args cmd 1 with
  | Some err => call (TReply on_reply err)
  | None =>
      key ← arg cmd 0;
      now ← gets w_steady;
      type ← on_store (store_type now key);
      call (TReply on_reply (b "+" ++ StoreType_to_string type ++ CRLF))
  end.

Definition execute_incr (cmd : Command) (on_reply : Reply) : M unit :=
  match check_args cmd 1 with
  | Some err => call (TReply on_reply err)
  | None =>
      key ← arg cmd 0;
      now ← gets w_steady;
      result ← on_store (incr now key);
      match result with
      | Expected value => notify key;; call (TReply on_reply (integer_reply value))
      | Unexpected error => call (TReply on_reply error)
      end
  end.
End commands.
