(* ===== verification/ListCommands.v ===== *)
(** * List commands and the service of blocked clients

    Models src/command/impl/ListCommands.cpp and
    [BlockingManager::serve_blpop_waiters] of src/state/BlockingManager.cpp,
    whose loop is the task [TServeBlpop]: an iteration pops one element, hands
    it to the oldest waiter and goes round again. *)

From S2P Require Import Prelude CharConv Resp StoreValue StringStore ListStore Store Blocking WatchManager TransactionManager ReplicaRegistry Command ServerConfig World BasicCommands.

Definition null_array : bytes := b "*-1" ++ CRLF.

(** ["*{}\r\n"] and the values as bulk strings. *)
Definition bulk_array (values : list bytes) : bytes :=
  array_header (zlen values) ++ concat (bulk <$> values).

(** ["*2\r\n${}\r\n{}\r\n${}\r\n{}\r\n"]. *)
Definition key_value_reply (key value : bytes) : bytes := array_header 2 ++ bulk key ++ bulk value.

Section commands.
Context (call : Task → M unit).

Definition execute_rpush (cmd : Command) (on_reply : Reply) : M unit :=
  match check_args cmd 2 with
  | Some err => call (TReply on_reply err)
  | None =>
      key ← arg cmd 0;
      length ← on_store (rpush key (drop 1 (args cmd)));
      notify key;;
      call (TServeBlpop key);;
      call (TReply on_reply (integer_reply length))
  end.

Definition execute_lpush (cmd : Command) (on_reply : Reply) : M unit :=
  match check_args cmd 2 with
  | Some err => call (TReply on_reply err)
  | None =>
      key ← arg cmd 0;
      length ← on_store (lpush key (drop 1 (args cmd)));
      notify key;;
      call (TServeBlpop key);;
      call (TReply on_reply (integer_reply length))
  end.

Definition execute_lrange (cmd : Command) (on_reply : Reply) : M unit :=
  match check_args cmd 3 with
  | Some err => call (TReply on_reply err)
  | None =>
      key ← arg cmd 0;
      a1 ← arg cmd 1;
      start ← lift (stoll a1);
      a2 ← arg cmd 2;
      stop ← lift (stoll a2);
      values ← gets (λ w, lrange key start stop (w_store w));
      call (TReply on_reply (bulk_array values))
  end.

Definition execute_llen (cmd : Command) (on_reply : Reply) : M unit :=
  match check_args cmd 1 with
  | Some err => call (TReply on_reply err)
  | None =>
      key ← arg cmd 0;
      length ← gets (λ w, llen key (w_store w));
      call (TReply on_reply (integer_reply length))
  end.

(** [values->front()] of an empty vector is undefined. *)
Definition execute_lpop (cmd : Command) (on_reply : Reply) : M unit :=
  match check_args cmd 1 with
  | Some err => call (TReply on_reply err)
  | None =>
      key ← arg cmd 0;
      count ← (if bool_decide (2 ≤ length (args cmd))%nat
               then a1 ← arg cmd 1; lift (stoull a1)
               else mret 1);
      values ← on_store (lpop key count);
      match values with
      | Unexpected error =>
          if contains (b "-WRONGTYPE") error then call (TReply on_reply error)
          else call (TReply on_reply null_bulk)
      | Expected values =>
          notify key;;
          if bool_decide (length (args cmd) < 2)%nat then
            match values with
            | val :: _ => call (TReply on_reply (bulk val))
            | [] => lift UB
            end
          else call (TReply on_reply (bulk_array values))
      end
  end.

(** The first of [keys] whose list gives an element. *)
Fixpoint blpop_immediate (keys : list bytes) : M (option (bytes * bytes)) :=
  match keys with
  | [] => mret None
  | key :: keys =>
      values ← on_store (lpop key 1);
      match values with
      | Expected (val :: _) => mret (Some (key, val))
      | Expected [] => lift (Throw (range_check 0 0))
      | Unexpected _ => blpop_immediate keys
      end
  end.

Definition execute_blpop (cmd : Command) (on_reply : Reply) : M unit :=
  match check_args cmd 2 with
  | Some err => call (TReply on_reply err)
  | None =>
      back ← arg cmd (length (args cmd) - 1);
      timeout ← lift (stod back);
      let keys := take (length (args cmd) - 1) (args cmd) in
      found ← blpop_immediate keys;
      match found with
      | Some (key, val) => call (TReply on_reply (key_value_reply key val))
      | None =>
          now ← gets w_steady;
          expiry ← lift (if positive timeout
                         then let! ns := seconds_to_ns timeout in Ok (Some (now + ns))
                         else Ok None);
          timer ← gets w_next_timer;
          id ← register_blpop keys (mkBlpop on_reply timer);
          start_timer (mkTimer expiry (BlpopTimeout id on_reply) false);;
          mret tt
      end
  end.

(** The callback BLPOP registers. *)
Definition blpop_callback (c : BlpopCallback) (key value : bytes) : M unit :=
  cancel_timer (blpop_timer c);;
  call (TReply (blpop_reply c) (key_value_reply key value)).

Definition serve_blpop_waiters (key : bytes) : M unit :=
  queue ← gets (λ w, registry_find key (w_blpop w));
  match queue with
  | None | Some [] => mret tt
  | Some (reg :: _) =>
      val ← on_store (lpop key 1);
      match val with
      | Expected (value :: _) =>
          unregister_blpop (reg_id reg);;
          blpop_callback (reg_callback reg) key value;;
          call (TServeBlpop key)
      | _ => mret tt
      end
  end.

(** The timer handler of BLPOP, for a timer that was not cancelled. *)
Definition blpop_timeout (id : N) (on_reply : Reply) : M unit :=
  unregister_blpop id;;
  call (TReply on_reply null_array).
End commands.
