(* ===== verification/StreamCommands.v ===== *)
(** * Stream commands and the service of blocked readers

    Models src/command/impl/StreamCommands.cpp and
    [BlockingManager::serve_xread_waiters] of src/state/BlockingManager.cpp. *)

From S2P Require Import Prelude CharConv Resp StreamId StoreValue StringStore ListStore StreamStore Store Blocking WatchManager TransactionManager ReplicaRegistry Command ServerConfig World BasicCommands ListCommands.

Record XReadArgs := mkXArgs {
  valid_ : bool;
  is_blocking : bool;
  timeout_ : double;
  keys_ : list bytes;
  ids_ : list bytes;
}.

(** [std::ranges::find_if] of an upper-cased argument: its position. *)
Definition find_keyword (keyword : bytes) (args : list bytes) : option nat :=
  fst <$> list_find (λ arg, uppercase arg = keyword) args.

(** [throw]s of [stod] end the parse with [valid] still false. *)
Definition parse_xread_args (cmd : Command) : outcome XReadArgs :=
  let invalid blocking timeout := mkXArgs false blocking timeout [] [] in
  let zero := S754_zero false in
  let streams (blocking : bool) (timeout : double) :=
    match find_keyword (b "STREAMS") (args cmd) with
    | None => invalid blocking timeout
    | Some streams_idx =>
        let count := (length (args cmd) - streams_idx - 1)%nat in
        if bool_decide (count = 0%nat) || negb (bool_decide (count `mod` 2 = 0)%nat)
        then invalid blocking timeout
        else
          let num_streams := (count / 2)%nat in
          let operands := drop (streams_idx + 1) (args cmd) in
          mkXArgs true blocking timeout (take num_streams operands)
            (take num_streams (drop num_streams operands))
    end in
  match find_keyword (b "BLOCK") (args cmd) ≫= (λ i, args cmd !! S i) with
  | Some text =>
      match stod text with
      | Ok timeout => Ok (streams true timeout)
      | Throw _ => Ok (invalid true zero)
      | UB => UB
      | NoFuel => NoFuel
      end
  | None => Ok (streams false zero)
  end.

Definition format_entry (entry : StreamEntry) : bytes :=
  array_header 2 ++ bulk (entry_id entry) ++ array_header (2 * zlen (fields entry)) ++
  concat ((λ '(field, value), bulk field ++ bulk value) <$> fields entry).

Definition format_entries (es : list StreamEntry) : bytes :=
  array_header (zlen es) ++ concat (format_entry <$> es).

Definition format_stream_entries (results : list (bytes * list StreamEntry)) : bytes :=
  if bool_decide (length results = 0%nat) then null_array
  else
    array_header (zlen results) ++
    concat ((λ '(key, es), array_header 2 ++ bulk key ++ format_entries es) <$> results).

(** ["$"] is the id of the last entry now in the stream. *)
Definition resolve_stream_id (d : Data) (key id : bytes) : outcome bytes :=
  if bool_decide (id = b "$") then
    let! max_entries := xrange key (b "-") (b "+") d in
    Ok (from_option entry_id (b "0-0") (last max_entries))
  else Ok id.

(** [ids.at(i)] never fails: [parse_xread_args] gives as many ids as keys. *)
Fixpoint resolve_stream_ids (d : Data) (keys ids : list bytes) : outcome (list bytes) :=
  match keys, ids with
  | key :: keys, id :: ids =>
      let! resolved := resolve_stream_id d key id in
      let! rest := resolve_stream_ids d keys ids in
      Ok (resolved :: rest)
  | [], _ => Ok []
  | _ :: _, [] => Throw (range_check 0 0)
  end.

(** [fields.emplace_back(args.at(i), args.at(i + 1))] for [i = 2, 4, ...]. *)
Fixpoint field_pairs (l : list bytes) : list (bytes * bytes) :=
  match l with
  | field :: value :: l => (field, value) :: field_pairs l
  | _ => []
  end.

Section commands.
Context (call : Task → M unit).

(** [expires_after(milliseconds(static_cast<long long>(timeout)))]: the
    milliseconds become nanoseconds in 64-bit arithmetic. *)
Definition setup_xread_blocking (parsed : XReadArgs) (resolved_ids : list bytes)
    (on_reply : Reply) : M unit :=
  now ← gets w_steady;
  expiry ← lift (if positive (timeout_ parsed)
                 then let! ms := truncate (timeout_ parsed) in
                      if fits_i64 (ms * 1000000) then Ok (Some (now + ms * 1000000)) else UB
                 else Ok None);
  timer ← gets w_next_timer;
  id ← register_xread (keys_ parsed) (mkXRead on_reply timer (keys_ parsed) resolved_ids);
  start_timer (mkTimer expiry (XReadTimeout id on_reply) false);;
  mret tt.

(** The callback XREAD registers. *)
Definition xread_callback (c : XReadCallback) : M unit :=
  cancel_timer (xread_timer c);;
  d ← gets w_store;
  results ← lift (xread (xread_keys c) (xread_ids c) d);
  call (TReply (xread_reply c) (format_stream_entries results)).

(** The waiters are copied before the loop. *)
Fixpoint serve_readers (waiters : list (Registration XReadCallback)) : M unit :=
  match waiters with
  | [] => mret tt
  | waiter :: waiters =>
      unregister_xread (reg_id waiter);;
      xread_callback (reg_callback waiter);;
      serve_readers waiters
  end.

Definition serve_xread_waiters (key : bytes) : M unit :=
  queue ← gets (λ w, registry_find key (w_xread w));
  serve_readers (default [] queue).

Definition xread_timeout (id : N) (on_reply : Reply) : M unit :=
  unregister_xread id;;
  call (TReply on_reply null_array).

Definition execute_xadd (cmd : Command) (on_reply : Reply) : M unit :=
  if bool_decide (length (args cmd) < 4)%nat ||
     negb (bool_decide ((length (args cmd) - 2) `mod` 2 = 0)%nat) then
    call (TReply on_reply (b "-ERR wrong number of arguments for XADD" ++ CRLF))
  else
    key ← arg cmd 0;
    streamId ← arg cmd 1;
    now ← gets w_system;
    result ← on_store_outcome (xadd now key streamId (field_pairs (drop 2 (args cmd))));
    match result with
    | Expected id =>
        notify key;;
        serve_xread_waiters key;;
        call (TReply on_reply (bulk id))
    | Unexpected error => call (TReply on_reply (error ++ CRLF))
    end.

Definition error_reply (e : exn) : bytes := b "-ERR " ++ exn_what e ++ CRLF.

Definition execute_xrange (cmd : Command) (on_reply : Reply) : M unit :=
  if negb (bool_decide (length (args cmd) = 3%nat)) then
    call (TReply on_reply (b "-ERR wrong number of arguments for XRANGE" ++ CRLF))
  else
    key ← arg cmd 0;
    start ← arg cmd 1;
    stop ← arg cmd 2;
    try_catch
      (d ← gets w_store;
       es ← lift (xrange key start stop d);
       call (TReply on_reply (format_entries es)))
      (λ e, call (TReply on_reply (error_reply e))).

Definition execute_xread (cmd : Command) (on_reply : Reply) : M unit :=
  parsed ← lift (parse_xread_args cmd);
  if negb (valid_ parsed) then call (TReply on_reply (b "-ERR syntax error" ++ CRLF))
  else
    d ← gets w_store;
    resolved_ids ← lift (resolve_stream_ids d (keys_ parsed) (ids_ parsed));
    try_catch
      (results ← lift (xread (keys_ parsed) resolved_ids d);
       if negb (bool_decide (length results = 0%nat)) then
         call (TReply on_reply (format_stream_entries results))
       else if negb (is_blocking parsed) then call (TReply on_reply null_array)
       else setup_xread_blocking parsed resolved_ids on_reply)
      (λ e, call (TReply on_reply (error_reply e))).
End commands.
