(* ===== verification/TransactionCommands.v ===== *)
(** * Transaction, WATCH and replication commands

    Models src/command/impl/TransactionCommands.cpp (MULTI, EXEC, DISCARD),
    src/command/impl/WatchCommands.cpp (WATCH, UNWATCH) and
    src/command/impl/ReplicationCommands.cpp (REPLCONF, PSYNC, WAIT).
    [execute] is the lookup and execution of a command by its type, which
    EXEC's [run_next] uses through [finder_]. *)

From S2P Require Import Prelude CharConv Resp StoreValue Blocking WatchManager TransactionManager ReplicaRegistry Command ServerConfig World BasicCommands ListCommands.

(** An operation on the transaction manager of a handler and the shared
    watch manager. *)
Definition on_tm (h : HandlerId)
    (f : TransactionManager → WatchManager → TransactionManager * WatchManager) : M unit :=
  modify (λ w, let '(tm, wm) := f (tm_of h w) (w_watch w) in with_watch wm (set_tm h tm w)).

Definition parse_nonnegative (value : bytes) : option Z :=
  match from_chars_llong value with
  | FcOk out [] => if 0 <=? out then Some out else None
  | _ => None
  end.

(** ["REDIS0009"], the end-of-file opcode and a zeroed checksum. *)
Definition rdb_payload : bytes :=
  b "REDIS0009" ++ [ascii_of_nat 255] ++ replicate 8 (ascii_of_nat 0).

(** [response] of PSYNC: the resync line, the payload header, the payload. *)
Definition fullresync_reply (config : ServerConfig) (offset : Z) : bytes :=
  b "+FULLRESYNC " ++ master_replid config ++ b " " ++ to_string offset ++ CRLF ++
  b "$" ++ to_string (zlen rdb_payload) ++ CRLF ++ rdb_payload.

Definition kWaitPollInterval : Z := 20 * 1000000.

(** [std::make_shared<Context>()], filled. *)
Definition new_exec (c : ExecContext) : M N := λ w,
  (with_execs (<[w_next_exec w := c]> (w_execs w)) (w_next_exec w + 1) w, Ok (w_next_exec w)).

Section commands.
Context (call : Task → M unit).

Definition execute_multi (h : Handler) (on_reply : Reply) : M unit :=
  on_tm (h_id h) (λ tm wm, (begin tm, wm));;
  call (TReply on_reply ok_reply).

Definition execute_exec (h : Handler) (on_reply : Reply) : M unit :=
  tm ← gets (tm_of (h_id h));
  if negb (is_active tm) then call (TReply on_reply (b "-ERR EXEC without MULTI" ++ CRLF))
  else if is_dirty tm then
    on_tm (h_id h) reset;;
    call (TReply on_reply null_array)
  else
    let queued := fst (pop_queued_commands tm) in
    on_tm (h_id h) (λ tm wm, reset (snd (pop_queued_commands tm)) wm);;
    if bool_decide (length queued = 0%nat) then call (TReply on_reply (array_header 0))
    else
      ctx ← new_exec (mkExec 0 (replicate (length queued) []) queued h on_reply);
      call (TRunNext ctx).

Definition execute_discard (h : Handler) (on_reply : Reply) : M unit :=
  tm ← gets (tm_of (h_id h));
  if negb (is_active tm) then call (TReply on_reply (b "-ERR DISCARD without MULTI" ++ CRLF))
  else
    on_tm (h_id h) reset;;
    call (TReply on_reply ok_reply).

Definition execute_watch (h : Handler) (cmd : Command) (on_reply : Reply) : M unit :=
  tm ← gets (tm_of (h_id h));
  if is_active tm then
    call (TReply on_reply (b "-ERR WATCH inside MULTI is not allowed" ++ CRLF))
  else
    match check_args cmd 1 with
    | Some err => call (TReply on_reply err)
    | None =>
        on_tm (h_id h) (λ tm wm, fold_left (watch_one (h_id h)) (args cmd) (tm, wm));;
        call (TReply on_reply ok_reply)
    end.

Definition execute_unwatch (h : Handler) (cmd : Command) (on_reply : Reply) : M unit :=
  if negb (bool_decide (args cmd = [])) then
    call (TReply on_reply (wrong_args (cmd_name cmd)))
  else
    on_tm (h_id h) clear_watches;;
    call (TReply on_reply ok_reply).

(** ** EXEC *)

(** A lookup in [w_execs] always succeeds: a callback holds its context. *)
Definition get_exec (ctx : N) : M ExecContext :=
  λ w, (w, match w_execs w !! ctx with Some c => Ok c | None => UB end).

Definition put_exec (ctx : N) (c : ExecContext) : M unit :=
  modify (λ w, with_execs (<[ctx := c]> (w_execs w)) (w_next_exec w) w).

(** [ctx->results.at(ctx->index) = res]. *)
Definition store_result (ctx : N) (res : bytes) : M unit :=
  c ← get_exec ctx;
  if bool_decide (exec_index c < length (exec_results c))%nat then
    put_exec ctx (mkExec (exec_index c) (<[exec_index c := res]> (exec_results c))
      (exec_commands c) (exec_handler c) (exec_on_reply c))
  else lift (Throw (range_check (exec_index c) (length (exec_results c)))).

(** [ctx->index++]. *)
Definition next_index (ctx : N) : M unit :=
  c ← get_exec ctx;
  put_exec ctx (mkExec (S (exec_index c)) (exec_results c) (exec_commands c) (exec_handler c)
    (exec_on_reply c)).

Definition unknown_command (name : bytes) : bytes :=
  b "-ERR unknown command '" ++ name ++ b "'" ++ CRLF.

(** The body of [run_next]; [execute h cmd k] is [None] when the registry of
    [h] has no command of that type. *)
Definition run_next (execute : Handler → Command → Reply → option (M unit)) (ctx : N) : M unit :=
  c ← get_exec ctx;
  if bool_decide (exec_index c = length (exec_commands c)) then
    call (TReply (exec_on_reply c) (array_header (zlen (exec_results c)) ++ concat (exec_results c)))
  else
    next_req ← lift (match exec_commands c !! exec_index c with
                     | Some r => Ok r
                     | None => Throw (range_check (exec_index c) (length (exec_commands c)))
                     end);
    next_cmd ← lift (parse_command next_req);
    match execute (exec_handler c) next_cmd (ReplyExec ctx (cmd_type next_cmd) next_req) with
    | Some body => body
    | None =>
        store_result ctx (unknown_command (cmd_name next_cmd));;
        next_index ctx;;
        call (TRunNext ctx)
    end.

(** The callback EXEC gives to a queued command. *)
Definition exec_callback (ctx : N) (command_type : CommandType) (next_req : RespValue)
    (res : bytes) : M unit :=
  store_result ctx res;;
  c ← get_exec ctx;
  (if h_replicated (exec_handler c) && is_write_command command_type
   then propagate_all (serialize next_req) else mret tt);;
  next_index ctx;;
  call (TRunNext ctx).

(** ** Replication *)

Definition execute_replconf (on_reply : Reply) : M unit := call (TReply on_reply ok_reply).

Definition execute_psync (h : Handler) (cmd : Command) (on_reply : Reply) : M unit :=
  match check_args cmd 2 with
  | Some err => call (TReply on_reply err)
  | None =>
      config ← gets w_config;
      if is_replica config then call (TReply on_reply (b "-ERR not a master" ++ CRLF))
      else
        offset ← gets (λ w, if h_replicated h then master_offset (w_replicas w)
                            else master_repl_offset config);
        call (TReply on_reply (fullresync_reply config offset))
  end.

(** [poll]: reply, or wait for another interval. *)
Definition wait_poll (target_offset numreplicas : Z) (deadline : option Z) (on_reply : Reply)
    : M unit :=
  count ← gets (λ w, count_acked_at_least target_offset (w_replicas w));
  now ← gets w_steady;
  let timed_out := from_option (λ deadline, deadline <=? now) false deadline in
  if (numreplicas <=? count) || timed_out then call (TReply on_reply (integer_reply count))
  else
    start_timer (mkTimer (Some (now + kWaitPollInterval))
      (WaitPoll target_offset numreplicas deadline on_reply) false);;
    mret tt.

Definition request_getack_all : M unit :=
  modify (λ w,
    let '(posts, r) := request_getack (w_replicas w) in
    with_out (w_out w ++ ((λ '(c, s), Propagated c s) <$> posts)) (with_replicas r w)).

Definition execute_wait (h : Handler) (cmd : Command) (on_reply : Reply) : M unit :=
  if negb (bool_decide (length (args cmd) = 2%nat)) then
    call (TReply on_reply (b "-ERR wrong number of arguments for 'WAIT' command" ++ CRLF))
  else
    a0 ← arg cmd 0;
    a1 ← arg cmd 1;
    match parse_nonnegative a0, parse_nonnegative a1 with
    | Some numreplicas, Some timeout_ms =>
        if negb (h_replicated h) then call (TReply on_reply (integer_reply 0))
        else
          target_offset ← gets (λ w, master_offset (w_replicas w));
          already_acked ← gets (λ w, count_acked_at_least target_offset (w_replicas w));
          if numreplicas <=? already_acked then
            call (TReply on_reply (integer_reply already_acked))
          else
            request_getack_all;;
            now ← gets w_steady;
            deadline ← lift (
              if 0 <? timeout_ms then
                if fits_i64 (timeout_ms * 1000000) && fits_i64 (now + timeout_ms * 1000000)
                then Ok (Some (now + timeout_ms * 1000000)) else UB
              else Ok None);
            wait_poll target_offset numreplicas deadline on_reply
    | _, _ =>
        call (TReply on_reply (b "-ERR value is not an integer or out of range" ++ CRLF))
    end.
End commands.
