(* ===== verification/CommandRegistry.v ===== *)
(** * Command objects and the registries that hold them

    Models the class hierarchy below [ICommand] (src/command/core/ICommand.hpp
    and the headers of src/command/impl) and src/command/core/CommandRegistry.cpp.
    A command object is a constructor; its arguments stand for the references
    that the class keeps and that differ between handlers (the transaction
    manager, the finder, the INFO callbacks, the replica registry): all of
    them belong to the [CommandHandler] that builds the registry.  The store and
    the managers are the same for all objects and are part of [World].
    [command_execute] is the virtual call. *)

From S2P Require Import Prelude CharConv Resp StoreValue Blocking WatchManager TransactionManager ReplicaRegistry Command ServerConfig World BasicCommands ListCommands StreamCommands TransactionCommands.

(** ** Command types as keys *)

Definition type_index (t : CommandType) : nat :=
  match t with
  | Ping => 0 | Info => 1 | Echo => 2 | Set_ => 3 | Get => 4 | TypeCmd => 5 | RPush => 6
  | LPush => 7 | LRange => 8 | LLen => 9 | LPop => 10 | BLPop => 11 | XAdd => 12 | XRange => 13
  | XRead => 14 | Incr => 15 | Multi => 16 | Watch => 17 | Unwatch => 18 | Exec => 19
  | Discard => 20 | Replconf => 21 | Psync => 22 | Wait => 23 | Unknown => 24
  end.

Definition all_types : list CommandType :=
  [Ping; Info; Echo; Set_; Get; TypeCmd; RPush; LPush; LRange; LLen; LPop; BLPop; XAdd; XRange;
   XRead; Incr; Multi; Watch; Unwatch; Exec; Discard; Replconf; Psync; Wait; Unknown].

#[export] Instance CommandType_countable : Countable CommandType.
Proof. by refine (inj_countable' type_index (λ n, nth n all_types Unknown) _); intros []. Defined.

(** ** The classes *)

Inductive BasicCommand :=
  | PingCommand
  | InfoCommand (h : Handler)
  | EchoCommand
  | SetCommand
  | GetCommand
  | TypeCommand
  | IncrCommand.

Inductive ListCommand :=
  | RPushCommand | LPushCommand | LRangeCommand | LLenCommand | LPopCommand | BlpopCommand.

Inductive StreamCommand := XAddCommand | XRangeCommand | XReadCommand.

Inductive WatchingCommand :=
  | WatchCommand (h : Handler)
  | UnwatchCommand (h : Handler).

Inductive TransactionCommand :=
  | MultiCommand (h : Handler)
  | ExecCommand (h : Handler)
  | DiscardCommand (h : Handler).

Inductive ReplicationCommand :=
  | ReplconfCommand
  | PsyncCommand (h : Handler)
  | WaitCommand (h : Handler).

Inductive ICommand :=
  | Basic (c : BasicCommand)
  | List_ (c : ListCommand)
  | Stream_ (c : StreamCommand)
  | Watching (c : WatchingCommand)
  | Transaction (c : TransactionCommand)
  | Replication_ (c : ReplicationCommand).

Section execute.
Context (call : Task → M unit) (redis_version : bytes).

Definition command_execute (c : ICommand) (cmd : Command) (on_reply : Reply) : M unit :=
  match c with
  | Basic PingCommand => execute_ping call cmd on_reply
  | Basic (InfoCommand h) => execute_info call redis_version h cmd on_reply
  | Basic EchoCommand => execute_echo call cmd on_reply
  | Basic SetCommand => execute_set call cmd on_reply
  | Basic GetCommand => execute_get call cmd on_reply
  | Basic TypeCommand => execute_type call cmd on_reply
  | Basic IncrCommand => execute_incr call cmd on_reply
  | List_ RPushCommand => execute_rpush call cmd on_reply
  | List_ LPushCommand => execute_lpush call cmd on_reply
  | List_ LRangeCommand => execute_lrange call cmd on_reply
  | List_ LLenCommand => execute_llen call cmd on_reply
  | List_ LPopCommand => execute_lpop call cmd on_reply
  | List_ BlpopCommand => execute_blpop call cmd on_reply
  | Stream_ XAddCommand => execute_xadd call cmd on_reply
  | Stream_ XRangeCommand => execute_xrange call cmd on_reply
  | Stream_ XReadCommand => execute_xread call cmd on_reply
  | Watching (WatchCommand h) => execute_watch call h cmd on_reply
  | Watching (UnwatchCommand h) => execute_unwatch call h cmd on_reply
  | Transaction (MultiCommand h) => execute_multi call h on_reply
  | Transaction (ExecCommand h) => execute_exec call h on_reply
  | Transaction (DiscardCommand h) => execute_discard call h on_reply
  | Replication_ ReplconfCommand => execute_replconf call on_reply
  | Replication_ (PsyncCommand h) => execute_psync call h cmd on_reply
  | Replication_ (WaitCommand h) => execute_wait call h cmd on_reply
  end.
End execute.

(** ** The registry *)

Record CommandRegistry := mkCommands {
  commands_ : gmap CommandType ICommand;
}.

Definition register_command (t : CommandType) (command : ICommand) (r : CommandRegistry)
    : CommandRegistry :=
  mkCommands (<[t := command]> (commands_ r)).

(** [find]: [None] is the null pointer. *)
Definition find_command (t : CommandType) (r : CommandRegistry) : option ICommand := commands_ r !! t.

Definition register_all (l : list (CommandType * ICommand)) : CommandRegistry :=
  fold_left (λ r '(t, c), register_command t c r) l (mkCommands ∅).

Definition build_client_registry (h : Handler) : CommandRegistry :=
  register_all
    [(Ping, Basic PingCommand); (Info, Basic (InfoCommand h)); (Echo, Basic EchoCommand);
     (Set_, Basic SetCommand); (Get, Basic GetCommand); (TypeCmd, Basic TypeCommand);
     (Incr, Basic IncrCommand);
     (RPush, List_ RPushCommand); (LPush, List_ LPushCommand); (LRange, List_ LRangeCommand);
     (LLen, List_ LLenCommand); (LPop, List_ LPopCommand); (BLPop, List_ BlpopCommand);
     (XAdd, Stream_ XAddCommand); (XRange, Stream_ XRangeCommand); (XRead, Stream_ XReadCommand);
     (Watch, Watching (WatchCommand h)); (Unwatch, Watching (UnwatchCommand h));
     (Wait, Replication_ (WaitCommand h));
     (Multi, Transaction (MultiCommand h)); (Exec, Transaction (ExecCommand h));
     (Discard, Transaction (DiscardCommand h))].

Definition build_replication_registry (h : Handler) : CommandRegistry :=
  register_all
    [(Ping, Basic PingCommand); (Replconf, Replication_ ReplconfCommand);
     (Psync, Replication_ (PsyncCommand h))].

(** The registry that the constructor of [CommandHandler] builds. *)
Definition handler_registry (h : Handler) : CommandRegistry :=
  match h_kind h with
  | Replication => build_replication_registry h
  | Client => build_client_registry h
  end.

(** ** Lookup in a registry built by registrations *)

(** The last registration of a type counts. *)
Lemma register_all_find l t :
  find_command t (register_all l) = snd <$> last (filter (λ p, p.1 = t) l).
Proof.
  unfold register_all. induction l as [|[t' c] l IH] using rev_ind; [apply lookup_empty|].
  rewrite fold_left_app, filter_app. cbn [fold_left].
  unfold find_command, register_command. cbn [commands_]. destruct (decide (t' = t)) as [->|Hne].
  - rewrite lookup_insert_eq, filter_cons_True, filter_nil by done. by rewrite last_snoc.
  - rewrite lookup_insert_ne, filter_cons_False, filter_nil by done. by rewrite app_nil_r.
Qed.
