(* ===== verification/Dispatch.v ===== *)
(** * Dispatch, and the events of the store thread

    Models src/command/execution/TransactionDispatcher.cpp and
    [CommandHandler::handle] of src/command/execution/CommandHandler.cpp, and
    closes the recursion between callbacks and commands: [run] interprets a
    call through a callback.  Its fuel bounds the depth of the calls, which
    is small unless blocked transactions resume one another. *)

From S2P Require Import Prelude CharConv Resp StoreValue StringStore ListStore StreamStore Store Blocking WatchManager TransactionManager ReplicaRegistry Command ServerConfig World BasicCommands ListCommands StreamCommands TransactionCommands CommandRegistry.

Section dispatch.
Context (redis_version : bytes).

(** [registry_.find(type)] followed by [execute]. *)
Definition execute (call : Task → M unit) (h : Handler) (cmd : Command) (on_reply : Reply)
    : option (M unit) :=
  (λ c, command_execute call redis_version c cmd on_reply) <$> find_command (cmd_type cmd) (handler_registry h).

(** The two registries as one table, the form in which the proofs use them. *)
Definition command_table (call : Task → M unit) (h : Handler) (cmd : Command) (on_reply : Reply)
    : option (M unit) :=
  match h_kind h with
  | Client =>
      match cmd_type cmd with
      | Ping => Some (execute_ping call cmd on_reply)
      | Info => Some (execute_info call redis_version h cmd on_reply)
      | Echo => Some (execute_echo call cmd on_reply)
      | Set_ => Some (execute_set call cmd on_reply)
      | Get => Some (execute_get call cmd on_reply)
      | TypeCmd => Some (execute_type call cmd on_reply)
      | Incr => Some (execute_incr call cmd on_reply)
      | RPush => Some (execute_rpush call cmd on_reply)
      | LPush => Some (execute_lpush call cmd on_reply)
      | LRange => Some (execute_lrange call cmd on_reply)
      | LLen => Some (execute_llen call cmd on_reply)
      | LPop => Some (execute_lpop call cmd on_reply)
      | BLPop => Some (execute_blpop call cmd on_reply)
      | XAdd => Some (execute_xadd call cmd on_reply)
      | XRange => Some (execute_xrange call cmd on_reply)
      | XRead => Some (execute_xread call cmd on_reply)
      | Watch => Some (execute_watch call h cmd on_reply)
      | Unwatch => Some (execute_unwatch call h cmd on_reply)
      | Wait => Some (execute_wait call h cmd on_reply)
      | Multi => Some (execute_multi call h on_reply)
      | Exec => Some (execute_exec call h on_reply)
      | Discard => Some (execute_discard call h on_reply)
      | Replconf | Psync | Unknown => None
      end
  | Replication =>
      match cmd_type cmd with
      | Ping => Some (execute_ping call cmd on_reply)
      | Replconf => Some (execute_replconf call on_reply)
      | Psync => Some (execute_psync call h cmd on_reply)
      | _ => None
      end
  end.

Lemma execute_table call h cmd k : execute call h cmd k = command_table call h cmd k.
Proof.
  unfold execute, handler_registry, command_table.
  destruct (h_kind h), (cmd_type cmd); reflexivity.
Qed.

(** What a callback does when it is called. *)
Definition run_task (call : Task → M unit) (t : Task) : M unit :=
  match t with
  | TReply (ReplyTo c) response => modify (λ w, with_out (w_out w ++ [Response c response]) w)
  | TReply ReplyDiscard _ => mret tt
  | TReply (ReplyPropagate raw on_reply) response =>
      call (TReply on_reply response);;
      propagate_all raw
  | TReply (ReplyExec ctx command_type next_req) response =>
      exec_callback call ctx command_type next_req response
  | TRunNext ctx => run_next call (execute call) ctx
  | TServeBlpop key => serve_blpop_waiters call key
  end.

Fixpoint run (fuel : nat) (t : Task) : M unit :=
  match fuel with
  | O => lift NoFuel
  | S fuel => run_task (run fuel) t
  end.

(** [TransactionDispatcher::dispatch]. *)
Definition always_direct (t : CommandType) : bool :=
  match t with Multi | Watch | Unwatch | Exec | Discard => true | _ => false end.

Definition dispatch (fuel : nat) (h : Handler) (request : RespValue) (cmd : Command)
    (on_reply : Reply) : M unit :=
  tm ← gets (tm_of (h_id h));
  if always_direct (cmd_type cmd) then
    match execute (run fuel) h cmd on_reply with
    | Some body =>
        if bool_decide (cmd_type cmd = Multi) && is_active tm then
          run fuel (TReply on_reply (b "-ERR MULTI calls can not be nested" ++ CRLF))
        else body
    | None => run fuel (TReply on_reply (unknown_command (cmd_name cmd)))
    end
  else if is_active tm then
    on_tm (h_id h) (λ tm wm, (queue_command request tm, wm));;
    run fuel (TReply on_reply (b "+QUEUED" ++ CRLF))
  else
    let on_reply' :=
      if h_replicated h && is_write_command (cmd_type cmd)
      then ReplyPropagate (serialize request) on_reply else on_reply in
    match execute (run fuel) h cmd on_reply' with
    | Some body => body
    | None => run fuel (TReply on_reply (unknown_command (cmd_name cmd)))
    end.

(** [CommandHandler::handle]. *)
Definition handle (fuel : nat) (h : Handler) (request : RespValue) (on_reply : Reply) : M unit :=
  if negb (bool_decide (type request = Array)) || bool_decide (length (elements request) = 0%nat)
  then run fuel (TReply on_reply (b "-ERR invalid command format" ++ CRLF))
  else
    cmd ← lift (parse_command request);
    dispatch fuel h request cmd on_reply.

(** ** Timers *)

(** The clock passes the expiry: the handler is queued. *)
Definition timer_expires (t : N) : M unit :=
  modify (λ w,
    match w_timers w !! t with
    | Some timer =>
        if from_option (λ e, e <=? w_steady w) false (expiry timer)
        then with_timers (<[t := mkTimer (expiry timer) (wait timer) true]> (w_timers w))
               (w_next_timer w) w
        else w
    | None => w
    end).

(** The queued handler runs, with no error. *)
Definition timer_completes (fuel : nat) (t : N) : M unit :=
  timers ← gets w_timers;
  match timers !! t with
  | Some timer =>
      if fired timer then
        modify (λ w, with_timers (delete t (w_timers w)) (w_next_timer w) w);;
        match wait timer with
        | BlpopTimeout id on_reply => blpop_timeout (run fuel) id on_reply
        | XReadTimeout id on_reply => xread_timeout (run fuel) id on_reply
        | WaitPoll target numreplicas deadline on_reply =>
            wait_poll (run fuel) target numreplicas deadline on_reply
        end
      else mret tt
  | None => mret tt
  end.
End dispatch.

(** ** Replies that do not resume a transaction *)

Fixpoint plain (k : Reply) : bool :=
  match k with
  | ReplyTo _ | ReplyDiscard => true
  | ReplyPropagate _ k => plain k
  | ReplyExec _ _ _ => false
  end.

Fixpoint reply_depth (k : Reply) : nat :=
  match k with
  | ReplyPropagate _ k => S (reply_depth k)
  | _ => 1
  end.

(** The state after the callback ran. *)
Fixpoint deliver (k : Reply) (s : bytes) (w : World) : World :=
  match k with
  | ReplyTo c => with_out (w_out w ++ [Response c s]) w
  | ReplyPropagate raw k => (propagate_all raw (deliver k s w)).1
  | _ => w
  end.

Section run.
Context (version : bytes).

Lemma run_deliver fuel k s w :
  plain k = true → (reply_depth k ≤ fuel)%nat → run version fuel (TReply k s) w = (deliver k s w, Ok tt).
Proof.
  revert fuel. induction k as [c| |raw k IH|]; intros [|fuel] Hp Hf; simpl in *; try lia; try done.
  unfold mbind, M_bind. by rewrite IH by (done || lia).
Qed.

Lemma run_reply_to fuel c s w :
  run version (S fuel) (TReply (ReplyTo c) s) w = (with_out (w_out w ++ [Response c s]) w, Ok tt).
Proof. done. Qed.

Lemma handle_command fuel h request cmd k w :
  type request = Array → parse_command request = Ok cmd →
  handle version fuel h request k w = dispatch version fuel h request cmd k w.
Proof.
  intros Ht Hp. unfold handle. rewrite bool_decide_eq_true_2 by done. cbn [negb orb].
  rewrite bool_decide_eq_false_2.
  - by rewrite Hp.
  - unfold parse_command in Hp. destruct (elements request); [done|]. simpl. lia.
Qed.
End run.

(** The replication registry holds PING, REPLCONF and PSYNC: whatever a handler
    with this registry is given, it answers, and changes nothing else. *)
Lemma replication_replies version fuel h request c w :
  h_kind h = Replication → is_active (tm_of (h_id h) w) = false → (1 ≤ fuel)%nat →
  ∃ s, handle version fuel h request (ReplyTo c) w = (with_out (w_out w ++ [Response c s]) w, Ok tt).
Proof.
  intros Hk Ha Hf. destruct fuel as [|fuel]; [lia|]. unfold handle.
  destruct (type request); simpl; try (by eexists). unfold parse_command.
  destruct (elements request) as [|e es]; simpl; [by eexists|].
  unfold dispatch, mbind at 1, M_bind at 1, lift at 1. rewrite bind_gets, Ha. set (cmd := mkCommand _ _ _).
  rewrite !execute_table. unfold command_table. rewrite Hk.
  destruct (cmd_type cmd); cbn [always_direct is_write_command bool_decide];
    rewrite ?andb_false_r, ?andb_true_r;
    repeat match goal with |- context [if ?b then _ else _] => destruct b end; try (by eexists).
  - unfold execute_ping, arg. case_bool_decide as E; [by eexists|].
    destruct (args cmd); [done|by eexists].
  - unfold execute_psync, check_args. case_bool_decide; [by eexists|]. rewrite bind_gets.
    destruct (is_replica (w_config w)); rewrite ?bind_gets; by eexists.
Qed.

(** Delivering a reply touches the output and the replica registry only. *)
Lemma deliver_frame k s w :
  w_store (deliver k s w) = w_store w ∧ w_tms (deliver k s w) = w_tms w ∧
  w_watch (deliver k s w) = w_watch w ∧ w_blpop (deliver k s w) = w_blpop w ∧
  w_execs (deliver k s w) = w_execs w.
Proof.
  induction k as [c| |raw k IH|]; simpl; try destruct IH as (? & ? & ? & ? & ?); by split_and!.
Qed.

Lemma dispatch_reply h t raw c :
  let k := if h_replicated h && is_write_command t then ReplyPropagate raw (ReplyTo c) else ReplyTo c in
  plain k = true ∧ (reply_depth k ≤ 2)%nat.
Proof. destruct (_ && _); simpl; lia. Qed.

(** ** Example data for the witnesses *)

Definition example_request (l : list bytes) : RespValue := mkResp Array [] (bulk_value <$> l).
Definition example_handler (i : N) : Handler := mkHandler i Client true true.
Definition example_world : World := initial_world (master_config (replicate 40 7%nat)) 0 1000.
Definition send (i : N) (l : list bytes) : M unit :=
  handle (b "7.0.0") 20 (example_handler i) (example_request l) (ReplyTo i).

(** Connection 1 watches [k], opens a transaction and queues INCR and GET;
    connection 2 writes [k]. *)
Definition in_multi : World :=
  ((send 1 [b "WATCH"; b "k"];; send 1 [b "MULTI"];; send 1 [b "INCR"; b "k"];;
    send 1 [b "GET"; b "k"]) example_world).1.

(** ** Properties *)

(** Queueing.  While a transaction is open, every command but MULTI, EXEC,
    DISCARD, WATCH and UNWATCH, known or unknown, well-formed or not, is
    appended to the queue of its own connection and answered with QUEUED; the
    store, the watches, the blocked clients, the replicas (no propagation) and
    all other connections' transactions are as before. *)
Lemma queued_not_executed (version : bytes) (fuel : nat) (h : Handler) (request : RespValue)
    (cmd : Command) (c : ConnId) (w : World)
    (Harray : type request = Array) (Hcmd : parse_command request = Ok cmd)
    (Hactive : is_active (tm_of (h_id h) w) = true) (Hdirect : always_direct (cmd_type cmd) = false) :
  let w' := set_tm (h_id h) (queue_command request (tm_of (h_id h) w)) w in
  handle version (S fuel) h request (ReplyTo c) w =
    (with_out (w_out w ++ [Response c (b "+QUEUED" ++ CRLF)]) w', Ok tt).
Proof.
  intros w'. rewrite (handle_command _ _ _ _ _ _ _ Harray Hcmd).
  unfold dispatch, mbind, M_bind, gets. by rewrite Hdirect, Hactive.
Qed.

(** An LRANGE whose start is not a number raises an exception that nothing
    between the command and the store thread catches: the server process ends. *)
Theorem lrange_bad_start_escapes (version : bytes) (fuel : nat) (h : Handler) (request : RespValue)
    (cmd : Command) (c : ConnId) (w : World) (key start stop : bytes)
    (Hclient : h_kind h = Client) (Hactive : is_active (tm_of (h_id h) w) = false)
    (Harray : type request = Array) (Hcmd : parse_command request = Ok cmd)
    (Htype : cmd_type cmd = LRange) (Hargs : args cmd = [key; start; stop])
    (Hstart : (scan_number start).2 = []) :
  handle version fuel h request (ReplyTo c) w = (w, Throw (InvalidArgument (b "stoll"))).
Proof.
  rewrite (handle_command _ _ _ _ _ _ _ Harray Hcmd).
  unfold dispatch. rewrite bind_gets, Hactive, Htype. cbn [always_direct is_write_command].
  rewrite andb_false_r. rewrite execute_table. unfold command_table. rewrite Hclient, Htype.
  unfold execute_lrange, check_args. rewrite Hargs, bool_decide_eq_false_2 by (simpl; lia).
  rewrite (bind_Ok _ _ _ _ _ (arg_Some cmd 0 key w ltac:(by rewrite Hargs))).
  rewrite (bind_Ok _ _ _ _ _ (arg_Some cmd 1 start w ltac:(by rewrite Hargs))).
  unfold mbind, M_bind, lift, stoll. destruct (scan_number start) as [neg ds]. simpl in Hstart. by subst ds.
Qed.

Lemma lrange_bad_start_escapes_witness :
  send 1 [b "LRANGE"; b "l"; b "first"; b "-1"] example_world =
    (example_world, Throw (InvalidArgument (b "stoll"))).
Proof.
  exact (lrange_bad_start_escapes (b "7.0.0") 20 (example_handler 1)
    (example_request [b "LRANGE"; b "l"; b "first"; b "-1"])
    (mkCommand LRange (b "LRANGE") [b "l"; b "first"; b "-1"]) 1 example_world (b "l") (b "first") (b "-1")
    eq_refl eq_refl eq_refl eq_refl eq_refl eq_refl eq_refl).
Defined.
