(* ===== verification/Expiry.v ===== *)
(** * Expiry times of SET

    The arithmetic of SET with EX and PX, from the text of the option to the
    deadline in the store: [parse_expiry] of src/util/CommandUtils.hpp, the guard
    in [SetCommand::execute] and [Store::set] with a TTL are three steps of signed
    64-bit arithmetic in different units. *)

From S2P Require Import Prelude CharConv Resp StreamId StoreValue StringStore ListStore StreamStore Store Blocking WatchManager TransactionManager ReplicaRegistry Command ServerConfig World BasicCommands ListCommands StreamCommands TransactionCommands CommandRegistry Dispatch.

(** Nanoseconds in the unit of an option. *)
Definition option_unit (opt : bytes) : option Z :=
  if bool_decide (lowercase opt = b "ex") then Some (1000 * 1000000)
  else if bool_decide (lowercase opt = b "px") then Some 1000000
  else None.

(** The first option decides; the multiplication is checked. *)
Lemma parse_expiry_option cmd key value opt text rest unit n :
  args cmd = key :: value :: opt :: text :: rest → option_unit opt = Some unit → stoll text = Ok n →
  parse_expiry cmd = if fits_i64 (n * (unit / 1000000)) then Ok (Some (n * (unit / 1000000))) else UB.
Proof.
  intros Ha Hu Hn. unfold parse_expiry, option_unit in *. rewrite Ha. cbn [drop expiry_options].
  destruct (bool_decide (lowercase opt = b "ex")); [|destruct (bool_decide (lowercase opt = b "px")); [|done]];
    injection Hu as <-; rewrite Hn; cbn [obind].
  - done.
  - change (1000000 / 1000000) with 1. rewrite Z.mul_1_r.
    assert (fits_i64 n = true) as ->; [|done]. unfold stoll in Hn. destruct (scan_number text) as [neg [|c ds]]; [done|].
    destruct (fits_i64 _) eqn:E; [|done]. by injection Hn as <-.
Qed.

Lemma option_unit_cases opt unit :
  option_unit opt = Some unit → unit = unit / 1000000 * 1000000 ∧ 0 < unit / 1000000.
Proof. unfold option_unit. repeat case_match; intros [= <-]; done. Qed.

(** The command on all branches. *)
Lemma execute_set_expiry call cmd k w key value opt text rest unit n :
  args cmd = key :: value :: opt :: text :: rest → option_unit opt = Some unit → stoll text = Ok n →
  execute_set call cmd k w =
    if negb (fits_i64 (n * (unit / 1000000))) then (w, UB)
    else if n <=? 0 then call (TReply k (b "-ERR invalid expire time in 'SET' command" ++ CRLF)) w
    else if fits_i64 (n * unit) && fits_i64 (w_steady w + n * unit) then
      (notify key;; call (TReply k ok_reply))
        (with_store (<[key := mkValue (VString value) (Some (w_steady w + n * unit))]> (w_store w)) w)
    else (w, UB).
Proof.
  intros Ha Hu Hn. unfold execute_set, check_args. rewrite Ha, bool_decide_eq_false_2 by (simpl; lia).
  rewrite (parse_expiry_option cmd key value opt text rest unit n Ha Hu Hn).
  destruct (option_unit_cases opt unit Hu) as [Eu Hpos]. set (u := unit / 1000000) in *.
  destruct (fits_i64 (n * u)); cbn [negb]; [|done].
  rewrite (bind_Ok _ _ _ w (Some (n * u))) by done. cbn [from_option].
  destruct (Z.leb_spec (n * u) 0), (Z.leb_spec n 0); try nia; [done|].
  rewrite (bind_Ok _ _ _ w key) by (unfold arg; by rewrite Ha).
  rewrite (bind_Ok _ _ _ w value) by (unfold arg; by rewrite Ha). rewrite bind_gets.
  unfold mbind at 1, M_bind at 1, on_store_outcome, store_set, set_ttl.
  replace (n * u * 1000000) with (n * unit) by lia.
  destruct (fits_i64 (n * unit) && fits_i64 (w_steady w + n * unit)); [done|]. by destruct w.
Qed.

(** C36. The bounds of expiry times.  SET with EX or PX and the number [n], at the
    time [now] of the monotonic clock, has exactly these results: it stores the value with the
    deadline [now + n] units, if [n] is positive and the deadline is a 64-bit
    number of nanoseconds; it is refused if [n] is zero or negative (and can
    be converted to milliseconds); in all other cases the arithmetic overflows,
    which is undefined.  The first is the case up to about 292 years; every
    client can cause the last. *)
Theorem set_expiry_bounds (version : bytes) (fuel : nat) (h : Handler) (request : RespValue) (cmd : Command)
    (c : ConnId) (w : World) (key value opt text : bytes) (rest : list bytes) (unit n : Z)
    (Hclient : h_kind h = Client) (Hactive : is_active (tm_of (h_id h) w) = false)
    (Harray : type request = Array) (Hcmd : parse_command request = Ok cmd) (Htype : cmd_type cmd = Set_)
    (Hargs : args cmd = key :: value :: opt :: text :: rest) (Hopt : option_unit opt = Some unit)
    (Hn : stoll text = Ok n) (Hnow : 0 ≤ w_steady w) :
  let '(w', o) := handle version (2 + fuel) h request (ReplyTo c) w in
  let deadline := w_steady w + n * unit in
  if n <=? 0 then
    if LLONG_MIN <=? n * (unit / 1000000)
    then o = Ok tt ∧ w_store w' = w_store w ∧
         Response c (b "-ERR invalid expire time in 'SET' command" ++ CRLF) ∈ w_out w'
    else o = UB ∧ w' = w
  else if deadline <=? LLONG_MAX
  then o = Ok tt ∧ w_store w' = <[key := mkValue (VString value) (Some deadline)]> (w_store w) ∧
       Response c ok_reply ∈ w_out w'
  else o = UB ∧ w_store w' = w_store w ∧ w_out w' = w_out w.
Proof.
  rewrite (handle_command _ _ _ _ _ _ _ Harray Hcmd). unfold dispatch. rewrite bind_gets, Hactive, Htype.
  cbn [always_direct]. rewrite execute_table. unfold command_table. rewrite Hclient, Htype.
  destruct (dispatch_reply h Set_ (serialize request) c) as [Hp Hd].
  assert (∀ s w0, Response c s ∈ w_out (deliver (if h_replicated h && is_write_command Set_
    then ReplyPropagate (serialize request) (ReplyTo c) else ReplyTo c) s w0)) as Hin.
  { intros s w0. destruct (_ && _); cbn; set_solver. }
  set (k := if h_replicated h && _ then _ else _) in *.
  rewrite (execute_set_expiry _ cmd k w key value opt text rest unit n Hargs Hopt Hn).
  destruct (option_unit_cases opt unit Hopt) as [Eu Hpos]. set (u := unit / 1000000) in *.
  unfold fits_i64, in_range. destruct (Z.leb_spec n 0) as [Hneg|Hn0].
  - destruct (Z.leb_spec LLONG_MIN (n * u)), (Z.leb_spec (n * u) LLONG_MAX); cbn [andb negb]; try done; [|limits; nia].
    rewrite run_deliver by (done || lia). destruct (deliver_frame k (b "-ERR invalid expire time in 'SET' command" ++ CRLF) w) as (E & _).
    done.
  - assert (0 < n * u ∧ n * u ≤ n * unit) as [Hu0 Hu1] by nia.
    destruct (Z.leb_spec (w_steady w + n * unit) LLONG_MAX) as [Hfit|Hbig].
    + assert (in_range LLONG_MIN LLONG_MAX (n * u) = true) as E1 by (unfold in_range; limits; lia).
      assert (in_range LLONG_MIN LLONG_MAX (n * unit) = true) as E2 by (unfold in_range; limits; lia).
      assert ((LLONG_MIN <=? w_steady w + n * unit) = true) as E3 by (limits; lia).
      unfold in_range in *. rewrite E1, E2, E3. cbn [negb andb]. unfold notify. rewrite bind_modify.
      set (w1 := fold_left mark_dirty_of _ _). rewrite run_deliver by (done || lia).
      destruct (deliver_frame k ok_reply w1) as (E & _). split_and!; [done| |done]. rewrite E.
      unfold w1. generalize (notify_write key (w_watch (with_store (<[key:=mkValue (VString value) (Some (w_steady w + n * unit))]>
        (w_store w)) w))). intros l.
      assert (∀ v, w_store (fold_left mark_dirty_of l v) = w_store v) as ->; [|done].
      induction l as [|x l IH]; intros v; [done|]. cbn [fold_left]. by rewrite IH.
    + destruct (negb _); [done|]. by rewrite !andb_false_r.
Qed.

Definition set_ex (n : bytes) : RespValue := example_request [b "SET"; b "k"; b "v"; b "EX"; n].

Lemma set_expiry_bounds_witness :
  (handle (b "7.0.0") 2 (example_handler 1) (set_ex (b "9223372037")) (ReplyTo 1) example_world).2 = UB ∧
  w_store (handle (b "7.0.0") 2 (example_handler 1) (set_ex (b "9223372036")) (ReplyTo 1) example_world).1 =
    {[b "k" := mkValue (VString (b "v")) (Some 9223372036000000000)]}.
Proof.
  split.
  - exact (proj1 (set_expiry_bounds (b "7.0.0") 0 (example_handler 1) (set_ex (b "9223372037"))
      (mkCommand Set_ (b "SET") [b "k"; b "v"; b "EX"; b "9223372037"]) 1 example_world (b "k") (b "v") (b "EX")
      (b "9223372037") [] 1000000000 9223372037 eq_refl eq_refl eq_refl eq_refl eq_refl eq_refl eq_refl eq_refl ltac:(done))).
  - exact (proj1 (proj2 (set_expiry_bounds (b "7.0.0") 0 (example_handler 1) (set_ex (b "9223372036"))
      (mkCommand Set_ (b "SET") [b "k"; b "v"; b "EX"; b "9223372036"]) 1 example_world (b "k") (b "v") (b "EX")
      (b "9223372036") [] 1000000000 9223372036 eq_refl eq_refl eq_refl eq_refl eq_refl eq_refl eq_refl eq_refl ltac:(done)))).
Defined.
