(* ===== verification/Invariants.v ===== *)
(** * The invariant of the shared state

    [server_ok] relates the data structures to what they represent: the watch
    manager holds exactly the watches of the transaction managers, the blocking
    registries are queues, no empty list is stored, the contexts of running
    transactions have one result slot per command.  [preserves m] says that
    [m] keeps it, also when [m] ends with an exception; the lemmas follow the
    structure of the monad, and the commands are covered by automation. *)

From S2P Require Import Prelude CharConv Resp StoreValue StringStore ListStore StreamStore Store Blocking WatchManager TransactionManager ReplicaRegistry Command ServerConfig World BasicCommands ListCommands StreamCommands TransactionCommands CommandRegistry Dispatch.

Definition watch_ok (w : World) : Prop :=
  ∃ subs, watch_refines (w_watch w) subs ∧ ∀ h, watches_agree h (tm_of h w) subs.

Definition registry_ok {C} (r : BlockingRegistry C) : Prop := ∃ ws, registry_refines r ws.

Definition exec_ok (c : ExecContext) : Prop := length (exec_results c) = length (exec_commands c).

Record server_ok (w : World) : Prop := {
  ok_watch : watch_ok w;
  ok_blpop : registry_ok (w_blpop w);
  ok_xread : registry_ok (w_xread w);
  ok_lists : lists_nonempty (w_store w);
  ok_execs : map_Forall (λ _, exec_ok) (w_execs w);
}.

Definition preserves {A} (m : M A) : Prop := ∀ w, server_ok w → server_ok (m w).1.

Create HintDb preserves.

(** ** The monad *)

Lemma preserves_ret {A} (a : A) : preserves (mret a).
Proof. by intros w. Qed.

Lemma preserves_gets {A} (f : World → A) : preserves (gets f).
Proof. by intros w. Qed.

Lemma preserves_lift {A} (o : outcome A) : preserves (lift o).
Proof. by intros w. Qed.

Lemma preserves_bind_post {A B} (Q : A → Prop) (m : M A) (f : A → M B) :
  preserves m → (∀ w w' a, server_ok w → m w = (w', Ok a) → Q a) →
  (∀ a, Q a → preserves (f a)) → preserves (m ≫= f).
Proof.
  intros Hm HQ Hf w Hw. unfold mbind, M_bind. pose proof (Hm w Hw) as Hw'.
  destruct (m w) as [w' [a| | |]] eqn:E; try done.
  apply (Hf a); [exact (HQ w w' a Hw E)|done].
Qed.

Lemma preserves_bind {A B} (m : M A) (f : A → M B) :
  preserves m → (∀ a, preserves (f a)) → preserves (m ≫= f).
Proof. intros Hm Hf. by apply (preserves_bind_post (λ _, True)). Qed.

Lemma preserves_try {A} (m : M A) (handler : exn → M A) :
  preserves m → (∀ e, preserves (handler e)) → preserves (try_catch m handler).
Proof.
  intros Hm Hh w Hw. unfold try_catch. pose proof (Hm w Hw) as Hw'.
  destruct (m w) as [w' [a|e| |]]; try done. by apply Hh.
Qed.

Lemma preserves_if {A} (c : bool) (m m' : M A) :
  preserves m → preserves m' → preserves (if c then m else m').
Proof. by destruct c. Qed.

#[export] Hint Resolve preserves_ret preserves_gets preserves_lift preserves_bind preserves_try
  preserves_if : preserves.

(** ** Operations on the state *)

(** An update that leaves the fields of the invariant alone. *)
Lemma preserves_frame (f : World → World) :
  (∀ w, w_store (f w) = w_store w ∧ w_blpop (f w) = w_blpop w ∧ w_xread (f w) = w_xread w ∧
        w_watch (f w) = w_watch w ∧ w_tms (f w) = w_tms w ∧ w_execs (f w) = w_execs w) →
  preserves (modify f).
Proof.
  intros Hf w [(subs & H1 & H2) H3 H4 H5 H6]. destruct (Hf w) as (E1 & E2 & E3 & E4 & E5 & E6). simpl.
  split; rewrite ?E1, ?E2, ?E3, ?E6; try done. exists subs. rewrite E4.
  split; [done|]. intros h. unfold tm_of. rewrite E5. apply H2.
Qed.

Lemma server_ok_store d w : server_ok w → lists_nonempty d → server_ok (with_store d w).
Proof. intros [? ? ? ? ?] ?. by split. Qed.

Lemma preserves_on_store {A} (f : Data → A * Data) :
  (∀ d, lists_nonempty d → lists_nonempty (f d).2) → preserves (on_store f).
Proof.
  intros Hf w Hw. unfold on_store. specialize (Hf (w_store w) (ok_lists _ Hw)).
  destruct (f (w_store w)) as [a d]. by apply server_ok_store.
Qed.

Lemma preserves_on_store_outcome {A} (f : Data → Data * outcome A) :
  (∀ d, lists_nonempty d → lists_nonempty (f d).1) → preserves (on_store_outcome f).
Proof.
  intros Hf w Hw. unfold on_store_outcome. specialize (Hf (w_store w) (ok_lists _ Hw)).
  destruct (f (w_store w)) as [d r]. by apply server_ok_store.
Qed.

Lemma preserves_register_blpop keys c : preserves (register_blpop keys c).
Proof.
  intros w [? [ws Hr] ? ? ?]. unfold register_blpop.
  pose proof (register_refines _ ws keys c Hr) as H.
  destruct (register_callbacks keys c (w_blpop w)) as [id r]. destruct H as [H _].
  split; try done. by eexists.
Qed.

Lemma preserves_register_xread keys c : preserves (register_xread keys c).
Proof.
  intros w [? ? [ws Hr] ? ?]. unfold register_xread.
  pose proof (register_refines _ ws keys c Hr) as H.
  destruct (register_callbacks keys c (w_xread w)) as [id r]. destruct H as [H _].
  split; try done. by eexists.
Qed.

Lemma preserves_unregister_blpop i : preserves (unregister_blpop i).
Proof.
  intros w [? [ws Hr] ? ? ?]. split; try done. eexists. by apply unregister_refines.
Qed.

Lemma preserves_unregister_xread i : preserves (unregister_xread i).
Proof.
  intros w [? ? [ws Hr] ? ?]. split; try done. eexists. by apply unregister_refines.
Qed.

(** *** Transaction managers and watches *)

Lemma tm_of_set h h' tm w : tm_of h' (set_tm h tm w) = if decide (h' = h) then tm else tm_of h' w.
Proof.
  unfold tm_of, set_tm. simpl. case_decide as E; [subst; by rewrite lookup_insert_eq|].
  by rewrite lookup_insert_ne.
Qed.

(** What an operation on one handler's transaction manager must respect. *)
Definition tm_op_ok (h : HandlerId)
    (f : TransactionManager → WatchManager → TransactionManager * WatchManager) : Prop :=
  ∀ tm wm subs, watch_refines wm subs → watches_agree h tm subs →
    ∃ subs', watch_refines (f tm wm).2 subs' ∧ watches_agree h (f tm wm).1 subs' ∧
      ∀ h' tm', h' ≠ h → watches_agree h' tm' subs → watches_agree h' tm' subs'.

Lemma preserves_on_tm h f : tm_op_ok h f → preserves (on_tm h f).
Proof.
  intros Hf w [(subs & Hr & Hag) ? ? ? ?]. unfold on_tm, modify.
  destruct (Hf (tm_of h w) (w_watch w) subs Hr (Hag h)) as (subs' & Hr' & Hag' & Hother).
  destruct (f (tm_of h w) (w_watch w)) as [tm wm]. split; try done. exists subs'. split; [done|].
  intros h'. change (watches_agree h' (tm_of h' (set_tm h tm w)) subs'). rewrite tm_of_set.
  case_decide; [by subst|]. by apply Hother.
Qed.

(** Operations that leave the watches alone. *)
Lemma tm_op_local h (g : TransactionManager → TransactionManager) :
  (∀ tm, watched_keys_ (g tm) = watched_keys_ tm) → tm_op_ok h (λ tm wm, (g tm, wm)).
Proof.
  intros Hg tm wm subs Hr Hag. exists subs. split_and!; [done| |done].
  intros k i. simpl. rewrite Hg. apply Hag.
Qed.

Lemma tm_op_clear h : tm_op_ok h clear_watches.
Proof.
  intros tm wm subs Hr Hag. exists (filter (λ s, sub_handler s ≠ h) subs).
  destruct (clear_watches_subs h tm wm subs Hr Hag) as [H1 H2]. split_and!; [done|done|].
  intros h' tm' Hne. by apply watches_agree_other.
Qed.

Lemma watches_agree_keys h tm tm' subs :
  watched_keys_ tm' = watched_keys_ tm → watches_agree h tm subs → watches_agree h tm' subs.
Proof. intros E Hag k i. rewrite E. apply Hag. Qed.

Lemma tm_op_reset h : tm_op_ok h reset.
Proof.
  intros tm wm subs Hr Hag. destruct (tm_op_clear h tm wm subs Hr Hag) as (subs' & H1 & H2 & H3).
  exists subs'. unfold reset. destruct (clear_watches tm wm) as [tm1 wm1].
  split_and!; [done| |done]. by eapply watches_agree_keys, H2.
Qed.

Lemma tm_op_pop_reset h : tm_op_ok h (λ tm wm, reset (snd (pop_queued_commands tm)) wm).
Proof.
  intros tm wm subs Hr Hag. apply tm_op_reset; [done|]. by eapply watches_agree_keys, Hag.
Qed.

Lemma tm_op_watch h keys : tm_op_ok h (λ tm wm, fold_left (watch_one h) keys (tm, wm)).
Proof.
  induction keys as [|key keys IH]; intros tm wm subs Hr Hag; [by exists subs|].
  pose proof (watch_one_subs h tm wm subs key Hr Hag) as H. cbn [fold_left].
  destruct (watch_one h (tm, wm) key) as [tm1 wm1].
  destruct H as (new & Hr1 & Hag1 & _ & Hnew).
  destruct (IH tm1 wm1 _ Hr1 Hag1) as (subs' & Hr' & Hag' & Hother).
  exists subs'. split_and!; [done|done|]. intros h' tm' Hne Hag2. apply Hother; [done|].
  intros k i. rewrite elem_of_app, (Hag2 k i). split; [by left|]. intros [?|Hin]; [done|].
  rewrite Forall_forall in Hnew. apply Hnew in Hin. by simpl in Hin.
Qed.

Lemma preserves_notify key : preserves (notify key).
Proof.
  intros w Hw. unfold notify, modify. simpl. generalize (notify_write key (w_watch w)). intros l.
  revert w Hw. induction l as [|h l IH]; intros w Hw; [done|]. cbn [fold_left]. apply IH.
  destruct Hw as [(subs & Hr & Hag) ? ? ? ?]. split; try done. exists subs. split; [done|].
  intros h'. unfold mark_dirty_of. rewrite tm_of_set. case_decide; [|done]. subst.
  by eapply watches_agree_keys, Hag.
Qed.

(** *** Contexts of running transactions *)

Lemma preserves_new_exec c : exec_ok c → preserves (new_exec c).
Proof. intros Hc w [? ? ? ? ?]. split; try done. by apply map_Forall_insert_2. Qed.

Lemma preserves_put_exec ctx c : exec_ok c → preserves (put_exec ctx c).
Proof. intros Hc w [? ? ? ? ?]. split; try done. by apply map_Forall_insert_2. Qed.

Lemma preserves_get_exec {A} ctx (f : ExecContext → M A) :
  (∀ c, exec_ok c → preserves (f c)) → preserves (get_exec ctx ≫= f).
Proof.
  intros Hf. apply (preserves_bind_post exec_ok); [by intros w| |done].
  intros w w' c Hw. unfold get_exec. destruct (w_execs w !! ctx) as [c'|] eqn:E; [|done].
  intros [= _ <-]. by eapply (ok_execs _ Hw).
Qed.

Lemma preserves_store_result ctx res : preserves (store_result ctx res).
Proof.
  apply preserves_get_exec. intros c Hc. case_bool_decide; [|apply preserves_lift].
  apply preserves_put_exec. unfold exec_ok. simpl. by rewrite length_insert.
Qed.

Lemma preserves_next_index ctx : preserves (next_index ctx).
Proof. apply preserves_get_exec. intros c Hc. by apply preserves_put_exec. Qed.

(** *** Operations outside the invariant *)

Ltac preserves_frame :=
  apply preserves_frame; intros w; repeat case_match; by split_and!.

Lemma preserves_propagate data : preserves (propagate_all data).
Proof. preserves_frame. Qed.

Lemma preserves_getack : preserves request_getack_all.
Proof. preserves_frame. Qed.

Lemma preserves_cancel t : preserves (cancel_timer t).
Proof. preserves_frame. Qed.

Lemma preserves_start t : preserves (start_timer t).
Proof. intros w [(subs & ? & ?) ? ? ? ?]. split; try done. by exists subs. Qed.

#[export] Hint Resolve preserves_notify preserves_propagate preserves_getack preserves_cancel
  preserves_start preserves_register_blpop preserves_register_xread preserves_unregister_blpop
  preserves_unregister_xread preserves_store_result preserves_next_index : preserves.

(** *** Store operations *)

Ltac nonempty :=
  repeat case_match; simpl; simplify_eq/=;
  repeat first [done | apply lists_nonempty_delete | apply lists_nonempty_insert].

Lemma nonempty_set now key value ttl d :
  lists_nonempty d → lists_nonempty (store_set now key value ttl d).1.
Proof. intros Hd. unfold store_set, set_ttl, set. nonempty. Qed.

Lemma nonempty_get now key d : lists_nonempty d → lists_nonempty (get now key d).2.
Proof. intros Hd. unfold get. nonempty. Qed.

Lemma nonempty_type now key d : lists_nonempty d → lists_nonempty (store_type now key d).2.
Proof. intros Hd. unfold store_type. nonempty. Qed.

Lemma nonempty_incr now key d : lists_nonempty d → lists_nonempty (incr now key d).2.
Proof. intros Hd. unfold incr. nonempty. Qed.

Lemma nonempty_xadd now key id flds d : lists_nonempty d → lists_nonempty (xadd now key id flds d).1.
Proof. intros Hd. unfold xadd. nonempty. Qed.

Lemma check_args_drop cmd : check_args cmd 2 = None → drop 1 (args cmd) ≠ [].
Proof.
  unfold check_args. case_bool_decide; [done|]. intros _. destruct (args cmd) as [|a [|c l]]; simpl in *;
    (done || lia).
Qed.

#[export] Hint Resolve preserves_on_store preserves_on_store_outcome nonempty_set nonempty_get
  nonempty_type nonempty_incr nonempty_xadd lpop_preserves_nonempty rpush_preserves_nonempty
  lpush_preserves_nonempty check_args_drop tm_op_local tm_op_clear tm_op_reset tm_op_pop_reset
  tm_op_watch preserves_on_tm : preserves.

(** ** Commands *)

(** Follow the structure of a command. *)
Ltac preserve :=
  repeat first
    [ progress intros
    | simple apply preserves_bind
    | simple apply preserves_try
    | simple apply preserves_if
    | solve [eauto 4 with preserves]
    | case_match ].

Section commands.
Context (call : Task → M unit) (Hcall : ∀ t, preserves (call t)) (redis_version : bytes).

Hint Resolve Hcall : preserves.

Lemma preserves_blpop_immediate keys : preserves (blpop_immediate keys).
Proof. induction keys as [|key keys IH]; simpl; preserve. Qed.

Lemma preserves_serve_readers waiters : preserves (serve_readers call waiters).
Proof. unfold xread_callback. induction waiters as [|x waiters IH]; simpl; unfold xread_callback; preserve. Qed.

Hint Resolve preserves_blpop_immediate preserves_serve_readers : preserves.

Lemma preserves_execute h cmd k body : execute redis_version call h cmd k = Some body → preserves body.
Proof.
  rewrite execute_table. unfold command_table. destruct (h_kind h), (cmd_type cmd); intros [= <-];
  unfold execute_ping, execute_info, execute_echo, execute_set, execute_get, execute_type,
    execute_incr, execute_rpush, execute_lpush, execute_lrange, execute_llen, execute_lpop,
    execute_blpop, execute_xadd, execute_xrange, execute_xread, execute_watch, execute_unwatch,
    execute_wait, execute_multi, execute_exec, execute_discard, execute_replconf, execute_psync,
    setup_xread_blocking, serve_xread_waiters, wait_poll, arg; preserve.
  apply preserves_new_exec, length_replicate.
Qed.

Lemma preserves_run_next ctx : preserves (run_next call (execute redis_version call) ctx).
Proof.
  unfold run_next. apply preserves_bind; [by intros w|]. preserve.
  by eapply preserves_execute.
Qed.

Lemma preserves_exec_callback ctx t req res : preserves (exec_callback call ctx t req res).
Proof. unfold exec_callback. preserve. by intros w. Qed.

Lemma preserves_run_task t : preserves (run_task redis_version call t).
Proof.
  destruct t as [[c| |raw k|ctx t req] s|ctx|key]; cbn [run_task].
  - preserves_frame.
  - preserve.
  - preserve.
  - apply preserves_exec_callback.
  - apply preserves_run_next.
  - unfold serve_blpop_waiters, blpop_callback. preserve.
Qed.
End commands.

Lemma preserves_run version fuel t : preserves (run version fuel t).
Proof.
  revert t. induction fuel as [|fuel IH]; intros t; simpl; [apply preserves_lift|].
  by apply preserves_run_task.
Qed.

#[export] Hint Resolve preserves_run : preserves.

Lemma preserves_handle version fuel h request k : preserves (handle version fuel h request k).
Proof.
  unfold handle, dispatch. preserve; try (by eapply preserves_execute; eauto with preserves).
Qed.

Lemma preserves_timer_expires t : preserves (timer_expires t).
Proof. preserves_frame. Qed.

Lemma preserves_timer_completes version fuel t : preserves (timer_completes version fuel t).
Proof.
  unfold timer_completes, blpop_timeout, xread_timeout, wait_poll. preserve. preserves_frame.
Qed.

#[export] Hint Resolve preserves_handle preserves_timer_expires preserves_timer_completes : preserves.

Lemma server_ok_initial config steady system : server_ok (initial_world config steady system).
Proof.
  split; try (by exists []; apply refines_empty).
  - exists []. split; [apply watch_refines_empty|]. intros h k i. simpl. unfold tm_of. simpl.
    rewrite lookup_empty. simpl. rewrite lookup_empty. split; [done|]. intros []%not_elem_of_nil.
  - apply lists_nonempty_empty.
  - apply map_Forall_empty.
Qed.

(** ** Undefined behaviour and escaping exceptions *)

Lemma lpop_first_defined key count d :
  lists_nonempty d → count = 1 → (lpop key count d).1 ≠ Expected [].
Proof. intros Hd -> E. by apply (lpop_nonempty key 1 d []) in E. Qed.

(** LPOP never takes the front of an empty vector.  In every reachable state,
    an LPOP outside a transaction, with any arguments, either replies or throws
    the exception of its count argument; the undefined [values->front()] of an
    empty result cannot happen, because no empty list is ever stored. *)
Theorem lpop_defined (version : bytes) (fuel : nat) (h : Handler) (request : RespValue)
    (cmd : Command) (c : ConnId) (w : World)
    (Hok : server_ok w) (Hclient : h_kind h = Client)
    (Hactive : is_active (tm_of (h_id h) w) = false)
    (Harray : type request = Array) (Hcmd : parse_command request = Ok cmd)
    (Htype : cmd_type cmd = LPop) :
  let '(w', r) := handle version (S (S fuel)) h request (ReplyTo c) w in
  r = Ok tt ∨ (w' = w ∧ ∃ a e, args cmd !! 1%nat = Some a ∧ stoull a = Throw e ∧ r = Throw e).
Proof.
  rewrite (handle_command _ _ _ _ _ _ _ Harray Hcmd).
  unfold dispatch. rewrite bind_gets, Hactive, Htype. cbn [always_direct].
  destruct (dispatch_reply h LPop (serialize request) c) as [Hp Hd].
  set (k := if h_replicated h && _ then _ else _) in *.
  rewrite execute_table. unfold command_table. rewrite Hclient, Htype. unfold execute_lpop, check_args.
  assert (∀ s w, run version (S (S fuel)) (TReply k s) w = (deliver k s w, Ok tt)) as Hrun
    by (intros; apply run_deliver; [done|lia]).
  set (call := run version (S (S fuel))) in *. clearbody call.
  destruct (args cmd) as [|key rest] eqn:Ea.
  { rewrite (bool_decide_eq_true_2 (length [] < 1)%nat) by (simpl; lia). rewrite Hrun. by left. }
  rewrite (bool_decide_eq_false_2 (length (key :: rest) < 1)%nat) by (simpl; lia).
  rewrite (bind_Ok _ _ _ _ _ (arg_Some cmd 0 key w ltac:(by rewrite Ea))).
  destruct rest as [|a rest].
  - rewrite (bool_decide_eq_false_2 (2 ≤ length [key])%nat) by (simpl; lia).
    rewrite (bind_Ok _ _ _ w 1) by done. rewrite bind_on_store.
    pose proof (lpop_first_defined key 1 (w_store w) (ok_lists _ Hok) eq_refl) as Hne.
    destruct (lpop key 1 (w_store w)) as [[[|v vs]|e] d]; cbn [fst snd] in *; [done|..].
    + unfold notify. rewrite bind_modify, bool_decide_eq_true_2 by (simpl; lia). rewrite Hrun. by left.
    + destruct (contains _ _); rewrite Hrun; by left.
  - rewrite (bool_decide_eq_true_2 (2 ≤ length (key :: a :: rest))%nat) by (simpl; lia).
    assert (∀ f : Z → M unit, ((a1 ← arg cmd 1; lift (stoull a1)) ≫= f) w = (lift (stoull a) ≫= f) w) as ->.
    { intros f. unfold mbind, M_bind. by rewrite (arg_Some cmd 1 a w) by (by rewrite Ea). }
    destruct (stoull a) as [count|e| |] eqn:Es.
    + rewrite (bind_Ok _ _ _ w count) by done. rewrite bind_on_store.
      destruct (lpop key count (w_store w)) as [[vs|e] d]; cbn [fst snd].
      * unfold notify. rewrite bind_modify, bool_decide_eq_false_2 by (simpl; lia). rewrite Hrun. by left.
      * destruct (contains _ _); rewrite Hrun; by left.
    + right. split; [done|]. by exists a, e.
    + exfalso. unfold stoull in Es. repeat case_match; done.
    + exfalso. unfold stoull in Es. repeat case_match; done.
Qed.

Lemma lpop_defined_witness :
  snd (handle (b "7.0.0") 2 (example_handler 1) (example_request [b "LPOP"; b "l"; b "x"]) (ReplyTo 1)
         example_world) = Throw (InvalidArgument (b "stoull")).
Proof.
  pose proof (lpop_defined (b "7.0.0") 0 (example_handler 1) (example_request [b "LPOP"; b "l"; b "x"])
    (mkCommand LPop (b "LPOP") [b "l"; b "x"]) 1 example_world (server_ok_initial _ _ _)
    eq_refl eq_refl eq_refl eq_refl eq_refl) as H.
  destruct (handle _ _ _ _ _ _) as [w' r] eqn:E. simpl.
  destruct H as [->|(_ & a & e & [= <-] & [= <-] & ->)]; [|done].
  apply (f_equal snd) in E. vm_compute in E. discriminate.
Defined.
