(* ===== verification/WriteEffects.v ===== *)
(** * What the write commands do to the keyspace

    [write_effect] is the effect of a propagated command on the stored data,
    as a function of the command and the data alone, for commands whose effect
    does not depend on the clocks.  [write_body_spec] shows that the commands of
    src/command/impl implement it, whatever becomes of their reply; it is used
    for the master and for the replica. *)

From S2P Require Import Prelude CharConv Resp StreamId StoreValue StringStore ListStore StreamStore Store Blocking WatchManager TransactionManager ReplicaRegistry Command ServerConfig World BasicCommands ListCommands StreamCommands TransactionCommands CommandRegistry Dispatch.

(** No key has a deadline. *)
Definition permanent (d : Data) : Prop := map_Forall (λ _ sv, expires_at_ sv = None) d.

(** Commands whose effect does not depend on when they run: SET without EX and
    PX, XADD without [*], no BLPOP. *)
Definition timeless (cmd : Command) : bool :=
  match cmd_type cmd with
  | Set_ => match parse_expiry cmd with Ok None => true | _ => false end
  | XAdd => negb (bool_decide (args cmd !! 1%nat = Some (b "*")))
  | BLPop => false
  | _ => true
  end.

Definition write_effect (cmd : Command) (d : Data) : outcome Data :=
  match cmd_type cmd, args cmd with
  | Set_, key :: value :: _ => Ok (set key value d)
  | Incr, key :: _ => Ok (incr 0 key d).2
  | RPush, key :: value :: values => Ok (rpush key (value :: values) d).2
  | LPush, key :: value :: values => Ok (lpush key (value :: values) d).2
  | LPop, [key] =>
      match lpop key 1 d with
      | (Expected [], _) => UB
      | (_, d') => Ok d'
      end
  | LPop, key :: count :: _ => let! count := stoull count in Ok (lpop key count d).2
  | XAdd, key :: id :: flds =>
      if bool_decide (length (args cmd) < 4)%nat || negb (bool_decide ((length (args cmd) - 2) `mod` 2 = 0)%nat)
      then Ok d
      else let '(d', result) := xadd 0 key id (field_pairs flds) d in let! _ := result in Ok d'
  | _, _ => Ok d
  end.

(** ** Data without deadlines *)

Lemma permanent_insert key sv d : permanent d → expires_at_ sv = None → permanent (<[key := sv]> d).
Proof. intros Hd Hs. by apply map_Forall_insert_2. Qed.

Lemma permanent_delete key d : permanent d → permanent (delete key d).
Proof. intros Hd. by apply map_Forall_delete. Qed.

Lemma permanent_default key d : permanent d → expires_at_ (at_or_default d key) = None.
Proof. intros Hd. unfold at_or_default. destruct (d !! key) eqn:E; [by eapply Hd|done]. Qed.

Lemma permanent_lookup key sv d now : permanent d → d !! key = Some sv → is_expired now sv = false.
Proof. intros Hd Hk. unfold is_expired. by rewrite (Hd key sv Hk). Qed.

Create HintDb permanent.
#[export] Hint Resolve permanent_insert permanent_delete permanent_default : permanent.

Lemma incr_timeless now key d : permanent d → incr now key d = incr 0 key d.
Proof.
  intros Hd. unfold incr. destruct (d !! key) as [sv|] eqn:E; [|done].
  by rewrite !(permanent_lookup key sv d _ Hd E).
Qed.

Lemma get_timeless now key d : permanent d → (get now key d).2 = d.
Proof.
  intros Hd. unfold get. destruct (d !! key) as [sv|] eqn:E; [|done].
  rewrite (permanent_lookup key sv d _ Hd E). by repeat case_match.
Qed.

Lemma type_timeless now key d : permanent d → (store_type now key d).2 = d.
Proof.
  intros Hd. unfold store_type. destruct (d !! key) as [sv|] eqn:E; [|done].
  by rewrite (permanent_lookup key sv d _ Hd E).
Qed.

Lemma xadd_timeless now key id flds d : id ≠ b "*" → xadd now key id flds d = xadd 0 key id flds d.
Proof.
  intros Hid. unfold xadd, generate_stream_id, parse_stream_id. by rewrite bool_decide_eq_false_2.
Qed.

Lemma permanent_incr key d : permanent d → permanent (incr 0 key d).2.
Proof.
  intros Hd. unfold incr. destruct (d !! key) as [sv|] eqn:E.
  - rewrite (permanent_lookup key sv d _ Hd E), E. pose proof (Hd key sv E).
    repeat case_match; simpl; auto with permanent.
  - rewrite E. simpl. auto with permanent.
Qed.

Lemma permanent_lpop key count d : permanent d → permanent (lpop key count d).2.
Proof.
  intros Hd. unfold lpop. destruct (d !! key) as [sv|] eqn:E; [|done]. pose proof (Hd key sv E).
  repeat case_match; simpl; auto with permanent.
Qed.

Lemma permanent_xadd now key id flds d : permanent d → permanent (xadd now key id flds d).1.
Proof.
  intros Hd. unfold xadd. case_match; [done|]. pose proof (permanent_default key d Hd).
  repeat case_match; simpl; auto with permanent.
Qed.

Lemma permanent_push key l d : permanent d → permanent (<[key := set_value (at_or_default d key) (VList l)]> d).
Proof. intros Hd. apply permanent_insert; [done|]. by apply permanent_default. Qed.

#[export] Hint Resolve permanent_incr permanent_lpop permanent_push : permanent.

Lemma write_effect_permanent cmd d d' : permanent d → write_effect cmd d = Ok d' → permanent d'.
Proof.
  intros Hd. unfold write_effect.
  pose proof (permanent_lpop) as Hpop. pose proof (permanent_xadd) as Hadd.
  destruct (cmd_type cmd), (args cmd) as [|key [|a1 rest]];
    try (intros [= <-]; unfold set; simpl; auto with permanent; fail).
  - specialize (Hpop key 1 d Hd). destruct (lpop key 1 d) as [[[|v l]|e] d1]; intros [= <-]; exact Hpop.
  - destruct (stoull a1) as [count| | |]; simpl; try discriminate. intros [= <-]. auto.
  - destruct (_ || _); [intros [= <-]; done|]. specialize (Hadd 0 key a1 (field_pairs rest) d Hd).
    destruct (xadd _ _ _ _ _) as [d1 [r| | |]]; try discriminate. intros [= <-]. exact Hadd.
Qed.

(** ** The commands *)

(** The bodies of the write commands but BLPOP. *)
Definition write_body (call : Task → M unit) (cmd : Command) (k : Reply) : M unit :=
  match cmd_type cmd with
  | Set_ => execute_set call cmd k
  | Incr => execute_incr call cmd k
  | RPush => execute_rpush call cmd k
  | LPush => execute_lpush call cmd k
  | LPop => execute_lpop call cmd k
  | XAdd => execute_xadd call cmd k
  | _ => mret tt
  end.

Lemma execute_write version call h cmd k :
  h_kind h = Client → is_write_command (cmd_type cmd) = true → timeless cmd = true →
  execute version call h cmd k = Some (write_body call cmd k).
Proof.
  intros Hk Hw Ht. rewrite execute_table. unfold command_table, write_body, timeless in *. rewrite Hk.
  by destruct (cmd_type cmd).
Qed.

(** The state behind the store operation of a command: the data changed, and
    some watching transactions marked. *)
Definition changed (d : Data) (w w' : World) : Prop :=
  w' = with_store d w ∨ ∃ key, w' = (notify key (with_store d w)).1.

(** What a command does between its store operation and its reply. *)
Inductive service (call : Task → M unit) : M unit → Prop :=
  | service_none : service call (mret tt)
  | service_blpop key : service call (call (TServeBlpop key))
  | service_xread key : service call (serve_xread_waiters call key).

Lemma with_store_id w : with_store (w_store w) w = w.
Proof. by destruct w. Qed.

Lemma bind_ret {A B : Type} (a : A) (g : A → M B) w : (mret a ≫= g) w = g a w.
Proof. done. Qed.

Lemma bind_on_store_outcome {A B : Type} (f : Data → Data * outcome A) (g : A → M B) w :
  (on_store_outcome f ≫= g) w =
    (lift (f (w_store w)).2 ≫= g) (with_store (f (w_store w)).1 w).
Proof. unfold mbind, M_bind, on_store_outcome, lift. by destruct (f (w_store w)). Qed.

Lemma arg_head cmd key rest w : args cmd = key :: rest → arg cmd 0 w = (w, Ok key).
Proof. intros E. apply arg_Some. by rewrite E. Qed.

Lemma arg_second cmd key a rest w : args cmd = key :: a :: rest → arg cmd 1 w = (w, Ok a).
Proof. intros E. apply arg_Some. by rewrite E. Qed.

(** A command that replies from state [w'] with data [d]. *)
Definition answers_from (call : Task → M unit) (k : Reply) (d : Data) (w : World) (r : World * outcome unit) : Prop :=
  ∃ w' serve s, changed d w w' ∧ service call serve ∧ r = (serve;; call (TReply k s)) w'.

Section bodies.
Context (call : Task → M unit) (cmd : Command) (k : Reply) (w : World).

Lemma answers_at_once s : answers_from call k (w_store w) w (call (TReply k s) w).
Proof.
  exists w, (mret tt), s. split_and!; [left; by rewrite with_store_id|constructor|done].
Qed.

Lemma answers_changed d s : answers_from call k d w (call (TReply k s) (with_store d w)).
Proof. exists (with_store d w), (mret tt), s. split_and!; [by left|constructor|done]. Qed.

Lemma answers_notified d key serve s :
  service call serve →
  answers_from call k d w ((notify key;; serve;; call (TReply k s)) (with_store d w)).
Proof. intros Hs. eexists _, serve, s. split_and!; [right; by exists key|done|done]. Qed.

(** The result of a body, compared with [write_effect]. *)
Definition implements (r : World * outcome unit) : Prop :=
  match write_effect cmd (w_store w) with
  | Ok d => answers_from call k d w r
  | _ => r.2 ≠ Ok tt
  end.
End bodies.

Section implement.
Context (call : Task → M unit) (cmd : Command) (k : Reply) (w : World).
Context (Ht : timeless cmd = true) (Hd : permanent (w_store w)).
Abbreviation implemented := (implements call cmd k w).

Lemma implements_push (t : CommandType) (push : bytes → list bytes → Data → Z * Data) (body : M unit) :
  cmd_type cmd = t →
  body = match check_args cmd 2 with
         | Some err => call (TReply k err)
         | None =>
             key ← arg cmd 0;
             length ← on_store (push key (drop 1 (args cmd)));
             notify key;;
             call (TServeBlpop key);;
             call (TReply k (integer_reply length))
         end →
  write_effect cmd (w_store w) =
    match args cmd with
    | key :: value :: values => Ok (push key (value :: values) (w_store w)).2
    | _ => Ok (w_store w)
    end →
  implemented (body w).
Proof.
  intros Hty -> He. unfold implements. rewrite He. unfold check_args.
  destruct (args cmd) as [|key [|v vs]] eqn:Ea; cbn [length]; case_bool_decide; try lia;
    try apply answers_at_once.
  rewrite (bind_Ok _ _ _ _ _ (arg_head _ _ _ _ Ea)), bind_on_store. cbn [drop].
  apply answers_notified. constructor.
Qed.

Lemma implements_set : cmd_type cmd = Set_ → implemented (execute_set call cmd k w).
Proof.
  intros Hty. unfold implements, write_effect, execute_set, check_args.
  unfold timeless in Ht. rewrite Hty in *. destruct (parse_expiry cmd) as [[ttl|]| | |]; try discriminate Ht.
  destruct (args cmd) as [|key [|v vs]] eqn:Ea; cbn [length]; case_bool_decide; try lia;
    try apply answers_at_once.
  unfold mbind at 1, M_bind at 1, lift at 1. cbn [from_option].
  rewrite (bind_Ok _ _ _ _ _ (arg_head _ _ _ _ Ea)), (bind_Ok _ _ _ _ _ (arg_second _ _ _ _ _ Ea)), bind_gets.
  exact (answers_notified call k w (set key v (w_store w)) key (mret tt) ok_reply (service_none call)).
Qed.

Lemma implements_incr : cmd_type cmd = Incr → implemented (execute_incr call cmd k w).
Proof.
  intros Hty. unfold implements, write_effect, execute_incr, check_args. rewrite Hty.
  destruct (args cmd) as [|key rest] eqn:Ea; cbn [length]; case_bool_decide; try lia; try apply answers_at_once.
  rewrite (bind_Ok _ _ _ _ _ (arg_head _ _ _ _ Ea)), bind_gets, bind_on_store, (incr_timeless (w_steady w) _ _ Hd).
  destruct (incr 0 key (w_store w)) as [[v|e] d]; cbn [fst snd]; [|apply answers_changed].
  exact (answers_notified call k w d key (mret tt) (integer_reply v) (service_none call)).
Qed.

Lemma implements_lpop : cmd_type cmd = LPop → implemented (execute_lpop call cmd k w).
Proof.
  intros Hty. unfold implements, write_effect, execute_lpop, check_args. rewrite Hty.
  destruct (args cmd) as [|key [|c rest]] eqn:Ea; cbn [length]; case_bool_decide; try lia; try apply answers_at_once;
    rewrite (bind_Ok _ _ _ _ _ (arg_head _ _ _ _ Ea)).
  - rewrite (bool_decide_eq_false_2 (2 ≤ 1)%nat), (bool_decide_eq_true_2 (1 < 2)%nat) by lia.
    rewrite bind_ret, bind_on_store. destruct (lpop key 1 (w_store w)) as [[[|v vs]|e] d]; cbn [fst snd]; [done| |].
    + exact (answers_notified call k w d key (mret tt) (bulk v) (service_none call)).
    + destruct (contains _ e); apply answers_changed.
  - rewrite (bool_decide_eq_true_2 (2 ≤ _)%nat), (bool_decide_eq_false_2 (_ < 2)%nat) by lia.
    destruct (stoull c) as [count| | |] eqn:Es; cbn [obind];
      [|unfold mbind, M_bind, lift; by rewrite (arg_second _ _ _ _ _ Ea), Es..].
    rewrite (bind_Ok _ _ _ w count).
    2:{ rewrite (bind_Ok _ _ _ _ _ (arg_second _ _ _ _ _ Ea)). unfold lift. by rewrite Es. }
    rewrite bind_on_store.
    destruct (lpop key count (w_store w)) as [[vs|e] d]; cbn [fst snd].
    + exact (answers_notified call k w d key (mret tt) (bulk_array vs) (service_none call)).
    + destruct (contains _ e); apply answers_changed.
Qed.

Lemma implements_xadd : cmd_type cmd = XAdd → implemented (execute_xadd call cmd k w).
Proof.
  intros Hty. unfold implements, write_effect, execute_xadd. unfold timeless in Ht. rewrite Hty in *.
  destruct (args cmd) as [|key [|id rest]] eqn:Ea; try (cbn; apply answers_at_once).
  destruct (_ || _); [apply answers_at_once|].
  rewrite (bind_Ok _ _ _ _ _ (arg_head _ _ _ _ Ea)), (bind_Ok _ _ _ _ _ (arg_second _ _ _ _ _ Ea)), bind_gets.
  rewrite bind_on_store_outcome. cbn [drop]. rewrite drop_0, (xadd_timeless (w_system w)).
  2:{ intros ->. cbn in Ht. by rewrite bool_decide_eq_true_2 in Ht. }
  destruct (xadd 0 key id _ (w_store w)) as [d [[new|e]| | |]]; cbn [obind]; try done; [|apply answers_changed].
  apply answers_notified. constructor.
Qed.

(** The write commands implement [write_effect]. *)
Lemma write_body_spec : is_write_command (cmd_type cmd) = true → implemented (write_body call cmd k w).
Proof.
  intros Hw. unfold write_body. destruct (cmd_type cmd) eqn:Hty; try discriminate Hw.
  - by apply implements_set.
  - eapply (implements_push RPush rpush); [done|done|]. unfold write_effect. by rewrite Hty.
  - eapply (implements_push LPush lpush); [done|done|]. unfold write_effect. by rewrite Hty.
  - by apply implements_lpop.
  - unfold timeless in Ht. by rewrite Hty in Ht.
  - by apply implements_xadd.
  - by apply implements_incr.
Qed.
End implement.
