(* ===== verification/Transactions.v ===== *)
(** * Properties of transactions

    What EXEC and WATCH promise, on the dispatcher of Dispatch.v: a change of a
    watched key makes EXEC run nothing, MULTI collects the commands behind it,
    and an EXEC of commands that neither block nor wake a blocked client is
    equivalent to the queued commands sent one after another. *)

From S2P Require Import Prelude CharConv Resp StoreValue StringStore ListStore StreamStore Store Blocking WatchManager TransactionManager ReplicaRegistry Command ServerConfig World BasicCommands ListCommands StreamCommands TransactionCommands CommandRegistry Dispatch Invariants.

(** ** Watches *)

Lemma fold_mark l w h :
  let w' := fold_left mark_dirty_of l w in
  is_dirty (tm_of h w') = is_dirty (tm_of h w) || bool_decide (h ∈ l) ∧
  is_active (tm_of h w') = is_active (tm_of h w) ∧ w_store w' = w_store w ∧
  w_blpop w' = w_blpop w ∧ w_replicas w' = w_replicas w.
Proof.
  revert w. induction l as [|x l IH]; intros w; cbn [fold_left].
  { cbv zeta. rewrite bool_decide_eq_false_2, orb_false_r by apply not_elem_of_nil. done. }
  destruct (IH (mark_dirty_of w x)) as (H1 & H2 & H3 & H4 & H5). rewrite H1, H2, H3, H4, H5.
  unfold mark_dirty_of. rewrite !tm_of_set. split_and!; try done.
  - destruct (decide (h = x)) as [->|Hne].
    + rewrite (bool_decide_eq_true_2 (x ∈ x :: l)) by apply list_elem_of_here.
      cbn [is_dirty mark_dirty dirty_ orb]. by rewrite orb_true_r.
    + f_equal. apply bool_decide_ext. rewrite elem_of_cons. tauto.
  - by destruct (decide (h = x)) as [->|].
Qed.

(** A notification reaches every handler that watches the key. *)
Lemma notify_dirty key w h i :
  watch_ok w → watched_keys_ (tm_of h w) !! key = Some i → is_dirty (tm_of h (notify key w).1) = true.
Proof.
  intros (subs & Hr & Hag) Hk. unfold notify, modify. simpl.
  destruct (fold_mark (notify_write key (w_watch w)) w h) as (-> & _).
  rewrite bool_decide_eq_true_2; [by rewrite orb_true_r|].
  rewrite (notify_subs _ _ _ Hr). apply list_elem_of_fmap. exists (mkSub i key h).
  split; [done|]. apply list_elem_of_filter. split; [done|]. by apply Hag.
Qed.

(** What a write does to a watching handler [h]: a changed key makes it dirty,
    its transaction stays open. *)
Definition noticed (h : HandlerId) (key : bytes) (w w' : World) : Prop :=
  (w_store w' !! key = w_store w !! key ∨ is_dirty (tm_of h w') = true) ∧
  is_active (tm_of h w') = is_active (tm_of h w).

Lemma noticed_deliver h key w w' k s : noticed h key w w' → noticed h key w (deliver k s w').
Proof.
  unfold noticed, tm_of. by destruct (deliver_frame k s w') as (-> & -> & _).
Qed.

Lemma noticed_refl h key w : noticed h key w w.
Proof. split; [by left|done]. Qed.

(** A store operation on [key0] followed by its notification. *)
Lemma noticed_notify h key key0 i w d :
  watch_ok w → watched_keys_ (tm_of h w) !! key = Some i → frames key0 (w_store w) d →
  noticed h key w (notify key0 (with_store d w)).1.
Proof.
  intros Hw Hk Hd. unfold notify, modify. simpl.
  destruct (fold_mark (notify_write key0 (w_watch w)) (with_store d w) h) as (Hdirty & Hact & Hstore & _).
  split; [|exact Hact]. destruct (decide (key = key0)) as [->|Hne].
  - right. exact (notify_dirty key0 (with_store d w) h i Hw Hk).
  - left. rewrite Hstore. by apply Hd.
Qed.

(** *** The writing commands *)

Lemma incr_error_same now key d error : (incr now key d).1 = Unexpected error → (incr now key d).2 = d.
Proof.
  unfold incr. destruct (d !! key) as [sv|] eqn:Hk; [|by rewrite Hk].
  destruct (is_expired now sv) eqn:He; [by rewrite lookup_delete_eq|]. rewrite Hk.
  repeat case_match; simpl; congruence.
Qed.

Lemma lpop_error_same key count d error : (lpop key count d).1 = Unexpected error → (lpop key count d).2 = d.
Proof. unfold lpop. repeat case_match; simpl; congruence. Qed.

Lemma store_set_frames now key value ttl d : frames key d (store_set now key value ttl d).1.
Proof. unfold store_set, set_ttl, set. repeat case_match; simpl; simplify_eq; auto with redis. Qed.

Lemma store_set_failed now key value ttl d :
  (store_set now key value ttl d).2 ≠ Ok tt → d = (store_set now key value ttl d).1.
Proof. unfold store_set, set_ttl. repeat case_match; simpl; intros; congruence. Qed.

(** The commands whose changes are announced to the watchers. *)
Definition announced (t : CommandType) : bool :=
  match t with Set_ | Incr | LPop | RPush | LPush => true | _ => false end.

(** Stated for any interpretation of callbacks that delivers the reply at once
    and finds no client blocked. *)
Section announced.
Context (version : bytes) (call : Task → M unit) (k : Reply).
Context (w : World) (h : HandlerId) (key : bytes) (i : N).
Context (Hreply : ∀ s w', call (TReply k s) w' = (deliver k s w', Ok tt)).
Context (Hserve : ∀ key0 w', w_blpop w' = w_blpop w → call (TServeBlpop key0) w' = (w', Ok tt)).
Context (Hw : watch_ok w) (Hkey : watched_keys_ (tm_of h w) !! key = Some i).

Lemma noticed_reply w' s : noticed h key w w' → noticed h key w (call (TReply k s) w').1.
Proof. intros H. rewrite Hreply. by apply noticed_deliver. Qed.

Lemma noticed_write key0 d s :
  frames key0 (w_store w) d →
  noticed h key w ((notify key0;; call (TReply k s)) (with_store d w)).1.
Proof.
  intros Hd. pose proof (noticed_notify h key key0 i w d Hw Hkey Hd) as Hn.
  unfold mbind, M_bind. unfold notify, modify in *. cbn [fst] in *. by apply noticed_reply.
Qed.

Lemma noticed_push key0 d s :
  frames key0 (w_store w) d →
  noticed h key w ((notify key0;; call (TServeBlpop key0);; call (TReply k s)) (with_store d w)).1.
Proof.
  intros Hd. pose proof (noticed_notify h key key0 i w d Hw Hkey Hd) as Hn.
  unfold mbind, M_bind. unfold notify, modify in *. cbn [fst] in *.
  rewrite Hserve; [by apply noticed_reply|].
  by destruct (fold_mark (notify_write key0 (w_watch (with_store d w))) (with_store d w) h)
    as (_ & _ & _ & -> & _).
Qed.

(** A computation that leaves the state alone. *)
Lemma noticed_pure {A} (o : outcome A) (f : A → M unit) :
  (∀ a, noticed h key w (f a w).1) → noticed h key w ((lift o ≫= f) w).1.
Proof. intros Hf. unfold mbind, M_bind, lift. destruct o; auto using noticed_refl. Qed.

Lemma noticed_same_state {A} (m : M A) (f : A → M unit) :
  (m w).1 = w → (∀ a, noticed h key w (f a w).1) → noticed h key w ((m ≫= f) w).1.
Proof.
  intros Hm Hf. unfold mbind, M_bind. destruct (m w) as [w' o]. simpl in Hm. subst w'.
  destruct o; auto using noticed_refl.
Qed.

Lemma noticed_gets {A} (g : World → A) (f : A → M unit) :
  noticed h key w (f (g w) w).1 → noticed h key w ((gets g ≫= f) w).1.
Proof. done. Qed.

Lemma noticed_on_store {A} (op : Data → A * Data) (f : A → M unit) :
  noticed h key w (f (op (w_store w)).1 (with_store (op (w_store w)).2 w)).1 →
  noticed h key w ((on_store op ≫= f) w).1.
Proof. unfold mbind, M_bind, on_store. by destruct (op (w_store w)). Qed.

Lemma noticed_same s : noticed h key w (call (TReply k s) (with_store (w_store w) w)).1.
Proof. apply noticed_reply. split; [by left|done]. Qed.

Lemma noticed_set cmd : noticed h key w (execute_set call cmd k w).1.
Proof.
  unfold execute_set. destruct (check_args cmd _); [by apply noticed_reply, noticed_refl|].
  apply noticed_pure. intros ttl.
  destruct (from_option _ false ttl); [by apply noticed_reply, noticed_refl|].
  apply noticed_pure. intros k0. apply noticed_pure. intros value. apply noticed_gets.
  unfold mbind at 1, M_bind at 1, on_store_outcome.
  pose proof (store_set_frames (w_steady w) k0 value ttl (w_store w)) as Hd.
  pose proof (store_set_failed (w_steady w) k0 value ttl (w_store w)) as Hf.
  destruct (store_set _ _ _ _ _) as [d [[]| | |]]; [by apply noticed_write|..];
    (replace d with (w_store w) by (by apply Hf)); (split; [by left|done]).
Qed.

Lemma noticed_incr cmd : noticed h key w (execute_incr call cmd k w).1.
Proof.
  unfold execute_incr. destruct (check_args cmd _); [by apply noticed_reply, noticed_refl|].
  apply noticed_pure. intros k0. apply noticed_gets, noticed_on_store.
  pose proof (incr_frames (w_steady w) k0 (w_store w)) as Hd.
  pose proof (incr_error_same (w_steady w) k0 (w_store w)) as He.
  destruct (incr _ _ _) as [[v|e] d]; simpl in *; [by apply noticed_write|].
  rewrite (He e) by done. apply noticed_same.
Qed.

Lemma noticed_lpop cmd : noticed h key w (execute_lpop call cmd k w).1.
Proof.
  unfold execute_lpop. destruct (check_args cmd _); [by apply noticed_reply, noticed_refl|].
  apply noticed_pure. intros k0.
  apply noticed_same_state.
  { destruct (bool_decide _); [|done]. unfold arg, mbind, M_bind, lift.
    by destruct (args cmd !! 1%nat). }
  intros count. apply noticed_on_store.
  pose proof (lpop_frames k0 count (w_store w)) as Hd.
  pose proof (lpop_error_same k0 count (w_store w)) as He.
  destruct (lpop _ _ _) as [[vs|e] d]; simpl in *.
  - case_bool_decide; [|by apply noticed_write]. destruct vs; [|by apply noticed_write].
    exact (noticed_notify h key k0 i w d Hw Hkey Hd).
  - rewrite (He e) by done. destruct (contains _ _); apply noticed_same.
Qed.

Lemma noticed_announced h2 cmd body :
  execute version call h2 cmd k = Some body → announced (cmd_type cmd) = true →
  noticed h key w (body w).1.
Proof.
  rewrite execute_table. unfold command_table. intros Hbody Ht.
  destruct (h_kind h2), (cmd_type cmd); try done; injection Hbody as <-;
    auto using noticed_set, noticed_incr, noticed_lpop.
  all: unfold execute_rpush, execute_lpush;
    (destruct (check_args cmd _); [by apply noticed_reply, noticed_refl|]);
    apply noticed_pure; intros k0; apply noticed_on_store, noticed_push; apply frames_insert.
Qed.
End announced.

(** *** EXEC of a dirty transaction *)

Lemma exec_dirty version fuel h request cmd c w :
  h_kind h = Client → type request = Array → parse_command request = Ok cmd → cmd_type cmd = Exec →
  is_active (tm_of (h_id h) w) = true → is_dirty (tm_of (h_id h) w) = true →
  handle version (S fuel) h request (ReplyTo c) w =
    let '(tm, wm) := reset (tm_of (h_id h) w) (w_watch w) in
    (with_out (w_out w ++ [Response c null_array]) (with_watch wm (set_tm (h_id h) tm w)), Ok tt).
Proof.
  intros Hk Ht Hp Hc Ha Hd. rewrite (handle_command _ _ _ _ _ _ _ Ht Hp).
  unfold dispatch. rewrite !execute_table. unfold command_table, mbind, M_bind, gets. rewrite Hk, Hc. cbn [always_direct].
  rewrite bool_decide_eq_false_2 by done. cbn [andb].
  unfold execute_exec, on_tm, modify, mbind, M_bind, gets. rewrite Ha, Hd. cbn [negb]. done.
Qed.

(** Optimistic locking.  Connection [h] has watched [key] and opened a
    transaction.  If another connection's SET, INCR, LPOP, RPUSH or LPUSH (with
    any arguments, and whether it succeeds, is refused or raises) leaves a
    different value at [key], then EXEC runs nothing: it replies with the null
    array, and the store, the replicas and all queued commands are left alone.
    Clients blocked in BLPOP are excluded, since serving them runs their own
    continuations. *)
Theorem watched_change_aborts_exec (version : bytes) (fuel : nat) (h h2 : Handler)
    (request exec_request : RespValue) (cmd exec_cmd : Command) (c c2 : ConnId) (w w1 : World)
    (r : outcome unit) (key : bytes) (i : N)
    (Hok : server_ok w) (Hclient : h_kind h = Client)
    (Hactive : is_active (tm_of (h_id h) w) = true)
    (Hwatched : watched_keys_ (tm_of (h_id h) w) !! key = Some i)
    (Hother : is_active (tm_of (h_id h2) w) = false)
    (Hfree : ∀ key', registry_find key' (w_blpop w) = None)
    (Harray : type request = Array) (Hcmd : parse_command request = Ok cmd)
    (Hwrite : announced (cmd_type cmd) = true)
    (Hrun : handle version (S (S fuel)) h2 request (ReplyTo c2) w = (w1, r))
    (Hchanged : w_store w1 !! key ≠ w_store w !! key)
    (Hexec : type exec_request = Array) (Hexec_cmd : parse_command exec_request = Ok exec_cmd)
    (Hexec_type : cmd_type exec_cmd = Exec) :
  ∃ w2, handle version (S fuel) h exec_request (ReplyTo c) w1 = (w2, Ok tt) ∧
    w_out w2 = w_out w1 ++ [Response c null_array] ∧
    w_store w2 = w_store w1 ∧ w_replicas w2 = w_replicas w1.
Proof.
  rewrite (handle_command _ _ _ _ _ _ _ Harray Hcmd) in Hrun.
  unfold dispatch in Hrun. unfold mbind at 1, M_bind at 1, gets in Hrun.
  assert (always_direct (cmd_type cmd) = false) as Hd by (by destruct (cmd_type cmd)).
  rewrite Hd, Hother in Hrun.
  destruct (dispatch_reply h2 (cmd_type cmd) (serialize request) c2) as [Hp Hdep].
  set (k := if h_replicated h2 && _ then _ else _) in *.
  assert (noticed (h_id h) key w w1) as [Hn Ha].
  { destruct (execute version (run version (S (S fuel))) h2 cmd k) as [body|] eqn:E.
    - pose proof (noticed_announced version (run version (S (S fuel))) k w (h_id h) key i
        ltac:(intros; apply run_deliver; [done|lia])
        ltac:(intros key0 w' Ew; simpl; unfold serve_blpop_waiters, gets, mbind, M_bind;
              by rewrite Ew, Hfree) (ok_watch _ Hok) Hwatched h2 cmd body E Hwrite) as H.
      by rewrite Hrun in H.
    - rewrite run_reply_to in Hrun. injection Hrun as <- _. apply (noticed_deliver _ _ _ _ (ReplyTo c2)), noticed_refl. }
  destruct Hn as [Hn|Hdirty]; [done|]. rewrite Hactive in Ha.
  erewrite exec_dirty by done.
  destruct (reset (tm_of (h_id h) w1) (w_watch w1)) as [tm wm]. by eexists.
Qed.

Lemma send_preserves i l : preserves (send i l).
Proof. apply preserves_handle. Qed.

#[export] Hint Resolve send_preserves : preserves.

Lemma in_multi_ok : server_ok in_multi.
Proof.
  assert (preserves (send 1 [b "WATCH"; b "k"];; send 1 [b "MULTI"];; send 1 [b "INCR"; b "k"];;
    send 1 [b "GET"; b "k"])) as H by preserve.
  apply H, server_ok_initial.
Qed.

Definition after_set : World := (send 2 [b "SET"; b "k"; b "5"] in_multi).1.

Lemma watched_change_aborts_exec_witness :
  ∃ w2, send 1 [b "EXEC"] after_set = (w2, Ok tt) ∧
    w_out w2 = w_out after_set ++ [Response 1 null_array] ∧
    w_store w2 = w_store after_set ∧ w_replicas w2 = w_replicas after_set.
Proof.
  apply (watched_change_aborts_exec (b "7.0.0") 19 (example_handler 1) (example_handler 2)
    (example_request [b "SET"; b "k"; b "5"]) (example_request [b "EXEC"])
    (mkCommand Set_ (b "SET") [b "k"; b "5"]) (mkCommand Exec (b "EXEC") []) 1 2 in_multi
    after_set (Ok tt) (b "k") 1 in_multi_ok); try (vm_compute; reflexivity);
    try (vm_compute; discriminate).
Defined.

(** ** EXEC as a sequence of commands

    [shift e n o w] is [w] with another output and other running transactions;
    a computation is [local] when it neither reads nor writes these. *)

Definition shift (e : gmap N ExecContext) (n : N) (o : list Output) (w : World) : World :=
  with_execs e n (with_out o w).

(** A local computation opens and closes no transaction and blocks no client in
    BLPOP either. *)
Definition local {A} (m : M A) : Prop :=
  ∀ e n o w, m (shift e n o w) = (shift e n o (m w).1, (m w).2) ∧
    (∀ h, is_active (tm_of h (m w).1) = is_active (tm_of h w)) ∧ w_blpop (m w).1 = w_blpop w.

Lemma shift_id w : shift (w_execs w) (w_next_exec w) (w_out w) w = w.
Proof. by destruct w. Qed.

Lemma local_out {A} (m : M A) w : local m → w_out (m w).1 = w_out w.
Proof.
  intros Hm. destruct (Hm (w_execs w) (w_next_exec w) (w_out w) w) as [E _].
  rewrite shift_id in E. by rewrite E.
Qed.

Lemma local_ret {A} (a : A) : local (mret a).
Proof. done. Qed.

Lemma local_lift {A} (o : outcome A) : local (lift o).
Proof. done. Qed.

Lemma local_bind {A B} (m : M A) (f : A → M B) : local m → (∀ a, local (f a)) → local (m ≫= f).
Proof.
  intros Hm Hf e n o w. unfold mbind, M_bind. destruct (Hm e n o w) as (-> & Ha & Hb).
  destruct (m w) as [w' [a| | |]]; try done. simpl in Ha, Hb.
  destruct (Hf a e n o w') as (Hw & Ha' & Hb'). split_and!; [exact Hw|intros h; by rewrite Ha', Ha|congruence].
Qed.

Lemma local_if {A} (c : bool) (m m' : M A) : local m → local m' → local (if c then m else m').
Proof. by destruct c. Qed.

Lemma local_on_store {A} (f : Data → A * Data) : local (on_store f).
Proof. intros e n o w. unfold on_store. simpl. by destruct (f (w_store w)). Qed.

Lemma local_on_store_outcome {A} (f : Data → Data * outcome A) : local (on_store_outcome f).
Proof. intros e n o w. unfold on_store_outcome. simpl. by destruct (f (w_store w)). Qed.

Lemma local_notify key : local (notify key).
Proof.
  intros e n o w. unfold notify, modify. simpl. split_and!.
  - f_equal. generalize (notify_write key (w_watch w)).
    intros l. revert w. induction l as [|h l IH]; intros w; [done|]. cbn [fold_left].
    by rewrite <- IH.
  - intros h. by destruct (fold_mark (notify_write key (w_watch w)) w h) as (_ & -> & _).
  - by destruct (fold_mark (notify_write key (w_watch w)) w 0) as (_ & _ & _ & -> & _).
Qed.

(** A command that computes a text and replies with it, as the last thing it
    does. *)
Definition replies (body : (bytes → M unit) → M unit) : Type :=
  { m : M bytes | local m ∧ ∀ k w, body k w = (m ≫= k) w }.

Definition replies_text (s : bytes) : replies (λ k, k s).
Proof. exists (mret s). done. Defined.

Definition replies_bind {A} (m0 : M A) (body : A → (bytes → M unit) → M unit) :
  local m0 → (∀ a, replies (body a)) → replies (λ k, m0 ≫= λ a, body a k).
Proof.
  intros H0 Hb. exists (m0 ≫= λ a, proj1_sig (Hb a)). split.
  - apply local_bind; [done|]. intros a. by destruct (proj2_sig (Hb a)).
  - intros k w. unfold mbind, M_bind. destruct (m0 w) as [w' [a| | |]]; try done.
    destruct (proj2_sig (Hb a)) as [_ ->]. done.
Defined.

Definition replies_if (c : bool) (body body' : (bytes → M unit) → M unit) :
  replies body → replies body' → replies (λ k, if c then body k else body' k).
Proof. by destruct c. Defined.

(** The commands that reply at once and start or resume nothing else. *)
Definition immediate (t : CommandType) : bool :=
  match t with
  | Ping | Info | Echo | Set_ | Get | TypeCmd | Incr | LRange | LLen | LPop => true
  | _ => false
  end.

Ltac immediate :=
  repeat first
    [ progress intros
    | apply replies_text
    | simple apply replies_bind; [first [apply local_lift | apply local_on_store
        | apply local_on_store_outcome | apply local_notify | solve [intros ????; done] | idtac]|]
    | simple apply replies_if
    | match goal with
      | |- replies (λ k, match ?x with _ => _ end) => destruct x
      end ].

Definition replies_ub : replies (λ _, lift UB).
Proof. by exists (lift UB). Defined.

(** A command's body, as a function of what is done with its reply. *)
Definition body_of (version : bytes) (h : Handler) (cmd : Command) (k : bytes → M unit) : M unit :=
  default (lift UB)
    (command_table version (λ t, match t with TReply _ s => k s | _ => mret tt end) h cmd ReplyDiscard).

Lemma execute_body_of version h cmd call on_reply :
  h_kind h = Client → immediate (cmd_type cmd) = true →
  execute version call h cmd on_reply = Some (body_of version h cmd (λ s, call (TReply on_reply s))).
Proof. intros Hk Ht. rewrite execute_table. unfold body_of, command_table. rewrite Hk. by destruct (cmd_type cmd). Qed.

Definition immediate_replies version h cmd :
  h_kind h = Client → immediate (cmd_type cmd) = true → replies (body_of version h cmd).
Proof.
  intros Hk Ht. unfold body_of, command_table. rewrite Hk.
  destruct (cmd_type cmd); try discriminate Ht; simpl default;
    unfold execute_ping, execute_info, execute_echo, execute_set, execute_get, execute_type,
      execute_incr, execute_lrange, execute_llen, execute_lpop, arg; immediate.
  - apply local_if; [apply local_bind; intros; apply local_lift|apply local_ret].
  - apply replies_ub.
Defined.

(** The commands sent one after another, outside a transaction. *)
Fixpoint send_all (version : bytes) (h : Handler) (c : ConnId) (requests : list RespValue) : M unit :=
  match requests with
  | [] => mret tt
  | request :: requests =>
      handle version 2 h request (ReplyTo c);;
      send_all version h c requests
  end.

Definition immediate_request (request : RespValue) : Prop :=
  type request = Array ∧
  ∃ cmd, parse_command request = Ok cmd ∧ immediate (cmd_type cmd) = true.

(** The replies and the propagated commands in an output. *)
Definition reply_texts (out : list Output) : list bytes :=
  omap (λ o, match o with Response _ s => Some s | Propagated _ _ => None end) out.
Definition propagated_part (out : list Output) : list Output :=
  List.filter (λ o, match o with Response _ _ => false | Propagated _ _ => true end) out.

Definition posts_of (raw : bytes) (w : World) : list Output :=
  (λ '(c, s), Propagated c s) <$> fst (propagate raw (w_replicas w)).

(** A single immediate command, outside and inside EXEC. *)
Lemma handle_immediate version h request cmd c w :
  h_kind h = Client → type request = Array → parse_command request = Ok cmd →
  immediate (cmd_type cmd) = true → is_active (tm_of (h_id h) w) = false →
  handle version 2 h request (ReplyTo c) w =
    body_of version h cmd (λ s, run version 2 (TReply
      (if h_replicated h && is_write_command (cmd_type cmd)
       then ReplyPropagate (serialize request) (ReplyTo c) else ReplyTo c) s)) w.
Proof.
  intros Hk Ht Hp Hi Ha. rewrite (handle_command _ _ _ _ _ _ _ Ht Hp).
  unfold dispatch. unfold mbind at 1, M_bind at 1, gets. rewrite Ha.
  assert (always_direct (cmd_type cmd) = false) as -> by (by destruct (cmd_type cmd)).
  by rewrite execute_body_of.
Qed.

(** The registry after a command of type [t] was propagated, if it is. *)
Definition propagate_if (h : Handler) (t : CommandType) (request : RespValue) (w : World) : World :=
  if h_replicated h && is_write_command t
  then with_replicas (snd (propagate (serialize request) (w_replicas w))) w else w.
Definition posts_if (h : Handler) (t : CommandType) (request : RespValue) (w : World) : list Output :=
  if h_replicated h && is_write_command t then posts_of (serialize request) w else [].

Lemma exec_callback_step version f ctx t request s e n o v c :
  e !! ctx = Some c → (exec_index c < length (exec_results c))%nat →
  run version (S f) (TReply (ReplyExec ctx t request) s) (shift e n o v) =
  run version f (TRunNext ctx)
    (shift (<[ctx := mkExec (S (exec_index c)) (<[exec_index c := s]> (exec_results c))
                       (exec_commands c) (exec_handler c) (exec_on_reply c)]> e) n
       (o ++ posts_if (exec_handler c) t request v)
       (propagate_if (exec_handler c) t request v)).
Proof.
  intros Hc Hi. cbn [run run_task]. unfold exec_callback, store_result, next_index, get_exec, put_exec,
    modify, mbind, M_bind, posts_if, propagate_if. simpl. rewrite Hc.
  rewrite bool_decide_eq_true_2 by done. simpl. rewrite lookup_insert_eq. simpl.
  destruct (h_replicated (exec_handler c) && is_write_command t); simpl;
    rewrite lookup_insert_eq, insert_insert_eq; simpl; [done|by rewrite app_nil_r].
Qed.

(** Delivering a command's reply to its own client, for comparison. *)
Lemma deliver_direct h t request c s w :
  deliver (if h_replicated h && is_write_command t
           then ReplyPropagate (serialize request) (ReplyTo c) else ReplyTo c) s w =
  with_out (w_out w ++ [Response c s] ++ posts_if h t request w) (propagate_if h t request w).
Proof.
  unfold posts_if, propagate_if. destruct (h_replicated h && is_write_command t); simpl; [|done].
  by rewrite <- (assoc_L (++)).
Qed.

Lemma propagated_part_app l k : propagated_part (l ++ k) = propagated_part l ++ propagated_part k.
Proof. apply List.filter_app. Qed.

Lemma reply_texts_app l k : reply_texts (l ++ k) = reply_texts l ++ reply_texts k.
Proof. apply omap_app. Qed.

Lemma propagated_posts h t request w : propagated_part (posts_if h t request w) = posts_if h t request w.
Proof.
  unfold posts_if, posts_of, propagated_part. destruct (_ && _); [|done].
  induction (propagate _ _).1 as [|[c s] l IH]; simpl; [done|]. by f_equal.
Qed.

Lemma reply_texts_posts h t request w : reply_texts (posts_if h t request w) = [].
Proof.
  unfold posts_if, posts_of, reply_texts. destruct (_ && _); [|done].
  by induction (propagate _ _).1 as [|[c s] l IH].
Qed.

Section exec_loop.
Context (version : bytes) (h : Handler) (c : ConnId) (ctx : N) (commands : list RespValue).
Context (Hclient : h_kind h = Client).

(** One round of [run_next] on an immediate command. *)
Lemma exec_step fuel e n o v v0 s m i results request cmd :
  e !! ctx = Some (mkExec i results commands h (ReplyTo c)) →
  commands !! i = Some request → (i < length results)%nat →
  parse_command request = Ok cmd → immediate (cmd_type cmd) = true →
  (∀ k w, body_of version h cmd k w = (m ≫= k) w) → m (shift e n o v) = (shift e n o v0, Ok s) →
  run version (S (S fuel)) (TRunNext ctx) (shift e n o v) =
  run version fuel (TRunNext ctx)
    (shift (<[ctx := mkExec (S i) (<[i := s]> results) commands h (ReplyTo c)]> e) n
       (o ++ posts_if h (cmd_type cmd) request v0) (propagate_if h (cmd_type cmd) request v0)).
Proof.
  intros He Hreq Hi Hp Himm Hm Hshift.
  change (run version (S (S fuel)) (TRunNext ctx)) with
    (run_next (run version (S fuel)) (execute version (run version (S fuel))) ctx).
  unfold run_next, get_exec, mbind, M_bind. cbn [w_execs shift with_execs]. rewrite He.
  cbn [exec_index exec_commands exec_handler].
  rewrite bool_decide_eq_false_2 by (apply lookup_lt_Some in Hreq; lia).
  rewrite Hreq. unfold lift. rewrite Hp, execute_body_of, Hm by done.
  unfold mbind, M_bind. rewrite Hshift.
  by rewrite (exec_callback_step _ _ _ _ _ _ _ _ _ _ _ He).
Qed.

(** The loop of EXEC against the commands sent one after another. *)
Lemma exec_loop rest : ∀ fuel done e n o v v',
  commands = done ++ rest → Forall immediate_request rest →
  is_active (tm_of (h_id h) v) = false →
  (2 * length rest + 2 ≤ fuel)%nat →
  send_all version h c rest v = (v', Ok tt) →
  ∀ texts, length texts = length done →
  e !! ctx = Some (mkExec (length done) (texts ++ replicate (length rest) []) commands h (ReplyTo c)) →
  ∃ e' new, w_out v' = w_out v ++ new ∧ length (reply_texts new) = length rest ∧
    run version fuel (TRunNext ctx) (shift e n o v) =
      (shift e' n (o ++ propagated_part new ++
         [Response c (array_header (zlen commands) ++ concat (texts ++ reply_texts new))]) v', Ok tt).
Proof.
  induction rest as [|request rest IH]; intros fuel done e n o v v' Hcmds Himm Hact Hfuel Hall texts Htexts He.
  - destruct fuel as [|[|fuel]]; [simpl in Hfuel; lia..|]. injection Hall as <-.
    exists e, []. rewrite !app_nil_r in *. split_and!; [done..|].
    cbn [run run_task]. unfold run_next, get_exec, mbind, M_bind. simpl. rewrite He. simpl.
    subst done. rewrite bool_decide_eq_true_2 by done. simpl. unfold zlen. by rewrite Htexts.
  - apply Forall_cons in Himm as [(Ht & cmd & Hp & Hi) Himm].
    destruct fuel as [|[|fuel]]; [simpl in Hfuel; lia..|].
    cbn [send_all] in Hall. unfold mbind at 1, M_bind at 1 in Hall.
    rewrite (handle_immediate version h request cmd c v Hclient Ht Hp Hi Hact) in Hall.
    destruct (immediate_replies version h cmd Hclient Hi) as [m [Hlocal Hm]].
    rewrite Hm in Hall. unfold mbind at 1, M_bind at 1 in Hall.
    destruct (m v) as [v0 [s| | |]] eqn:Em; try done.
    destruct (dispatch_reply h (cmd_type cmd) (serialize request) c) as [Hpl Hdep].
    rewrite run_deliver, deliver_direct in Hall by done.
    destruct (Hlocal e n o v) as (Hshift & Hkeep & _). rewrite Em in Hshift, Hkeep. simpl in Hshift, Hkeep.
    assert (w_out v0 = w_out v) as Hout0 by (pose proof (local_out m v Hlocal) as E; by rewrite Em in E).
    erewrite exec_step; [|exact He|..|exact Hp|exact Hi|exact Hm|exact Hshift].
    2:{ rewrite Hcmds, lookup_app_r, Nat.sub_diag by lia. done. }
    2:{ rewrite length_app, length_replicate. simpl. lia. }
    set (v1 := with_out _ _) in Hall. set (e1 := <[ctx := _]> e).
    change (shift e1 n (o ++ posts_if h (cmd_type cmd) request v0) (propagate_if h (cmd_type cmd) request v0))
      with (shift e1 n (o ++ posts_if h (cmd_type cmd) request v0) v1).
    destruct (IH fuel (done ++ [request]) e1 n (o ++ posts_if h (cmd_type cmd) request v0) v1 v')
      with (texts := texts ++ [s]) as (e' & new & Hout & Hlen & Hrun).
    + by rewrite <- (assoc_L (++)).
    + done.
    + rewrite <- Hact, <- Hkeep. unfold v1, propagate_if. by destruct (_ && _).
    + simpl in Hfuel. lia.
    + done.
    + rewrite !length_app, Htexts. done.
    + unfold e1. rewrite lookup_insert_eq, length_app. simpl.
      rewrite insert_app_r_alt, Htexts, Nat.sub_diag by lia. simpl.
      by rewrite <- (assoc_L (++)), Nat.add_comm.
    + exists e', ([Response c s] ++ posts_if h (cmd_type cmd) request v0 ++ new). split_and!.
      * rewrite Hout. unfold v1. simpl. by rewrite Hout0, <- !(assoc_L (++)).
      * rewrite !reply_texts_app, reply_texts_posts. simpl. by rewrite Hlen.
      * rewrite Hrun, !propagated_part_app, !reply_texts_app, propagated_posts, reply_texts_posts.
        change (propagated_part [Response c s]) with (@nil Output).
        change (reply_texts [Response c s]) with [s]. cbn [app]. by rewrite <- !(assoc_L (++)).
Qed.
End exec_loop.

(** The state in which EXEC starts the queue: the transaction is over and its
    watches are gone. *)
Definition after_reset (h : HandlerId) (w : World) : World :=
  let '(tm, wm) := reset (snd (pop_queued_commands (tm_of h w))) (w_watch w) in
  with_watch wm (set_tm h tm w).

Lemma after_reset_inactive h w : is_active (tm_of h (after_reset h w)) = false.
Proof. unfold after_reset, reset, tm_of. simpl. by rewrite lookup_insert_eq. Qed.

Lemma exec_starts version fuel h request cmd c w :
  h_kind h = Client → type request = Array → parse_command request = Ok cmd → cmd_type cmd = Exec →
  let tm := tm_of (h_id h) w in
  let queue := queued_commands_ tm in
  is_active tm = true → is_dirty tm = false → queue ≠ [] →
  let w0 := after_reset (h_id h) w in
  handle version fuel h request (ReplyTo c) w =
    run version fuel (TRunNext (w_next_exec w))
      (shift (<[w_next_exec w := mkExec 0 (replicate (length queue) []) queue h (ReplyTo c)]> (w_execs w))
         (w_next_exec w + 1) (w_out w) w0).
Proof.
  intros Hk Ht Hp Hc tm queue Ha Hd Hq w0. rewrite (handle_command _ _ _ _ _ _ _ Ht Hp).
  unfold dispatch. rewrite !execute_table. unfold command_table, mbind, M_bind, gets. rewrite Hk, Hc. cbn [always_direct].
  rewrite bool_decide_eq_false_2 by done. cbn [andb].
  unfold execute_exec, on_tm, modify, mbind, M_bind, gets. fold tm. rewrite Ha, Hd. cbn [negb].
  rewrite bool_decide_eq_false_2 by (intros E%length_zero_iff_nil; done). done.
Qed.

(** ** Queueing *)

(** A request that a transaction queues: an array that is not one of the five
    commands the dispatcher always executes; its name and arguments may be
    anything. *)
Definition queued_by_multi (request : RespValue) : Prop :=
  type request = Array ∧ ∃ cmd, parse_command request = Ok cmd ∧ always_direct (cmd_type cmd) = false.

(** [w] with a transaction of handler [h] open that has the queue [queue]. *)
Definition transaction_opened (h : HandlerId) (queue : list RespValue) (w : World) : World :=
  set_tm h (mkTM true (dirty_ (tm_of h w)) queue (watched_keys_ (tm_of h w))) w.

Lemma send_all_queues version h c requests w :
  Forall queued_by_multi requests → ∀ queue out,
  send_all version h c requests (with_out out (transaction_opened (h_id h) queue w)) =
    (with_out (out ++ replicate (length requests) (Response c (b "+QUEUED" ++ CRLF)))
       (transaction_opened (h_id h) (queue ++ requests) w), Ok tt).
Proof.
  induction 1 as [|r rs (Ht & cmd & Hc & Hd) _ IH]; intros queue out.
  { simpl. by rewrite !app_nil_r. }
  set (w1 := with_out out _).
  assert (tm_of (h_id h) w1 = mkTM true (dirty_ (tm_of (h_id h) w)) queue (watched_keys_ (tm_of (h_id h) w))) as Etm
    by (unfold tm_of at 1; simpl; by rewrite lookup_insert_eq).
  cbn [send_all].
  rewrite (bind_Ok _ _ _ _ _ (queued_not_executed version 1 h r cmd c w1 Ht Hc ltac:(by rewrite Etm) Hd)).
  replace (with_out _ (set_tm _ _ w1)) with
    (with_out (out ++ [Response c (b "+QUEUED" ++ CRLF)]) (transaction_opened (h_id h) (queue ++ [r]) w)).
  - rewrite IH, <- !(assoc_L (++)). done.
  - rewrite Etm. unfold transaction_opened, set_tm, with_out, with_tms, w1. simpl. by rewrite insert_insert_eq.
Qed.

(** C25. A transaction collects its commands.  After MULTI, any requests other
    than MULTI, EXEC, DISCARD, WATCH and UNWATCH that the connection sends, known
    or unknown, with right or wrong arguments, are answered with QUEUED one by
    one; the transaction then holds exactly these requests in the order sent,
    with the dirty flag and the watched keys as they were, whatever an earlier
    transaction left in the queue, and nothing else has changed: the data, the
    watches, the blocked clients, the timers, the replicas (nothing is
    propagated) and the transactions of all other connections are what they were
    before MULTI. *)
Theorem multi_queues_commands (version : bytes) (h : Handler) (c : ConnId) (multi : RespValue)
    (cmd : Command) (requests : list RespValue) (w : World)
    (Hclient : h_kind h = Client) (Hactive : is_active (tm_of (h_id h) w) = false)
    (Harray : type multi = Array) (Hcmd : parse_command multi = Ok cmd) (Hmulti : cmd_type cmd = Multi)
    (Hqueue : Forall queued_by_multi requests) :
  let tm := mkTM true (dirty_ (tm_of (h_id h) w)) requests (watched_keys_ (tm_of (h_id h) w)) in
  send_all version h c (multi :: requests) w =
    (with_out (w_out w ++ Response c (b "+OK" ++ CRLF) ::
                 replicate (length requests) (Response c (b "+QUEUED" ++ CRLF)))
       (with_tms (<[h_id h := tm]> (w_tms w)) w), Ok tt).
Proof.
  intros tm. cbn [send_all]. rewrite (bind_Ok _ _ _
    (with_out (w_out w ++ [Response c (b "+OK" ++ CRLF)]) (transaction_opened (h_id h) [] w)) tt).
  - rewrite send_all_queues, <- (assoc_L (++)) by done. done.
  - rewrite (handle_command _ _ _ _ _ _ _ Harray Hcmd). unfold dispatch. rewrite bind_gets, Hmulti, Hactive.
    cbn [always_direct]. rewrite execute_table. unfold command_table. by rewrite Hclient, Hmulti, andb_false_r.
Qed.

(** A connection that watches [k] opens a transaction and sends a write, a
    command that does not exist and a blocking one. *)
Definition queued_requests : list RespValue :=
  [example_request [b "SET"; b "k"; b "v"]; example_request [b "FROB"]; example_request [b "BLPOP"; b "l"; b "0"]].

Definition watching_k : World := (send 1 [b "WATCH"; b "k"] example_world).1.

Lemma multi_queues_commands_witness :
  let w' := (send_all (b "7.0.0") (example_handler 1) 1 (example_request [b "MULTI"] :: queued_requests) watching_k).1 in
  queued_commands_ (tm_of 1 w') = queued_requests ∧ w_store w' = ∅ ∧
  w_out w' = w_out watching_k ++ Response 1 (b "+OK" ++ CRLF) :: replicate 3 (Response 1 (b "+QUEUED" ++ CRLF)).
Proof.
  cbv zeta. rewrite (multi_queues_commands (b "7.0.0") (example_handler 1) 1 (example_request [b "MULTI"])
    (mkCommand Multi (b "MULTI") []) queued_requests watching_k eq_refl ltac:(by vm_compute) eq_refl eq_refl eq_refl).
  - split_and!; by vm_compute.
  - repeat constructor; eexists; split; reflexivity.
Defined.

(** C3. EXEC is its commands in sequence.  A transaction that is not dirty and
    whose queue holds only PING, INFO, ECHO, SET, GET, TYPE, INCR, LRANGE, LLEN
    and LPOP (with any arguments, errors included), and whose commands sent one
    after another raise no exception, has the same effect on the store, the
    watches, the blocked clients and the replicas as the same commands sent one
    after another outside a transaction: EXEC answers once, with the array of
    exactly the replies they would have got, in order, and propagates the same
    writes in the same order. *)
Theorem exec_is_sequence (version : bytes) (fuel : nat) (h : Handler) (request : RespValue)
    (cmd : Command) (c : ConnId) (w v' : World)
    (Hclient : h_kind h = Client) (Harray : type request = Array)
    (Hcmd : parse_command request = Ok cmd) (Hexec : cmd_type cmd = Exec)
    (Hactive : is_active (tm_of (h_id h) w) = true) (Hclean : is_dirty (tm_of (h_id h) w) = false)
    (Hqueue : queued_commands_ (tm_of (h_id h) w) ≠ [])
    (Himm : Forall immediate_request (queued_commands_ (tm_of (h_id h) w)))
    (Hfuel : (2 * length (queued_commands_ (tm_of (h_id h) w)) + 2 ≤ fuel)%nat)
    (Hseq : send_all version h c (queued_commands_ (tm_of (h_id h) w)) (after_reset (h_id h) w) =
              (v', Ok tt)) :
  let queue := queued_commands_ (tm_of (h_id h) w) in
  ∃ w' new, handle version fuel h request (ReplyTo c) w = (w', Ok tt) ∧
    w_out v' = w_out w ++ new ∧ length (reply_texts new) = length queue ∧
    w_out w' = w_out w ++ propagated_part new ++
      [Response c (array_header (zlen queue) ++ concat (reply_texts new))] ∧
    w_store w' = w_store v' ∧ w_tms w' = w_tms v' ∧ w_watch w' = w_watch v' ∧
    w_blpop w' = w_blpop v' ∧ w_replicas w' = w_replicas v'.
Proof.
  cbv zeta. erewrite exec_starts by done. set (queue := queued_commands_ (tm_of (h_id h) w)) in *.
  destruct (exec_loop version h c (w_next_exec w) queue Hclient queue fuel []
    (<[w_next_exec w := mkExec 0 (replicate (length queue) []) queue h (ReplyTo c)]> (w_execs w))
    (w_next_exec w + 1) (w_out w) (after_reset (h_id h) w) v' eq_refl Himm
    (after_reset_inactive _ _) Hfuel Hseq [] eq_refl (lookup_insert_eq _ _ _))
    as (e' & new & Hout & Hlen & Hrun).
  eexists _, new. split_and!; [exact Hrun|exact Hout|exact Hlen|done..].
Qed.

Definition sequence_world : World :=
  (send_all (b "7.0.0") (example_handler 1) 1 (queued_commands_ (tm_of 1 in_multi))
     (after_reset 1 in_multi)).1.

Lemma in_multi_immediate : Forall immediate_request (queued_commands_ (tm_of 1 in_multi)).
Proof.
  replace (queued_commands_ (tm_of 1 in_multi)) with
    [example_request [b "INCR"; b "k"]; example_request [b "GET"; b "k"]] by (vm_compute; reflexivity).
  repeat constructor; eexists; split; reflexivity.
Qed.

Lemma exec_is_sequence_witness :
  ∃ w' new, send 1 [b "EXEC"] in_multi = (w', Ok tt) ∧
    w_out sequence_world = w_out in_multi ++ new ∧
    length (reply_texts new) = length (queued_commands_ (tm_of 1 in_multi)) ∧
    w_out w' = w_out in_multi ++ propagated_part new ++
      [Response 1 (array_header (zlen (queued_commands_ (tm_of 1 in_multi))) ++ concat (reply_texts new))] ∧
    w_store w' = w_store sequence_world ∧ w_tms w' = w_tms sequence_world ∧
    w_watch w' = w_watch sequence_world ∧ w_blpop w' = w_blpop sequence_world ∧
    w_replicas w' = w_replicas sequence_world.
Proof.
  exact (exec_is_sequence (b "7.0.0") 20 (example_handler 1) (example_request [b "EXEC"])
    (mkCommand Exec (b "EXEC") []) 1 in_multi sequence_world eq_refl eq_refl eq_refl eq_refl
    ltac:(vm_compute; reflexivity) ltac:(vm_compute; reflexivity) ltac:(vm_compute; discriminate)
    in_multi_immediate ltac:(apply Nat.leb_le; vm_compute; reflexivity) ltac:(vm_compute; reflexivity)).
Defined.
