(* ===== verification/BlockedClients.v ===== *)
(** * Properties of blocked clients

    Clients blocked in BLPOP are served in the order in which they blocked,
    each with the next element of the list; a client that is not served stays
    blocked. *)

From S2P Require Import Prelude CharConv Resp StoreValue StringStore ListStore StreamStore Store Blocking WatchManager TransactionManager ReplicaRegistry Command ServerConfig World BasicCommands ListCommands StreamCommands TransactionCommands CommandRegistry Dispatch Invariants Transactions.

(** The list at a key; empty when there is none. *)
Definition list_at (key : bytes) (d : Data) : list bytes :=
  match d !! key with
  | Some sv => as_list sv
  | None => []
  end.

(** The replies in an output, and those a callback adds. *)
Definition response_part (out : list Output) : list Output :=
  List.filter (λ o, match o with Response _ _ => true | Propagated _ _ => false end) out.

Fixpoint responses_of (k : Reply) (s : bytes) : list Output :=
  match k with
  | ReplyTo c => [Response c s]
  | ReplyPropagate _ k => responses_of k s
  | _ => []
  end.

Lemma response_part_app l k : response_part (l ++ k) = response_part l ++ response_part k.
Proof. apply List.filter_app. Qed.

Lemma response_part_posts raw w : response_part (posts_of raw w) = [].
Proof. unfold posts_of. by induction (propagate raw (w_replicas w)).1 as [|[c s] l IH]. Qed.

Lemma deliver_responses k s w :
  response_part (w_out (deliver k s w)) = response_part (w_out w) ++ responses_of k s.
Proof.
  induction k as [c| |raw k IH|]; cbn [responses_of]; rewrite ?app_nil_r; [|done| |done].
  - cbn [deliver w_out with_out]. by rewrite response_part_app.
  - change (w_out (deliver (ReplyPropagate raw k) s w))
      with (w_out (deliver k s w) ++ posts_of raw (deliver k s w)).
    by rewrite response_part_app, response_part_posts, app_nil_r.
Qed.

(** ** One pop *)

Lemma lpop_one key d v vs :
  list_at key d = v :: vs →
  (lpop key 1 d).1 = Expected [v] ∧ list_at key (lpop key 1 d).2 = vs.
Proof.
  unfold list_at, lpop, as_list. destruct (d !! key) as [sv|]; [|done].
  destruct (value_ sv) as [|l|]; [done| |done]. intros ->.
  replace (Z.to_nat (Z.min 1 (zlen (v :: vs)))) with 1%nat by (unfold zlen; simpl; lia).
  cbn [take drop fst snd]. rewrite take_0. split; [done|].
  destruct vs; simpl; [by rewrite lookup_delete_eq|by rewrite lookup_insert_eq].
Qed.

Lemma lpop_none key d :
  list_at key d = [] →
  list_at key (lpop key 1 d).2 = [] ∧ ∀ v vs, (lpop key 1 d).1 ≠ Expected (v :: vs).
Proof.
  unfold list_at, lpop, as_list. destruct (d !! key) as [sv|] eqn:Hk; [|simpl; by rewrite Hk].
  destruct (value_ sv) as [|l|] eqn:Hv; [simpl; by rewrite Hk, Hv| |simpl; by rewrite Hk, Hv].
  intros ->. simpl. by rewrite lookup_delete_eq.
Qed.

(** ** The queue *)

Abbreviation blocked := (waiter (C := BlpopCallback)).

Section queue.
Context {C : Type}.
Implicit Types ws served : list (waiter (C := C)).

Definition waiting (key : bytes) ws := filter (λ x, key ∈ w_keys x) ws.

(** The clients that remain when those of [served] are gone. *)
Definition without served ws := filter (λ x, w_id x ∉ w_id <$> served) ws.

Lemma without_nil ws : without [] ws = ws.
Proof. apply filter_all, Forall_forall. intros x _. apply not_elem_of_nil. Qed.

Lemma without_cons x served ws : without (x :: served) ws = without served (filter (λ y, w_id y ≠ w_id x) ws).
Proof.
  unfold without. rewrite list_filter_filter. apply list_filter_iff. intros y.
  rewrite fmap_cons, not_elem_of_cons. tauto.
Qed.

Lemma waiting_tail key ws x rest :
  NoDup (w_id <$> ws) → waiting key ws = x :: rest →
  waiting key (filter (λ y, w_id y ≠ w_id x) ws) = rest.
Proof.
  intros Hnd Hw. unfold waiting in *.
  assert (filter (λ y, key ∈ w_keys y) (filter (λ y, w_id y ≠ w_id x) ws) =
          filter (λ y, w_id y ≠ w_id x) (filter (λ y, key ∈ w_keys y) ws)) as ->.
  { rewrite !list_filter_filter. apply list_filter_iff. tauto. }
  apply (NoDup_fmap_filter (λ y, key ∈ w_keys y)) in Hnd. rewrite Hw in *.
  rewrite fmap_cons, NoDup_cons in Hnd. destruct Hnd as [Hx _].
  rewrite filter_cons_False by (intros H; by apply H). apply filter_all, Forall_forall.
  intros y Hy E. apply Hx. rewrite <- E. by apply list_elem_of_fmap_2.
Qed.
End queue.

(** ** Serving *)

(** The state after the oldest waiter [x] was given [value]. *)
Definition serve_one (key value : bytes) (x : blocked) (d : Data) (w : World) : World :=
  deliver (blpop_reply (w_callback x)) (key_value_reply key value)
    (cancel_timer (blpop_timer (w_callback x))
       (with_blpop (unregister (w_id x) (w_blpop w)) (with_store d w))).1.

Lemma cancel_frame t w :
  w_store (cancel_timer t w).1 = w_store w ∧ w_blpop (cancel_timer t w).1 = w_blpop w ∧
  w_out (cancel_timer t w).1 = w_out w.
Proof. unfold cancel_timer, modify. simpl. repeat case_match; done. Qed.

Lemma serve_one_frame key value x d w :
  w_store (serve_one key value x d w) = d ∧
  w_blpop (serve_one key value x d w) = unregister (w_id x) (w_blpop w) ∧
  response_part (w_out (serve_one key value x d w)) =
    response_part (w_out w) ++ responses_of (blpop_reply (w_callback x)) (key_value_reply key value).
Proof.
  unfold serve_one. set (w0 := with_blpop _ _).
  destruct (cancel_frame (blpop_timer (w_callback x)) w0) as (E1 & E2 & E3).
  destruct (deliver_frame (blpop_reply (w_callback x)) (key_value_reply key value)
    (cancel_timer (blpop_timer (w_callback x)) w0).1) as (D1 & _ & _ & D2 & _).
  rewrite D1, D2, E1, E2, deliver_responses, E3. done.
Qed.

Section serve.
Context (version : bytes) (key : bytes).

(** One round of the loop. *)
Lemma serve_round fuel w ws :
  registry_refines (w_blpop w) ws →
  (∀ x, x ∈ waiting key ws → plain (blpop_reply (w_callback x)) = true ∧
     (reply_depth (blpop_reply (w_callback x)) ≤ fuel)%nat) →
  run version (S fuel) (TServeBlpop key) w =
  match waiting key ws, list_at key (w_store w) with
  | x :: _, v :: _ => run version fuel (TServeBlpop key) (serve_one key v x (lpop key 1 (w_store w)).2 w)
  | x :: _, [] => (with_store (lpop key 1 (w_store w)).2 w, Ok tt)
  | [], _ => (w, Ok tt)
  end.
Proof.
  intros Hr Hplain. cbn [run run_task]. unfold serve_blpop_waiters, registry_find.
  rewrite bind_gets, (refines_callbacks _ _ Hr).
  pose proof (queue_head_oldest key ws) as Hhead. fold (waiting key ws) in Hhead.
  destruct (queue_for key ws) as [|reg regs]; simpl queue_repr.
  { by destruct (waiting key ws). }
  destruct (waiting key ws) as [|x rest] eqn:Ew; [done|]. injection Hhead as ->.
  unfold queue_repr. cbv beta iota. rewrite bind_on_store. destruct (list_at key (w_store w)) as [|v vs] eqn:El.
  - destruct (lpop_none key (w_store w) El) as [_ Hno].
    destruct (lpop key 1 (w_store w)).1 as [[|v vs]|e]; [done| |done]. by destruct (Hno v vs).
  - destruct (lpop_one key (w_store w) v vs El) as [-> _].
    destruct (Hplain x (list_elem_of_here _ _)) as [Hp Hd]. cbn [reg_id reg_callback].
    unfold unregister_blpop. rewrite bind_modify.
    rewrite (bind_Ok _ _ _ (serve_one key v x (lpop key 1 (w_store w)).2 w) tt); [done|].
    unfold blpop_callback. rewrite (bind_Ok (cancel_timer _) _ _ _ tt eq_refl).
    by rewrite run_deliver.
Qed.
End serve.

Section fifo.
Context (version : bytes) (key : bytes).

(** As many waiters as there are elements, oldest first. *)
Lemma serve_fifo n : ∀ fuel w ws,
  n = Nat.min (length (waiting key ws)) (length (list_at key (w_store w))) →
  registry_refines (w_blpop w) ws →
  (∀ x, x ∈ waiting key ws → plain (blpop_reply (w_callback x)) = true ∧
     (reply_depth (blpop_reply (w_callback x)) ≤ 2)%nat) →
  (n + 2 < fuel)%nat →
  let served := take n (waiting key ws) in
  ∃ w', run version fuel (TServeBlpop key) w = (w', Ok tt) ∧
    registry_refines (w_blpop w') (without served ws) ∧
    list_at key (w_store w') = drop n (list_at key (w_store w)) ∧
    frames key (w_store w) (w_store w') ∧
    response_part (w_out w') = response_part (w_out w) ++
      concat (zip_with (λ x v, responses_of (blpop_reply (w_callback x)) (key_value_reply key v))
                served (list_at key (w_store w))).
Proof.
  induction n as [|n IH]; intros fuel w ws Hn Hr Hplain Hf served;
    (destruct fuel as [|fuel]; [lia|]);
    rewrite (serve_round version key fuel w ws Hr)
      by (intros x Hx; destruct (Hplain x Hx); split; [done|lia]).
  - unfold served. cbn [take]. rewrite take_0, without_nil. cbn [zip_with concat]. rewrite app_nil_r, drop_0.
    destruct (waiting key ws) as [|x rest]; [by eexists|].
    destruct (list_at key (w_store w)) as [|v vs] eqn:El; [|simpl in Hn; lia].
    eexists. split; [reflexivity|]. destruct (lpop_none key (w_store w) El) as [E _].
    split_and!; try done. apply lpop_frames.
  - destruct (waiting key ws) as [|x rest] eqn:Ew; [simpl in Hn; lia|].
    destruct (list_at key (w_store w)) as [|v vs] eqn:El; [simpl in Hn; lia|].
    destruct (lpop_one key (w_store w) v vs El) as [_ Hvs].
    set (w1 := serve_one key v x (lpop key 1 (w_store w)).2 w).
    destruct (serve_one_frame key v x (lpop key 1 (w_store w)).2 w) as (Hs & Hb & Ho).
    fold w1 in Hs, Hb, Ho.
    assert (waiting key (filter (λ y, w_id y ≠ w_id x) ws) = rest) as Htail
      by (eapply waiting_tail; [apply (refines_nodup _ _ Hr)|done]).
    destruct (IH fuel w1 (filter (λ y, w_id y ≠ w_id x) ws)) as (w' & Hrun & Hr' & Hl' & Hfr' & Ho').
    + rewrite Htail, Hs, Hvs. simpl in Hn. lia.
    + rewrite Hb. by apply unregister_refines.
    + rewrite Htail. intros y Hy. apply Hplain. by apply list_elem_of_further.
    + lia.
    + rewrite Htail, Hs, Hvs in *. exists w'. split_and!; [done|..].
      * unfold served. cbn [take]. by rewrite without_cons.
      * done.
      * eapply frames_trans; [apply (lpop_frames key 1)|]. exact Hfr'.
      * rewrite Ho', Ho. unfold served. cbn [take zip_with concat]. by rewrite <- (assoc_L (++)).
Qed.
End fifo.

(** ** Pushes *)

Lemma list_at_default key d : as_list (at_or_default d key) = list_at key d.
Proof. unfold list_at, at_or_default. by destruct (d !! key). Qed.

(** The list after a push. *)
Definition pushed (t : CommandType) (values l : list bytes) : list bytes :=
  match t with LPush => reverse values ++ l | _ => l ++ values end.

(** The common part of RPUSH and LPUSH. *)
Definition push_op (t : CommandType) (key : bytes) (values : list bytes) (d : Data) : Z * Data :=
  match t with LPush => lpush key values d | _ => rpush key values d end.

Lemma push_op_spec t key values d :
  (push_op t key values d).1 = zlen (pushed t values (list_at key d)) ∧
  list_at key (push_op t key values d).2 = pushed t values (list_at key d) ∧
  frames key d (push_op t key values d).2.
Proof.
  unfold push_op, pushed. destruct t; rewrite ?rpush_eq, ?lpush_eq; simpl; rewrite list_at_default;
    (split_and!; [done| |apply frames_insert]);
    unfold list_at at 1; rewrite lookup_insert_eq; done.
Qed.

Lemma execute_push version call h cmd key values k :
  h_kind h = Client → cmd_type cmd = RPush ∨ cmd_type cmd = LPush → args cmd = key :: values →
  values ≠ [] →
  ∃ body, execute version call h cmd k = Some body ∧
    ∀ w, body w = (length ← on_store (push_op (cmd_type cmd) key values);
                   notify key;;
                   call (TServeBlpop key);;
                   call (TReply k (integer_reply length))) w.
Proof.
  intros Hk Ht Ha Hv. rewrite execute_table. unfold command_table. rewrite Hk.
  assert (check_args cmd 2 = None) as Hc.
  { unfold check_args. rewrite Ha, bool_decide_eq_false_2; [done|]. destruct values; [done|simpl; lia]. }
  assert (∀ w, arg cmd 0 w = (w, Ok key)) as Harg by (intros w; unfold arg, lift; by rewrite Ha).
  destruct Ht as [-> | ->]; eexists; (split; [reflexivity|]); intros w;
    unfold execute_rpush, execute_lpush; rewrite Hc, (bind_Ok _ _ _ _ _ (Harg w)), Ha; done.
Qed.

(** ** Properties *)

(** C5. BLPOP is fair.  When a client pushes onto a list (RPUSH or LPUSH, with or
    without replicas), the clients blocked on that list are served before the
    pusher gets its reply: the [n] oldest of them, where [n] is the smaller of
    the number of waiting clients and the length of the list, get the first [n]
    elements, in the order in which they blocked; they are unregistered from
    all their keys, everybody else stays registered, and the elements that
    remain are the rest of the list.  The reply of the pusher counts the list
    before the pops. *)
Theorem push_serves_oldest (version : bytes) (fuel : nat) (h : Handler) (request : RespValue)
    (cmd : Command) (c : ConnId) (w : World) (ws : list blocked) (key : bytes) (values : list bytes)
    (Hclient : h_kind h = Client) (Hactive : is_active (tm_of (h_id h) w) = false)
    (Harray : type request = Array) (Hcmd : parse_command request = Ok cmd)
    (Hpush : cmd_type cmd = RPush ∨ cmd_type cmd = LPush) (Hargs : args cmd = key :: values)
    (Hvalues : values ≠ []) (Hreg : registry_refines (w_blpop w) ws)
    (Hplain : ∀ x, x ∈ waiting key ws → plain (blpop_reply (w_callback x)) = true ∧
       (reply_depth (blpop_reply (w_callback x)) ≤ 2)%nat)
    (Hfuel : (length (waiting key ws) + 3 ≤ fuel)%nat) :
  let l := pushed (cmd_type cmd) values (list_at key (w_store w)) in
  let n := Nat.min (length (waiting key ws)) (length l) in
  let served := take n (waiting key ws) in
  ∃ w', handle version fuel h request (ReplyTo c) w = (w', Ok tt) ∧
    registry_refines (w_blpop w') (without served ws) ∧
    list_at key (w_store w') = drop n l ∧ frames key (w_store w) (w_store w') ∧
    response_part (w_out w') = response_part (w_out w) ++
      concat (zip_with (λ x v, responses_of (blpop_reply (w_callback x)) (key_value_reply key v)) served l) ++
      [Response c (integer_reply (zlen l))].
Proof.
  intros l n served. rewrite (handle_command _ _ _ _ _ _ _ Harray Hcmd).
  unfold dispatch. rewrite bind_gets, Hactive.
  assert (always_direct (cmd_type cmd) = false) as -> by (by destruct Hpush as [-> | ->]).
  destruct (dispatch_reply h (cmd_type cmd) (serialize request) c) as [Hp Hd].
  assert (∀ s, responses_of (if h_replicated h && is_write_command (cmd_type cmd)
    then ReplyPropagate (serialize request) (ReplyTo c) else ReplyTo c) s = [Response c s]) as Hresp
    by (intros s; by destruct (_ && _)).
  set (k := if h_replicated h && _ then _ else _) in *.
  destruct (execute_push version (run version fuel) h cmd key values k Hclient Hpush Hargs Hvalues)
    as (body & -> & ->).
  rewrite bind_on_store.
  destruct (push_op_spec (cmd_type cmd) key values (w_store w)) as (-> & Hl & Hfr). fold l in Hl |- *.
  set (d := (push_op _ _ _ _).2) in *. unfold notify. rewrite bind_modify.
  set (w1 := fold_left mark_dirty_of _ _).
  destruct (fold_mark (notify_write key (w_watch (with_store d w))) (with_store d w) 0)
    as (_ & _ & Es & Eb & _). fold w1 in Es, Eb. simpl in Es, Eb.
  assert (w_out w1 = w_out w) as Eo by (exact (local_out (notify key) (with_store d w) (local_notify key))).
  destruct (serve_fifo version key n fuel w1 ws) as (w' & Hrun & Hr' & Hl' & Hfr' & Ho');
    [by rewrite Es, Hl|by rewrite Eb|done|unfold n; lia|].
  rewrite (bind_Ok _ _ _ _ _ Hrun), run_deliver by (done || lia).
  eexists. split; [reflexivity|].
  destruct (deliver_frame k (integer_reply (zlen l)) w') as (-> & _ & _ & -> & _).
  rewrite deliver_responses, Ho', Es, Hl, Eo, Hresp in *.
  split_and!; [done|done|by eapply frames_trans|]. by rewrite <- (assoc_L (++)).
Qed.

(** Connections 1, 2 and 3 block on [l]; the second also waits for [m]. *)
Definition three_blocked : World :=
  ((send 1 [b "BLPOP"; b "l"; b "0"];; send 2 [b "BLPOP"; b "m"; b "l"; b "0.5"];;
    send 3 [b "BLPOP"; b "l"; b "0"]) example_world).1.

Definition three_waiters : list blocked :=
  [mkWaiter 1 [b "l"] (mkBlpop (ReplyPropagate (serialize (example_request [b "BLPOP"; b "l"; b "0"])) (ReplyTo 1)) 0);
   mkWaiter 2 [b "m"; b "l"]
     (mkBlpop (ReplyPropagate (serialize (example_request [b "BLPOP"; b "m"; b "l"; b "0.5"])) (ReplyTo 2)) 1);
   mkWaiter 3 [b "l"] (mkBlpop (ReplyPropagate (serialize (example_request [b "BLPOP"; b "l"; b "0"])) (ReplyTo 3)) 2)].

Lemma register_chain {C} (r : BlockingRegistry C) ws keys k :
  registry_refines r ws →
  registry_refines (register_callbacks keys k r).2 (ws ++ [mkWaiter (next_id_ r) keys k]).
Proof. intros Hr. by destruct (register_refines r ws keys k Hr). Qed.

Lemma three_blocked_refines : registry_refines (w_blpop three_blocked) three_waiters.
Proof.
  set (op := λ (r : BlockingRegistry BlpopCallback) (x : blocked),
    (register_callbacks (w_keys x) (w_callback x) r).2).
  replace (w_blpop three_blocked) with (fold_left op three_waiters empty_registry)
    by (vm_compute; reflexivity).
  exact (register_chain _ _ _ _ (register_chain _ _ _ _ (register_chain _ [] _ _ refines_empty))).
Qed.

Lemma push_serves_oldest_witness :
  ∃ w', send 4 [b "RPUSH"; b "l"; b "x"; b "y"] three_blocked = (w', Ok tt) ∧
    registry_refines (w_blpop w') (without (take 2 three_waiters) three_waiters) ∧
    list_at (b "l") (w_store w') = [] ∧ frames (b "l") (w_store three_blocked) (w_store w') ∧
    response_part (w_out w') = response_part (w_out three_blocked) ++
      [Response 1 (key_value_reply (b "l") (b "x")); Response 2 (key_value_reply (b "l") (b "y"))] ++
      [Response 4 (integer_reply 2)].
Proof.
  exact (push_serves_oldest (b "7.0.0") 20 (example_handler 4)
    (example_request [b "RPUSH"; b "l"; b "x"; b "y"]) (mkCommand RPush (b "RPUSH") [b "l"; b "x"; b "y"])
    4 three_blocked three_waiters (b "l") [b "x"; b "y"] eq_refl eq_refl eq_refl eq_refl
    (or_introl eq_refl) eq_refl ltac:(discriminate) three_blocked_refines
    ltac:(intros x Hx; unfold waiting in Hx; apply list_elem_of_filter in Hx as [_ Hx];
          repeat (apply elem_of_cons in Hx as [->|Hx]; [split; [done|simpl; lia]|]);
          by apply elem_of_nil in Hx)
    ltac:(apply Nat.leb_le; vm_compute; reflexivity)).
Defined.
