(* ===== verification/Timeouts.v ===== *)
(** * Blocked clients whose time runs out

    BLPOP with a timeout, from the request over the waiting to the reply: the
    registration and the timer it leaves behind, and what the timer's handler
    does before and after the deadline. *)

From S2P Require Import Prelude CharConv Resp StoreValue StringStore ListStore StreamStore Store Blocking WatchManager TransactionManager ReplicaRegistry Command ServerConfig World BasicCommands ListCommands StreamCommands TransactionCommands CommandRegistry Dispatch Invariants Transactions BlockedClients.

Lemma lpop_nothing key count d : lists_nonempty d → list_at key d = [] → ∃ e, lpop key count d = (Unexpected e, d).
Proof.
  intros Hd. unfold list_at, lpop, as_list. destruct (d !! key) as [sv|] eqn:Hk; [|by eexists].
  destruct (value_ sv) as [|l|] eqn:Hv; [by eexists| |by eexists]. intros ->. by destruct (Hd key sv Hk).
Qed.

Lemma blpop_nothing keys w :
  lists_nonempty (w_store w) → Forall (λ key, list_at key (w_store w) = []) keys →
  blpop_immediate keys w = (w, Ok None).
Proof.
  intros Hd Hkeys. induction Hkeys as [|key keys Hkey _ IH]; [done|]. cbn [blpop_immediate].
  rewrite bind_on_store. destruct (lpop_nothing key 1 _ Hd Hkey) as [e ->]. cbn [fst snd].
  destruct w; exact IH.
Qed.

(** A pending timer of a blocked client. *)
Section timer.
Context (version : bytes) (fuel : nat) (t : N) (deadline : Z) (id : N) (k : Reply) (w : World).
Context (Ht : w_timers w !! t = Some (mkTimer (Some deadline) (BlpopTimeout id k) false)).

Lemma timer_early :
  w_steady w < deadline →
  timer_expires t w = (w, Ok tt) ∧ timer_completes version fuel t w = (w, Ok tt).
Proof.
  intros Hlt. unfold timer_expires, timer_completes, modify. rewrite bind_gets, Ht. cbn [expiry fired from_option].
  destruct (Z.leb_spec deadline (w_steady w)); [lia|done].
Qed.

Lemma timer_late :
  deadline ≤ w_steady w → plain k = true → (reply_depth k ≤ fuel)%nat →
  (timer_expires t;; timer_completes version fuel t) w =
    (deliver k null_array (with_blpop (unregister id (w_blpop w))
       (with_timers (delete t (w_timers w)) (w_next_timer w) w)), Ok tt).
Proof.
  intros Hge Hp Hd. unfold timer_expires. rewrite bind_modify, Ht. cbn [expiry wait from_option].
  destruct (Z.leb_spec deadline (w_steady w)); [|lia]. unfold timer_completes.
  rewrite bind_gets. cbn [w_timers with_timers]. rewrite lookup_insert_eq. cbn [fired wait].
  rewrite bind_modify. cbn [w_timers with_timers w_next_timer]. unfold blpop_timeout, unregister_blpop.
  rewrite bind_modify, run_deliver by done. by rewrite delete_insert_eq.
Qed.
End timer.

(** ** A BLPOP that blocks *)

Lemma deliver_timers k s w : w_timers (deliver k s w) = w_timers w.
Proof. by induction k. Qed.

(** The reply continuation BLPOP blocks with, behind dispatch. *)
Definition blocking_reply (h : Handler) (request : RespValue) (c : ConnId) : Reply :=
  if h_replicated h && is_write_command BLPop then ReplyPropagate (serialize request) (ReplyTo c) else ReplyTo c.

(** The state a blocking BLPOP leaves. *)
Definition blocked_on (keys : list bytes) (k : Reply) (deadline : Z) (w : World) : World :=
  let timer := mkTimer (Some deadline) (BlpopTimeout (next_id_ (w_blpop w)) k) false in
  with_timers (<[w_next_timer w := timer]> (w_timers w)) (w_next_timer w + 1)
    (with_blpop (register_callbacks keys (mkBlpop k (w_next_timer w)) (w_blpop w)).2 w).

Lemma execute_blpop_blocks call cmd keys text timeout ns k w :
  args cmd = keys ++ [text] → keys ≠ [] → stod text = Ok timeout → positive timeout = true →
  seconds_to_ns timeout = Ok ns → lists_nonempty (w_store w) →
  Forall (λ key, list_at key (w_store w) = []) keys →
  execute_blpop call cmd k w = (blocked_on keys k (w_steady w + ns) w, Ok tt).
Proof.
  intros Ha Hne Ht Hp Hns Hl Hkeys. unfold execute_blpop.
  assert (check_args cmd 2 = None) as ->.
  { unfold check_args. rewrite bool_decide_eq_false_2; [done|]. rewrite Ha, length_app. destruct keys; [done|simpl; lia]. }
  rewrite Ha, length_app, Nat.add_sub, take_app_length.
  rewrite (bind_Ok _ _ _ _ _ (arg_Some cmd (length keys) text w ltac:(by rewrite Ha, list_lookup_middle))).
  rewrite (bind_Ok _ _ _ w timeout) by (unfold lift; by rewrite Ht).
  rewrite (bind_Ok _ _ _ _ _ (blpop_nothing keys w Hl Hkeys)), bind_gets, Hp, Hns. done.
Qed.

Lemma handle_blpop version fuel h request cmd c w :
  h_kind h = Client → is_active (tm_of (h_id h) w) = false → type request = Array → parse_command request = Ok cmd →
  cmd_type cmd = BLPop →
  handle version fuel h request (ReplyTo c) w =
    execute_blpop (run version fuel) cmd (blocking_reply h request c) w.
Proof.
  intros Hk Ha Hr Hp Ht. rewrite (handle_command _ _ _ _ _ _ _ Hr Hp). unfold dispatch. rewrite bind_gets, Ha, Ht.
  change (always_direct BLPop) with false. cbv beta iota. rewrite execute_table. unfold command_table. rewrite Hk, Ht. done.
Qed.

(** ** Property *)

(** C8. A BLPOP with a timeout is answered.  When all its lists are empty, BLPOP
    with a positive timeout replies nothing, leaves the data as it is, registers
    the client for its keys behind all others and starts one timer.  In every
    later state in which that timer is still pending, the timer does nothing
    before the deadline; from the deadline on, its handler runs, sends exactly
    one reply, the null array, to exactly this connection, removes the client
    from the registry and the timer, and leaves the data and all other clients as they
    are. *)
Theorem blpop_times_out (version : bytes) (fuel : nat) (h : Handler) (request : RespValue) (cmd : Command)
    (c : ConnId) (w : World) (ws : list blocked) (keys : list bytes) (text : bytes) (timeout : double) (ns : Z)
    (Hclient : h_kind h = Client) (Hactive : is_active (tm_of (h_id h) w) = false)
    (Harray : type request = Array) (Hcmd : parse_command request = Ok cmd) (Htype : cmd_type cmd = BLPop)
    (Hargs : args cmd = keys ++ [text]) (Hkeys : keys ≠ []) (Htext : stod text = Ok timeout)
    (Hpositive : positive timeout = true) (Hns : seconds_to_ns timeout = Ok ns)
    (Hlists : lists_nonempty (w_store w)) (Hempty : Forall (λ key, list_at key (w_store w) = []) keys)
    (Hreg : registry_refines (w_blpop w) ws) (Hfuel : (2 ≤ fuel)%nat) :
  let t := w_next_timer w in
  let id := next_id_ (w_blpop w) in
  let k := blocking_reply h request c in
  let deadline := w_steady w + ns in
  let timer := mkTimer (Some deadline) (BlpopTimeout id k) false in
  ∃ w1, handle version fuel h request (ReplyTo c) w = (w1, Ok tt) ∧
    w_out w1 = w_out w ∧ w_store w1 = w_store w ∧
    registry_refines (w_blpop w1) (ws ++ [mkWaiter id keys (mkBlpop k t)]) ∧ (id ∉ w_id <$> ws) ∧
    w_timers w1 = <[t := timer]> (w_timers w) ∧
    ∀ w2 ws2, w_timers w2 !! t = Some timer → registry_refines (w_blpop w2) ws2 →
      (w_steady w2 < deadline →
        timer_expires t w2 = (w2, Ok tt) ∧ timer_completes version fuel t w2 = (w2, Ok tt)) ∧
      (deadline ≤ w_steady w2 →
        ∃ w3, (timer_expires t;; timer_completes version fuel t) w2 = (w3, Ok tt) ∧
          response_part (w_out w3) = response_part (w_out w2) ++ [Response c null_array] ∧
          registry_refines (w_blpop w3) (filter (λ y, w_id y ≠ id) ws2) ∧
          w_timers w3 = delete t (w_timers w2) ∧ w_store w3 = w_store w2).
Proof.
  intros t id k deadline timer. exists (blocked_on keys k deadline w).
  pose proof (register_refines (w_blpop w) ws keys (mkBlpop k t) Hreg) as [Hr Hid].
  rewrite (handle_blpop _ _ _ _ cmd) by done. split_and!; try done.
  { by apply execute_blpop_blocks with text timeout. }
  intros w2 ws2 Ht Hr2. split; [by apply timer_early with id k|]. intros Hge.
  destruct (dispatch_reply h BLPop (serialize request) c) as [Hp Hd]. fold (blocking_reply h request c) in Hp, Hd. fold k in Hp, Hd.
  rewrite (timer_late version fuel t deadline id k w2 Ht Hge Hp) by lia.
  eexists. split; [done|]. set (w3 := with_blpop _ _).
  destruct (deliver_frame k null_array w3) as (-> & _ & _ & -> & _). rewrite deliver_responses, deliver_timers.
  split_and!; try done.
  - cbn [w3 with_blpop with_timers w_out]. f_equal. unfold k, blocking_reply. by destruct (_ && _).
  - by apply unregister_refines.
Qed.

(** Connection 2 waits for [m] and [l] for half a second, behind connection 1. *)
Definition one_blocked : World := (send 1 [b "BLPOP"; b "l"; b "0"] example_world).1.
Definition first_waiter : blocked :=
  mkWaiter 1 [b "l"] (mkBlpop (ReplyPropagate (serialize (example_request [b "BLPOP"; b "l"; b "0"])) (ReplyTo 1)) 0).

Lemma one_blocked_refines : registry_refines (w_blpop one_blocked) [first_waiter].
Proof.
  replace (w_blpop one_blocked) with
    (register_callbacks (w_keys first_waiter) (w_callback first_waiter) empty_registry).2
    by (vm_compute; reflexivity).
  exact (register_chain _ [] _ _ refines_empty).
Qed.

Lemma blpop_times_out_witness :
  ∃ w1 w3, send 2 [b "BLPOP"; b "m"; b "l"; b "0.5"] one_blocked = (w1, Ok tt) ∧ w_out w1 = w_out one_blocked ∧
    timer_expires 1 (with_clocks 499999999 0 w1) = (with_clocks 499999999 0 w1, Ok tt) ∧
    (timer_expires 1;; timer_completes (b "7.0.0") 20 1) (with_clocks 500000000 0 w1) = (w3, Ok tt) ∧
    response_part (w_out w3) = response_part (w_out one_blocked) ++ [Response 2 null_array] ∧
    registry_refines (w_blpop w3) [first_waiter].
Proof.
  assert (w_store one_blocked = ∅) as Hs by (vm_compute; reflexivity).
  assert (is_active (tm_of (h_id (example_handler 2)) one_blocked) = false) as Ha by (vm_compute; reflexivity).
  assert (lists_nonempty (w_store one_blocked)) as Hl by (rewrite Hs; intros ? ?; by rewrite lookup_empty).
  assert (Forall (λ key, list_at key (w_store one_blocked) = []) [b "m"; b "l"]) as He
    by (rewrite Hs; repeat constructor).
  assert (w_next_timer one_blocked = 1%N ∧ next_id_ (w_blpop one_blocked) = 2%N ∧ w_steady one_blocked = 0) as (Et & Ei & Ew)
    by (vm_compute; done).
  destruct (blpop_times_out (b "7.0.0") 20 (example_handler 2) (example_request [b "BLPOP"; b "m"; b "l"; b "0.5"])
    (mkCommand BLPop (b "BLPOP") [b "m"; b "l"; b "0.5"]) 2 one_blocked [first_waiter] [b "m"; b "l"] (b "0.5")
    (S754_finite false 4503599627370496 (-53)) 500000000 eq_refl Ha eq_refl eq_refl eq_refl eq_refl
    ltac:(discriminate) eq_refl eq_refl eq_refl Hl He one_blocked_refines ltac:(lia))
    as (w1 & E1 & E2 & E3 & E4 & _ & E5 & E6).
  rewrite Et, Ei, Ew in *.
  assert (w_timers w1 !! 1%N = Some (mkTimer (Some 500000000) (BlpopTimeout 2
    (blocking_reply (example_handler 2) (example_request [b "BLPOP"; b "m"; b "l"; b "0.5"]) 2)) false)) as Hpend
    by (rewrite E5; apply lookup_insert_eq).
  destruct (E6 (with_clocks 499999999 0 w1) _ Hpend E4) as [[Hearly _] _]; [cbn; lia|].
  destruct (E6 (with_clocks 500000000 0 w1) _ Hpend E4) as [_ (w3 & F1 & F2 & F3 & _)]; [cbn; lia|].
  exists w1, w3. split_and!; [exact E1|exact E2|exact Hearly|exact F1| |exact F3].
  rewrite F2. cbn [w_out with_clocks]. by rewrite E2.
Defined.
