(* ===== verification/ResumedExec.v ===== *)
(** * Transactions that a push resumes

    EXEC runs its queue through callbacks, so a BLPOP in the queue suspends the
    transaction: its context stays in [w_execs], its callback in the blocking
    registry.  A push by another client then runs the rest of the transaction,
    inside the loop of [serve_blpop_waiters] of src/state/BlockingManager.cpp,
    before the pusher gets its reply. *)

From S2P Require Import Prelude CharConv Resp StoreValue StringStore ListStore StreamStore Store Blocking WatchManager TransactionManager ReplicaRegistry Command ServerConfig World BasicCommands ListCommands StreamCommands TransactionCommands CommandRegistry Dispatch Invariants Transactions BlockedClients.

(** The state after a push and its notification. *)
Definition after_push (t : CommandType) (key : bytes) (values : list bytes) (w : World) : World :=
  (notify key (with_store (push_op t key values (w_store w)).2 w)).1.

(** The state in which the suspended transaction goes on: the first element is
    taken, the client no longer waits, and its timer is cancelled. *)
Definition element_taken (key : bytes) (x : blocked) (w : World) : World :=
  (cancel_timer (blpop_timer (w_callback x))
     (with_blpop (unregister (w_id x) (w_blpop w)) (with_store (lpop key 1 (w_store w)).2 w))).1.

Lemma after_push_frame t key values w :
  w_store (after_push t key values w) = (push_op t key values (w_store w)).2 ∧
  w_blpop (after_push t key values w) = w_blpop w ∧
  w_execs (after_push t key values w) = w_execs w ∧ w_next_exec (after_push t key values w) = w_next_exec w ∧
  w_out (after_push t key values w) = w_out w ∧ w_replicas (after_push t key values w) = w_replicas w ∧
  ∀ h, is_active (tm_of h (after_push t key values w)) = is_active (tm_of h w).
Proof.
  unfold after_push, notify, modify. cbn [fst]. set (d := (push_op t key values (w_store w)).2).
  change (w_watch (with_store d w)) with (w_watch w). generalize (notify_write key (w_watch w)). intros l.
  change d with (w_store (with_store d w)) at 2.
  change (w_blpop w) with (w_blpop (with_store d w)). change (w_execs w) with (w_execs (with_store d w)).
  change (w_next_exec w) with (w_next_exec (with_store d w)). change (w_out w) with (w_out (with_store d w)).
  change (w_replicas w) with (w_replicas (with_store d w)).
  assert (∀ h, tm_of h w = tm_of h (with_store d w)) as E by done. setoid_rewrite E. clear E.
  generalize (with_store d w). clear. induction l as [|x l IH]; intros w; [done|]. cbn [fold_left].
  destruct (IH (mark_dirty_of w x)) as (E1 & E2 & E3 & E4 & E5 & E6 & E7).
  rewrite E1, E2, E3, E4, E5, E6. split_and!; try done. intros h. rewrite E7. unfold mark_dirty_of.
  rewrite tm_of_set. by destruct (decide (h = x)) as [->|].
Qed.

Lemma element_taken_frame key x w :
  w_store (element_taken key x w) = (lpop key 1 (w_store w)).2 ∧
  w_blpop (element_taken key x w) = unregister (w_id x) (w_blpop w) ∧
  w_execs (element_taken key x w) = w_execs w ∧ w_next_exec (element_taken key x w) = w_next_exec w ∧
  w_out (element_taken key x w) = w_out w ∧
  w_tms (element_taken key x w) = w_tms w.
Proof. unfold element_taken, cancel_timer, modify. cbn [fst]. by repeat case_match. Qed.

Lemma propagate_if_frame h t request w :
  w_blpop (propagate_if h t request w) = w_blpop w ∧ w_store (propagate_if h t request w) = w_store w ∧
  w_out (propagate_if h t request w) = w_out w ∧ ∀ h', tm_of h' (propagate_if h t request w) = tm_of h' w.
Proof. unfold propagate_if. by destruct (_ && _). Qed.

(** Sending immediate commands blocks nobody. *)
Lemma send_all_blpop version h c rest w w' :
  h_kind h = Client → Forall immediate_request rest → is_active (tm_of (h_id h) w) = false →
  send_all version h c rest w = (w', Ok tt) → w_blpop w' = w_blpop w.
Proof.
  intros Hk Hrest. revert w. induction Hrest as [|request rest (Ht & cmd & Hp & Hi) _ IH]; intros w Ha.
  { by intros [= <-]. }
  cbn [send_all]. unfold mbind at 1, M_bind at 1. rewrite (handle_immediate version h request cmd c w) by done.
  destruct (immediate_replies version h cmd Hk Hi) as [m [Hlocal Hm]]. rewrite Hm. unfold mbind at 1, M_bind at 1.
  destruct (Hlocal (w_execs w) (w_next_exec w) (w_out w) w) as (_ & Hact & Hb).
  destruct (m w) as [v [s| | |]]; try done. cbn [fst] in Hact, Hb.
  destruct (dispatch_reply h (cmd_type cmd) (serialize request) c) as [Hpl Hdep].
  rewrite run_deliver, deliver_direct by done. intros Hall. apply IH in Hall.
  - rewrite Hall, <- Hb. apply propagate_if_frame.
  - rewrite <- Ha, <- Hact. f_equal. apply propagate_if_frame.
Qed.

(** Nobody waits for [key]. *)
Lemma serve_alone version fuel key w :
  (∃ ws : list blocked, registry_refines (w_blpop w) ws ∧ waiting key ws = []) →
  run version (S fuel) (TServeBlpop key) w = (w, Ok tt).
Proof.
  intros (ws & Hr & Hw). rewrite (serve_round version key fuel w ws Hr); rewrite Hw; [done|].
  by intros x Hx%elem_of_nil.
Qed.

Lemma take_before {A} n (l : list A) x r : drop n l = x :: r → l = take n l ++ [x] ++ r ∧ length (take n l) = n.
Proof.
  intros Hd. split; [change ([x] ++ r) with (x :: r); by rewrite <- Hd, take_drop|].
  apply length_take_le. assert (length (drop n l) ≠ 0%nat) as Hne by (by rewrite Hd). rewrite length_drop in Hne. lia.
Qed.

Section resume.
Context (version : bytes) (key : bytes) (ws : list blocked) (x : blocked).
Context (ctx : N) (req : RespValue) (commands : list RespValue) (rest : list RespValue) (texts : list bytes).
Context (h : Handler) (c : ConnId) (Hclient : h_kind h = Client).
Context (Hreply : blpop_reply (w_callback x) = ReplyExec ctx BLPop req).
Context (Hrest : Forall immediate_request rest).

(** The service loop with one waiter, a suspended transaction. *)
Lemma serve_resumes fuel w v vs v' :
  registry_refines (w_blpop w) ws → waiting key ws = [x] → list_at key (w_store w) = v :: vs →
  w_execs w !! ctx = Some (mkExec (length texts) (texts ++ replicate (S (length rest)) []) commands h (ReplyTo c)) →
  drop (length texts) commands = req :: rest → is_active (tm_of (h_id h) w) = false →
  (2 * length rest + 5 ≤ fuel)%nat →
  send_all version h c rest (propagate_if h BLPop req (element_taken key x w)) = (v', Ok tt) →
  ∃ e' new, w_out v' = w_out w ++ new ∧ length (reply_texts new) = length rest ∧
    run version fuel (TServeBlpop key) w =
      (shift e' (w_next_exec w) (w_out w ++ posts_if h BLPop req (element_taken key x w) ++ propagated_part new ++
         [Response c (array_header (zlen commands) ++
            concat (texts ++ [key_value_reply key v] ++ reply_texts new))]) v', Ok tt).
Proof.
  intros Hr Hw Hl He Hdrop Ha Hf Hall. destruct fuel as [|[|[|fuel]]]; try lia.
  set (taken := element_taken key x w) in *.
  destruct (element_taken_frame key x w) as (Es & Eb & Ee & En & Eo & Et). fold taken in Es, Eb, Ee, En, Eo, Et.
  destruct (take_before _ _ _ _ Hdrop) as [Hcmds Hlen].
  assert (is_active (tm_of (h_id h) (propagate_if h BLPop req taken)) = false) as Hact.
  { destruct (propagate_if_frame h BLPop req taken) as (_ & _ & _ & ->). rewrite <- Ha. unfold tm_of. by rewrite Et. }
  (* the loop of EXEC behind the BLPOP *)
  set (e1 := <[ctx := mkExec (S (length texts)) (<[length texts := key_value_reply key v]>
    (texts ++ replicate (S (length rest)) [])) commands h (ReplyTo c)]> (w_execs w)).
  destruct (exec_loop version h c ctx commands Hclient rest (S fuel) (take (length texts) commands ++ [req])
    e1 (w_next_exec w) (w_out w ++ posts_if h BLPop req taken) (propagate_if h BLPop req taken) v')
    with (texts := texts ++ [key_value_reply key v]) as (e' & new & Hout & Hnew & Hrun).
  - by rewrite <- (assoc_L (++)).
  - done.
  - done.
  - lia.
  - done.
  - rewrite !length_app, Hlen. done.
  - unfold e1. rewrite lookup_insert_eq, length_app, Hlen. simpl.
    rewrite insert_app_r_alt, Nat.sub_diag by lia. simpl. by rewrite <- (assoc_L (++)), Nat.add_comm.
  - exists e', new. split_and!; [|done|].
    { rewrite Hout, <- Eo. by destruct (propagate_if_frame h BLPop req taken) as (_ & _ & -> & _). }
    change (run version (S (S (S fuel))) (TServeBlpop key)) with (serve_blpop_waiters (run version (S (S fuel))) key).
    unfold serve_blpop_waiters, registry_find.
    rewrite bind_gets, (refines_callbacks _ _ Hr).
    pose proof (queue_head_oldest key ws) as Hhead. fold (waiting key ws) in Hhead. rewrite Hw in Hhead.
    destruct (queue_for key ws) as [|reg regs]; [done|]. injection Hhead as ->.
    unfold queue_repr. cbv beta iota. rewrite bind_on_store.
    destruct (lpop_one key (w_store w) v vs Hl) as [-> _]. cbn [reg_id reg_callback].
    unfold unregister_blpop. rewrite bind_modify. set (out' := w_out w ++ _).
    rewrite (bind_Ok _ _ _ (shift e' (w_next_exec w) out' v') tt).
    + apply serve_alone. cbn [shift with_execs with_out w_blpop].
      rewrite (send_all_blpop _ _ _ _ _ _ Hclient Hrest Hact Hall).
      exists (filter (λ y, w_id y ≠ w_id x) ws). split.
      * destruct (propagate_if_frame h BLPop req taken) as (-> & _). rewrite Eb. by apply unregister_refines.
      * by rewrite (waiting_tail key ws x []) by (done || apply (refines_nodup _ _ Hr)).
    + unfold blpop_callback. rewrite (bind_Ok (cancel_timer _) _ _ taken tt eq_refl), Hreply.
      rewrite <- (shift_id taken), Ee, En, Eo, (exec_callback_step _ _ _ _ _ _ _ _ _ _ _ He);
        [|cbn [exec_index exec_results]; rewrite length_app, length_replicate; lia].
      rewrite <- !(assoc_L (++)) in Hrun. exact Hrun.
Qed.
End resume.

(** ** Property *)

(** C7. A push resumes a suspended transaction.  A transaction of connection [c]
    has run the first commands of its queue (replies [texts]), is blocked in a
    BLPOP, alone on its list, and has the commands [rest] left, all of them among
    PING, INFO, ECHO, SET, GET, TYPE, INCR, LRANGE, LLEN and LPOP, which raise no
    exception when they are sent one after another at this point.  Another client,
    not in a transaction, pushes onto the list.  Then the transaction is given the first element, and the rest of it
    runs to its end before the pusher gets its reply: [c] gets one array, with
    the earlier replies, the element, and the replies that the commands [rest]
    get when they are sent one after another at this point; the data is what they
    leave; BLPOP and the writes of the transaction are propagated before the
    push; nobody waits for the list any more, and all others wait as before. *)
Theorem push_resumes_exec (version : bytes) (fuel : nat) (h2 : Handler) (request : RespValue) (cmd : Command)
    (c2 : ConnId) (w v' : World) (ws : list blocked) (key : bytes) (values : list bytes) (v : bytes) (vs : list bytes)
    (x : blocked) (ctx : N) (req : RespValue) (commands rest : list RespValue) (texts : list bytes) (h : Handler)
    (c : ConnId)
    (Hclient2 : h_kind h2 = Client) (Hactive2 : is_active (tm_of (h_id h2) w) = false)
    (Harray : type request = Array) (Hcmd : parse_command request = Ok cmd)
    (Hpush : cmd_type cmd = RPush ∨ cmd_type cmd = LPush) (Hargs : args cmd = key :: values) (Hvalues : values ≠ [])
    (Hlist : pushed (cmd_type cmd) values (list_at key (w_store w)) = v :: vs)
    (Hreg : registry_refines (w_blpop w) ws) (Hwaiting : waiting key ws = [x])
    (Hreply : blpop_reply (w_callback x) = ReplyExec ctx BLPop req)
    (Hctx : w_execs w !! ctx =
       Some (mkExec (length texts) (texts ++ replicate (S (length rest)) []) commands h (ReplyTo c)))
    (Hdrop : drop (length texts) commands = req :: rest) (Hrest : Forall immediate_request rest)
    (Hclient : h_kind h = Client) (Hactive : is_active (tm_of (h_id h) w) = false)
    (Hfuel : (2 * length rest + 5 ≤ fuel)%nat) :
  let taken := element_taken key x (after_push (cmd_type cmd) key values w) in
  send_all version h c rest (propagate_if h BLPop req taken) = (v', Ok tt) →
  ∃ w' new, handle version fuel h2 request (ReplyTo c2) w = (w', Ok tt) ∧
    w_out v' = w_out w ++ new ∧ length (reply_texts new) = length rest ∧
    w_out w' = w_out w ++ posts_if h BLPop req taken ++ propagated_part new ++
      [Response c (array_header (zlen commands) ++ concat (texts ++ [key_value_reply key v] ++ reply_texts new))] ++
      [Response c2 (integer_reply (zlen (v :: vs)))] ++ posts_if h2 (cmd_type cmd) request v' ∧
    w_store w' = w_store v' ∧ registry_refines (w_blpop w') (filter (λ y, w_id y ≠ w_id x) ws).
Proof.
  intros taken Hall. rewrite (handle_command _ _ _ _ _ _ _ Harray Hcmd). unfold dispatch. rewrite bind_gets, Hactive2.
  assert (always_direct (cmd_type cmd) = false) as -> by (by destruct Hpush as [-> | ->]).
  destruct (dispatch_reply h2 (cmd_type cmd) (serialize request) c2) as [Hp Hd].
  pose proof (deliver_direct h2 (cmd_type cmd) request c2) as Hdeliver.
  set (k := if h_replicated h2 && _ then _ else _) in *.
  destruct (execute_push version (run version fuel) h2 cmd key values k Hclient2 Hpush Hargs Hvalues) as (body & -> & ->).
  rewrite bind_on_store. destruct (push_op_spec (cmd_type cmd) key values (w_store w)) as (-> & Hl & _). rewrite Hlist in *.
  rewrite (bind_Ok _ _ _ (after_push (cmd_type cmd) key values w) tt eq_refl).
  set (w1 := after_push (cmd_type cmd) key values w) in *.
  destruct (after_push_frame (cmd_type cmd) key values w) as (E1 & E2 & E3 & E4 & E5 & E6 & E7).
  fold w1 in E1, E2, E3, E4, E5, E6, E7.
  destruct (serve_resumes version key ws x ctx req commands rest texts h c Hclient Hreply Hrest fuel w1 v vs v')
    as (e' & new & Hout & Hnew & Hrun); [by rewrite E2|done|by rewrite E1|by rewrite E3|done|by rewrite E7|done|done|].
  rewrite (bind_Ok _ _ _ _ _ Hrun), run_deliver, Hdeliver by (done || lia).
  assert (is_active (tm_of (h_id h) (propagate_if h BLPop req taken)) = false) as Hact.
  { destruct (propagate_if_frame h BLPop req taken) as (_ & _ & _ & ->).
    transitivity (is_active (tm_of (h_id h) w1)); [|by rewrite E7]. unfold tm_of, taken.
    by destruct (element_taken_frame key x w1) as (_ & _ & _ & _ & _ & ->). }
  eexists _, new. split; [reflexivity|]. rewrite E5 in *. split_and!; [done|done| | |].
  - cbn [with_out w_out shift with_execs]. rewrite <- !(assoc_L (++)). unfold posts_if, posts_of. by destruct (h_replicated h2 && _).
  - cbn [with_out w_store]. by rewrite (proj1 (proj2 (propagate_if_frame _ _ _ _))).
  - cbn [with_out w_blpop]. rewrite (proj1 (propagate_if_frame _ _ _ _)). cbn [shift with_execs with_out w_blpop].
    rewrite (send_all_blpop _ _ _ _ _ _ Hclient Hrest Hact Hall), (proj1 (propagate_if_frame _ _ _ _)).
    unfold taken. destruct (element_taken_frame key x w1) as (_ & -> & _). rewrite E2. by apply unregister_refines.
Qed.

(** Connection 1 is suspended behind its first command; connection 2 pushes. *)
Definition suspended : World :=
  ((send 1 [b "MULTI"];; send 1 [b "SET"; b "a"; b "1"];; send 1 [b "BLPOP"; b "l"; b "0"];;
    send 1 [b "INCR"; b "a"];; send 1 [b "EXEC"]) example_world).1.

Definition suspended_blpop : RespValue := example_request [b "BLPOP"; b "l"; b "0"].
Definition suspended_rest : list RespValue := [example_request [b "INCR"; b "a"]].
Definition suspended_queue : list RespValue :=
  [example_request [b "SET"; b "a"; b "1"]; suspended_blpop] ++ suspended_rest.
Definition suspended_waiter : blocked := mkWaiter 1 [b "l"] (mkBlpop (ReplyExec 0 BLPop suspended_blpop) 0).

Definition resumed_taken : World :=
  element_taken (b "l") suspended_waiter (after_push RPush (b "l") [b "x"] suspended).
Definition resumed_end : World :=
  (send_all (b "7.0.0") (example_handler 1) 1 suspended_rest
     (propagate_if (example_handler 1) BLPop suspended_blpop resumed_taken)).1.

Lemma suspended_refines : registry_refines (w_blpop suspended) [suspended_waiter].
Proof.
  replace (w_blpop suspended) with
    (register_callbacks (w_keys suspended_waiter) (w_callback suspended_waiter) empty_registry).2
    by (vm_compute; reflexivity).
  exact (register_chain _ [] _ _ refines_empty).
Qed.

Lemma push_resumes_exec_witness :
  ∃ w' new, send 2 [b "RPUSH"; b "l"; b "x"] suspended = (w', Ok tt) ∧
    w_out resumed_end = w_out suspended ++ new ∧ reply_texts new = [integer_reply 2] ∧
    last (w_out w') = Some (Response 2 (integer_reply 1)) ∧
    w_store w' = w_store resumed_end ∧ registry_refines (w_blpop w') [].
Proof.
  assert (Forall immediate_request suspended_rest) as Hrest
    by (constructor; [split; [done|]; eexists; split; reflexivity|constructor]).
  assert (w_execs suspended !! 0%N = Some (mkExec 1 ([ok_reply] ++ replicate 2 []) suspended_queue (example_handler 1) (ReplyTo 1)))
    as Hctx by (vm_compute; reflexivity).
  assert (send_all (b "7.0.0") (example_handler 1) 1 suspended_rest
    (propagate_if (example_handler 1) BLPop suspended_blpop resumed_taken) = (resumed_end, Ok tt)) as Hall
    by (vm_compute; reflexivity).
  assert (is_active (tm_of (h_id (example_handler 2)) suspended) = false) as Hact2 by (vm_compute; reflexivity).
  assert (is_active (tm_of (h_id (example_handler 1)) suspended) = false) as Hact1 by (vm_compute; reflexivity).
  assert (pushed RPush [b "x"] (list_at (b "l") (w_store suspended)) = [b "x"]) as Hlist by (vm_compute; reflexivity).
  destruct (push_resumes_exec (b "7.0.0") 20 (example_handler 2) (example_request [b "RPUSH"; b "l"; b "x"])
    (mkCommand RPush (b "RPUSH") [b "l"; b "x"]) 2 suspended resumed_end [suspended_waiter] (b "l") [b "x"] (b "x") []
    suspended_waiter 0 suspended_blpop suspended_queue suspended_rest [ok_reply] (example_handler 1) 1
    eq_refl Hact2 eq_refl eq_refl (or_introl eq_refl) eq_refl ltac:(discriminate) Hlist suspended_refines eq_refl eq_refl
    Hctx eq_refl Hrest eq_refl Hact1 ltac:(apply Nat.leb_le; reflexivity) Hall)
    as (w' & new & E1 & E2 & E3 & E4 & E5 & E6).
  exists w', new. split; [exact E1|]. split; [exact E2|].
  assert (w_out resumed_end = w_out suspended ++ [Response 1 (integer_reply 2)]) as En by (vm_compute; reflexivity).
  rewrite E2 in En. apply app_inv_head in En. subst new. split; [reflexivity|].
  split; [|split; [exact E5|exact E6]]. rewrite E4. cbn [app]. rewrite last_app.
  vm_compute. reflexivity.
Defined.
