(* ===== verification/BlockedReaders.v ===== *)
(** * Properties of blocked readers

    Clients blocked in XREAD BLOCK are all answered by the next XADD to one of
    their streams, in the order in which they blocked. *)

From S2P Require Import Prelude CharConv Resp StreamId StoreValue StringStore ListStore StreamStore Store Blocking WatchManager TransactionManager ReplicaRegistry Command ServerConfig World BasicCommands ListCommands StreamCommands TransactionCommands CommandRegistry Dispatch Invariants Transactions BlockedClients.

Abbreviation reader := (waiter (C := XReadCallback)).

(** What a reader asks of the store. *)
Definition read_for (x : reader) (d : Data) : outcome (list (bytes * list StreamEntry)) :=
  xread (xread_keys (w_callback x)) (xread_ids (w_callback x)) d.

Definition registration (x : reader) : Registration XReadCallback := mkReg (w_id x) (w_callback x).

(** ** The queue *)

Lemma registrations_once key (x : reader) :
  NoDup (w_keys x) → registrations_of key x = if decide (key ∈ w_keys x) then [registration x] else [].
Proof.
  intros Hnd. case_decide as Hin; [|by apply registrations_of_not_in].
  unfold registrations_of. apply elem_of_Permutation in Hin as [ks Hks].
  assert (filter (λ k, k = key) (w_keys x) = [key]) as ->; [|done].
  apply Permutation_length_1_inv. rewrite Hks in Hnd |- *. apply NoDup_cons in Hnd as [Hk _].
  rewrite filter_cons_True by done. rewrite filter_none; [done|]. apply Forall_forall. by intros y Hy ->.
Qed.

Lemma queue_for_readers key (ws : list reader) :
  Forall (λ x, NoDup (w_keys x)) ws → queue_for key ws = registration <$> waiting key ws.
Proof.
  induction 1 as [|x ws Hx _ IH]; [done|]. unfold queue_for, waiting in *.
  rewrite fmap_cons, filter_cons. cbn [concat]. rewrite IH, registrations_once by done.
  by case_decide.
Qed.

(** The readers in the queue of a stream; one that names the stream several times
    sits there as often. *)
Definition sitting (key : bytes) (ws : list reader) : list reader :=
  concat ((λ x, replicate (length (filter (λ k, k = key) (w_keys x))) x) <$> ws).

Lemma queue_for_sitting key (ws : list reader) : queue_for key ws = registration <$> sitting key ws.
Proof.
  unfold queue_for, sitting. induction ws as [|x ws IH]; [done|]. rewrite !fmap_cons. cbn [concat].
  rewrite fmap_app, fmap_replicate, IH. f_equal. unfold registrations_of.
  induction (filter (λ k, k = key) (w_keys x)) as [|k ks IHk]; [done|]. cbn. by f_equal.
Qed.

Lemma elem_of_sitting key (ws : list reader) x : x ∈ sitting key ws ↔ x ∈ waiting key ws.
Proof.
  unfold sitting, waiting. rewrite list_elem_of_filter. induction ws as [|y ws IH].
  { split; [by intros ?%elem_of_nil|by intros [_ ?%elem_of_nil]]. }
  rewrite fmap_cons. cbn [concat]. rewrite elem_of_app, elem_of_cons, IH.
  assert (x ∈ replicate (length (filter (λ k, k = key) (w_keys y))) y ↔ x = y ∧ key ∈ w_keys y) as ->.
  2: { split; [intros [[-> ?]|[? ?]]; auto|intros [? [->|?]]; auto]. }
  rewrite elem_of_replicate. apply and_iff_compat_l. split.
  - intros Hl. destruct (filter (λ k, k = key) (w_keys y)) as [|k ks] eqn:E; [done|].
    assert (k ∈ filter (λ k, k = key) (w_keys y)) as Hk by (rewrite E; apply list_elem_of_here).
    apply list_elem_of_filter in Hk as [-> Hk]. done.
  - intros Hin E. apply length_zero_iff_nil in E. assert (key ∈ filter (λ k, k = key) (w_keys y)) as Hk
      by (by apply list_elem_of_filter). rewrite E in Hk. by apply elem_of_nil in Hk.
Qed.

Lemma without_sitting key ws : without (sitting key ws) ws = without (waiting key ws) ws.
Proof.
  unfold without. apply list_filter_iff. intros x. rewrite !list_elem_of_fmap.
  by setoid_rewrite elem_of_sitting.
Qed.

(** ** Serving *)

Lemma deliver_xread k s w : w_xread (deliver k s w) = w_xread w.
Proof. by induction k. Qed.

Lemma cancel_xread t w : w_xread (cancel_timer t w).1 = w_xread w.
Proof. unfold cancel_timer, modify. simpl. by repeat case_match. Qed.

(** The state after reader [x] was given [results]. *)
Definition serve_reader (x : reader) (results : list (bytes * list StreamEntry)) (w : World) : World :=
  deliver (xread_reply (w_callback x)) (format_stream_entries results)
    (cancel_timer (xread_timer (w_callback x)) (with_xread (unregister (w_id x) (w_xread w)) w)).1.

Lemma serve_reader_frame x results w :
  w_store (serve_reader x results w) = w_store w ∧
  w_xread (serve_reader x results w) = unregister (w_id x) (w_xread w) ∧
  response_part (w_out (serve_reader x results w)) =
    response_part (w_out w) ++ responses_of (xread_reply (w_callback x)) (format_stream_entries results).
Proof.
  unfold serve_reader. set (w0 := with_xread _ _).
  destruct (cancel_frame (xread_timer (w_callback x)) w0) as (E1 & _ & E3).
  pose proof (cancel_xread (xread_timer (w_callback x)) w0) as E2.
  destruct (deliver_frame (xread_reply (w_callback x)) (format_stream_entries results)
    (cancel_timer (xread_timer (w_callback x)) w0).1) as (D1 & _).
  by rewrite D1, deliver_xread, E1, E2, deliver_responses, E3.
Qed.

Section serve.
Context (version : bytes) (fuel : nat) (d : Data) (results : reader → list (bytes * list StreamEntry)).

Definition ready (x : reader) : Prop :=
  plain (xread_reply (w_callback x)) = true ∧ (reply_depth (xread_reply (w_callback x)) ≤ fuel)%nat ∧
  read_for x d = Ok (results x).

Lemma serve_readers_in_order l : ∀ w ws,
  w_store w = d → registry_refines (w_xread w) ws → Forall ready l →
  ∃ w', serve_readers (run version fuel) (registration <$> l) w = (w', Ok tt) ∧ w_store w' = d ∧
    registry_refines (w_xread w') (without l ws) ∧
    response_part (w_out w') = response_part (w_out w) ++
      concat ((λ x, responses_of (xread_reply (w_callback x)) (format_stream_entries (results x))) <$> l).
Proof.
  induction l as [|x l IH]; intros w ws Hd Hr Hl.
  - exists w. rewrite without_nil. simpl. by rewrite app_nil_r.
  - apply Forall_cons in Hl as [(Hp & Hdep & Hread) Hl].
    destruct (serve_reader_frame x (results x) w) as (Es & Ex & Eo).
    destruct (IH (serve_reader x (results x) w) (filter (λ y, w_id y ≠ w_id x) ws))
      as (w' & Hrun & Hs & Hr' & Ho); [congruence|rewrite Ex; by apply unregister_refines|done|].
    exists w'. rewrite without_cons. split_and!; [|done|done|].
    + rewrite fmap_cons. cbn [serve_readers]. unfold unregister_xread at 1. rewrite bind_modify.
      rewrite (bind_Ok _ _ _ (serve_reader x (results x) w) tt); [exact Hrun|].
      set (w0 := with_xread _ w). cbn [reg_callback registration]. unfold xread_callback.
      rewrite (bind_Ok (cancel_timer (xread_timer (w_callback x))) _ w0
        (cancel_timer (xread_timer (w_callback x)) w0).1 tt eq_refl), bind_gets.
      destruct (cancel_frame (xread_timer (w_callback x)) w0) as (-> & _). cbn [w_store with_xread w0].
      rewrite Hd. fold (read_for x d). rewrite Hread, (bind_Ok _ _ _ _ _ eq_refl).
      by rewrite run_deliver.
    + rewrite Ho, Eo, fmap_cons. cbn [concat]. by rewrite (assoc_L (++)).
Qed.
End serve.

Lemma fold_mark_frame l w :
  let w' := fold_left mark_dirty_of l w in
  w_store w' = w_store w ∧ w_xread w' = w_xread w ∧ w_out w' = w_out w.
Proof. revert w. induction l as [|h l IH]; intros w; [done|]. exact (IH (mark_dirty_of w h)). Qed.

Lemma execute_xadd_body version call h cmd key stream_id flds k :
  h_kind h = Client → cmd_type cmd = XAdd → args cmd = key :: stream_id :: flds → flds ≠ [] →
  (length flds `mod` 2 = 0)%nat →
  ∃ body, execute version call h cmd k = Some body ∧
    ∀ w d' new_id, xadd (w_system w) key stream_id (field_pairs flds) (w_store w) = (d', Ok (Expected new_id)) →
      body w = (notify key;; serve_xread_waiters call key;; call (TReply k (bulk new_id))) (with_store d' w).
Proof.
  intros Hk Ht Ha Hf Hm. rewrite execute_table. unfold command_table. rewrite Hk, Ht. eexists. split; [reflexivity|].
  intros w d' new_id Hx. unfold execute_xadd, arg. rewrite Ha.
  assert (length flds ≠ 0%nat) by (by destruct flds).
  rewrite bool_decide_eq_false_2.
  2: { destruct flds as [|? [|]]; simpl in *; [lia|discriminate|lia]. }
  rewrite bool_decide_eq_true_2 by (simpl; by rewrite Nat.sub_0_r). cbn [orb negb].
  rewrite (bind_Ok _ _ w w key eq_refl), (bind_Ok _ _ w w stream_id eq_refl), bind_gets. cbn [drop].
  rewrite (bind_Ok _ _ _ (with_store d' w) (Expected new_id)); [done|].
  unfold on_store_outcome. by rewrite drop_0, Hx.
Qed.

(** ** Property *)

(** C6. Blocked readers.  When an XADD outside MULTI succeeds (with or without
    replicas), every client blocked in XREAD on that stream is answered before
    the writer gets its reply, in the order in which they blocked: each gets the
    entries that its own keys and ids select in the data that now hold the new
    entry, once for every time it names the stream (so a client that names it
    twice is answered twice).  They are unregistered from all their keys,
    everybody else stays blocked.  The blocked clients of the stream are outside
    transactions, and their keys and ids can be read ([ready]). *)
Theorem xadd_serves_readers (version : bytes) (fuel : nat) (h : Handler) (request : RespValue)
    (cmd : Command) (c : ConnId) (w : World) (ws : list reader) (key stream_id : bytes)
    (flds : list bytes) (d' : Data) (new_id : bytes) (results : reader → list (bytes * list StreamEntry))
    (Hclient : h_kind h = Client) (Hactive : is_active (tm_of (h_id h) w) = false)
    (Harray : type request = Array) (Hcmd : parse_command request = Ok cmd)
    (Hxadd : cmd_type cmd = XAdd) (Hargs : args cmd = key :: stream_id :: flds) (Hflds : flds ≠ [])
    (Hpairs : (length flds `mod` 2 = 0)%nat)
    (Hadded : xadd (w_system w) key stream_id (field_pairs flds) (w_store w) = (d', Ok (Expected new_id)))
    (Hreg : registry_refines (w_xread w) ws)
    (Hready : Forall (ready fuel d' results) (waiting key ws)) (Hfuel : (2 ≤ fuel)%nat) :
  ∃ w', handle version fuel h request (ReplyTo c) w = (w', Ok tt) ∧ w_store w' = d' ∧
    registry_refines (w_xread w') (without (waiting key ws) ws) ∧
    response_part (w_out w') = response_part (w_out w) ++
      concat ((λ x, responses_of (xread_reply (w_callback x)) (format_stream_entries (results x)))
                <$> sitting key ws) ++
      [Response c (bulk new_id)].
Proof.
  rewrite (handle_command _ _ _ _ _ _ _ Harray Hcmd). unfold dispatch. rewrite bind_gets, Hactive, Hxadd.
  cbn [always_direct is_write_command]. set (k := if h_replicated h && _ then _ else _).
  assert (plain k = true ∧ (reply_depth k ≤ 2)%nat ∧ ∀ s, responses_of k s = [Response c s]) as (Hp & Hd & Hs)
    by (unfold k; destruct (_ && _); simpl; split_and!; (done || lia)).
  destruct (execute_xadd_body version (run version fuel) h cmd key stream_id flds k)
    as (body & -> & Hbody); [done..|].
  rewrite (Hbody w d' new_id Hadded). unfold notify. rewrite bind_modify.
  set (w1 := fold_left mark_dirty_of _ _).
  destruct (fold_mark_frame (notify_write key (w_watch (with_store d' w))) (with_store d' w))
    as (E1 & E2 & E3). fold w1 in E1, E2, E3. cbn in E1, E2, E3.
  assert (Forall (ready fuel d' results) (sitting key ws)) as Hsit.
  { apply Forall_forall. intros x Hx%elem_of_sitting. by eapply Forall_forall in Hready. }
  destruct (serve_readers_in_order version fuel d' results (sitting key ws) w1 ws)
    as (w' & Hrun & Hw' & Hr' & Ho); [done|by rewrite E2|done|]. rewrite without_sitting in Hr'.
  rewrite (bind_Ok _ _ _ w' tt).
  2: { unfold serve_xread_waiters, registry_find. rewrite bind_gets, E2, (refines_callbacks _ _ Hreg).
       by rewrite default_queue_repr, queue_for_sitting. }
  rewrite run_deliver by (done || lia). eexists. split; [reflexivity|].
  destruct (deliver_frame k (bulk new_id) w') as (-> & _).
  rewrite deliver_xread, deliver_responses, Ho, E3, Hs. split_and!; [done..|]. by rewrite (assoc_L (++)).
Qed.

(** Two readers of [s], one of which also waits for [t], and a reader of
    another stream. *)
Definition three_readers : World :=
  ((send 1 [b "XREAD"; b "BLOCK"; b "0"; b "STREAMS"; b "s"; b "$"];;
    send 2 [b "XREAD"; b "BLOCK"; b "500"; b "STREAMS"; b "t"; b "s"; b "0-0"; b "0-0"];;
    send 3 [b "XREAD"; b "BLOCK"; b "0"; b "STREAMS"; b "t"; b "0-0"]) example_world).1.

Definition reader_list : list reader :=
  [mkWaiter 1 [b "s"] (mkXRead (ReplyTo 1) 0 [b "s"] [b "0-0"]);
   mkWaiter 2 [b "t"; b "s"] (mkXRead (ReplyTo 2) 1 [b "t"; b "s"] [b "0-0"; b "0-0"]);
   mkWaiter 3 [b "t"] (mkXRead (ReplyTo 3) 2 [b "t"] [b "0-0"])].

Definition new_entry : StreamEntry := mkEntry (b "5-1") [(b "f", b "v")].

Lemma three_readers_refines : registry_refines (w_xread three_readers) reader_list.
Proof.
  set (op := λ (r : BlockingRegistry XReadCallback) (x : reader),
    (register_callbacks (w_keys x) (w_callback x) r).2).
  replace (w_xread three_readers) with (fold_left op reader_list empty_registry)
    by (vm_compute; reflexivity).
  exact (register_chain _ _ _ _ (register_chain _ _ _ _ (register_chain _ [] _ _ refines_empty))).
Qed.

Lemma xadd_serves_readers_witness :
  ∃ w', send 4 [b "XADD"; b "s"; b "5-1"; b "f"; b "v"] three_readers = (w', Ok tt) ∧
    w_store w' = {[ b "s" := mkValue (VStream (mkStream [new_entry])) None ]} ∧
    registry_refines (w_xread w') (without (take 2 reader_list) reader_list) ∧
    response_part (w_out w') = response_part (w_out three_readers) ++
      [Response 1 (format_stream_entries [(b "s", [new_entry])]);
       Response 2 (format_stream_entries [(b "s", [new_entry])])] ++
      [Response 4 (bulk (b "5-1"))].
Proof.
  exact (xadd_serves_readers (b "7.0.0") 20 (example_handler 4)
    (example_request [b "XADD"; b "s"; b "5-1"; b "f"; b "v"])
    (mkCommand XAdd (b "XADD") [b "s"; b "5-1"; b "f"; b "v"])
    4 three_readers reader_list (b "s") (b "5-1") [b "f"; b "v"]
    {[ b "s" := mkValue (VStream (mkStream [new_entry])) None ]} (b "5-1")
    (λ _, [(b "s", [new_entry])]) eq_refl ltac:(by vm_compute) eq_refl ltac:(by vm_compute) eq_refl eq_refl
    ltac:(discriminate) eq_refl ltac:(by vm_compute) three_readers_refines
    ltac:(unfold waiting; simpl filter; repeat constructor; by vm_compute) ltac:(lia)).
Defined.
