(* ===== verification/WaitCommand.v ===== *)
(** * Properties of WAIT

    WAIT counts the replicas that acknowledged everything written before it.
    It answers at once when there are enough of them; otherwise it asks all
    replicas for their offset and polls every 20 ms, until there are enough or
    its time is over. *)

From S2P Require Import Prelude CharConv Resp StoreValue StringStore ListStore StreamStore Store Blocking WatchManager TransactionManager ReplicaRegistry Command ServerConfig World BasicCommands ListCommands StreamCommands TransactionCommands CommandRegistry Dispatch Invariants Transactions BlockedClients.

(** What a poll finds: the clock and the replicas with their acknowledged
    offsets. *)
Record Env := mkEnv {
  env_time : Z;
  env_replicas : ReplicaRegistry;
}.

Definition in_env (e : Env) (w : World) : World :=
  with_clocks (env_time e) (w_system w) (with_replicas (env_replicas e) w).

Section wait.
Context (version : bytes) (fuel : nat) (target numreplicas : Z) (deadline : option Z) (c : ConnId).

(** Enough acknowledgements, or no time left. *)
Definition wait_over (e : Env) : Prop :=
  numreplicas ≤ count_acked_at_least target (env_replicas e) ∨
  ∃ d, deadline = Some d ∧ d ≤ env_time e.

#[export] Instance wait_over_dec e : Decision (wait_over e).
Proof.
  unfold wait_over. apply or_dec; [apply _|]. destruct deadline as [d|].
  - destruct (decide (d ≤ env_time e)); [left; by exists d|right; intros (? & [= <-] & ?); done].
  - right. by intros (? & ? & _).
Defined.

(** The reply to the first environment in which WAIT is over. *)
Definition wait_answer (envs : list Env) : list Output :=
  match filter wait_over envs with
  | e :: _ => [Response c (integer_reply (count_acked_at_least target (env_replicas e)))]
  | [] => []
  end.

(** The timer [t] expires and its handler runs, in one environment after the
    other; a handler that waits again does so with the next timer. *)
Fixpoint poll_in (t : N) (envs : list Env) : M unit :=
  match envs with
  | [] => mret tt
  | e :: envs =>
      modify (in_env e);;
      timer_expires t;;
      next ← gets w_next_timer;
      timer_completes version fuel t;;
      poll_in next envs
  end.

(** Each environment is at least a polling interval after the one before. *)
Fixpoint spaced (time : Z) (envs : list Env) : Prop :=
  match envs with
  | [] => True
  | e :: envs => time + kWaitPollInterval ≤ env_time e ∧ spaced (env_time e) envs
  end.

Definition timers_fresh (w : World) : Prop := ∀ i, (w_next_timer w ≤ i)%N → w_timers w !! i = None.

(** A pending poll. *)
Definition polling (t : N) (time : Z) (w : World) : Prop :=
  timers_fresh w ∧ (t < w_next_timer w)%N ∧
  w_timers w !! t = Some (mkTimer (Some (time + kWaitPollInterval))
    (WaitPoll target numreplicas deadline (ReplyTo c)) false).

(** Once nothing is pending, polling does nothing. *)
Lemma poll_absent t envs w :
  w_timers w !! t = None → w_timers w !! w_next_timer w = None →
  ∃ w', poll_in t envs w = (w', Ok tt) ∧ w_out w' = w_out w.
Proof.
  revert t w. induction envs as [|e envs IH]; intros t w Ht Hn; [by exists w|]. cbn [poll_in].
  rewrite bind_modify. unfold timer_expires. rewrite bind_modify. cbn [w_timers in_env with_clocks with_replicas].
  rewrite Ht, bind_gets. unfold timer_completes. cbn [mbind M_bind].
  destruct (IH (w_next_timer w) (in_env e w) Hn Hn) as (w' & Hrun & Ho). exists w'. split; [|done].
  unfold mbind, M_bind, gets. cbn. rewrite Ht. exact Hrun.
Qed.

(** The state in which the handler of timer [t] is run. *)
Definition at_poll (t : N) (e : Env) (w : World) : World :=
  with_timers (delete t (w_timers w)) (w_next_timer w) (in_env e w).

Lemma poll_step t time e envs w :
  polling t time w → time + kWaitPollInterval ≤ env_time e →
  poll_in t (e :: envs) w =
    (wait_poll (run version fuel) target numreplicas deadline (ReplyTo c);; poll_in (w_next_timer w) envs)
      (at_poll t e w).
Proof.
  intros (_ & _ & Ht) Htime. cbn [poll_in]. rewrite bind_modify. unfold timer_expires.
  rewrite bind_modify. cbn [w_timers w_steady w_next_timer in_env with_clocks with_replicas].
  rewrite Ht. cbn [from_option expiry wait]. rewrite (proj2 (Z.leb_le _ _) Htime), bind_gets.
  cbn [w_next_timer with_timers]. unfold timer_completes, mbind at 1, M_bind at 1.
  rewrite bind_gets. cbn [w_timers with_timers]. rewrite lookup_insert_eq. cbn [fired wait].
  rewrite bind_modify. cbn [w_timers with_timers]. rewrite delete_insert_eq. done.
Qed.

(** What the handler does: an answer, or another interval. *)
Lemma wait_poll_step t e w :
  (1 ≤ fuel)%nat → timers_fresh w → (t < w_next_timer w)%N →
  ∃ w1, wait_poll (run version fuel) target numreplicas deadline (ReplyTo c) (at_poll t e w) = (w1, Ok tt) ∧
    (if decide (wait_over e)
     then w_out w1 = w_out w ++ wait_answer [e] ∧ w_timers w1 !! w_next_timer w = None ∧
          w_next_timer w1 = w_next_timer w
     else w_out w1 = w_out w ∧ polling (w_next_timer w) (env_time e) w1).
Proof.
  intros Hf Hfresh Ht. destruct fuel as [|f]; [lia|]. unfold wait_poll. rewrite !bind_gets.
  cbn [w_replicas w_steady at_poll in_env with_clocks with_replicas with_timers].
  set (count := count_acked_at_least target (env_replicas e)).
  assert (bool_decide (wait_over e) =
    (numreplicas <=? count) || from_option (λ deadline, deadline <=? env_time e) false deadline) as Hover.
  { apply eq_true_iff_eq. rewrite bool_decide_eq_true, orb_true_iff, Z.leb_le. unfold wait_over.
    destruct deadline as [d|]; simpl; [rewrite Z.leb_le|]; (split; intros [?|Hd]; [by left| |by left|]);
      [destruct Hd as (? & [= <-] & ?); by right|right; by exists d|by destruct Hd as (? & ? & _)|done]. }
  rewrite <- Hover. destruct (decide (wait_over e)) as [Ho|Ho].
  - rewrite bool_decide_eq_true_2 by done. rewrite run_reply_to. eexists. split; [reflexivity|]. cbn.
    unfold wait_answer. rewrite filter_cons_True by done. split_and!; [done| |done].
    rewrite lookup_delete_ne by lia. apply Hfresh. lia.
  - rewrite bool_decide_eq_false_2 by done. eexists. split; [reflexivity|]. cbn. split; [done|].
    unfold polling, timers_fresh. cbn. split_and!; [|lia|by rewrite lookup_insert_eq].
    intros i Hi. rewrite lookup_insert_ne, lookup_delete_ne by lia. apply Hfresh. lia.
Qed.

Lemma poll_answers t time envs w :
  (1 ≤ fuel)%nat → polling t time w → spaced time envs →
  ∃ w', poll_in t envs w = (w', Ok tt) ∧ w_out w' = w_out w ++ wait_answer envs.
Proof.
  intros Hf. revert t time w. induction envs as [|e envs IH]; intros t time w Hp Hs.
  { exists w. unfold wait_answer. by rewrite app_nil_r. }
  destruct Hs as [Htime Hs]. rewrite (poll_step t time) by done. pose proof Hp as (Hfresh & Ht & _).
  destruct (wait_poll_step t e w Hf Hfresh Ht) as (w1 & Hrun & Hw1).
  rewrite (bind_Ok _ _ _ _ _ Hrun). unfold wait_answer in *. rewrite filter_cons in *.
  destruct (decide (wait_over e)) as [Ho|Ho].
  - destruct Hw1 as (Hout & Hnone & Hnext).
    destruct (poll_absent (w_next_timer w) envs w1) as (w' & Hrun' & Ho'); [done|by rewrite Hnext|].
    exists w'. split; [done|]. by rewrite Ho', Hout.
  - destruct Hw1 as (Hout & Hp1). destruct (IH _ _ _ Hp1 Hs) as (w' & Hrun' & Ho').
    exists w'. split; [done|]. by rewrite Ho', Hout.
Qed.
End wait.

(** ** Property *)

(** The deadline of a WAIT with a timeout in milliseconds; 0 is none. *)
Definition wait_deadline (now timeout_ms : Z) : option Z :=
  if 0 <? timeout_ms then Some (now + timeout_ms * 1000000) else None.

Lemma deadline_ahead now timeout_ms :
  from_option (λ deadline, deadline <=? now) false (wait_deadline now timeout_ms) = false.
Proof. unfold wait_deadline. destruct (0 <? timeout_ms) eqn:E; simpl; lia. Qed.

(** With too few acknowledgements and time left, a poll arms a new timer. *)
Lemma first_poll_waits version fuel target numreplicas deadline k w :
  count_acked_at_least target (w_replicas w) < numreplicas →
  from_option (λ deadline, deadline <=? w_steady w) false deadline = false →
  wait_poll (run version fuel) target numreplicas deadline k w =
    (with_timers (<[w_next_timer w := mkTimer (Some (w_steady w + kWaitPollInterval))
       (WaitPoll target numreplicas deadline k) false]> (w_timers w)) (w_next_timer w + 1) w, Ok tt).
Proof.
  intros Hc Hd. unfold wait_poll. rewrite !bind_gets, Hd, orb_false_r.
  by rewrite (proj2 (Z.leb_gt _ _) Hc).
Qed.

(** C18. WAIT.  Let [target] be the master's offset when WAIT is executed.  If
    enough replicas have acknowledged it, WAIT answers with their number and
    changes nothing else.  Otherwise it sends REPLCONF GETACK to every replica
    and polls: whatever the replicas acknowledge meanwhile, and however late the
    polls are, it answers exactly once, at the first poll that finds enough
    replicas at [target] or the timeout over, with the number of replicas at
    [target] at that moment; if there is no such poll it does not answer. *)
Theorem wait_protocol (version : bytes) (fuel : nat) (h : Handler) (request : RespValue) (cmd : Command)
    (c : ConnId) (w : World) (a0 a1 : bytes) (numreplicas timeout_ms : Z) (envs : list Env)
    (Hclient : h_kind h = Client) (Hrepl : h_replicated h = true)
    (Hactive : is_active (tm_of (h_id h) w) = false)
    (Harray : type request = Array) (Hcmd : parse_command request = Ok cmd) (Hwait : cmd_type cmd = Wait)
    (Hargs : args cmd = [a0; a1]) (Hn : parse_nonnegative a0 = Some numreplicas)
    (Hms : parse_nonnegative a1 = Some timeout_ms)
    (Hfits : fits_i64 (timeout_ms * 1000000) && fits_i64 (w_steady w + timeout_ms * 1000000) = true)
    (Hfresh : timers_fresh w) (Hfuel : (1 ≤ fuel)%nat) (Hspaced : spaced (w_steady w) envs) :
  let target := master_offset (w_replicas w) in
  let acked := count_acked_at_least target (w_replicas w) in
  ∃ w1, handle version fuel h request (ReplyTo c) w = (w1, Ok tt) ∧
    if decide (numreplicas ≤ acked)
    then w1 = with_out (w_out w ++ [Response c (integer_reply acked)]) w
    else w_out w1 = w_out w ++ ((λ '(r, s), Propagated r s) <$> (request_getack (w_replicas w)).1) ∧
      ∃ w2, poll_in version fuel (w_next_timer w) envs w1 = (w2, Ok tt) ∧
        w_out w2 = w_out w1 ++
          wait_answer target numreplicas (wait_deadline (w_steady w) timeout_ms) c envs.
Proof.
  intros target acked. rewrite (handle_command _ _ _ _ _ _ _ Harray Hcmd).
  unfold dispatch. rewrite bind_gets, Hactive. rewrite !execute_table. unfold command_table. rewrite Hclient, Hwait.
  cbn [always_direct is_write_command]. rewrite andb_false_r. unfold execute_wait, arg. rewrite Hargs.
  cbn [length]. rewrite bool_decide_eq_true_2 by done. cbn [negb].
  rewrite (bind_Ok _ _ w w a0 eq_refl), (bind_Ok _ _ w w a1 eq_refl), Hn, Hms, Hrepl. cbn [negb].
  rewrite !bind_gets. fold target acked. destruct (decide (numreplicas ≤ acked)) as [Hle|Hgt].
  { rewrite (proj2 (Z.leb_le _ _) Hle). destruct fuel as [|f]; [lia|]. rewrite run_reply_to. by eexists. }
  rewrite (proj2 (Z.leb_gt _ _)) by lia. unfold request_getack_all. rewrite bind_modify.
  destruct (request_getack (w_replicas w)) as [posts r] eqn:Eg. cbn [fst].
  assert (count_acked_at_least target r = acked) as Hcount by (by injection Eg as _ <-).
  rewrite bind_gets. cbn [w_steady with_out with_replicas]. rewrite Hfits.
  rewrite (bind_Ok _ _ _ _ (wait_deadline (w_steady w) timeout_ms))
    by (unfold lift, wait_deadline; by destruct (0 <? timeout_ms)).
  rewrite first_poll_waits; [|cbn; lia|by apply deadline_ahead].
  eexists. split; [reflexivity|]. split; [done|]. eapply poll_answers; [done| |exact Hspaced].
  split_and!; [|cbn; lia|cbn; by rewrite lookup_insert_eq].
  intros i Hi. cbn in *. rewrite lookup_insert_ne by lia. apply Hfresh. lia.
Qed.

(** A replica has not yet acknowledged a SET; it does so before the second
    poll of WAIT 1 100. *)
Definition one_replica : World :=
  (send 1 [b "SET"; b "k"; b "v"] (with_replicas (add 9 empty_replicas).2 example_world)).1.

Definition ack_in_time : list Env :=
  [mkEnv 20000000 (w_replicas one_replica);
   mkEnv 45000000 (record_ack 0 (master_offset (w_replicas one_replica)) (w_replicas one_replica));
   mkEnv 70000000 (w_replicas one_replica)].

Lemma wait_protocol_witness :
  ∃ w1 w2, send 2 [b "WAIT"; b "1"; b "100"] one_replica = (w1, Ok tt) ∧
    poll_in (b "7.0.0") 20 (w_next_timer one_replica) ack_in_time w1 = (w2, Ok tt) ∧
    w_out w2 = w_out w1 ++ [Response 2 (integer_reply 1)].
Proof.
  assert (timers_fresh one_replica) as Hfresh
    by (intros i _; replace (w_timers one_replica) with (∅ : gmap N Timer) by (by vm_compute);
        apply lookup_empty).
  assert (spaced (w_steady one_replica) ack_in_time) as Hspaced
    by (replace (w_steady one_replica) with 0 by (by vm_compute);
        repeat split; cbn [env_time]; unfold kWaitPollInterval; lia).
  destruct (wait_protocol (b "7.0.0") 20 (example_handler 2) (example_request [b "WAIT"; b "1"; b "100"])
    (mkCommand Wait (b "WAIT") [b "1"; b "100"]) 2 one_replica (b "1") (b "100") 1 100 ack_in_time
    eq_refl eq_refl ltac:(by vm_compute) eq_refl ltac:(by vm_compute) eq_refl eq_refl
    ltac:(by vm_compute) ltac:(by vm_compute) ltac:(by vm_compute) Hfresh ltac:(lia) Hspaced)
    as (w1 & H1 & H2).
  rewrite decide_False in H2 by (intros H; vm_compute in H; by apply H).
  destruct H2 as (_ & w2 & H2 & H3). exists w1, w2. split_and!; [exact H1|exact H2|].
  rewrite H3. f_equal; by vm_compute.
Defined.
