(* ===== verification/Connection.v ===== *)
(** * Connections: the replication handshake and the choice of a handler

    Models the completion handler of [Connection::do_read] in
    src/net/Connection.cpp and the accept handler of src/net/Server.cpp.
    [connection_read] is what happens with the text that one
    [async_read_until] delivered (the code takes everything the buffer holds,
    up to the last byte received); what it posts to the store thread is
    returned as an [Action]. *)

From S2P Require Import Prelude CharConv Resp StoreValue Blocking WatchManager TransactionManager ReplicaRegistry Command ServerConfig World BasicCommands ListCommands StreamCommands TransactionCommands CommandRegistry Dispatch.

Inductive ConnectionMode := ModeUnknown | ModeClient | ModeReplication.
Inductive ReplicationHandshakeState := HNone | HPinged | HReplconf1 | HReplconf2.

#[export] Instance ConnectionMode_eq_dec : EqDecision ConnectionMode.
Proof. solve_decision. Defined.
#[export] Instance HandshakeState_eq_dec : EqDecision ReplicationHandshakeState.
Proof. solve_decision. Defined.

Record Connection := mkConn {
  conn_id : ConnId;
  mode_ : ConnectionMode;
  repl_state_ : ReplicationHandshakeState;
  replconf_count_ : Z;
  registered_as_replica_ : bool;
  replica_id_ : N;
}.

Definition new_connection (c : ConnId) : Connection := mkConn c ModeUnknown HNone 0 false 0.

(** The two handlers a connection owns; the server passes its registry. *)
Definition client_handler (conn : Connection) : Handler :=
  mkHandler (2 * conn_id conn + 1) Client true true.
Definition replication_handler (conn : Connection) : Handler :=
  mkHandler (2 * conn_id conn + 2) Replication true false.

(** What follows the handler: read again at once, read again once the reply is
    written, or run a command on the store thread. *)
Inductive Action :=
  | ReadOn
  | AwaitWrite
  | PostCommand (h : Handler) (command : RespValue).

Definition with_handshake (conn : Connection) (state : ReplicationHandshakeState) (count : Z)
    : Connection :=
  mkConn (conn_id conn) (mode_ conn) state count (registered_as_replica_ conn) (replica_id_ conn).
Definition with_mode (conn : Connection) (mode : ConnectionMode) : Connection :=
  mkConn (conn_id conn) mode (repl_state_ conn) (replconf_count_ conn)
    (registered_as_replica_ conn) (replica_id_ conn).

(** [replica_registry_->add(...)]. *)
Definition register_replica (conn : Connection) : M Connection :=
  if registered_as_replica_ conn then mret conn
  else λ w,
    let '(id, r) := add (conn_id conn) (w_replicas w) in
    (with_replicas r w,
     Ok (mkConn (conn_id conn) (mode_ conn) (repl_state_ conn) (replconf_count_ conn) true id)).

(** The block under [mode_ == ConnectionMode::Unknown]; an error text ends the
    handling of the request. *)
Definition handshake_step (conn : Connection) (t : CommandType) : M (Connection * option bytes) :=
  if negb (bool_decide (mode_ conn = ModeUnknown)) then mret (conn, None)
  else
    match t with
    | Ping => mret (with_handshake conn HPinged (replconf_count_ conn), None)
    | Replconf =>
        if bool_decide (repl_state_ conn = HNone) then
          mret (conn, Some (b "-ERR replication handshake not started" ++ CRLF))
        else
          let count := replconf_count_ conn + 1 in
          mret (with_handshake conn (if 2 <=? count then HReplconf2 else HReplconf1) count, None)
    | Psync =>
        if negb (bool_decide (repl_state_ conn = HReplconf2)) then
          mret (conn, Some (b "-ERR replication handshake not complete" ++ CRLF))
        else
          conn ← register_replica (with_mode conn ModeReplication);
          mret (conn, None)
    | _ => mret (with_mode conn ModeClient, None)
    end.

Definition respond (conn : Connection) (s : bytes) : M unit :=
  modify (λ w, with_out (w_out w ++ [Response (conn_id conn) s]) w).

(** [REPLCONF ACK <offset>] on a replication connection. *)
Definition is_ack (conn : Connection) (parsed : Command) : bool :=
  bool_decide (mode_ conn = ModeReplication) && bool_decide (cmd_type parsed = Replconf) &&
  match args parsed with a :: _ => bool_decide (lowercase a = b "ack") | [] => false end.

Definition handle_ack (conn : Connection) (parsed : Command) : M unit :=
  match args parsed with
  | _ :: offset_str :: _ =>
      match from_chars_llong offset_str with
      | FcOk offset _ =>
          modify (λ w, with_replicas (record_ack (replica_id_ conn) offset (w_replicas w)) w)
      | _ => mret tt
      end
  | _ => mret tt
  end.

Definition select_handler (conn : Connection) (t : CommandType) : Handler :=
  if bool_decide (mode_ conn = ModeReplication) ||
     (bool_decide (mode_ conn = ModeUnknown) && is_replication_command t)
  then replication_handler conn else client_handler conn.

(** A complete command, after [RespParser::parse]. *)
Definition connection_command (conn : Connection) (command : RespValue) : M (Connection * Action) :=
  if negb (bool_decide (type command = Array)) || bool_decide (length (elements command) = 0%nat)
  then
    respond conn (b "-ERR invalid command format" ++ CRLF);;
    mret (conn, AwaitWrite)
  else
    parsed ← lift (parse_command command);
    step ← handshake_step conn (cmd_type parsed);
    let '(conn, error) := step in
    match error with
    | Some error => respond conn error;; mret (conn, AwaitWrite)
    | None =>
        if is_ack conn parsed then handle_ack conn parsed;; mret (conn, ReadOn)
        else mret (conn, PostCommand (select_handler conn (cmd_type parsed)) command)
    end.

Definition connection_read (conn : Connection) (request : bytes) : M (Connection * Action) :=
  command_opt ← lift (parse request);
  match command_opt with
  | None =>
      respond conn (b "-ERR parse error" ++ CRLF);;
      mret (conn, ReadOn)
  | Some (command, _) => connection_command conn command
  end.

(** A read error or end of file: the replica is forgotten, the client counted
    off ([fetch_sub] on a [size_t]). *)
Definition connection_closed (conn : Connection) : M unit :=
  modify (λ w,
    let w := if registered_as_replica_ conn
             then with_replicas (remove (replica_id_ conn) (w_replicas w)) w else w in
    with_clients (to_u64 (w_clients w - 1)) w).

(** The transaction managers of a destroyed connection drop their watches. *)
Definition connection_destroyed (conn : Connection) : M unit :=
  on_tm (h_id (client_handler conn)) clear_watches;;
  on_tm (h_id (replication_handler conn)) clear_watches.

(** The accept handler: [fetch_add] after the connection was started. *)
Definition accept (c : ConnId) : M Connection :=
  modify (λ w, with_clients (to_u64 (w_clients w + 1)) w);;
  mret (new_connection c).

(** ** Traces of a connection

    The requests of one connection in order, with the rest of the server doing
    anything in between. *)

Inductive conn_trace (c : ConnId) : list RespValue → Connection → Prop :=
  | trace_new : conn_trace c [] (new_connection c)
  | trace_step requests conn request conn' action w w' :
      conn_trace c requests conn →
      connection_command conn request w = (w', Ok (conn', action)) →
      conn_trace c (requests ++ [request]) conn'.

(** The type of a request that names a command. *)
Definition request_type (request : RespValue) : list CommandType :=
  match type request, elements request with
  | Array, e :: _ => [parse_type (str e)]
  | _, _ => []
  end.

(** What the handshake fields say about the past requests. *)
Record handshake_inv (ts : list CommandType) (conn : Connection) : Prop := {
  inv_pinged : repl_state_ conn ≠ HNone → [Ping] `sublist_of` ts;
  inv_count : 0 ≤ replconf_count_ conn;
  inv_one : 1 ≤ replconf_count_ conn → [Ping; Replconf] `sublist_of` ts;
  inv_two : 2 ≤ replconf_count_ conn → [Ping; Replconf; Replconf] `sublist_of` ts;
  inv_state : repl_state_ conn = HReplconf2 → 2 ≤ replconf_count_ conn;
  inv_registered : registered_as_replica_ conn = true ↔ mode_ conn = ModeReplication;
  inv_replica : registered_as_replica_ conn = true → [Ping; Replconf; Replconf; Psync] `sublist_of` ts;
}.

Lemma handshake_inv_new c : handshake_inv [] (new_connection c).
Proof. by split; simpl; try lia. Qed.

Lemma handshake_inv_more ts t conn : handshake_inv ts conn → handshake_inv (ts ++ t) conn.
Proof.
  intros [H1 H2 H3 H4 H5 H6 H7].
  split; try done; intros; apply sublist_inserts_r; auto.
Qed.

Lemma sublist_snoc {A} (l k : list A) (x : A) : l `sublist_of` k → (l ++ [x]) `sublist_of` (k ++ [x]).
Proof. intros. by apply sublist_app. Qed.

Lemma handshake_inv_step ts conn t w w' conn' error :
  handshake_inv ts conn → handshake_step conn t w = (w', Ok (conn', error)) →
  handshake_inv (ts ++ [t]) conn'.
Proof.
  intros Hinv. pose proof (handshake_inv_more ts [t] conn Hinv) as Hmore. unfold handshake_step.
  destruct (bool_decide (mode_ conn = ModeUnknown)) eqn:Hm; [|by intros [= <- <- <-]]. bool_prop.
  cbn [negb]. assert (registered_as_replica_ conn = false) as Hreg.
  { destruct (registered_as_replica_ conn) eqn:E; [|done]. apply (inv_registered _ _ Hinv) in E. congruence. }
  assert (∀ m, m ≠ ModeReplication → handshake_inv (ts ++ [t]) (with_mode conn m)) as Hmode.
  { intros m Hne. destruct Hmore. split; simpl; try done. rewrite Hreg. by split. }
  pose proof Hinv as [H1 H2 H3 H4 H5 H6 H7]. pose proof Hmore as [G1 G2 G3 G4 G5 G6 G7].
  destruct t; try (intros [= <- <- <-]; by apply Hmode).
  - intros [= <- <- <-]. split; simpl; try done. intros _. by apply (sublist_snoc []), sublist_nil_l.
  - case_bool_decide as Hs; [by intros [= <- <- <-]|]. intros [= <- <- <-]. specialize (H1 Hs).
    split; simpl; try done; try lia.
    + intros _. by apply G1.
    + intros _. by apply (sublist_snoc [Ping]).
    + intros Hc. apply (sublist_snoc [Ping; Replconf]). apply H3. lia.
    + destruct (Z.leb_spec 2 (replconf_count_ conn + 1)); [done|discriminate].
  - case_bool_decide as Hs; [|by intros [= <- <- <-]]. cbn [negb].
    unfold register_replica, mbind, M_bind. cbn [registered_as_replica_ with_mode]. rewrite Hreg.
    intros [= <- <- <-]. split; simpl; try done. intros _.
    apply (sublist_snoc [Ping; Replconf; Replconf]). auto.
Qed.

Lemma handle_ack_ok conn parsed w : ∃ w', handle_ack conn parsed w = (w', Ok tt).
Proof. unfold handle_ack. repeat case_match; by eexists. Qed.

Lemma connection_command_inv ts conn request w w' conn' action :
  handshake_inv ts conn → connection_command conn request w = (w', Ok (conn', action)) →
  handshake_inv (ts ++ request_type request) conn'.
Proof.
  intros Hinv. unfold connection_command, request_type.
  destruct (bool_decide (type request = Array)) eqn:Ht; bool_prop; cbn [negb orb].
  2:{ intros [= _ <- _]. by apply handshake_inv_more. }
  rewrite Ht. unfold parse_command. destruct (elements request) as [|e es]; simpl.
  { intros [= _ <- _]. by apply handshake_inv_more. }
  unfold mbind, M_bind. cbn [lift].
  destruct (handshake_step conn _ w) as [w1 [[conn1 [error|]]| | |]] eqn:E; try done;
    apply (handshake_inv_step ts) in E; try done; cbn [cmd_type] in *.
  - intros [= _ <- _]. done.
  - destruct (is_ack _ _); [|by intros [= _ <- _]].
    destruct (handle_ack_ok conn1 (mkCommand (parse_type (str e)) (str e) (map str es)) w1) as [w2 ->].
    by intros [= _ <- _].
Qed.

Lemma trace_inv c requests conn :
  conn_trace c requests conn → handshake_inv (concat (request_type <$> requests)) conn.
Proof.
  induction 1 as [|requests conn request conn' action w w' _ IH Hstep]; [apply handshake_inv_new|].
  rewrite fmap_app, concat_app. cbn [fmap list_fmap concat]. rewrite app_nil_r.
  by eapply connection_command_inv.
Qed.

(** The well-formed requests of the handshake. *)
Definition of_type (t : CommandType) (request : RespValue) : Prop :=
  type request = Array ∧ ∃ cmd, parse_command request = Ok cmd ∧ cmd_type cmd = t.

Lemma read_step conn request t w w' conn' :
  of_type t request → handshake_step conn t w = (w', Ok (conn', None)) →
  (t = Replconf → mode_ conn' ≠ ModeReplication) →
  connection_command conn request w = (w', Ok (conn', PostCommand (select_handler conn' t) request)).
Proof.
  intros (Ht & cmd & Hp & <-) Hs Hack. unfold connection_command.
  rewrite bool_decide_eq_true_2 by done. cbn [negb orb]. rewrite bool_decide_eq_false_2.
  - rewrite Hp. unfold lift. rewrite (bind_Ok _ _ _ _ _ eq_refl), (bind_Ok _ _ _ _ _ Hs).
    assert (is_ack conn' cmd = false) as ->; [|done]. unfold is_ack.
    destruct (decide (cmd_type cmd = Replconf)) as [E|E].
    + by rewrite (bool_decide_eq_false_2 (mode_ conn' = ModeReplication)) by auto.
    + by rewrite (bool_decide_eq_false_2 (cmd_type cmd = Replconf)), andb_false_r by done.
  - unfold parse_command in Hp. destruct (elements request); [done|simpl; lia].
Qed.

(** ** Properties *)

(** C31. The handshake is required.  A connection is registered as a replica (and
    gets propagated writes) only after PING, two REPLCONFs and PSYNC in this
    order, possibly with other handshake commands in between; being registered
    is the same as being in replication mode. *)
Theorem handshake_required (c : ConnId) (requests : list RespValue) (conn : Connection)
    (Htrace : conn_trace c requests conn) (Hreg : registered_as_replica_ conn = true) :
  mode_ conn = ModeReplication ∧
  [Ping; Replconf; Replconf; Psync] `sublist_of` concat (request_type <$> requests).
Proof.
  pose proof (trace_inv c requests conn Htrace) as Hinv. split.
  - by apply (inv_registered _ _ Hinv).
  - by apply (inv_replica _ _ Hinv).
Qed.

(** A client stays a client.  The first command that is not PING, REPLCONF or
    PSYNC makes a connection a client for good: from then on no request changes
    the connection or the replica registry, and every command, the replication
    commands included, goes to the client handler. *)
Theorem client_mode_final (conn : Connection) (request : RespValue) (w w' : World)
    (conn' : Connection) (action : Action) (Hmode : mode_ conn = ModeClient)
    (Hstep : connection_command conn request w = (w', Ok (conn', action))) :
  conn' = conn ∧ w_replicas w' = w_replicas w ∧ w_store w' = w_store w ∧
  (action = AwaitWrite ∨ action = PostCommand (client_handler conn) request).
Proof.
  unfold connection_command in Hstep.
  destruct (_ || _); [injection Hstep as <- <- <-; by split_and!; [..|left]|].
  unfold mbind, M_bind, lift in Hstep. destruct (parse_command request) as [cmd| | |]; try done.
  unfold handshake_step in Hstep. rewrite Hmode in Hstep. simpl in Hstep.
  unfold is_ack, select_handler in Hstep. rewrite Hmode in Hstep. simpl in Hstep.
  injection Hstep as <- <- <-. by split_and!; [..|right].
Qed.

(** The handshake succeeds.  On a new connection, PING, REPLCONF, REPLCONF and
    PSYNC (with any arguments) reach the command handlers in
    turn, PING the client handler and the others the replication handler, and
    the PSYNC registers the connection: it is a new replica with acknowledged
    offset 0, the master's offset is unchanged. *)
Theorem handshake_registers (c : ConnId) (ping replconf1 replconf2 psync : RespValue) (w : World)
    (Hping : of_type Ping ping) (H1 : of_type Replconf replconf1) (H2 : of_type Replconf replconf2)
    (Hpsync : of_type Psync psync) :
  let read conn request := connection_command conn request in
  ∃ conn w',
    (s1 ← read (new_connection c) ping; s2 ← read s1.1 replconf1; s3 ← read s2.1 replconf2;
     s4 ← read s3.1 psync; mret (s4.1, [s1.2; s2.2; s3.2; s4.2])) w =
    (w', Ok (conn, [PostCommand (client_handler conn) ping; PostCommand (replication_handler conn) replconf1;
                    PostCommand (replication_handler conn) replconf2;
                    PostCommand (replication_handler conn) psync])) ∧
    conn_id conn = c ∧ registered_as_replica_ conn = true ∧
    replicas_ (w_replicas w') = <[replica_id_ conn := mkReplica c 0]> (replicas_ (w_replicas w)) ∧
    master_offset (w_replicas w') = master_offset (w_replicas w) ∧ w_out w' = w_out w.
Proof.
  intros read. unfold read.
  rewrite (bind_Ok _ _ _ _ _ (read_step (new_connection c) ping Ping w w
    (mkConn c ModeUnknown HPinged 0 false 0) Hping eq_refl ltac:(done))). cbn [fst].
  rewrite (bind_Ok _ _ _ _ _ (read_step (mkConn c ModeUnknown HPinged 0 false 0) replconf1 Replconf w w
    (mkConn c ModeUnknown HReplconf1 1 false 0) H1 eq_refl ltac:(done))). cbn [fst].
  rewrite (bind_Ok _ _ _ _ _ (read_step (mkConn c ModeUnknown HReplconf1 1 false 0) replconf2 Replconf w w
    (mkConn c ModeUnknown HReplconf2 2 false 0) H2 eq_refl ltac:(done))). cbn [fst].
  rewrite (bind_Ok _ _ _ _ _ (read_step (mkConn c ModeUnknown HReplconf2 2 false 0) psync Psync w
    (with_replicas (add c (w_replicas w)).2 w)
    (mkConn c ModeReplication HReplconf2 2 true (replica_next_ (w_replicas w)))
    Hpsync eq_refl ltac:(done))).
  exists (mkConn c ModeReplication HReplconf2 2 true (replica_next_ (w_replicas w))).
  eexists. split; [reflexivity|]. done.
Qed.

Definition handshake_requests : list RespValue :=
  map (λ l, mkResp Array [] (bulk_value <$> l))
    [[b "PING"]; [b "REPLCONF"; b "listening-port"; b "6380"]; [b "replconf"; b "capa"; b "psync2"];
     [b "PSYNC"; b "?"; b "-1"]].

Lemma handshake_registers_witness :
  ∃ conn w',
    (s1 ← connection_command (new_connection 5) (nth 0 handshake_requests getack_command);
     s2 ← connection_command s1.1 (nth 1 handshake_requests getack_command);
     s3 ← connection_command s2.1 (nth 2 handshake_requests getack_command);
     s4 ← connection_command s3.1 (nth 3 handshake_requests getack_command);
     mret (s4.1, [s1.2; s2.2; s3.2; s4.2])) (initial_world (master_config []) 0 0) =
    (w', Ok (conn, [PostCommand (client_handler conn) (nth 0 handshake_requests getack_command);
                    PostCommand (replication_handler conn) (nth 1 handshake_requests getack_command);
                    PostCommand (replication_handler conn) (nth 2 handshake_requests getack_command);
                    PostCommand (replication_handler conn) (nth 3 handshake_requests getack_command)])) ∧
    conn_id conn = 5%N ∧ registered_as_replica_ conn = true ∧
    replicas_ (w_replicas w') = <[replica_id_ conn := mkReplica 5 0]> ∅ ∧
    master_offset (w_replicas w') = 0 ∧ w_out w' = [].
Proof.
  apply (handshake_registers 5 (nth 0 handshake_requests getack_command)
    (nth 1 handshake_requests getack_command) (nth 2 handshake_requests getack_command)
    (nth 3 handshake_requests getack_command) (initial_world (master_config []) 0 0));
    (split; [reflexivity|eexists; split; reflexivity]).
Defined.

Lemma example_trace : conn_trace 5 handshake_requests
  (mkConn 5 ModeReplication HReplconf2 2 true 0).
Proof.
  assert (∀ pre request conn conn' action,
    conn_trace 5 pre conn →
    (connection_command conn request (initial_world (master_config []) 0 0)).2 = Ok (conn', action) →
    conn_trace 5 (pre ++ [request]) conn') as Hstep.
  { intros pre request conn conn' action Htr E.
    destruct (connection_command conn request _) as [w' o] eqn:Ec. simpl in E. subst o.
    by eapply trace_step. }
  assert (∀ n conn action conn' , conn_trace 5 (take n handshake_requests) conn →
    (connection_command conn (nth n handshake_requests getack_command)
       (initial_world (master_config []) 0 0)).2 = Ok (conn', action) →
    take n handshake_requests ++ [nth n handshake_requests getack_command] =
      take (S n) handshake_requests → conn_trace 5 (take (S n) handshake_requests) conn') as Hnth.
  { intros n conn action conn' Htr E <-. by eapply Hstep. }
  pose proof (Hnth 0%nat (new_connection 5) _ (mkConn 5 ModeUnknown HPinged 0 false 0)
    (trace_new 5) eq_refl eq_refl) as T1.
  pose proof (Hnth 1%nat _ _ (mkConn 5 ModeUnknown HReplconf1 1 false 0) T1 eq_refl eq_refl) as T2.
  pose proof (Hnth 2%nat _ _ (mkConn 5 ModeUnknown HReplconf2 2 false 0) T2 eq_refl eq_refl) as T3.
  exact (Hnth 3%nat _ _ _ T3 eq_refl eq_refl).
Qed.

Lemma handshake_required_witness :
  [Ping; Replconf; Replconf; Psync] `sublist_of` concat (request_type <$> handshake_requests).
Proof. exact (proj2 (handshake_required 5 handshake_requests _ example_trace eq_refl)). Defined.

Lemma client_mode_final_witness :
  let conn := with_mode (new_connection 5) ModeClient in
  let r := connection_command conn (nth 3 handshake_requests getack_command)
             (initial_world (master_config []) 0 0) in
  w_replicas r.1 = empty_replicas.
Proof.
  intros conn r.
  exact (proj1 (proj2 (client_mode_final conn (nth 3 handshake_requests getack_command)
    (initial_world (master_config []) 0 0) r.1 conn
    (PostCommand (client_handler conn) (nth 3 handshake_requests getack_command)) eq_refl eq_refl))).
Defined.

Lemma handle_ack_records conn parsed w :
  ∃ w', handle_ack conn parsed w = (w', Ok tt) ∧
    (w' = w ∨ ∃ offset, w' = with_replicas (record_ack (replica_id_ conn) offset (w_replicas w)) w).
Proof. unfold handle_ack. repeat case_match; eexists; split; (reflexivity || eauto). Qed.

(** C32. A replica's link is read-only.  A connection that has completed the
    replication handshake stays in replication mode whatever it sends.  Bytes that
    are no command get one error reply; REPLCONF ACK gets no reply and at most
    records the acknowledged offset of this replica in the replica registry; every
    other command is posted, without a change to any state, and when the store
    thread runs it, in whatever state (in which the connection's replication
    handler has no transaction open), it gives one reply and changes nothing: not
    the data, the blocked clients, the watches, the transactions or the replica
    registry.  The only exception is that of a negative array length, which leaves
    the state alone too. *)
Theorem replica_link_readonly (version : bytes) (fuel : nat) (conn : Connection) (text : bytes) (w : World)
    (Hmode : mode_ conn = ModeReplication) (Hfuel : (1 ≤ fuel)%nat) :
  let reply s v := with_out (w_out v ++ [Response (conn_id conn) s]) v in
  match connection_read conn text w with
  | (w', Ok (conn', action)) =>
      conn' = conn ∧
      match action with
      | PostCommand h command =>
          w' = w ∧ ∀ v, is_active (tm_of (h_id h) v) = false →
            ∃ s, handle version fuel h command (ReplyTo (conn_id conn)) v = (reply s v, Ok tt)
      | AwaitWrite => w' = reply (b "-ERR invalid command format" ++ CRLF) w
      | ReadOn =>
          (parse text = Ok None ∧ w' = reply (b "-ERR parse error" ++ CRLF) w) ∨
          ∃ command n parsed, parse text = Ok (Some (command, n)) ∧ parse_command command = Ok parsed ∧
            is_ack conn parsed = true ∧
            (w' = w ∨ ∃ offset, w' = with_replicas (record_ack (replica_id_ conn) offset (w_replicas w)) w)
      end
  | (w', Throw e) => w' = w ∧ e = LengthError (b "vector::reserve")
  | _ => False
  end.
Proof.
  intros reply. pose proof (parse_answers text) as Hparse.
  unfold connection_read, mbind at 1, M_bind at 1, lift at 1.
  destruct (parse text) as [[[command n]|]| | |]; [|by split; [|left]|done..].
  unfold connection_command. case_bool_decide; [cbn [negb orb]|done].
  destruct (elements command) as [|e es] eqn:Ee; [done|]. rewrite bool_decide_eq_false_2 by done.
  assert (∃ parsed, parse_command command = Ok parsed) as [parsed Hp]
    by (unfold parse_command; rewrite Ee; by eexists).
  unfold mbind at 1, M_bind at 1, lift at 1. rewrite Hp.
  rewrite (bind_Ok (handshake_step conn (cmd_type parsed)) _ w w (conn, None))
    by (unfold handshake_step; by rewrite Hmode).
  destruct (is_ack conn parsed) eqn:Hack.
  - destruct (handle_ack_records conn parsed w) as (w1 & E & Hw1). rewrite (bind_Ok _ _ _ _ _ E).
    split; [done|]. right. exists command, n, parsed. done.
  - simpl. split_and!; [done..|]. unfold select_handler. rewrite Hmode. simpl. intros v Hidle.
    by apply replication_replies.
Qed.

(** A replica that sends SET is told that it knows no such command. *)
Lemma replica_link_readonly_witness :
  ∃ s, handle (b "7.0.0") 1 (replication_handler (with_mode (new_connection 5) ModeReplication))
    (example_request [b "SET"; b "k"; b "v"]) (ReplyTo 5) example_world =
    (with_out [Response 5 s] example_world, Ok tt).
Proof.
  exact (proj2 (proj2 (replica_link_readonly (b "7.0.0") 1 (with_mode (new_connection 5) ModeReplication)
    (serialize (example_request [b "SET"; b "k"; b "v"])) example_world eq_refl ltac:(lia)))
    example_world eq_refl).
Defined.

(** C40. One command per read.  The connection takes everything its buffer holds
    for one command.  When a read delivers a complete command and more (clients
    may pipeline), the rest is dropped; when it delivers a strict prefix of a
    command (the network may split it), the client gets a parse error, nothing
    is executed, and the bytes are dropped as well. *)
Theorem one_command_per_read (conn : Connection) (command : RespValue) (w : World)
    (Hwf : wf_resp command = true) :
  (∀ rest, connection_read conn (serialize command ++ rest) w = connection_command conn command w) ∧
  (∀ part missing, serialize command = part ++ missing → missing ≠ [] →
     connection_read conn part w =
       (with_out (w_out w ++ [Response (conn_id conn) (b "-ERR parse error" ++ CRLF)]) w,
        Ok (conn, ReadOn))).
Proof.
  unfold connection_read. split.
  - intros rest. rewrite parse_serialize_app by done. by erewrite bind_Ok by reflexivity.
  - intros part missing Hsplit Hmissing. by rewrite (parse_strict_prefix command part missing).
Qed.

Lemma one_command_per_read_witness :
  connection_read (new_connection 1)
    (serialize (example_request [b "PING"]) ++ serialize (example_request [b "SET"; b "k"; b "v"])) example_world =
  connection_command (new_connection 1) (example_request [b "PING"]) example_world ∧
  connection_read (new_connection 1) (array_header 1) example_world =
    (with_out [Response 1 (b "-ERR parse error" ++ CRLF)] example_world, Ok (new_connection 1, ReadOn)).
Proof.
  destruct (one_command_per_read (new_connection 1) (example_request [b "PING"]) example_world eq_refl)
    as [Hrest Hpart].
  split; [exact (Hrest (serialize (example_request [b "SET"; b "k"; b "v"])))|].
  exact (Hpart (array_header 1) (bulk (b "PING")) eq_refl ltac:(discriminate)).
Defined.

(** A write between the registration of a replica and its PSYNC is sent to the
    replica before the FULLRESYNC reply, and is also counted in the offset that
    reply announces. *)
Theorem write_before_fullresync :
  let psync := example_request [b "PSYNC"; b "?"; b "-1"] in
  let set := example_request [b "SET"; b "k"; b "v"] in
  let read conn request := connection_command conn request ≫= λ s, mret s.1 in
  let w := (conn ← read (new_connection 5) (example_request [b "PING"]);
            conn ← read conn (example_request [b "REPLCONF"; b "listening-port"; b "6380"]);
            conn ← read conn (example_request [b "REPLCONF"; b "capa"; b "psync2"]);
            conn ← read conn psync;
            handle (b "7.0.0") 20 (example_handler 1) set (ReplyTo 1);;
            handle (b "7.0.0") 20 (replication_handler conn) psync (ReplyTo 5)) example_world in
  w_out w.1 = [Response 1 ok_reply; Propagated 5 (serialize set);
               Response 5 (fullresync_reply (w_config example_world) (zlen (serialize set)))].
Proof. vm_compute. done. Qed.
