(* ===== verification/Server.v ===== *)
(** * The whole server: events and invariant

    The events of a running server (requests on the store thread, timers,
    reads and closes of connections, new connections, the clock) as a step
    relation on [World], the invariant of all reachable states, and examples
    of how commands and events affect each other. *)

From S2P Require Import Prelude CharConv Resp StoreValue StringStore ListStore StreamStore Store Blocking WatchManager TransactionManager ReplicaRegistry Command ServerConfig World BasicCommands ListCommands StreamCommands TransactionCommands CommandRegistry Dispatch Invariants Transactions BlockedClients Connection.

(** Any handler, request, callback and depth of calls; an exception ends the
    process, and the state at the throw is a state like any other. *)
Inductive server_step (version : bytes) : World → World → Prop :=
  | step_handle fuel h request k w :
      server_step version w (handle version fuel h request k w).1
  | step_timer_expires t w : server_step version w (timer_expires t w).1
  | step_timer_completes fuel t w : server_step version w (timer_completes version fuel t w).1
  | step_connection_read conn request w : server_step version w (connection_read conn request w).1
  | step_connection_closed conn w : server_step version w (connection_closed conn w).1
  | step_connection_destroyed conn w : server_step version w (connection_destroyed conn w).1
  | step_accept c w : server_step version w (accept c w).1
  | step_clock steady system w :
      w_steady w ≤ steady → server_step version w (with_clocks steady system w).

(** ** Connections keep the invariant *)

Lemma preserves_respond conn s : preserves (respond conn s).
Proof. preserves_frame. Qed.

Lemma preserves_register_replica conn : preserves (register_replica conn).
Proof.
  unfold register_replica. destruct (registered_as_replica_ conn); [apply preserves_ret|].
  intros w [(subs & ? & ?) ? ? ? ?]. split; try done. by exists subs.
Qed.

Lemma preserves_handshake conn t : preserves (handshake_step conn t).
Proof.
  unfold handshake_step. destruct (negb _); [apply preserves_ret|].
  pose proof (preserves_register_replica (with_mode conn ModeReplication)).
  destruct t; preserve.
Qed.

Lemma preserves_handle_ack conn parsed : preserves (handle_ack conn parsed).
Proof. unfold handle_ack. repeat case_match; try apply preserves_ret. preserves_frame. Qed.

Lemma preserves_accept c : preserves (accept c).
Proof. unfold accept. preserve. preserves_frame. Qed.

Lemma preserves_closed conn : preserves (connection_closed conn).
Proof. preserves_frame. Qed.

Lemma preserves_destroyed conn : preserves (connection_destroyed conn).
Proof. unfold connection_destroyed. preserve. Qed.

#[export] Hint Resolve preserves_respond preserves_handshake preserves_handle_ack preserves_accept
  preserves_closed preserves_destroyed : preserves.

Lemma preserves_connection_read conn request : preserves (connection_read conn request).
Proof. unfold connection_read, connection_command. preserve. Qed.

#[export] Hint Resolve preserves_connection_read : preserves.

Lemma server_step_ok version w w' : server_step version w w' → server_ok w → server_ok w'.
Proof.
  intros Hstep Hw.
  destruct Hstep as [fuel h request k w|t w|fuel t w|conn request w|conn w|conn w|c w|steady system w _];
    try (match goal with |- server_ok (?m w).1 => assert (preserves m) as H by auto with preserves end;
         by apply H).
  destruct Hw as [(subs & ? & ?) ? ? ? ?]. split; try done. by exists subs.
Qed.

(** ** Properties *)

(** C9. The invariant of the server.  In every state reachable by any
    interleaving of requests of any clients, timers, connection events and the
    passing of time, also in the states in which an exception escapes: the
    watch manager holds exactly the watches of all transaction managers, the
    BLPOP and XREAD registries are queues of distinct clients, each in the
    queues of exactly its keys, no empty list is stored, and every running
    EXEC has one result slot per command. *)
Theorem server_invariant (version : bytes) (config : ServerConfig) (steady system : Z) (w : World)
    (Hreach : rtc (server_step version) (initial_world config steady system) w) : server_ok w.
Proof.
  assert (server_ok (initial_world config steady system)) as Hok by apply server_ok_initial.
  induction Hreach as [|w1 w2 w3 Hstep _ IH]; [done|]. apply IH. by eapply server_step_ok.
Qed.

Lemma server_invariant_witness : server_ok (send 1 [b "RPUSH"; b "l"; b "x"] example_world).1.
Proof.
  apply (server_invariant (b "7.0.0") (master_config (replicate 40 7%nat)) 0 1000).
  apply rtc_once, step_handle.
Defined.

(** ** Behaviour at the edges, on concrete histories *)

(** The replies of connection [c]. *)
Definition replies_to (c : ConnId) (w : World) : list bytes :=
  omap (λ o, match o with Response c' s => if decide (c' = c) then Some s else None | _ => None end) (w_out w).

(** A replica on connection 9, registered by the handshake of Connection.v. *)
Definition with_replica : World := with_replicas (add 9 empty_replicas).2 example_world.

(** A refused SET is propagated: the client gets an error, the replica gets
    the command. *)
Theorem refused_set_propagated :
  let request := example_request [b "SET"; b "k"; b "v"; b "PX"; b "0"] in
  let w := (handle (b "7.0.0") 20 (example_handler 1) request (ReplyTo 1) with_replica).1 in
  w_out w = [Response 1 (b "-ERR invalid expire time in 'SET' command" ++ CRLF);
             Propagated 9 (serialize request)] ∧ w_store w = ∅.
Proof. vm_compute. done. Qed.

(** An element taken by BLPOP is not announced to watchers: EXEC runs although
    the watched list changed. *)
Theorem blpop_pop_unnoticed :
  let before := (send 2 [b "RPUSH"; b "l"; b "x"; b "y"];; send 1 [b "WATCH"; b "l"];; send 1 [b "MULTI"];;
                 send 1 [b "LLEN"; b "l"]) example_world in
  let after := (send 2 [b "BLPOP"; b "l"; b "0"];; send 1 [b "EXEC"]) before.1 in
  list_at (b "l") (w_store before.1) = [b "x"; b "y"] ∧ list_at (b "l") (w_store after.1) = [b "y"] ∧
  last (replies_to 1 after.1) = Some (b "*1" ++ CRLF ++ b ":1" ++ CRLF).
Proof. vm_compute. done. Qed.

(** UNWATCH forgets the watched keys but not the dirty mark: the next
    transaction of the connection is aborted. *)
Theorem unwatch_keeps_dirty :
  let w := (send 1 [b "WATCH"; b "k"];; send 2 [b "SET"; b "k"; b "v"];; send 1 [b "UNWATCH"];;
            send 1 [b "MULTI"];; send 1 [b "PING"];; send 1 [b "EXEC"]) example_world in
  last (replies_to 1 w.1) = Some null_array ∧ watched_keys_ (tm_of 1 w.1) = ∅.
Proof. vm_compute. done. Qed.

(** A blocking XREAD that names a stream twice is answered twice. *)
Theorem xread_duplicate_answered_twice :
  let w := (send 1 [b "XREAD"; b "BLOCK"; b "0"; b "STREAMS"; b "s"; b "s"; b "0-0"; b "0-0"];;
            send 2 [b "XADD"; b "s"; b "1-1"; b "f"; b "v"]) example_world in
  length (replies_to 1 w.1) = 2%nat ∧ w.2 = Ok tt.
Proof. vm_compute. done. Qed.

(** A BLPOP whose timer has fired, but whose handler has not run yet, can still
    be served by a push: the client gets the element and then the timeout's
    null array. *)
Theorem blpop_served_after_timeout :
  let w := (send 1 [b "BLPOP"; b "l"; b "0.1"];; modify (with_clocks 200000000 1000);; timer_expires 0;;
            send 2 [b "RPUSH"; b "l"; b "x"];; timer_completes (b "7.0.0") 20 0) example_world in
  replies_to 1 w.1 = [key_value_reply (b "l") (b "x"); null_array].
Proof. vm_compute. done. Qed.

(** The WRONGTYPE reply of GET has no line terminator: a client waits for the
    rest of the line. *)
Theorem wrongtype_unterminated :
  let w := (send 2 [b "RPUSH"; b "l"; b "x"];; send 1 [b "GET"; b "l"]) example_world in
  replies_to 1 w.1 = [wrong_type] ∧ find_crlf wrong_type = None.
Proof. vm_compute. done. Qed.
