(* ===== verification/Termination.v ===== *)
(** * Every command returns

    [run] interprets callbacks with a bound on the depth of the calls.  The
    code has no such bound, so it matters that one always suffices: a reply can
    resume a transaction, whose next command can serve a blocked client, whose
    reply can resume another transaction, and so on.  [pot] is the amount of
    work that can still be resumed in this way; with a call depth that is
    linear in it no command runs out of fuel ([run_within]), and more fuel does
    not change the result ([run_approx]). *)

From S2P Require Import Prelude CharConv Resp StreamId StoreValue StringStore ListStore StreamStore Store Blocking WatchManager TransactionManager ReplicaRegistry Command ServerConfig World BasicCommands ListCommands StreamCommands TransactionCommands CommandRegistry Dispatch Invariants.

(** ** What can still be resumed *)

(** Results that EXEC has still to store. *)
Definition missing_results (c : ExecContext) : nat := length (exec_results c) - exec_index c.

Definition queue_length (tm : TransactionManager) : nat := length (queued_commands_ tm).

(** A stored result frees two units, one of which a BLPOP may use to block
    again; a queued command is worth more than a command of a running EXEC. *)
Definition pot (w : World) : nat :=
  2 * map_sum missing_results (w_execs w) + 3 * map_sum queue_length (w_tms w) +
  size (id_to_keys_ (w_blpop w)).

(** The callbacks that wait are at most [D] deep. *)
Record calls_ok (D : nat) (w : World) : Prop := {
  calls_blpop : ∃ ws, registry_refines (w_blpop w) ws ∧
    Forall (λ x, reply_depth (blpop_reply (w_callback x)) ≤ D)%nat ws;
  calls_xread : ∃ ws, registry_refines (w_xread w) ws ∧
    Forall (λ x, reply_depth (xread_reply (w_callback x)) ≤ D)%nat ws;
  calls_execs : map_Forall (λ _ c, reply_depth (exec_on_reply c) ≤ D)%nat (w_execs w);
}.

(** Started with less than [p] units, [m] keeps the callbacks in bounds, adds
    at most [d] units and does not run out of fuel. *)
Definition within {A} (D p d : nat) (m : M A) : Prop := ∀ w,
  calls_ok D w → (pot w < p)%nat →
  calls_ok D (m w).1 ∧ (pot (m w).1 ≤ pot w + d)%nat ∧ (m w).2 ≠ NoFuel.

Create HintDb within.

Section within.
Context (D p : nat).

Lemma within_pure {A} (m : M A) d :
  (∀ w, (m w).1 = w ∧ (m w).2 ≠ NoFuel) → within D p d m.
Proof. intros Hm w Hw Hp. destruct (Hm w) as [-> ?]. split_and!; [done|lia|done]. Qed.

Lemma within_ret {A} (a : A) d : within D p d (mret a).
Proof. by apply within_pure. Qed.

Lemma within_gets {A} (f : World → A) d : within D p d (gets f).
Proof. by apply within_pure. Qed.

Lemma within_lift {A} (o : outcome A) d : o ≠ NoFuel → within D p d (lift o).
Proof. intros Ho. by apply within_pure. Qed.

Lemma within_weaken {A} (m : M A) d d' : within D p d m → (d ≤ d')%nat → within D p d' m.
Proof. intros Hm Hd w Hw Hp. destruct (Hm w Hw Hp) as (? & ? & ?). split_and!; [done|lia|done]. Qed.

Lemma within_bind {A B} (m : M A) (f : A → M B) d :
  within D p 0 m → (∀ a, within D p d (f a)) → within D p d (m ≫= f).
Proof.
  intros Hm Hf w Hw Hp. unfold mbind, M_bind. destruct (Hm w Hw Hp) as (Hw' & Hp' & Hn).
  destruct (m w) as [w' [a| | |]]; simpl in *; try (split_and!; (done || lia)).
  destruct (Hf a w' Hw') as (? & ? & ?); [lia|]. split_and!; [done|lia|done].
Qed.

Lemma within_try {A} (m : M A) (handler : exn → M A) d :
  within D p 0 m → (∀ e, within D p d (handler e)) → within D p d (try_catch m handler).
Proof.
  intros Hm Hh w Hw Hp. unfold try_catch. destruct (Hm w Hw Hp) as (Hw' & Hp' & Hn).
  destruct (m w) as [w' [a|e| |]]; simpl in *; try (split_and!; (done || lia)).
  destruct (Hh e w' Hw') as (? & ? & ?); [lia|]. split_and!; [done|lia|done].
Qed.

Lemma within_if {A} (c : bool) (m m' : M A) d :
  within D p d m → within D p d m' → within D p d (if c then m else m').
Proof. by destruct c. Qed.

(** ** Operations on the state *)

(** An update that leaves alone what [pot] and [calls_ok] look at. *)
Lemma within_frame (f : World → World) d :
  (∀ w, w_blpop (f w) = w_blpop w ∧ w_xread (f w) = w_xread w ∧ w_tms (f w) = w_tms w ∧
        w_execs (f w) = w_execs w) → within D p d (modify f).
Proof.
  intros Hf w [H1 H2 H3] Hp. destruct (Hf w) as (E1 & E2 & E3 & E4). simpl.
  unfold pot. rewrite E1, E3, E4. split_and!; [|lia|done]. by split; rewrite ?E1, ?E2, ?E4.
Qed.

Lemma within_on_store {A} (f : Data → A * Data) d : within D p d (on_store f).
Proof.
  intros w [H1 H2 H3] Hp. unfold on_store. destruct (f (w_store w)) as [a s].
  split_and!; [by split|unfold pot; simpl; lia|done].
Qed.

Lemma within_on_store_outcome {A} (f : Data → Data * outcome A) d :
  (∀ s, (f s).2 ≠ NoFuel) → within D p d (on_store_outcome f).
Proof.
  intros Hf w [H1 H2 H3] Hp. unfold on_store_outcome. specialize (Hf (w_store w)).
  destruct (f (w_store w)) as [s r]. split_and!; [by split|unfold pot; simpl; lia|done].
Qed.

Lemma pot_set_tm h tm w :
  (pot (set_tm h tm w) + 3 * queue_length (tm_of h w) = pot w + 3 * queue_length tm)%nat.
Proof.
  unfold pot, set_tm. simpl. rewrite map_sum_insert, (map_sum_delete _ h (w_tms w)).
  unfold tm_of. destruct (w_tms w !! h); simpl; lia.
Qed.

(** No command but the dispatcher itself adds to the queue. *)
Lemma within_on_tm h f d :
  (∀ tm wm, queue_length (f tm wm).1 ≤ queue_length tm)%nat → within D p d (on_tm h f).
Proof.
  intros Hf w [H1 H2 H3] Hp. unfold on_tm, modify. specialize (Hf (tm_of h w) (w_watch w)).
  destruct (f (tm_of h w) (w_watch w)) as [tm wm]. split_and!; [by split| |done].
  pose proof (pot_set_tm h tm w). unfold pot, set_tm in *. simpl in *. lia.
Qed.

Lemma within_notify key d : within D p d (notify key).
Proof.
  intros w Hw Hp. unfold notify, modify. simpl. generalize (notify_write key (w_watch w)). intros l.
  revert w Hw Hp. induction l as [|h l IH]; intros w Hw Hp; [cbn [fold_left]; split_and!; (done || lia)|].
  cbn [fold_left]. pose proof (pot_set_tm h (mark_dirty (tm_of h w)) w) as E.
  change (queue_length (mark_dirty _)) with (queue_length (tm_of h w)) in E.
  destruct (IH (mark_dirty_of w h)) as (? & ? & ?); [|unfold mark_dirty_of; lia|].
  - destruct Hw. by split.
  - split_and!; [done|unfold mark_dirty_of in *; lia|done].
Qed.

(** *** Blocked clients *)

Lemma unregister_size {C} (i : N) (r : BlockingRegistry C) :
  (size (id_to_keys_ (unregister i r)) + from_option (λ _, 1) 0 (id_to_keys_ r !! i) =
   size (id_to_keys_ r))%nat.
Proof.
  unfold unregister. destruct (id_to_keys_ r !! i) as [keys|] eqn:E; simpl; [|lia].
  rewrite map_size_delete, E. simpl. assert (size (id_to_keys_ r) ≠ 0%nat); [|lia].
  intros H0%map_size_empty_inv. by rewrite H0, lookup_empty in E.
Qed.

Lemma pot_unregister i w :
  (pot (with_blpop (unregister i (w_blpop w)) w) + from_option (λ _, 1) 0 (id_to_keys_ (w_blpop w) !! i) =
   pot w)%nat.
Proof. unfold pot. simpl. pose proof (unregister_size i (w_blpop w)). lia. Qed.

Lemma calls_unregister_blpop i w :
  calls_ok D w → calls_ok D (with_blpop (unregister i (w_blpop w)) w).
Proof.
  intros [(ws & Hr & Hws) H2 H3]. split; try done. eexists.
  split; [by apply unregister_refines|]. by apply Forall_filter_keep.
Qed.

Lemma within_unregister_blpop i d : within D p d (unregister_blpop i).
Proof.
  intros w Hw Hp. pose proof (pot_unregister i w). split_and!; [|simpl; lia|done].
  by apply calls_unregister_blpop.
Qed.

Lemma within_unregister_xread i d : within D p d (unregister_xread i).
Proof.
  intros w [H1 (ws & Hr & Hws) H3] Hp. split_and!; [|unfold pot; simpl; lia|done]. split; try done.
  eexists. split; [by apply unregister_refines|]. by apply Forall_filter_keep.
Qed.

Lemma within_register_xread keys c d :
  (reply_depth (xread_reply c) ≤ D)%nat → within D p d (register_xread keys c).
Proof.
  intros Hc w [H1 (ws & Hr & Hws) H3] Hp. unfold register_xread.
  pose proof (register_refines _ ws keys c Hr) as H.
  destruct (register_callbacks keys c (w_xread w)) as [id r]. destruct H as [H _].
  split_and!; [|unfold pot; simpl; lia|done]. split; try done. eexists. split; [done|].
  apply Forall_app. split; [done|]. by repeat constructor.
Qed.

(** Blocking takes one unit, and nothing follows it in BLPOP that calls. *)
Lemma within_register_blpop keys c t :
  (reply_depth (blpop_reply c) ≤ D)%nat →
  within D p 1 (id ← register_blpop keys c; start_timer (t id);; mret tt).
Proof.
  intros Hc w [(ws & Hr & Hws) H2 H3] Hp. unfold mbind, M_bind, register_blpop.
  pose proof (register_refines _ ws keys c Hr) as H. unfold register_callbacks in *.
  destruct H as [H _]. cbn. split_and!; [|unfold pot; simpl|done].
  - split; try done. eexists. split; [done|]. apply Forall_app. split; [done|]. by repeat constructor.
  - rewrite map_size_insert. destruct (id_to_keys_ _ !! _); simpl; lia.
Qed.

(** *** Operations outside [pot] *)

Lemma within_propagate data d : within D p d (propagate_all data).
Proof. apply within_frame. intros w. by destruct (propagate _ _). Qed.

Lemma within_getack d : within D p d request_getack_all.
Proof. apply within_frame. intros w. by destruct (request_getack _). Qed.

Lemma within_cancel t d : within D p d (cancel_timer t).
Proof. apply within_frame. intros w. by repeat case_match. Qed.

Lemma within_start t d : within D p d (start_timer t).
Proof. intros w [H1 H2 H3] Hp. split_and!; [by split|unfold pot; simpl; lia|done]. Qed.
End within.

#[export] Hint Resolve within_ret within_gets within_lift within_on_store within_on_store_outcome
  within_notify within_unregister_blpop within_unregister_xread within_register_xread
  within_propagate within_getack within_cancel within_start : within.

(** ** Computations without fuel *)

Lemma obind_fuelled {A B : Type} (o : outcome A) (f : A → outcome B) :
  o ≠ NoFuel → (∀ a, f a ≠ NoFuel) → obind o f ≠ NoFuel.
Proof. intros Ho Hf. by destruct o; simpl; auto. Qed.

Ltac fuelled :=
  repeat first [done | solve [auto 2 with within] | simple apply obind_fuelled; [|intros] | case_match].

Lemma stoull_fuelled s : stoull s ≠ NoFuel.
Proof. unfold stoull. fuelled. Qed.

Lemma stoll_fuelled s : stoll s ≠ NoFuel.
Proof. unfold stoll. fuelled. Qed.

Lemma stod_fuelled s : stod s ≠ NoFuel.
Proof. unfold stod, stod_finite. fuelled. Qed.

Lemma truncate_fuelled d : truncate d ≠ NoFuel.
Proof. unfold truncate. fuelled. Qed.

Lemma parse_command_fuelled request : parse_command request ≠ NoFuel.
Proof. unfold parse_command. fuelled. Qed.

#[export] Hint Resolve stoull_fuelled stoll_fuelled stod_fuelled truncate_fuelled
  parse_command_fuelled : within.

Lemma expiry_options_fuelled options : expiry_options options ≠ NoFuel.
Proof.
  revert options. fix IH 1. intros [|opt [|value rest]]; cbn [expiry_options]; fuelled.
Qed.

Lemma parse_stream_bound_fuelled s start : parse_stream_bound s start ≠ NoFuel.
Proof. unfold parse_stream_bound. fuelled. Qed.

Lemma rethrow_fuelled {A} (o : outcome A) : o ≠ NoFuel → rethrow_invalid o ≠ NoFuel.
Proof. by destruct o. Qed.

#[export] Hint Resolve expiry_options_fuelled parse_stream_bound_fuelled rethrow_fuelled : within.

Lemma store_set_fuelled now key value ttl d : (store_set now key value ttl d).2 ≠ NoFuel.
Proof. unfold store_set, set_ttl. by repeat case_match. Qed.

Lemma xadd_fuelled now key id flds d : (xadd now key id flds d).2 ≠ NoFuel.
Proof.
  unfold xadd. case_match; [done|].
  assert (generate_stream_id now id (last_entry_id (as_stream (at_or_default d key))) ≠ NoFuel).
  { unfold generate_stream_id, parse_stream_id, parse_last_id, resolve_seq, validate_id. fuelled. }
  by repeat case_match.
Qed.

Lemma xrange_fuelled key start_ end_ d : xrange key start_ end_ d ≠ NoFuel.
Proof.
  assert (∀ s e es, xrange_loop s e es ≠ NoFuel).
  { intros s e es. induction es; cbn [xrange_loop]; fuelled. }
  unfold xrange. fuelled.
Qed.

Lemma xread_fuelled keys ids d : xread keys ids d ≠ NoFuel.
Proof.
  assert (∀ t es, xread_entries t es ≠ NoFuel).
  { intros t es. induction es; cbn [xread_entries]; fuelled. }
  revert ids. induction keys; intros [|]; cbn [xread]; fuelled.
Qed.

#[export] Hint Resolve store_set_fuelled xadd_fuelled xrange_fuelled xread_fuelled : within.

Lemma resolve_ids_fuelled d keys ids : resolve_stream_ids d keys ids ≠ NoFuel.
Proof.
  revert ids. induction keys; intros [|]; cbn [resolve_stream_ids]; fuelled.
  unfold resolve_stream_id. fuelled.
Qed.

Lemma parse_xread_args_fuelled cmd : parse_xread_args cmd ≠ NoFuel.
Proof.
  unfold parse_xread_args. destruct (_ ≫= _) as [text|]; [|done].
  pose proof (stod_fuelled text). by destruct (stod text).
Qed.

#[export] Hint Resolve resolve_ids_fuelled parse_xread_args_fuelled : within.

(** ** Contexts of running transactions *)

Definition advanced (ctx : N) (res : bytes) (c : ExecContext) (w : World) : World :=
  with_execs (<[ctx := mkExec (S (exec_index c)) (<[exec_index c := res]> (exec_results c))
    (exec_commands c) (exec_handler c) (exec_on_reply c)]> (w_execs w)) (w_next_exec w) w.

(** Storing the result of a command and going on. *)
Lemma advance_eq (call : Task → M unit) ctx res w :
  (store_result ctx res;; next_index ctx;; call (TRunNext ctx)) w =
  match w_execs w !! ctx with
  | None => (w, UB)
  | Some c => if bool_decide (exec_index c < length (exec_results c))%nat
              then call (TRunNext ctx) (advanced ctx res c w)
              else (w, Throw (range_check (exec_index c) (length (exec_results c))))
  end.
Proof.
  unfold store_result, next_index, put_exec, get_exec, mbind, M_bind, modify, lift.
  destruct (w_execs w !! ctx) as [c|] eqn:E; [|done]. case_bool_decide; [|done].
  cbn. rewrite lookup_insert_eq. unfold advanced. cbn. by rewrite insert_insert_eq.
Qed.

(** What EXEC's callback sends to the replicas. *)
Definition exec_propagates (t : CommandType) (req : RespValue) (c : ExecContext) (w : World) : World :=
  if h_replicated (exec_handler c) && is_write_command t then (propagate_all (serialize req) w).1 else w.

Lemma exec_callback_eq (call : Task → M unit) ctx t req res w :
  exec_callback call ctx t req res w =
  match w_execs w !! ctx with
  | None => (w, UB)
  | Some c => if bool_decide (exec_index c < length (exec_results c))%nat
              then call (TRunNext ctx) (advanced ctx res c (exec_propagates t req c w))
              else (w, Throw (range_check (exec_index c) (length (exec_results c))))
  end.
Proof.
  unfold exec_callback, exec_propagates, store_result, next_index, put_exec, get_exec, mbind, M_bind, modify, lift.
  destruct (w_execs w !! ctx) as [c|] eqn:E; [|done]. case_bool_decide; [|done].
  cbn. rewrite lookup_insert_eq. cbn. destruct (_ && _); cbn.
  - destruct (propagate (serialize req) (w_replicas w)). cbn. rewrite lookup_insert_eq.
    unfold advanced. cbn. by rewrite insert_insert_eq.
  - rewrite lookup_insert_eq. unfold advanced. cbn. by rewrite insert_insert_eq.
Qed.

Lemma pot_advanced ctx res c w :
  w_execs w !! ctx = Some c → (exec_index c < length (exec_results c))%nat →
  (pot (advanced ctx res c w) + 2 = pot w)%nat.
Proof.
  intros Hc Hi. unfold pot, advanced. simpl.
  rewrite map_sum_insert, (map_sum_delete _ ctx (w_execs w)), Hc. simpl.
  unfold missing_results. simpl. rewrite length_insert. lia.
Qed.

Lemma calls_advanced D ctx res c w :
  w_execs w !! ctx = Some c → calls_ok D w → calls_ok D (advanced ctx res c w).
Proof.
  intros Hc [H1 H2 H3]. split; try done. apply map_Forall_insert_2; [|done].
  exact (H3 _ _ Hc).
Qed.

Lemma within_get_exec {A} D p d ctx (f : ExecContext → M A) :
  (∀ c, (reply_depth (exec_on_reply c) ≤ D)%nat → within D p d (f c)) →
  within D p d (get_exec ctx ≫= f).
Proof.
  intros Hf w Hw Hp. unfold mbind, M_bind, get_exec.
  destruct (w_execs w !! ctx) as [c|] eqn:E; [|split_and!; [done|simpl; lia|done]].
  apply Hf; [exact (calls_execs _ _ Hw _ _ E)|done..].
Qed.

(** ** Transaction managers *)

Lemma queue_watch h keys tm wm :
  queue_length (fold_left (watch_one h) keys (tm, wm)).1 = queue_length tm.
Proof.
  revert tm wm. induction keys as [|key keys IH]; intros tm wm; [done|]. cbn [fold_left].
  assert (queue_length (watch_one h (tm, wm) key).1 = queue_length tm) as <-.
  { unfold watch_one, watch_key. destruct (watched_keys_ tm !! key) eqn:E; [done|].
    destruct (watch key h wm). simpl. unfold associate_watch_id. by case_match. }
  destruct (watch_one h (tm, wm) key) as [tm1 wm1]. apply IH.
Qed.

Lemma within_begin D p d h : within D p d (on_tm h (λ tm wm, (begin tm, wm))).
Proof. apply within_on_tm. intros. simpl. unfold queue_length. simpl. lia. Qed.

Lemma within_clear D p d h : within D p d (on_tm h clear_watches).
Proof. apply within_on_tm. intros. done. Qed.

Lemma within_reset D p d h : within D p d (on_tm h reset).
Proof. apply within_on_tm. intros. unfold queue_length. simpl. lia. Qed.

Lemma within_watch D p d h keys :
  within D p d (on_tm h (λ tm wm, fold_left (watch_one h) keys (tm, wm))).
Proof. apply within_on_tm. intros. by rewrite queue_watch. Qed.

#[export] Hint Resolve within_begin within_clear within_reset within_watch : within.

(** ** Waiting callbacks *)

Lemma queue_for_callbacks {C} (P : C → Prop) key (ws : list (waiter (C := C))) :
  Forall (λ x, P (w_callback x)) ws → Forall (λ reg, P (reg_callback reg)) (queue_for key ws).
Proof.
  intros Hws. apply Forall_concat, Forall_fmap. eapply Forall_impl; [exact Hws|].
  intros x Hx. by apply Forall_fmap, Forall_true.
Qed.

Lemma registry_callbacks {C} (P : C → Prop) key (r : BlockingRegistry C) ws :
  registry_refines r ws → Forall (λ x, P (w_callback x)) ws →
  Forall (λ reg, P (reg_callback reg)) (default [] (registry_find key r)).
Proof.
  intros Hr Hws. unfold registry_find. rewrite (refines_callbacks _ _ Hr), default_queue_repr.
  by apply queue_for_callbacks.
Qed.

(** The head of a queue is registered. *)
Lemma registry_head_registered {C} key (r : BlockingRegistry C) ws reg rest :
  registry_refines r ws → registry_find key r = Some (reg :: rest) →
  is_Some (id_to_keys_ r !! reg_id reg).
Proof.
  intros Hr Hf. destruct (registry_head_waiter key r ws reg rest Hr Hf) as (x & Hx & ->).
  exists (w_keys x). apply (refines_ids _ _ Hr). by exists x.
Qed.

(** ** Commands *)

Ltac stay_within :=
  repeat first
    [ progress intros
    | simple apply within_register_blpop; solve [done]
    | simple apply within_bind
    | simple apply within_try
    | simple apply within_if
    | solve [eauto 4 with within]
    | simple apply within_lift; solve [fuelled]
    | case_match ].

Section commands.
Context (D p : nat) (call : Task → M unit) (redis_version : bytes).
Context (Hreply : ∀ k s, (reply_depth k ≤ D)%nat → within D (S p) 0 (call (TReply k s))).
Context (Hserve : ∀ key, within D (S p) 0 (call (TServeBlpop key))).
Context (Hnext : ∀ ctx, within D p 1 (call (TRunNext ctx))).

Lemma within_reply k s d : (reply_depth k ≤ D)%nat → within D (S p) d (call (TReply k s)).
Proof. intros Hk. eapply within_weaken; [by apply Hreply|lia]. Qed.

Hint Resolve within_reply Hserve : within.

Lemma within_blpop_immediate keys : within D (S p) 0 (blpop_immediate keys).
Proof. induction keys as [|key keys IH]; cbn [blpop_immediate]; stay_within. Qed.

Lemma within_serve_readers waiters :
  Forall (λ reg, reply_depth (xread_reply (reg_callback reg)) ≤ D)%nat waiters →
  within D (S p) 0 (serve_readers call waiters).
Proof.
  induction 1 as [|reg waiters Hreg _ IH]; cbn [serve_readers]; unfold xread_callback; stay_within.
Qed.

Lemma within_serve_xread key : within D (S p) 0 (serve_xread_waiters call key).
Proof.
  intros w Hw. unfold serve_xread_waiters. rewrite bind_gets.
  destruct (calls_xread _ _ Hw) as (ws & Hr & Hws).
  apply within_serve_readers; [|done]. exact (registry_callbacks (λ c, reply_depth (xread_reply c) ≤ D)%nat key _ _ Hr Hws).
Qed.

(** The service of one waiter frees a unit before anything is called. *)
Lemma within_serve_blpop key :
  (∀ k s, (reply_depth k ≤ D)%nat → within D p 0 (call (TReply k s))) →
  within D p 0 (call (TServeBlpop key)) →
  within D (S p) 0 (serve_blpop_waiters call key).
Proof.
  intros Hreply' Hserve' w Hw Hp. unfold serve_blpop_waiters. rewrite bind_gets.
  destruct (registry_find key (w_blpop w)) as [[|reg rest]|] eqn:Ef;
    [split_and!; [done|simpl; lia|done]| |split_and!; [done|simpl; lia|done]].
  rewrite bind_on_store. set (w1 := with_store _ w).
  assert (calls_ok D w1) as Hw1 by (destruct Hw; by split).
  destruct (lpop key 1 (w_store w)).1 as [[|value vs]|]; 
    [split_and!; [done|simpl; unfold pot in *; simpl; lia|done]| |
     split_and!; [done|simpl; unfold pot in *; simpl; lia|done]].
  unfold unregister_blpop. rewrite bind_modify. set (w2 := with_blpop _ w1).
  destruct (calls_blpop _ _ Hw) as (ws & Hr & Hws).
  pose proof (pot_unregister (reg_id reg) w1) as Hpot. fold w2 in Hpot.
  change (w_blpop w1) with (w_blpop w) in Hpot.
  destruct (registry_head_registered key (w_blpop w) ws reg rest Hr Ef) as [ks Hks].
  rewrite Hks in Hpot. simpl in Hpot. change (pot w1) with (pot w) in Hpot.
  pose proof (registry_callbacks (λ c, reply_depth (blpop_reply c) ≤ D)%nat key _ _ Hr Hws) as Hd.
  rewrite Ef in Hd. simpl in Hd. apply Forall_cons in Hd as [Hd _].
  assert (within D p 0 (blpop_callback call (reg_callback reg) key value;; call (TServeBlpop key)))
    as Hall by (unfold blpop_callback; stay_within).
  destruct (Hall w2) as (? & ? & ?); [by apply calls_unregister_blpop|lia|].
  split_and!; [done|lia|done].
Qed.

(** EXEC trades the queue for a context that is worth less. *)
Lemma within_exec h k : (reply_depth k ≤ D)%nat → within D (S p) 0 (execute_exec call h k).
Proof.
  intros Hk w Hw Hp. unfold execute_exec. rewrite bind_gets. set (tm := tm_of (h_id h) w).
  destruct (is_active tm); [|by apply within_reply]. cbn [negb].
  destruct (is_dirty tm).
  { revert w Hw Hp tm. assert (within D (S p) 0 (on_tm (h_id h) reset;; call (TReply k null_array)));
      [stay_within|auto]. }
  unfold on_tm. rewrite bind_modify. fold tm. cbn [pop_queued_commands fst snd].
  destruct (reset _ _) as [tm' wm'] eqn:Er. set (w1 := with_watch _ _).
  assert (queue_length tm' = 0%nat) as Hq by (injection Er as <- <-; done).
  pose proof (pot_set_tm (h_id h) tm' w) as Hpot.
  rewrite Hq in Hpot. change (pot (set_tm (h_id h) tm' w)) with (pot w1) in Hpot. fold tm in Hpot.
  assert (calls_ok D w1) as Hw1 by (destruct Hw; by split).
  unfold queue_length in Hpot. case_bool_decide as E.
  { destruct (within_reply k (array_header 0) 0 Hk w1) as (? & ? & ?); [done|lia|].
    split_and!; [done|lia|done]. }
  set (c := mkExec 0 _ _ h k). unfold mbind, M_bind, new_exec.
  set (w2 := with_execs _ _ w1).
  assert (pot w2 ≤ pot w1 + 2 * length (queued_commands_ tm))%nat as Hpot2.
  { unfold pot, w2. simpl. rewrite map_sum_insert, (map_sum_delete _ (w_next_exec w1) (w_execs w1)).
    unfold missing_results, c. simpl. rewrite length_replicate. lia. }
  destruct (Hnext (w_next_exec w1) w2) as (? & ? & ?); [|lia|split_and!; [done|lia|done]].
  destruct Hw1. split; try done. by apply map_Forall_insert_2.
Qed.

Lemma within_blpop cmd k : (reply_depth k ≤ D)%nat → within D (S p) 1 (execute_blpop call cmd k).
Proof.
  intros Hk. pose proof within_blpop_immediate. unfold execute_blpop, arg, seconds_to_ns. stay_within.
Qed.

Lemma within_execute h cmd k body :
  (reply_depth k ≤ D)%nat → execute redis_version call h cmd k = Some body → within D (S p) 1 body.
Proof.
  intros Hk. pose proof within_serve_xread.
  rewrite execute_table. unfold command_table. destruct (h_kind h), (cmd_type cmd); intros [= <-];
    first [by apply within_blpop
          | by eapply within_weaken; [apply within_exec|lia]
          | unfold execute_ping, execute_info, execute_echo, execute_set, execute_get, execute_type,
              execute_incr, execute_rpush, execute_lpush, execute_lrange, execute_llen, execute_lpop,
              execute_xadd, execute_xrange, execute_xread, execute_watch, execute_unwatch,
              execute_wait, execute_multi, execute_discard, execute_replconf, execute_psync,
              setup_xread_blocking, wait_poll, arg, parse_expiry; stay_within].
Qed.

(** Storing a result frees two units; the rest of the transaction may take
    one of them. *)
Lemma within_advance (m : M unit) (f : ExecContext → World → World) ctx res :
  (∀ c w, w_blpop (f c w) = w_blpop w ∧ w_xread (f c w) = w_xread w ∧ w_tms (f c w) = w_tms w ∧
          w_execs (f c w) = w_execs w) →
  (∀ w, m w = match w_execs w !! ctx with
              | None => (w, UB)
              | Some c => if bool_decide (exec_index c < length (exec_results c))%nat
                          then call (TRunNext ctx) (advanced ctx res c (f c w))
                          else (w, Throw (range_check (exec_index c) (length (exec_results c))))
              end) →
  within D (S p) 0 m.
Proof.
  intros Hf Hm w Hw Hp. rewrite Hm. destruct (w_execs w !! ctx) as [c|] eqn:E;
    [|split_and!; [done|simpl; lia|done]].
  case_bool_decide as Hi; [|split_and!; [done|simpl; lia|done]].
  destruct (within_frame D (S p) (f c) 0 (Hf c) w Hw Hp) as (Hw' & Hp' & _). cbn [fst modify] in *.
  destruct (Hf c w) as (_ & _ & _ & E'). rewrite <- E' in E.
  pose proof (pot_advanced ctx res c (f c w) E Hi).
  destruct (Hnext ctx (advanced ctx res c (f c w))) as (? & ? & ?); [by apply calls_advanced|lia|].
  split_and!; [done|lia|done].
Qed.

Lemma within_exec_callback ctx t req res : within D (S p) 0 (exec_callback call ctx t req res).
Proof.
  apply (within_advance _ (exec_propagates t req) ctx res).
  - intros c w. unfold exec_propagates. destruct (_ && _); [|done]. cbn.
    by destruct (propagate (serialize req) (w_replicas w)).
  - intros w. apply exec_callback_eq.
Qed.

Lemma within_run_next ctx :
  (1 ≤ D)%nat → within D (S p) 1 (run_next call (execute redis_version call) ctx).
Proof.
  intros HD. apply within_get_exec. intros c Hc. apply within_if; [by apply within_reply|].
  apply within_bind; [stay_within|intros next_req].
  apply within_bind; [stay_within|intros next_cmd].
  destruct (execute _ _ _ _ _) as [body|] eqn:Ee; [by eapply within_execute, Ee|].
  apply (within_weaken _ _ _ 0); [|lia].
  apply (within_advance _ (λ _ w, w) ctx (unknown_command (cmd_name next_cmd))); [done|].
  intros w. apply advance_eq.
Qed.
End commands.

(** ** Enough fuel *)

(** Calls nested in one another for [p] units of [pot]. *)
Definition depth_for (D p : nat) : nat := p * (D + 2).

Lemma run_within version D fuel : (1 ≤ D)%nat → ∀ p,
  (∀ k s, (depth_for D p + reply_depth k ≤ fuel)%nat →
     within D (S p) 0 (run version fuel (TReply k s))) ∧
  (∀ key, (depth_for D p + 1 ≤ fuel)%nat → within D (S p) 0 (run version fuel (TServeBlpop key))) ∧
  (∀ ctx, (depth_for D p + D + 1 ≤ fuel)%nat → within D (S p) 1 (run version fuel (TRunNext ctx))).
Proof.
  intros HD. induction fuel as [|fuel IH]; intros p;
    [split_and!; intros; [destruct k; simpl in *|..]; lia|].
  assert (depth_for D p + 1 ≤ S fuel →
    (∀ ctx, within D p 1 (run version fuel (TRunNext ctx))) ∧
    (∀ key, within D p 0 (run version fuel (TServeBlpop key))) ∧
    (∀ k s, reply_depth k ≤ D → within D p 0 (run version fuel (TReply k s))))%nat as Hless.
  { intros Hf. destruct p as [|p]; [split_and!; repeat intro; lia|]. unfold depth_for in Hf.
    destruct (IH p) as (IHr & IHs & IHn). unfold depth_for in *.
    split_and!; intros; [apply IHn|apply IHs|apply IHr]; nia. }
  cbn [run]. split_and!.
  - intros [c| |raw k|ctx t req] s Hf; cbn [run_task reply_depth] in *.
    + by apply within_frame.
    + apply within_ret.
    + destruct (IH p) as (IHr & _). apply within_bind; [apply IHr; lia|intros; apply within_propagate].
    + apply within_exec_callback, Hless. lia.
  - intros key Hf. cbn [run_task]. destruct Hless as (_ & Hs & Hr); [lia|].
    by apply within_serve_blpop.
  - intros ctx Hf. cbn [run_task]. destruct (IH p) as (IHr & IHs & _). apply within_run_next; [..|done].
    + intros k s Hk. apply IHr. lia.
    + intros key. apply IHs. lia.
    + apply Hless. lia.
Qed.

(** ** More fuel gives the same result *)

(** [m'] does what [m] does whenever [m] does not run out of fuel. *)
Definition approx {A} (m m' : M A) : Prop := ∀ w, (m w).2 ≠ NoFuel → m' w = m w.

Lemma approx_refl {A} (m : M A) : approx m m.
Proof. done. Qed.

Lemma approx_bind {A B} (m m' : M A) (f f' : A → M B) :
  approx m m' → (∀ a, approx (f a) (f' a)) → approx (m ≫= f) (m' ≫= f').
Proof.
  intros Hm Hf w. unfold mbind, M_bind. pose proof (Hm w) as Hmw.
  destruct (m w) as [w' [a| | |]]; simpl in *; intros Hn; try (by rewrite Hmw).
  rewrite Hmw by done. by apply Hf.
Qed.

Lemma approx_try {A} (m m' : M A) (f f' : exn → M A) :
  approx m m' → (∀ e, approx (f e) (f' e)) → approx (try_catch m f) (try_catch m' f').
Proof.
  intros Hm Hf w. unfold try_catch. pose proof (Hm w) as Hmw.
  destruct (m w) as [w' [a|e| |]]; simpl in *; intros Hn; try (by rewrite Hmw).
  rewrite Hmw by done. by apply Hf.
Qed.

Ltac approximate :=
  repeat first
    [ progress intros
    | simple apply approx_refl
    | solve [eauto 2]
    | simple apply approx_bind
    | simple apply approx_try
    | case_match ].

Section approx.
Context (version : bytes) (call call' : Task → M unit) (Hcall : ∀ t, approx (call t) (call' t)).

Lemma approx_serve_readers waiters : approx (serve_readers call waiters) (serve_readers call' waiters).
Proof. induction waiters; cbn [serve_readers]; unfold xread_callback; approximate. Qed.

Lemma approx_execute h cmd k :
  match execute version call h cmd k, execute version call' h cmd k with
  | Some m, Some m' => approx m m'
  | None, None => True
  | _, _ => False
  end.
Proof.
  pose proof approx_serve_readers.
  rewrite !execute_table. unfold command_table. destruct (h_kind h), (cmd_type cmd); try done;
  unfold execute_ping, execute_info, execute_echo, execute_set, execute_get, execute_type,
    execute_incr, execute_rpush, execute_lpush, execute_lrange, execute_llen, execute_lpop,
    execute_blpop, execute_xadd, execute_xrange, execute_xread, execute_watch, execute_unwatch,
    execute_wait, execute_multi, execute_exec, execute_discard, execute_replconf, execute_psync,
    setup_xread_blocking, serve_xread_waiters, wait_poll; approximate.
Qed.

Lemma approx_run_task t : approx (run_task version call t) (run_task version call' t).
Proof.
  destruct t as [[c| |raw k|ctx t req] s|ctx|key]; cbn [run_task].
  1-3: approximate.
  - unfold exec_callback. approximate.
  - unfold run_next. apply approx_bind; [done|]. intros c. case_bool_decide; [apply Hcall|].
    apply approx_bind; [done|]. intros next_req. apply approx_bind; [done|]. intros next_cmd.
    pose proof (approx_execute (exec_handler c) next_cmd (ReplyExec ctx (cmd_type next_cmd) next_req)).
    destruct (execute _ call _ _ _), (execute _ call' _ _ _); try done; approximate.
  - unfold serve_blpop_waiters, blpop_callback. approximate.
Qed.
End approx.

Lemma run_approx version fuel more t :
  (fuel ≤ more)%nat → approx (run version fuel t) (run version more t).
Proof.
  revert more t. induction fuel as [|fuel IH]; intros [|more] t Hm; try (by intros w ?); [lia|].
  cbn [run]. apply approx_run_task. intros t'. apply IH. lia.
Qed.

Lemma handle_approx version fuel more h request k :
  (fuel ≤ more)%nat → approx (handle version fuel h request k) (handle version more h request k).
Proof.
  intros Hm. assert (∀ t, approx (run version fuel t) (run version more t)) as Hrun
    by (intros; by apply run_approx).
  unfold handle. case_match; [apply Hrun|]. apply approx_bind; [done|]. intros cmd.
  unfold dispatch. apply approx_bind; [done|]. intros tm. cbv beta zeta.
  set (k' := if h_replicated h && _ then _ else _).
  pose proof (approx_execute version _ _ Hrun h cmd k). pose proof (approx_execute version _ _ Hrun h cmd k').
  destruct (always_direct _);
    [destruct (execute _ (run _ fuel) _ _ k), (execute _ (run _ more) _ _ k); try done; approximate|].
  destruct (is_active tm); [approximate|].
  destruct (execute _ (run _ fuel) _ _ k'), (execute _ (run _ more) _ _ k'); try done; approximate.
Qed.

Lemma timer_approx version fuel more t :
  (fuel ≤ more)%nat → approx (timer_completes version fuel t) (timer_completes version more t).
Proof.
  intros Hm. assert (∀ t, approx (run version fuel t) (run version more t)) as Hrun
    by (intros; by apply run_approx).
  unfold timer_completes, blpop_timeout, xread_timeout, wait_poll. approximate.
Qed.

(** ** Every event returns *)

Lemma calls_ok_mono D D' w : (D ≤ D')%nat → calls_ok D w → calls_ok D' w.
Proof.
  intros HD [(ws & Hr & Hws) (xs & Hx & Hxs) He]. split.
  - exists ws. split; [done|]. eapply Forall_impl; [exact Hws|]. simpl. lia.
  - exists xs. split; [done|]. eapply Forall_impl; [exact Hxs|]. simpl. lia.
  - eapply map_Forall_impl; [exact He|]. simpl. lia.
Qed.

Lemma calls_ok_exists n w : server_ok w → ∃ D, (n < D)%nat ∧ calls_ok D w.
Proof.
  intros [_ [ws Hr] [xs Hx] _ _].
  destruct (list_bounded (λ x, reply_depth (blpop_reply (w_callback x))) ws) as [n1 H1].
  destruct (list_bounded (λ x, reply_depth (xread_reply (w_callback x))) xs) as [n2 H2].
  destruct (map_bounded (λ c, reply_depth (exec_on_reply c)) (w_execs w)) as [n3 H3].
  exists (S n + n1 + n2 + n3)%nat. split; [lia|]. split.
  - exists ws. split; [done|]. eapply Forall_impl; [exact H1|]. simpl. lia.
  - exists xs. split; [done|]. eapply Forall_impl; [exact H2|]. simpl. lia.
  - eapply map_Forall_impl; [exact H3|]. simpl. lia.
Qed.

(** The call depth that suffices in a state; queueing a command adds three
    units of [pot]. *)
Definition enough (D : nat) (w : World) : nat := depth_for D (pot w + 3) + D + 1.

Definition wait_reply (t : TimerWait) : Reply :=
  match t with
  | BlpopTimeout _ on_reply | XReadTimeout _ on_reply | WaitPoll _ _ _ on_reply => on_reply
  end.

Section fuelled.
Context (version : bytes) (D : nat) (w : World) (fuel : nat).
Context (HD : (1 ≤ D)%nat) (Hw : calls_ok D w) (Hf : (enough D w ≤ fuel)%nat).

Lemma calls_within :
  (∀ k s, (reply_depth k ≤ D)%nat → within D (S (pot w + 3)) 0 (run version fuel (TReply k s))) ∧
  (∀ key, within D (S (pot w + 3)) 0 (run version fuel (TServeBlpop key))) ∧
  (∀ ctx, within D (pot w + 3) 1 (run version fuel (TRunNext ctx))).
Proof.
  unfold enough in Hf. destruct (run_within version D fuel HD (pot w + 3)) as (Hr & Hs & _).
  split_and!; intros; [apply Hr; lia|apply Hs; lia|].
  destruct (run_within version D fuel HD (pot w + 2)) as (_ & _ & Hn).
  replace (pot w + 3)%nat with (S (pot w + 2)) by lia. apply Hn. unfold depth_for in *. nia.
Qed.

Lemma within_here {A} (m : M A) d : within D (S (pot w + 3)) d m → (m w).2 ≠ NoFuel.
Proof. intros Hm. apply Hm; [done|lia]. Qed.

Lemma queue_fuelled h request k s :
  (reply_depth k ≤ D)%nat →
  ((on_tm h (λ tm wm, (queue_command request tm, wm));; run version fuel (TReply k s)) w).2 ≠ NoFuel.
Proof.
  intros Hk. unfold on_tm. rewrite bind_modify. set (w1 := with_watch _ _).
  destruct calls_within as (Hr & _). apply (Hr k s Hk w1); [by destruct Hw; split|].
  pose proof (pot_set_tm h (queue_command request (tm_of h w)) w) as Hp.
  change (pot (set_tm h (queue_command request (tm_of h w)) w)) with (pot w1) in Hp.
  unfold queue_length in Hp. simpl in Hp. rewrite length_app in Hp. simpl in Hp. lia.
Qed.

Lemma handle_fuelled h request k :
  (reply_depth k < D)%nat → (handle version fuel h request k w).2 ≠ NoFuel.
Proof.
  intros Hk. destruct calls_within as (Hr & Hs & Hn).
  unfold handle. destruct (_ || _); [by apply (within_here _ 0), Hr; lia|].
  unfold lift, mbind at 1, M_bind at 1. pose proof (parse_command_fuelled request).
  destruct (parse_command request) as [cmd| | |]; try done.
  assert (∀ k' body, (reply_depth k' ≤ D)%nat →
    execute version (run version fuel) h cmd k' = Some body → (body w).2 ≠ NoFuel) as Hbody
    by (intros; by eapply (within_here _ 1), within_execute).
  assert (∀ s, (run version fuel (TReply k s) w).2 ≠ NoFuel) as Hreply
    by (intros; apply (within_here _ 0), Hr; lia).
  unfold dispatch. rewrite bind_gets. destruct (always_direct _).
  { destruct (execute _ _ _ _ _) eqn:E; [|apply Hreply]. case_match; [apply Hreply|].
    eapply Hbody; [|exact E]. lia. }
  destruct (is_active _); [apply queue_fuelled; lia|].
  destruct (execute _ _ _ _ _) eqn:E; [|apply Hreply]. eapply Hbody; [|exact E].
  case_match; simpl; lia.
Qed.

Lemma timer_fuelled t :
  (∀ timer, w_timers w !! t = Some timer → reply_depth (wait_reply (wait timer)) ≤ D)%nat →
  (timer_completes version fuel t w).2 ≠ NoFuel.
Proof.
  intros Ht. destruct calls_within as (Hr & _). unfold timer_completes. rewrite bind_gets.
  destruct (w_timers w !! t) as [timer|] eqn:E; [|done]. specialize (Ht timer eq_refl).
  destruct (fired timer); [|done]. apply (within_here _ 0).
  apply within_bind; [by apply within_frame|intros _].
  destruct (wait timer); simpl in Ht; unfold blpop_timeout, xread_timeout, wait_poll; stay_within.
Qed.
End fuelled.

(** [m] has a result that no longer depends on the fuel once there is
    enough of it: what the code, which has no fuel, computes. *)
Definition returns {A} (m : nat → M A) (w : World) : Prop :=
  ∃ enough w' r, r ≠ NoFuel ∧ ∀ fuel, (enough ≤ fuel)%nat → m fuel w = (w', r).

Lemma returns_approx {A} (m : nat → M A) n w :
  (m n w).2 ≠ NoFuel → (∀ more, (n ≤ more)%nat → approx (m n) (m more)) → returns m w.
Proof.
  intros Hn Hm. exists n. destruct (m n w) as [w' r] eqn:E. exists w', r. split; [done|].
  intros fuel Hf. rewrite <- E. apply Hm; [done|]. by rewrite E.
Qed.

(** A transaction of connection 1 blocked in BLPOP. *)
Definition blocked_exec : World :=
  ((send 1 [b "MULTI"];; send 1 [b "BLPOP"; b "l"; b "0"];; send 1 [b "EXEC"]) example_world).1.

Lemma blocked_exec_ok : server_ok blocked_exec.
Proof.
  assert (preserves (send 1 [b "MULTI"];; send 1 [b "BLPOP"; b "l"; b "0"];; send 1 [b "EXEC"])) as H
    by (unfold send; preserve).
  apply H, server_ok_initial.
Qed.

(** C10. Every event of the store thread comes to an end.  In a state that
    satisfies the server's invariant, a request of any connection with any
    reply callback, and the completion of any timer, have a result (a reply,
    an escaped exception or undefined behaviour) that is reached with finitely
    many nested calls, although a reply may resume a transaction, whose
    commands may serve blocked clients, whose replies may resume further
    transactions. *)
Theorem events_return (version : bytes) (w : World) (Hw : server_ok w) :
  (∀ h request k, returns (λ fuel, handle version fuel h request k) w) ∧
  (∀ t, returns (λ fuel, timer_completes version fuel t) w).
Proof.
  split.
  - intros h request k. destruct (calls_ok_exists (reply_depth k) w Hw) as (D & HD & Hc).
    apply (returns_approx _ (enough D w)); [by apply (handle_fuelled version D w); [lia|..]|].
    intros. by apply handle_approx.
  - intros t. set (n := from_option (λ timer, reply_depth (wait_reply (wait timer))) 0%nat (w_timers w !! t)).
    destruct (calls_ok_exists n w Hw) as (D & HD & Hc).
    apply (returns_approx _ (enough D w)); [|intros; by apply timer_approx].
    apply (timer_fuelled version D w); [lia|done..|]. intros timer E. subst n. rewrite E in HD. simpl in HD. lia.
Qed.

Lemma events_return_witness :
  size (id_to_keys_ (w_blpop blocked_exec)) = 1%nat ∧
  returns (λ fuel, handle (b "7.0.0") fuel (example_handler 2) (example_request [b "RPUSH"; b "l"; b "a"])
    (ReplyTo 2)) blocked_exec.
Proof.
  split; [by vm_compute|].
  exact (proj1 (events_return (b "7.0.0") blocked_exec blocked_exec_ok) (example_handler 2)
    (example_request [b "RPUSH"; b "l"; b "a"]) (ReplyTo 2)).
Defined.
