(* ===== verification/OneReply.v ===== *)
(** * Every request is answered once

    A request is answered by a call of its reply callback.  The callback may be
    called at once, or it is kept: by the blocking registries (BLPOP, XREAD
    BLOCK), by the timer of a WAIT, or by a suspended EXEC, whose own callback is
    in turn kept by one of the others.  This file keeps a ledger for a connection
    [c]: the answers it got and the callbacks kept on its behalf.  Every
    operation balances the ledger, so that no answer is lost or given twice. *)

From S2P Require Import Prelude CharConv Resp StreamId StoreValue StringStore ListStore StreamStore Store Blocking WatchManager TransactionManager ReplicaRegistry Command ServerConfig World BasicCommands ListCommands StreamCommands TransactionCommands CommandRegistry Dispatch Invariants Transactions BlockedClients BlockedReaders WaitCommand Connection Termination.

(** ** Sums over lists of waiters *)

Lemma sum_remove {C} (f : waiter (C := C) → nat) (x : waiter) ws :
  NoDup (w_id <$> ws) → x ∈ ws →
  sum_list_with f ws = (f x + sum_list_with f (filter (λ y, w_id y ≠ w_id x) ws))%nat.
Proof.
  induction ws as [|y ws IH]; intros Hnd Hx; [by apply elem_of_nil in Hx|].
  rewrite fmap_cons, NoDup_cons in Hnd. destruct Hnd as [Hy Hnd]. cbn [sum_list_with].
  apply elem_of_cons in Hx as [->|Hx].
  - rewrite filter_cons_False by (by intros H). rewrite filter_all; [done|].
    apply Forall_forall. intros z Hz E. apply Hy. rewrite <- E. by apply list_elem_of_fmap_2.
  - rewrite filter_cons_True; [cbn [sum_list_with]; rewrite IH by done; lia|].
    intros E. apply Hy. rewrite E. by apply list_elem_of_fmap_2.
Qed.

Lemma sum_filter_le {C} (f : waiter (C := C) → nat) (P : waiter → Prop) `{∀ x, Decision (P x)} ws :
  (sum_list_with f (filter P ws) ≤ sum_list_with f ws)%nat.
Proof.
  induction ws as [|y ws IH]; [done|]. rewrite filter_cons. case_decide; cbn [sum_list_with]; lia.
Qed.

Lemma sum_ext {A} (f g : A → nat) l :
  Forall (λ x, f x = g x) l → sum_list_with f l = sum_list_with g l.
Proof. induction 1 as [|x l Hx _ IH]; [done|]. cbn [sum_list_with]. by rewrite Hx, IH. Qed.

(** ** Callbacks and what they owe *)

(** A callback that refers to a running transaction. *)
Fixpoint valid (E : gmap N ExecContext) (k : Reply) : Prop :=
  match k with
  | ReplyPropagate _ k => valid E k
  | ReplyExec ctx _ _ => is_Some (E !! ctx)
  | _ => True
  end.

Lemma valid_plain E k : plain k = true → valid E k.
Proof. by induction k. Qed.

(** A later set of contexts: none has got another reply callback. *)
Definition extends (E E' : gmap N ExecContext) : Prop :=
  ∀ ctx e, E !! ctx = Some e → ∃ e', E' !! ctx = Some e' ∧ exec_on_reply e' = exec_on_reply e.

#[export] Instance extends_refl : Reflexive extends.
Proof. intros E ctx e He. by exists e. Qed.

#[export] Instance extends_trans : Transitive extends.
Proof.
  intros E1 E2 E3 H12 H23 ctx e He. destruct (H12 ctx e He) as (e2 & He2 & <-).
  destruct (H23 ctx e2 He2) as (e3 & He3 & Eq). by exists e3.
Qed.

Lemma valid_extends E E' k : extends E E' → valid E k → valid E' k.
Proof.
  intros HE. induction k as [| | |ctx]; simpl; auto. intros [e He].
  destruct (HE ctx e He) as (e' & -> & _). by eexists.
Qed.

(** Commands that a transaction may contain here.  EXEC is never queued; XRANGE
    and XREAD call their reply callback inside a [try], which catches the
    exceptions of the commands that follow in the transaction. *)
Definition quiet_type (t : CommandType) : bool :=
  match t with Exec | XRange | XRead => false | _ => true end.

Definition quiet (request : RespValue) : Prop :=
  ∀ cmd, parse_command request = Ok cmd → quiet_type (cmd_type cmd) = true.

Definition is_wait (t : Timer) : bool := match wait t with WaitPoll _ _ _ _ => true | _ => false end.

(** The timer of a blocked client. *)
Definition blocking_timer (t : N) (w : World) : Prop :=
  (t < w_next_timer w)%N ∧ ∀ timer, w_timers w !! t = Some timer → is_wait timer = false.

Lemma refines_nobody {C} (r : BlockingRegistry C) ws :
  registry_refines r ws → id_to_keys_ r = ∅ → ws = [].
Proof.
  intros Hr He. destruct ws as [|x ws]; [done|].
  assert (id_to_keys_ r !! w_id x = Some (w_keys x)) as E
    by (apply (refines_ids _ _ Hr); exists x; split; [left|done]).
  by rewrite He, lookup_empty in E.
Qed.

Lemma map_sum_ext {K A} `{Countable K} (f g : A → nat) (m : gmap K A) :
  map_Forall (λ _ x, f x = g x) m → map_sum f m = map_sum g m.
Proof.
  induction m as [|i x m Hi IH] using map_ind; intros Hm; [done|].
  apply map_Forall_insert in Hm as [Hx Hm]; [|done].
  by rewrite !map_sum_insert, !delete_id, Hx, IH by done.
Qed.

Lemma map_sum_zero {K A} `{Countable K} (m : gmap K A) : map_sum (λ _, O) m = O.
Proof.
  induction m as [|i x m Hi IH] using map_ind; [done|]. by rewrite map_sum_insert, delete_id.
Qed.

Section ledger.
Context (c : ConnId).

Fixpoint owns_direct (k : Reply) : nat :=
  match k with
  | ReplyTo c' => if bool_decide (c' = c) then 1 else 0
  | ReplyPropagate _ k => owns_direct k
  | _ => 0
  end.

(** How many answers to [c] a call of [k] leads to. *)
Fixpoint owns (E : gmap N ExecContext) (k : Reply) : nat :=
  match k with
  | ReplyTo c' => if bool_decide (c' = c) then 1 else 0
  | ReplyDiscard => 0
  | ReplyPropagate _ k => owns E k
  | ReplyExec ctx _ _ => from_option (λ e, owns_direct (exec_on_reply e)) O (E !! ctx)
  end.

Lemma owns_plain E k : plain k = true → owns E k = owns_direct k.
Proof. by induction k. Qed.

Lemma owns_extends E E' k : extends E E' → valid E k → owns E' k = owns E k.
Proof.
  intros HE. induction k as [| | |ctx]; simpl; auto. intros [e He].
  destruct (HE ctx e He) as (e' & He' & Eq). rewrite He, He'. simpl. by rewrite Eq.
Qed.

Definition answers (out : list Output) : nat :=
  length (List.filter (λ o, match o with Response c' _ => bool_decide (c' = c) | _ => false end) out).

Lemma answers_app out out' : answers (out ++ out') = (answers out + answers out')%nat.
Proof. unfold answers. by rewrite List.filter_app, length_app. Qed.

Lemma answers_posts (posts : list (ConnId * bytes)) :
  answers ((λ '(r, s), Propagated r s) <$> posts) = 0%nat.
Proof. by induction posts as [|[r s] posts IH]. Qed.

Definition wait_owns (E : gmap N ExecContext) (t : Timer) : nat :=
  match wait t with WaitPoll _ _ _ k => owns E k | _ => 0 end.

(** What a timer handler may rely on: the client it times out is the one
    that is registered under the id, if any is. *)
Definition timer_ok (w : World) (ws : list blocked) (xs : list reader) (t : Timer) : Prop :=
  match wait t with
  | BlpopTimeout id k => (id < next_id_ (w_blpop w))%N ∧ valid (w_execs w) k ∧
      Forall (λ x, w_id x = id → blpop_reply (w_callback x) = k) ws
  | XReadTimeout id k => (id < next_id_ (w_xread w))%N ∧ plain k = true ∧
      Forall (λ x, w_id x = id → xread_reply (w_callback x) = k) xs
  | WaitPoll _ _ _ k => valid (w_execs w) k
  end.

Definition reader_ok (w : World) (x : reader) : Prop :=
  plain (xread_reply (w_callback x)) = true ∧ NoDup (w_keys x) ∧
  blocking_timer (xread_timer (w_callback x)) w.

Definition waiter_ok (w : World) (x : blocked) : Prop :=
  valid (w_execs w) (blpop_reply (w_callback x)) ∧ blocking_timer (blpop_timer (w_callback x)) w.

Definition exec_quiet (e : ExecContext) : Prop :=
  plain (exec_on_reply e) = true ∧ Forall quiet (exec_commands e).

Definition debt (E : gmap N ExecContext) (timers : gmap N Timer) (ws : list blocked) (xs : list reader) : nat :=
  sum_list_with (λ x, owns E (blpop_reply (w_callback x))) ws +
  sum_list_with (λ x, owns E (xread_reply (w_callback x))) xs +
  map_sum (wait_owns E) timers.

(** The clients blocked in [w] are [ws] and [xs]; [n] answers have been given
    to [c] or are owed to it. *)
Record ledger (w : World) (ws : list blocked) (xs : list reader) (n : nat) : Prop := {
  l_blpop : registry_refines (w_blpop w) ws;
  l_xread : registry_refines (w_xread w) xs;
  l_waiters : Forall (waiter_ok w) ws;
  l_readers : Forall (reader_ok w) xs;
  l_execs : map_Forall (λ _, exec_quiet) (w_execs w);
  l_exec_fresh : ∀ i, (w_next_exec w ≤ i)%N → w_execs w !! i = None;
  l_queues : ∀ h, Forall quiet (queued_commands_ (tm_of h w));
  l_timer_fresh : timers_fresh w;
  l_timers : map_Forall (λ _, timer_ok w ws xs) (w_timers w);
  l_sum : (answers (w_out w) + debt (w_execs w) (w_timers w) ws xs)%nat = n;
}.

Definition holds (w : World) (n : nat) : Prop := ∃ ws xs, ledger w ws xs n.

(** *** Updates of the books *)

(** An update that leaves the callbacks alone, up to [m] new answers. *)
Record untouched (m : nat) (w w' : World) : Prop := {
  u_blpop : w_blpop w' = w_blpop w;
  u_xread : w_xread w' = w_xread w;
  u_timers : w_timers w' = w_timers w;
  u_next_timer : w_next_timer w' = w_next_timer w;
  u_execs : w_execs w' = w_execs w;
  u_next_exec : w_next_exec w' = w_next_exec w;
  u_queues : ∀ h, Forall quiet (queued_commands_ (tm_of h w)) → Forall quiet (queued_commands_ (tm_of h w'));
  u_answers : answers (w_out w') = (answers (w_out w) + m)%nat;
}.

Lemma ledger_untouched m w w' ws xs n :
  untouched m w w' → ledger w ws xs n → ledger w' ws xs (n + m).
Proof.
  intros [E1 E2 E3 E4 E5 E6 Hq Ha] [H1 H2 H3 H4 H5 H6 H7 H8 H9 H10].
  unfold timer_ok, waiter_ok, reader_ok, blocking_timer, timers_fresh in *.
  split; unfold timer_ok, waiter_ok, reader_ok, blocking_timer, timers_fresh;
    rewrite ?E1, ?E2, ?E3, ?E4, ?E5, ?E6; auto. lia.
Qed.

(** Running transactions that move on or are added. *)
Lemma debt_extends E E' w ws xs n :
  extends E E' → w_execs w = E → ledger w ws xs n →
  debt E' (w_timers w) ws xs = debt E (w_timers w) ws xs.
Proof.
  intros HE <- Hl. unfold debt. f_equal; [f_equal|].
  - apply sum_ext. eapply Forall_impl; [exact (l_waiters _ _ _ _ Hl)|].
    intros x [Hx _]. by apply owns_extends.
  - apply sum_ext. eapply Forall_impl; [exact (l_readers _ _ _ _ Hl)|].
    intros x [Hx _]. by rewrite !owns_plain.
  - apply map_sum_ext. intros i t Ht. pose proof (l_timers _ _ _ _ Hl _ _ Ht) as Hok.
    unfold wait_owns, timer_ok in *. destruct (wait t); [done..|]. by apply owns_extends.
Qed.

Lemma ledger_execs E' next w ws xs n :
  extends (w_execs w) E' → map_Forall (λ _, exec_quiet) E' →
  (∀ i, (next ≤ i)%N → E' !! i = None) → ledger w ws xs n → ledger (with_execs E' next w) ws xs n.
Proof.
  intros HE Hq Hf Hl. pose proof (debt_extends _ _ _ _ _ _ HE eq_refl Hl) as Hd.
  destruct Hl as [H1 H2 H3 H4 H5 H6 H7 H8 H9 H10]. split; try done.
  - eapply Forall_impl; [exact H3|]. intros x [Hv Ht]. split; [by eapply valid_extends|done].
  - intros i t Ht. specialize (H9 i t Ht). unfold timer_ok in *. cbn [w_execs with_execs w_blpop w_xread].
    destruct (wait t); [destruct H9 as (? & ? & ?); split_and!; try done|done|];
      by eapply valid_extends.
  - cbn [w_out w_execs w_timers with_execs]. by rewrite Hd.
Qed.

(** Timers. *)
Lemma ledger_drop_timer t timer w ws xs n :
  w_timers w !! t = Some timer → ledger w ws xs n →
  ∃ n0, n = (n0 + wait_owns (w_execs w) timer)%nat ∧
    ledger (with_timers (delete t (w_timers w)) (w_next_timer w) w) ws xs n0.
Proof.
  intros E [H1 H2 H3 H4 H5 H6 H7 H8 H9 H10].
  assert (∀ i, blocking_timer i w → blocking_timer i (with_timers (delete t (w_timers w)) (w_next_timer w) w)) as Hbt.
  { intros i [Hi Hbi]. split; [done|]. cbn. intros tm [_ Htm]%lookup_delete_Some. by apply Hbi. }
  eexists. split; cycle 1.
  - split; try done.
    + eapply Forall_impl; [exact H3|]. intros x [? ?]. split; auto.
    + eapply Forall_impl; [exact H4|]. intros x (? & ? & ?). split_and!; auto.
    + intros i Hi. cbn in *. rewrite lookup_delete_None. right. by apply H8.
    + cbn. by apply map_Forall_delete.
  - cbn [w_out w_execs w_timers with_timers]. rewrite <- H10. unfold debt.
    rewrite (map_sum_delete _ t (w_timers w)), E. cbn [from_option]. lia.
Qed.

Lemma ledger_cancel t w ws xs n :
  blocking_timer t w → ledger w ws xs n → ledger (cancel_timer t w).1 ws xs n.
Proof.
  intros [Ht Hb] Hl. unfold cancel_timer, modify. cbn [fst].
  destruct (w_timers w !! t) as [timer|] eqn:E; [|done]. destruct (fired timer); [done|].
  destruct (ledger_drop_timer t timer w ws xs n E Hl) as (n0 & -> & Hl0).
  specialize (Hb _ eq_refl). unfold wait_owns, is_wait in *.
  destruct (wait timer); [by rewrite Nat.add_0_r..|done].
Qed.

Lemma ledger_start timer w ws xs n :
  timer_ok w ws xs timer → ledger w ws xs n →
  ledger (start_timer timer w).1 ws xs (n + wait_owns (w_execs w) timer).
Proof.
  intros Ht [H1 H2 H3 H4 H5 H6 H7 H8 H9 H10].
  assert (∀ i, blocking_timer i w → blocking_timer i (start_timer timer w).1) as Hbt.
  { intros i [Hi Hbi]. split; [cbn; lia|]. cbn. intros tm. rewrite lookup_insert_ne by lia. apply Hbi. }
  split; try done.
  - eapply Forall_impl; [exact H3|]. intros x [? ?]. split; auto.
  - eapply Forall_impl; [exact H4|]. intros x (? & ? & ?). split_and!; auto.
  - intros i Hi. cbn in *. rewrite lookup_insert_ne by lia. apply H8. lia.
  - cbn. apply map_Forall_insert_2; done.
  - unfold start_timer. cbn [fst w_out w_execs w_timers with_timers]. rewrite <- H10. unfold debt.
    rewrite map_sum_insert, delete_id by (apply H8; lia). lia.
Qed.

(** Clients that block and leave. *)
Lemma sum_app_one {C} (f : waiter (C := C) → nat) ws x :
  sum_list_with f (ws ++ [x]) = (sum_list_with f ws + f x)%nat.
Proof. rewrite sum_list_with_app. simpl. lia. Qed.

Lemma ledger_leave_blpop x w ws xs n :
  x ∈ ws → ledger w ws xs n → ∃ n0, n = (n0 + owns (w_execs w) (blpop_reply (w_callback x)))%nat ∧
  ledger (with_blpop (unregister (w_id x) (w_blpop w)) w) (filter (λ y, w_id y ≠ w_id x) ws) xs n0.
Proof.
  intros Hx [H1 H2 H3 H4 H5 H6 H7 H8 H9 H10]. eexists. split; cycle 1.
  - split; try done; [by apply unregister_refines|by apply Forall_filter_keep|].
    intros i t Ht. specialize (H9 i t Ht). unfold timer_ok in *. cbn [w_execs with_blpop w_blpop w_xread].
    destruct (wait t); try done. destruct H9 as (? & ? & ?).
    rewrite unregister_next. split_and!; try done. by apply Forall_filter_keep.
  - cbn [w_out w_execs w_timers with_blpop]. rewrite <- H10. unfold debt.
    rewrite (sum_remove _ x ws) by (done || apply (refines_nodup _ _ H1)). lia.
Qed.

Lemma ledger_leave_xread x w ws xs n :
  x ∈ xs → ledger w ws xs n → ∃ n0, n = (n0 + owns (w_execs w) (xread_reply (w_callback x)))%nat ∧
  ledger (with_xread (unregister (w_id x) (w_xread w)) w) ws (filter (λ y, w_id y ≠ w_id x) xs) n0.
Proof.
  intros Hx [H1 H2 H3 H4 H5 H6 H7 H8 H9 H10]. eexists. split; cycle 1.
  - split; try done; [by apply unregister_refines|by apply Forall_filter_keep|].
    intros i t Ht. specialize (H9 i t Ht). unfold timer_ok in *. cbn [w_execs with_xread w_blpop w_xread].
    destruct (wait t); try done. destruct H9 as (? & ? & ?).
    rewrite unregister_next. split_and!; try done. by apply Forall_filter_keep.
  - cbn [w_out w_execs w_timers with_xread]. rewrite <- H10. unfold debt.
    rewrite (sum_remove _ x xs) by (done || apply (refines_nodup _ _ H2)). lia.
Qed.

(** The new client's id is not that of an older timer or an older client. *)
Lemma forall_snoc_id {C} (P : waiter (C := C) → Prop) (ws : list waiter) (x : waiter) (i : N) :
  (i < w_id x)%N → Forall (λ y, w_id y = i → P y) ws → Forall (λ y, w_id y = i → P y) (ws ++ [x]).
Proof. intros Hi Hws. apply Forall_app. split; [done|]. constructor; [lia|done]. Qed.

Lemma forall_fresh_id {C} (P : waiter (C := C) → Prop) (ws : list waiter) (x : waiter) (i : N) :
  Forall (λ y, (w_id y < i)%N) ws → P x → Forall (λ y, w_id y = i → P y) (ws ++ [x]).
Proof.
  intros Hws Hx. apply Forall_app. split; [|by repeat constructor].
  eapply Forall_impl; [exact Hws|]. simpl. lia.
Qed.

Lemma ledger_block_blpop keys k expiry w ws xs n :
  let id := next_id_ (w_blpop w) in
  let cb := mkBlpop k (w_next_timer w) in
  valid (w_execs w) k → ledger w ws xs n →
  ledger (start_timer (mkTimer expiry (BlpopTimeout id k) false) (register_blpop keys cb w).1).1
    (ws ++ [mkWaiter id keys cb]) xs (n + owns (w_execs w) k).
Proof.
  intros id cb Hk [H1 H2 H3 H4 H5 H6 H7 H8 H9 H10]. set (w' := (start_timer _ _).1).
  pose proof (register_refines _ ws keys cb H1) as [Hr _]. fold id in Hr.
  assert (∀ i, blocking_timer i w → blocking_timer i w') as Hbt.
  { intros i [Hi Hbi]. split; [cbn; lia|]. cbn. intros tm. rewrite lookup_insert_ne by lia. apply Hbi. }
  split; try done.
  - apply Forall_app. split; [eapply Forall_impl; [exact H3|]; intros x [? ?]; split; auto|].
    constructor; [|done]. split; [done|]. split; [cbn; lia|].
    cbn. intros tm. rewrite lookup_insert_eq. by intros [= <-].
  - eapply Forall_impl; [exact H4|]. intros x (? & ? & ?). split_and!; auto.
  - intros i Hi. cbn in *. rewrite lookup_insert_ne by lia. apply H8. lia.
  - cbn. apply map_Forall_insert_2.
    + cbn. split_and!; [lia|done|]. by apply forall_fresh_id; [apply (refines_fresh _ _ H1)|].
    + intros i t Ht. specialize (H9 i t Ht). unfold timer_ok in *. cbn. destruct (wait t); try done.
      destruct H9 as (? & ? & ?). split_and!; [lia|done|]. by apply forall_snoc_id.
  - unfold w', start_timer, register_blpop. cbn [register_callbacks fst w_out w_execs w_timers with_timers with_blpop].
    rewrite <- H10. unfold debt. rewrite map_sum_insert, delete_id, sum_app_one by (apply H8; cbn; lia).
    unfold wait_owns at 1. cbn [wait w_callback blpop_reply cb]. lia.
Qed.

Lemma ledger_block_xread keys ids k expiry w ws xs n :
  let id := next_id_ (w_xread w) in
  let cb := mkXRead k (w_next_timer w) keys ids in
  plain k = true → NoDup keys → ledger w ws xs n →
  ledger (start_timer (mkTimer expiry (XReadTimeout id k) false) (register_xread keys cb w).1).1
    ws (xs ++ [mkWaiter id keys cb]) (n + owns (w_execs w) k).
Proof.
  intros id cb Hk Hnd [H1 H2 H3 H4 H5 H6 H7 H8 H9 H10]. set (w' := (start_timer _ _).1).
  pose proof (register_refines _ xs keys cb H2) as [Hr _]. fold id in Hr.
  assert (∀ i, blocking_timer i w → blocking_timer i w') as Hbt.
  { intros i [Hi Hbi]. split; [cbn; lia|]. cbn. intros tm. rewrite lookup_insert_ne by lia. apply Hbi. }
  split; try done.
  - eapply Forall_impl; [exact H3|]. intros x (? & ?). split_and!; auto.
  - apply Forall_app. split; [eapply Forall_impl; [exact H4|]; intros x (? & ? & ?); split_and!; auto|].
    constructor; [|done]. split_and!; [done|done|]. split; [cbn; lia|].
    cbn. intros tm. rewrite lookup_insert_eq. by intros [= <-].
  - intros i Hi. cbn in *. rewrite lookup_insert_ne by lia. apply H8. lia.
  - cbn. apply map_Forall_insert_2.
    + cbn. split_and!; [lia|done|]. by apply forall_fresh_id; [apply (refines_fresh _ _ H2)|].
    + intros i t Ht. specialize (H9 i t Ht). unfold timer_ok in *. cbn. destruct (wait t); try done.
      destruct H9 as (? & ? & ?). split_and!; [lia|done|]. by apply forall_snoc_id.
  - unfold w', start_timer, register_xread. cbn [register_callbacks fst w_out w_execs w_timers with_timers with_xread].
    rewrite <- H10. unfold debt. rewrite map_sum_insert, delete_id, sum_app_one by (apply H8; cbn; lia).
    unfold wait_owns at 1. cbn [wait w_callback xread_reply cb]. lia.
Qed.

(** ** Balanced computations *)

(** When [m] returns, it has called or kept the callback [ko] once, and no
    other callback was lost or called twice.  (An exception that leaves a
    command ends the server, and with it all callbacks.) *)
Definition balanced_at {A} (ko : option Reply) (m : M A) (w : World) : Prop := ∀ n w' a,
  holds w n → from_option (valid (w_execs w)) True ko → m w = (w', Ok a) →
  extends (w_execs w) (w_execs w') ∧ holds w' (n + from_option (owns (w_execs w)) O ko).

Definition balanced {A} (ko : option Reply) (m : M A) : Prop := ∀ w, balanced_at ko m w.

Lemma balanced_untouched {A} (m : M A) :
  (∀ w w' a, m w = (w', Ok a) → untouched 0 w w') → balanced None m.
Proof.
  intros Hm w n w' a (ws & xs & Hl) _ E. specialize (Hm _ _ _ E). split.
  - by rewrite (u_execs _ _ _ Hm).
  - exists ws, xs. by eapply ledger_untouched.
Qed.

Lemma untouched_refl w : untouched 0 w w.
Proof. by split. Qed.

Lemma balanced_ret {A} (a : A) : balanced None (mret a).
Proof. apply balanced_untouched. intros w w' ? [= <- _]. apply untouched_refl. Qed.

Lemma balanced_gets {A} (f : World → A) : balanced None (gets f).
Proof. apply balanced_untouched. intros w w' ? [= <- _]. apply untouched_refl. Qed.

Lemma balanced_lift {A} (o : outcome A) : balanced None (lift o).
Proof. apply balanced_untouched. intros w w' ? [= <- _]. apply untouched_refl. Qed.

Lemma balanced_stop {A} ko (o : outcome A) : (∀ a, o ≠ Ok a) → balanced ko (lift o).
Proof. intros Ho w n w' a _ _ [= _ E]. by destruct (Ho a). Qed.

Lemma balanced_bind {A B} ko (m : M A) (f : A → M B) :
  balanced None m → (∀ a, balanced ko (f a)) → balanced ko (m ≫= f).
Proof.
  intros Hm Hf w n w' b0 Hw Hk E. unfold mbind, M_bind in E.
  destruct (m w) as [w1 [a| | |]] eqn:Em; try done.
  destruct (Hm w n w1 a Hw I Em) as [He Hr]. cbn [from_option] in Hr. rewrite Nat.add_0_r in Hr.
  assert (from_option (valid (w_execs w1)) True ko) as Hk1
    by (destruct ko; simpl in *; [by eapply valid_extends|done]).
  destruct (Hf a w1 n w' b0 Hr Hk1 E) as [He1 Hr1]. split; [by etrans|].
  assert (from_option (owns (w_execs w1)) O ko = from_option (owns (w_execs w)) O ko) as <-
    by (destruct ko; simpl in *; [by apply owns_extends|done]).
  done.
Qed.

(** The callback is used first. *)
Lemma balanced_bind_first {A B} ko (m : M A) (f : A → M B) :
  balanced ko m → (∀ a, balanced None (f a)) → balanced ko (m ≫= f).
Proof.
  intros Hm Hf w n w' b0 Hw Hk E. unfold mbind, M_bind in E.
  destruct (m w) as [w1 [a| | |]] eqn:Em; try done.
  destruct (Hm w n w1 a Hw Hk Em) as [He Hr].
  destruct (Hf a w1 _ w' b0 Hr I E) as [He1 Hr1]. split; [by etrans|].
  cbn [from_option] in Hr1. by rewrite Nat.add_0_r in Hr1.
Qed.

Lemma balanced_if {A} ko (cond : bool) (m m' : M A) :
  balanced ko m → balanced ko m' → balanced ko (if cond then m else m').
Proof. by destruct cond. Qed.

(** A [try] block that throws before it has changed anything. *)
Definition clean {A} (m : M A) : Prop := ∀ w w' e, m w = (w', Throw e) → w' = w.

Lemma clean_bind {A B} (m : M A) (f : A → M B) :
  (∀ w, (m w).1 = w) → (∀ a, clean (f a)) → clean (m ≫= f).
Proof.
  intros Hm Hf w w' e E. unfold mbind, M_bind in E. specialize (Hm w).
  destruct (m w) as [w1 [a| | |]]; simpl in Hm; subst w1; try done; [by eapply Hf|by injection E].
Qed.

Lemma balanced_try {A} ko (m : M A) (handler : exn → M A) :
  clean m → balanced ko m → (∀ e, balanced ko (handler e)) → balanced ko (try_catch m handler).
Proof.
  intros Hc Hm Hh w n w' a Hw Hk E. unfold try_catch in E.
  destruct (m w) as [w1 [a1|e| |]] eqn:Em; try done.
  - injection E as -> ->. by eapply Hm.
  - apply Hc in Em as ->. by eapply Hh.
Qed.

(** ** Operations on the state *)

Lemma balanced_on_store {A} (f : Data → A * Data) : balanced None (on_store f).
Proof.
  apply balanced_untouched. intros w w' a E. unfold on_store in E. destruct (f (w_store w)).
  injection E as <- _. by split.
Qed.

Lemma balanced_on_store_outcome {A} (f : Data → Data * outcome A) : balanced None (on_store_outcome f).
Proof.
  apply balanced_untouched. intros w w' a E. unfold on_store_outcome in E. destruct (f (w_store w)).
  injection E as <- _. by split.
Qed.

Lemma balanced_on_tm h f :
  (∀ tm wm, Forall quiet (queued_commands_ tm) → Forall quiet (queued_commands_ (f tm wm).1)) →
  balanced None (on_tm h f).
Proof.
  intros Hf. apply balanced_untouched. intros w w' a E. unfold on_tm, modify in E.
  specialize (Hf (tm_of h w) (w_watch w)). destruct (f (tm_of h w) (w_watch w)) as [tm wm].
  injection E as <- _. split; try done. intros h' Hq.
  change (tm_of h' (with_watch wm (set_tm h tm w))) with (tm_of h' (set_tm h tm w)).
  rewrite tm_of_set. case_decide as E; [subst; by apply Hf|done].
Qed.

Lemma fold_mark_books l w :
  let w' := fold_left mark_dirty_of l w in
  untouched 0 w w'.
Proof.
  revert w. induction l as [|h l IH]; intros w; [apply untouched_refl|]. cbn [fold_left].
  destruct (IH (mark_dirty_of w h)) as [E1 E2 E3 E4 E5 E6 Hq Ha]. split; try done. intros h' Hh.
  apply Hq. unfold mark_dirty_of. rewrite tm_of_set. by case_decide as E; [rewrite E in Hh|].
Qed.

Lemma balanced_notify key : balanced None (notify key).
Proof. apply balanced_untouched. intros w w' a [= <- _]. apply fold_mark_books. Qed.

Lemma posts_untouched w posts r :
  untouched 0 w (with_out (w_out w ++ ((λ '(c, s), Propagated c s) <$> posts)) (with_replicas r w)).
Proof. split; try done. cbn [w_out with_out]. by rewrite answers_app, answers_posts. Qed.

Lemma balanced_propagate data : balanced None (propagate_all data).
Proof.
  apply balanced_untouched. intros w w' a E. unfold propagate_all, modify in E.
  destruct (propagate data (w_replicas w)). injection E as <- _. apply posts_untouched.
Qed.

Lemma balanced_getack : balanced None request_getack_all.
Proof.
  apply balanced_untouched. intros w w' a E. unfold request_getack_all, modify in E.
  destruct (request_getack (w_replicas w)). injection E as <- _. apply posts_untouched.
Qed.

Lemma balanced_wait_timer expiry target numreplicas deadline k :
  balanced (Some k) (start_timer (mkTimer expiry (WaitPoll target numreplicas deadline k) false);; mret tt).
Proof.
  intros w n w' a (ws & xs & Hl) Hk [= <- _]. split; [done|]. exists ws, xs.
  by apply (ledger_start (mkTimer expiry (WaitPoll target numreplicas deadline k) false)).
Qed.

Lemma balanced_block_blpop keys expiry k :
  balanced (Some k) (timer ← gets w_next_timer; id ← register_blpop keys (mkBlpop k timer);
    start_timer (mkTimer expiry (BlpopTimeout id k) false);; mret tt).
Proof.
  intros w n w' a (ws & xs & Hl) Hk [= <- _]. split; [done|]. do 2 eexists.
  by apply ledger_block_blpop.
Qed.

Lemma balanced_block_xread keys ids expiry k :
  plain k = true → NoDup keys →
  balanced (Some k) (timer ← gets w_next_timer; id ← register_xread keys (mkXRead k timer keys ids);
    start_timer (mkTimer expiry (XReadTimeout id k) false);; mret tt).
Proof.
  intros Hp Hnd w n w' a (ws & xs & Hl) Hk [= <- _]. split; [done|]. do 2 eexists.
  by apply ledger_block_xread.
Qed.

(** ** Serving blocked clients *)

Lemma deliver_untouched k s w : plain k = true → untouched (owns_direct k) w (deliver k s w).
Proof.
  induction k as [c'| |raw k IH|]; intros Hp; [| |specialize (IH Hp)|done]; cbn [deliver owns_direct].
  - split; try done. cbn [w_out with_out]. rewrite answers_app. unfold answers at 2. simpl.
    by case_bool_decide.
  - apply untouched_refl.
  - unfold propagate_all, modify. cbn [fst]. destruct (propagate raw _) as [posts r].
    destruct IH as [E1 E2 E3 E4 E5 E6 Hq Ha]. split; try done. cbn [w_out with_out].
    by rewrite answers_app, answers_posts, Nat.add_0_r.
Qed.

Lemma cancel_execs t w : w_execs (cancel_timer t w).1 = w_execs w.
Proof. unfold cancel_timer, modify. simpl. by repeat case_match. Qed.

Section commands.
Context (call : Task → M unit) (redis_version : bytes).
Context (Hreply : ∀ k s, balanced (Some k) (call (TReply k s))).
Context (Hserve : ∀ key, balanced None (call (TServeBlpop key))).
Context (Hnext : ∀ ctx t req, balanced (Some (ReplyExec ctx t req)) (call (TRunNext ctx))).
Context (Hplain : ∀ k s w, plain k = true →
  call (TReply k s) w = (deliver k s w, Ok tt) ∨ (call (TReply k s) w).2 = NoFuel).

(** One reader gets its answer and leaves. *)
Lemma serve_reader_ledger x w ws xs n w' a :
  x ∈ xs → ledger w ws xs n →
  (unregister_xread (w_id x);; xread_callback call (w_callback x)) w = (w', Ok a) →
  w_execs w' = w_execs w ∧ ledger w' ws (filter (λ y, w_id y ≠ w_id x) xs) n.
Proof.
  intros Hx Hl E. pose proof (l_readers _ _ _ _ Hl) as Hrs. rewrite Forall_forall in Hrs.
  destruct (Hrs x Hx) as (Hp & _ & Ht). destruct (ledger_leave_xread x w ws xs n Hx Hl) as (n0 & -> & Hl0).
  unfold unregister_xread in E. rewrite bind_modify in E. set (w0 := with_xread _ w) in *.
  unfold xread_callback in E. apply (ledger_cancel _ _ _ _ _ (Ht : blocking_timer _ w0)) in Hl0.
  pose proof (cancel_execs (xread_timer (w_callback x)) w0) as Ee.
  set (w1 := (cancel_timer (xread_timer (w_callback x)) w0).1) in *.
  rewrite (bind_Ok (cancel_timer (xread_timer (w_callback x))) _ w0 w1 tt eq_refl), bind_gets in E.
  unfold mbind, M_bind, lift in E. destruct (xread _ _ _) as [results| | |]; try done.
  destruct (Hplain (xread_reply (w_callback x)) (format_stream_entries results) w1 Hp) as [E1|E1];
    [|by rewrite E in E1]. rewrite E1 in E. injection E as <- _.
  pose proof (deliver_untouched (xread_reply (w_callback x)) (format_stream_entries results) w1 Hp) as Hu.
  split; [by rewrite (u_execs _ _ _ Hu), Ee|]. rewrite owns_plain by done.
  by eapply ledger_untouched.
Qed.

Lemma serve_readers_ledger l : ∀ w ws xs n w' a,
  (∀ x, x ∈ l → x ∈ xs) → NoDup (w_id <$> l) → ledger w ws xs n →
  serve_readers call (registration <$> l) w = (w', Ok a) →
  w_execs w' = w_execs w ∧ holds w' n.
Proof.
  induction l as [|x l IH]; intros w ws xs n w' a Hin Hnd Hl E.
  { injection E as <- _. split; [done|]. by exists ws, xs. }
  rewrite fmap_cons in E. rewrite fmap_cons in Hnd. cbn [serve_readers] in E. apply NoDup_cons in Hnd as [Hx Hnd].
  assert ((unregister_xread (w_id x);; xread_callback call (w_callback x);;
    serve_readers call (registration <$> l)) w =
    ((unregister_xread (w_id x);; xread_callback call (w_callback x));;
     serve_readers call (registration <$> l)) w) as E' by done.
  cbn [reg_id registration reg_callback] in E. rewrite E' in E. unfold mbind at 1, M_bind at 1 in E.
  destruct ((unregister_xread (w_id x);; xread_callback call (w_callback x)) w) as [w1 [[]| | |]] eqn:E1; try done.
  apply (serve_reader_ledger x w ws xs n) in E1 as [Ee Hl1]; [|apply Hin; left|done].
  eapply IH in E as [-> Hh]; [by rewrite Ee| |done|exact Hl1].
  intros y Hy. apply list_elem_of_filter. split; [|apply Hin; by right].
  intros Heq. apply Hx. rewrite <- Heq. by apply list_elem_of_fmap_2.
Qed.

Lemma balanced_serve_xread key : balanced None (serve_xread_waiters call key).
Proof.
  intros w n w' a (ws & xs & Hl) _ E. unfold serve_xread_waiters in E. rewrite bind_gets in E.
  unfold registry_find in E. rewrite (refines_callbacks _ _ (l_xread _ _ _ _ Hl)), default_queue_repr in E.
  rewrite queue_for_readers in E by (eapply Forall_impl; [exact (l_readers _ _ _ _ Hl)|]; by intros x (_ & ? & _)).
  cbn [from_option]. rewrite Nat.add_0_r.
  eapply serve_readers_ledger in E as [-> Hh]; [done| | |exact Hl].
  - by intros x [_ Hx]%list_elem_of_filter.
  - apply NoDup_fmap_filter, (refines_nodup _ _ (l_xread _ _ _ _ Hl)).
Qed.

Lemma balanced_serve_blpop key : balanced None (serve_blpop_waiters call key).
Proof.
  intros w n w' a Hw _ E. unfold serve_blpop_waiters in E. rewrite bind_gets in E.
  destruct (registry_find key (w_blpop w)) as [[|reg rest]|] eqn:Ef;
    [by eapply (balanced_ret tt) in E| |by eapply (balanced_ret tt) in E].
  rewrite bind_on_store in E. set (w1 := with_store _ w) in E.
  assert (holds w1 n) as (ws & xs & Hl).
  { destruct Hw as (ws & xs & Hl). exists ws, xs. rewrite <- (Nat.add_0_r n).
    eapply ledger_untouched; [|exact Hl]. by split. }
  destruct (lpop key 1 (w_store w)).1 as [[|value vs]|].
  1,3: injection E as <- _; cbn [from_option]; rewrite Nat.add_0_r; split; [done|by exists ws, xs].
  destruct (registry_head_waiter key _ ws reg rest (l_blpop _ _ _ _ Hl) Ef) as (x & Hx & ->).
  pose proof (l_waiters _ _ _ _ Hl) as Hws. rewrite Forall_forall in Hws. destruct (Hws x Hx) as [Hv Ht].
  destruct (ledger_leave_blpop x w1 ws xs n Hx Hl) as (n0 & -> & Hl0).
  cbn [reg_id reg_callback] in E. unfold unregister_blpop in E. rewrite bind_modify in E.
  set (w2 := with_blpop _ w1) in *. apply (ledger_cancel _ _ _ _ _ (Ht : blocking_timer _ w2)) in Hl0.
  unfold blpop_callback in E. pose proof (cancel_execs (blpop_timer (w_callback x)) w2) as Ee.
  set (w3 := (cancel_timer (blpop_timer (w_callback x)) w2).1) in *.
  assert (((call (TReply (blpop_reply (w_callback x)) (key_value_reply key value)));;
    call (TServeBlpop key)) w3 = (w', Ok a)) as E' by (exact E). clear E.
  assert (balanced (Some (blpop_reply (w_callback x)))
    (call (TReply (blpop_reply (w_callback x)) (key_value_reply key value));; call (TServeBlpop key))) as Hb
    by (by apply balanced_bind_first).
  eapply Hb in E'; [|by exists (filter (λ y, w_id y ≠ w_id x) ws), xs|by cbn [from_option]; rewrite Ee].
  cbn [from_option] in *. by rewrite Ee, Nat.add_0_r in *.
Qed.

(** ** Commands *)

Lemma balanced_on_tm_idle h f :
  (∀ tm wm, queued_commands_ (f tm wm).1 = queued_commands_ tm ∨ queued_commands_ (f tm wm).1 = []) →
  balanced None (on_tm h f).
Proof.
  intros Hf. apply balanced_on_tm. intros tm wm Hq. destruct (Hf tm wm) as [-> | ->]; [done|constructor].
Qed.

Lemma watch_queue h keys tm wm :
  queued_commands_ (fold_left (watch_one h) keys (tm, wm)).1 = queued_commands_ tm.
Proof.
  revert tm wm. induction keys as [|key keys IH]; intros tm wm; [done|]. cbn [fold_left].
  assert (queued_commands_ (watch_one h (tm, wm) key).1 = queued_commands_ tm) as <-.
  { unfold watch_one, watch_key. destruct (watched_keys_ tm !! key) eqn:E; [done|].
    destruct (watch key h wm). simpl. unfold associate_watch_id. by case_match. }
  destruct (watch_one h (tm, wm) key) as [tm1 wm1]. apply IH.
Qed.

Lemma balanced_begin h : balanced None (on_tm h (λ tm wm, (begin tm, wm))).
Proof. apply balanced_on_tm_idle. by right. Qed.

Lemma balanced_clear h : balanced None (on_tm h clear_watches).
Proof. apply balanced_on_tm_idle. by left. Qed.

Lemma balanced_reset h : balanced None (on_tm h reset).
Proof. apply balanced_on_tm_idle. by right. Qed.

Lemma balanced_watch h keys : balanced None (on_tm h (λ tm wm, fold_left (watch_one h) keys (tm, wm))).
Proof. apply balanced_on_tm_idle. intros. left. apply watch_queue. Qed.

Create HintDb balanced.
Hint Resolve balanced_ret balanced_gets balanced_lift balanced_on_store balanced_on_store_outcome
  balanced_notify balanced_propagate balanced_getack balanced_wait_timer balanced_block_blpop
  balanced_begin balanced_clear balanced_reset balanced_watch balanced_serve_xread : balanced.
Hint Resolve Hreply Hserve : balanced.

Ltac balance :=
  repeat first
    [ progress intros
    | solve [auto 2 with balanced]
    | simple apply balanced_stop; solve [done]
    | simple apply balanced_bind
    | simple apply balanced_if
    | case_match ].

Lemma balanced_blpop_immediate keys : balanced None (blpop_immediate keys).
Proof. induction keys as [|key keys IH]; cbn [blpop_immediate]; balance. Qed.

Lemma plain_clean k s : plain k = true → clean (call (TReply k s)).
Proof. intros Hk w w' e E. by destruct (Hplain k s w Hk) as [E'|E']; rewrite E in E'. Qed.

Lemma balanced_xrange cmd k : plain k = true → balanced (Some k) (execute_xrange call cmd k).
Proof.
  intros Hk. unfold execute_xrange, arg. balance. apply balanced_try; [|balance..].
  apply clean_bind; [done|intros d]. apply clean_bind; [done|intros es]. by apply plain_clean.
Qed.

Lemma clean_setup_xread parsed ids k : clean (setup_xread_blocking parsed ids k).
Proof. unfold setup_xread_blocking. apply clean_bind; [done|intros now]. by apply clean_bind; [|intros e]. Qed.

Lemma balanced_setup_xread parsed ids k :
  plain k = true → NoDup (keys_ parsed) → balanced (Some k) (setup_xread_blocking parsed ids k).
Proof.
  intros Hk Hnd. unfold setup_xread_blocking. apply balanced_bind; [balance|intros now].
  apply balanced_bind; [balance|intros e]. by apply balanced_block_xread.
Qed.

Lemma balanced_xread cmd k :
  plain k = true → (∀ parsed, parse_xread_args cmd = Ok parsed → NoDup (keys_ parsed)) →
  balanced (Some k) (execute_xread call cmd k).
Proof.
  intros Hk Hnd w. unfold execute_xread, mbind at 1, M_bind at 1, lift at 1.
  destruct (parse_xread_args cmd) as [parsed| | |]; [|done..]. specialize (Hnd parsed eq_refl).
  apply balanced_if; [apply Hreply|]. apply balanced_bind; [balance|intros d].
  apply balanced_bind; [balance|intros ids]. apply balanced_try; [| |balance].
  - apply clean_bind; [done|intros results]. repeat case_match; try (by apply plain_clean).
    apply clean_setup_xread.
  - apply balanced_bind; [balance|intros results]. repeat apply balanced_if; [apply Hreply..|].
    by apply balanced_setup_xread.
Qed.

(** EXEC keeps its callback in the context of the transaction. *)
Lemma balanced_exec h k : plain k = true → balanced (Some k) (execute_exec call h k).
Proof.
  intros Hk w n w' a Hw Hv E. unfold execute_exec in E. rewrite bind_gets in E. set (tm := tm_of (h_id h) w) in E.
  destruct (is_active tm); cbn [negb] in E; [|by eapply Hreply].
  destruct (is_dirty tm).
  { assert (balanced (Some k) (on_tm (h_id h) reset;; call (TReply k null_array))) as H by balance.
    by eapply H. }
  cbn [pop_queued_commands fst] in E. set (popped := on_tm _ _) in E.
  assert (balanced None popped) as Hb by (apply balanced_on_tm_idle; by right).
  set (w1 := (popped w).1).
  assert (popped w = (w1, Ok tt)) as Epop by done. rewrite (bind_Ok _ _ _ _ _ Epop) in E.
  destruct (Hb _ _ _ _ Hw I Epop) as [_ Hw1]. cbn [from_option] in Hw1. rewrite Nat.add_0_r in Hw1.
  assert (w_execs w1 = w_execs w) as Ee.
  { unfold w1, popped, on_tm, modify. cbn [fst]. by destruct (reset _ _). }
  rewrite <- Ee. rewrite <- Ee in Hv. case_bool_decide; [by eapply Hreply|].
  destruct Hw as (ws0 & xs0 & Hl0). pose proof (l_queues _ _ _ _ Hl0 (h_id h) : Forall quiet (queued_commands_ tm)) as Hq.
  destruct Hw1 as (ws & xs & Hl). set (c0 := mkExec 0 _ _ h k) in E. clearbody w1. clear Hl0 Epop Ee.
  unfold new_exec, mbind, M_bind in E. set (w2 := with_execs _ _ w1) in E.
  assert (w_execs w1 !! w_next_exec w1 = None) as Hnone by (apply (l_exec_fresh _ _ _ _ Hl); lia).
  assert (extends (w_execs w1) (w_execs w2)) as Hx.
  { intros ctx e He. exists e. split; [|done]. cbn. rewrite lookup_insert_ne; [done|]. intros <-. congruence. }
  assert (ledger w2 ws xs n) as Hl2.
  { apply ledger_execs; [done| | |done].
    - apply map_Forall_insert_2; [by split|apply (l_execs _ _ _ _ Hl)].
    - intros i Hi. rewrite lookup_insert_ne by lia. apply (l_exec_fresh _ _ _ _ Hl). lia. }
  assert (w_execs w2 !! w_next_exec w1 = Some c0) as Hc by (cbn; by rewrite lookup_insert_eq).
  destruct (Hnext (w_next_exec w1) Ping (mkResp Array [] []) w2 n w' a) as [Hx' Hh];
    [by exists ws, xs|by eexists|done|].
  split; [by etrans|]. cbn [from_option owns] in Hh |- *. rewrite Hc in Hh. cbn [from_option] in Hh.
  by rewrite owns_plain.
Qed.

(** A command of a transaction, or one that is executed at once. *)
Definition fits (cmd : Command) (k : Reply) : Prop :=
  quiet_type (cmd_type cmd) = true ∨
  plain k = true ∧ (cmd_type cmd = XRead → ∀ parsed, parse_xread_args cmd = Ok parsed → NoDup (keys_ parsed)).

Lemma balanced_execute h cmd k body :
  fits cmd k → execute redis_version call h cmd k = Some body → balanced (Some k) body.
Proof.
  pose proof balanced_blpop_immediate. rewrite execute_table. unfold command_table, fits.
  destruct (h_kind h), (cmd_type cmd); intros Hfits [= <-];
    first [ destruct Hfits as [?|[? ?]]; [done|];
            first [by apply balanced_xrange|by apply balanced_xread; auto|by apply balanced_exec]
          | unfold execute_ping, execute_info, execute_echo, execute_set, execute_get, execute_type,
              execute_incr, execute_rpush, execute_lpush, execute_lrange, execute_llen, execute_lpop,
              execute_blpop, execute_xadd, execute_watch, execute_unwatch,
              execute_wait, execute_multi, execute_discard, execute_replconf, execute_psync,
              wait_poll, arg; balance ].
Qed.

(** ** Transactions that go on *)

Lemma advanced_holds ctx res e w n :
  w_execs w !! ctx = Some e → holds w n →
  extends (w_execs w) (w_execs (advanced ctx res e w)) ∧ holds (advanced ctx res e w) n.
Proof.
  intros He (ws & xs & Hl). set (E' := w_execs (advanced ctx res e w)).
  assert (extends (w_execs w) E') as Hx.
  { intros i e0 He0. unfold E'. cbn. rewrite lookup_insert. case_decide as Hi; [|by exists e0].
    subst i. rewrite He in He0. injection He0 as <-. by eexists. }
  split; [done|]. exists ws, xs. apply ledger_execs; [done| | |done].
  - apply map_Forall_insert_2; [|apply (l_execs _ _ _ _ Hl)]. exact (l_execs _ _ _ _ Hl _ _ He).
  - intros i Hi. rewrite lookup_insert_None. pose proof (l_exec_fresh _ _ _ _ Hl i Hi). split; [done|congruence].
Qed.

Lemma balanced_advance (m : M unit) (f : ExecContext → World → World) ctx t req res :
  (∀ e w, untouched 0 w (f e w)) →
  (∀ w, m w = match w_execs w !! ctx with
              | None => (w, UB)
              | Some e => if bool_decide (exec_index e < length (exec_results e))%nat
                          then call (TRunNext ctx) (advanced ctx res e (f e w))
                          else (w, Throw (range_check (exec_index e) (length (exec_results e))))
              end) →
  balanced (Some (ReplyExec ctx t req)) m.
Proof.
  intros Hf Hm w n w' a (ws & xs & Hl) Hk E. rewrite Hm in E.
  destruct (w_execs w !! ctx) as [e|] eqn:He; [|done]. case_bool_decide; [|done].
  specialize (Hf e w). pose proof (u_execs _ _ _ Hf) as Ee.
  apply (ledger_untouched _ _ _ _ _ _ Hf) in Hl. rewrite Nat.add_0_r in Hl.
  destruct (advanced_holds ctx res e (f e w) n) as [Hx Hh]; [by rewrite Ee|by exists ws, xs|].
  rewrite Ee in Hx. set (w1 := advanced ctx res e (f e w)) in *.
  assert (valid (w_execs w1) (ReplyExec ctx t req)) as Hv by (by eapply valid_extends).
  destruct (Hnext ctx t req w1 n w' a Hh Hv E) as [Hx' Hh'].
  split; [by etrans|]. cbn [from_option] in *. by rewrite (owns_extends _ _ _ Hx Hk) in Hh'.
Qed.

Lemma propagates_untouched t req e w : untouched 0 w (exec_propagates t req e w).
Proof.
  unfold exec_propagates. case_match; [|apply untouched_refl]. unfold propagate_all, modify. cbn [fst].
  destruct (propagate _ _). apply posts_untouched.
Qed.

Lemma balanced_exec_callback ctx t req res :
  balanced (Some (ReplyExec ctx t req)) (exec_callback call ctx t req res).
Proof.
  apply (balanced_advance _ (exec_propagates t req) ctx t req res);
    [intros; apply propagates_untouched|intros; apply exec_callback_eq].
Qed.

Lemma balanced_run_next ctx t req :
  balanced (Some (ReplyExec ctx t req)) (run_next call (execute redis_version call) ctx).
Proof.
  intros w n w' a Hw Hk E. unfold run_next in E. unfold mbind at 1, M_bind at 1, get_exec in E.
  destruct (w_execs w !! ctx) as [e|] eqn:He; [|done].
  destruct Hw as (ws & xs & Hl). destruct (l_execs _ _ _ _ Hl _ _ He) as [Hp Hq].
  assert (∀ t' req', owns (w_execs w) (ReplyExec ctx t' req') = owns_direct (exec_on_reply e)) as Ho
    by (intros; cbn; by rewrite He).
  case_bool_decide.
  { eapply Hreply in E; [|by exists ws, xs|by apply valid_plain]. cbn [from_option] in E |- *.
    by rewrite Ho, <- (owns_plain (w_execs w) _ Hp). }
  unfold mbind at 1, M_bind at 1, lift at 1 in E. destruct (exec_commands e !! exec_index e) as [next_req|] eqn:En; [|done].
  unfold mbind at 1, M_bind at 1, lift at 1 in E. destruct (parse_command next_req) as [next_cmd| | |] eqn:Ep; try done.
  assert (quiet_type (cmd_type next_cmd) = true) as Hquiet
    by (rewrite Forall_lookup in Hq; exact (Hq _ _ En next_cmd Ep)).
  set (k := ReplyExec ctx (cmd_type next_cmd) next_req) in E.
  assert (∀ m : M unit, balanced (Some k) m → m w = (w', Ok a) →
    extends (w_execs w) (w_execs w') ∧ holds w' (n + from_option (owns (w_execs w)) 0 (Some (ReplyExec ctx t req)))%nat)
    as Hdone.
  { intros m Hm Em. eapply Hm in Em; [|by exists ws, xs|by exists e]. cbn [from_option] in *.
    unfold k in Em. by rewrite Ho in Em |- *. }
  destruct (execute _ _ _ _ _) as [body|] eqn:Eb.
  - apply (Hdone body); [|done]. eapply balanced_execute; [by left|done].
  - eapply Hdone; [|exact E].
    apply (balanced_advance _ (λ _ w, w) _ _ _ (unknown_command (cmd_name next_cmd)));
      [intros; apply untouched_refl|intros; apply advance_eq].
Qed.
End commands.

(** ** Callbacks, requests and timers *)

Lemma run_plain version fuel k s w :
  plain k = true →
  run version fuel (TReply k s) w = (deliver k s w, Ok tt) ∨ (run version fuel (TReply k s) w).2 = NoFuel.
Proof.
  revert k w. induction fuel as [|fuel IH]; intros k w Hk; [by right|].
  destruct k as [c'| |raw k|]; [by left..| |done]. cbn [run run_task].
  unfold mbind, M_bind. destruct (IH k w Hk) as [E|E].
  - left. by rewrite E.
  - right. destruct (run version fuel (TReply k s) w) as [w1 r]. simpl in E. by subst r.
Qed.

Lemma run_balanced version fuel :
  (∀ k s, balanced (Some k) (run version fuel (TReply k s))) ∧
  (∀ key, balanced None (run version fuel (TServeBlpop key))) ∧
  (∀ ctx t req, balanced (Some (ReplyExec ctx t req)) (run version fuel (TRunNext ctx))).
Proof.
  induction fuel as [|fuel (IHr & IHs & IHn)]; [split_and!; intros; by apply balanced_stop|].
  pose proof (run_plain version fuel) as Hp. cbn [run]. split_and!.
  - intros [c'| |raw k|ctx t req] s; cbn [run_task].
    + intros w n w' a (ws & xs & Hl) _ [= <- _]. split; [done|]. exists ws, xs.
      exact (ledger_untouched _ _ _ _ _ _ (deliver_untouched (ReplyTo c') s w eq_refl) Hl).
    + intros w n w' a Hw _ [= <- _]. cbn. by rewrite Nat.add_0_r.
    + intros w n w' a Hw Hk E. cbn [valid from_option owns] in *.
      assert (balanced (Some k) (run version fuel (TReply k s);; propagate_all raw)) as Hb
        by (apply balanced_bind_first; [apply IHr|intros; apply balanced_propagate]).
      by eapply Hb.
    + by apply balanced_exec_callback.
  - intros key. by apply balanced_serve_blpop.
  - intros ctx t req. by apply balanced_run_next.
Qed.

(** What a request may be: a transaction in preparation is given quiet
    commands, and an XREAD names each stream once. *)
Definition request_fits (h : Handler) (request : RespValue) (w : World) : Prop :=
  ∀ cmd, parse_command request = Ok cmd →
    (is_active (tm_of (h_id h) w) = true → always_direct (cmd_type cmd) = false →
     quiet_type (cmd_type cmd) = true) ∧
    (cmd_type cmd = XRead → ∀ parsed, parse_xread_args cmd = Ok parsed → NoDup (keys_ parsed)).

Lemma handle_balanced version fuel h request k w :
  plain k = true → request_fits h request w → balanced_at (Some k) (handle version fuel h request k) w.
Proof.
  intros Hk Hfits. destruct (run_balanced version fuel) as (Hr & Hs & Hn).
  pose proof (run_plain version fuel) as Hp. unfold handle. destruct (_ || _); [apply Hr|].
  unfold balanced_at, mbind at 1, M_bind at 1, lift at 1.
  destruct (parse_command request) as [cmd| | |] eqn:Ec; [|done..].
  destruct (Hfits cmd Ec) as [Hquiet Hxread]. unfold dispatch. rewrite bind_gets.
  assert (∀ k' body, plain k' = true → execute version (run version fuel) h cmd k' = Some body → balanced (Some k') body) as Hbody
    by (intros; eapply balanced_execute; [..|done]; try done; by right).
  destruct (always_direct _) eqn:Ed.
  { destruct (execute _ _ _ _ _) eqn:E; [|apply Hr]. case_match; [apply Hr|]. by eapply Hbody. }
  destruct (is_active _) eqn:Ea.
  - apply balanced_bind; [|intros; apply Hr]. apply balanced_on_tm. intros tm wm Hq. cbn.
    apply Forall_app. split; [done|]. constructor; [|done]. intros cmd' Ec'.
    rewrite Ec in Ec'. injection Ec' as <-. auto.
  - destruct (execute _ _ _ _ _) eqn:E; [|apply Hr]. case_match; [|by eapply Hbody].
    intros n w' a Hw Hv Em. by eapply (Hbody (ReplyPropagate (serialize request) k)).
Qed.

(** A timer whose client has not been served meanwhile. *)
Definition timer_fits (t : N) (w : World) : Prop :=
  ∀ timer, w_timers w !! t = Some timer → fired timer = true →
    match wait timer with
    | BlpopTimeout id _ => is_Some (id_to_keys_ (w_blpop w) !! id)
    | XReadTimeout id _ => is_Some (id_to_keys_ (w_xread w) !! id)
    | WaitPoll _ _ _ _ => True
    end.

Lemma registered_waiter {C} (r : BlockingRegistry C) ws (P : waiter → Prop) id :
  registry_refines r ws → is_Some (id_to_keys_ r !! id) → Forall (λ x, w_id x = id → P x) ws →
  ∃ x, x ∈ ws ∧ w_id x = id ∧ P x.
Proof.
  intros Hr [keys Hk] HP. apply (refines_ids _ _ Hr) in Hk as (x & Hx & Hid & _).
  exists x. split_and!; [done..|]. rewrite Forall_forall in HP. by apply HP.
Qed.

Lemma timer_balanced version fuel t w n w' a :
  timer_fits t w → holds w n → timer_completes version fuel t w = (w', Ok a) → holds w' n.
Proof.
  intros Hfits (ws & xs & Hl) E. unfold timer_completes in E. rewrite bind_gets in E.
  destruct (w_timers w !! t) as [timer|] eqn:Et; [|injection E as <- _; by exists ws, xs].
  destruct (fired timer) eqn:Ef; [|injection E as <- _; by exists ws, xs].
  specialize (Hfits timer Et Ef). pose proof (l_timers _ _ _ _ Hl _ _ Et) as Hok.
  rewrite bind_modify in E. destruct (ledger_drop_timer t timer w ws xs n Et Hl) as (n0 & -> & Hl0).
  set (w1 := with_timers _ _ w) in *. destruct (run_balanced version fuel) as (Hr & _).
  unfold wait_owns, timer_ok in *. destruct (wait timer) as [id k|id k|target numreplicas deadline k].
  - destruct Hok as (_ & Hv & Hk). rewrite Nat.add_0_r.
    destruct (registered_waiter _ ws _ id (l_blpop _ _ _ _ Hl) Hfits Hk) as (x & Hx & <- & <-).
    destruct (ledger_leave_blpop x w1 ws xs n0 Hx Hl0) as (n1 & -> & Hl1).
    unfold blpop_timeout, unregister_blpop in E. rewrite bind_modify in E.
    eapply Hr in E as [_ Hh]; [exact Hh|by eexists _, xs|done].
  - destruct Hok as (_ & Hp & Hk). rewrite Nat.add_0_r.
    destruct (registered_waiter _ xs _ id (l_xread _ _ _ _ Hl) Hfits Hk) as (x & Hx & <- & <-).
    destruct (ledger_leave_xread x w1 ws xs n0 Hx Hl0) as (n1 & -> & Hl1).
    unfold xread_timeout, unregister_xread in E. rewrite bind_modify in E.
    eapply Hr in E as [_ Hh]; [exact Hh|by eexists ws, _|by apply valid_plain].
  - assert (balanced (Some k) (wait_poll (run version fuel) target numreplicas deadline k)) as Hb.
    { unfold wait_poll. apply balanced_bind; [apply balanced_gets|intros count].
      apply balanced_bind; [apply balanced_gets|intros now].
      apply balanced_if; [apply Hr|apply balanced_wait_timer]. }
    eapply Hb in E as [_ Hh]; [exact Hh|by exists ws, xs|done].
Qed.

Lemma expires_balanced t w n : holds w n → holds (timer_expires t w).1 n.
Proof.
  intros (ws & xs & [H1 H2 H3 H4 H5 H6 H7 H8 H9 H10]). exists ws, xs. unfold timer_expires, modify. cbn [fst].
  destruct (w_timers w !! t) as [timer|] eqn:E; [|done]. case_match; [|done].
  set (timers := <[t := _]> (w_timers w)).
  assert (∀ i, blocking_timer i w → blocking_timer i (with_timers timers (w_next_timer w) w)) as Hbt.
  { intros i [Hi Hbi]. split; [done|]. cbn. intros tm. unfold timers. rewrite lookup_insert.
    case_decide as Hi'; [|apply Hbi]. subst i. intros [= <-]. exact (Hbi _ E). }
  split; try done.
  - eapply Forall_impl; [exact H3|]. intros x [? ?]. split; auto.
  - eapply Forall_impl; [exact H4|]. intros x (? & ? & ?). split_and!; auto.
  - intros i Hi. cbn in *. unfold timers. rewrite lookup_insert_None. split; [by apply H8|].
    intros <-. by rewrite H8 in E.
  - cbn. apply map_Forall_insert_2; [exact (H9 _ _ E)|done].
  - cbn [w_out w_execs w_timers with_timers]. rewrite <- H10. unfold debt, timers.
    rewrite map_sum_insert, (map_sum_delete _ t (w_timers w)), E. done.
Qed.
End ledger.

(** ** Histories *)

(** Whether a read was answered on the spot, with an error. *)
Definition refused (text : bytes) (action : Action) : bool :=
  match action with
  | AwaitWrite => true
  | ReadOn => match parse text with Ok None => true | _ => false end
  | PostCommand _ _ => false
  end.

(** What happened in a server from its start up to a state, with the
    connections whose requests were executed or refused, in order.  Requests
    of the replication link are answered to nobody. *)
Inductive history (version : bytes) : World → list ConnId → Prop :=
  | history_start config steady system : history version (initial_world config steady system) []
  | history_request fuel h request c w w' asked :
      history version w asked → request_fits h request w →
      handle version fuel h request (ReplyTo c) w = (w', Ok tt) →
      history version w' (asked ++ [c])
  | history_replicated fuel h request w w' asked :
      history version w asked → request_fits h request w →
      handle version fuel h request ReplyDiscard w = (w', Ok tt) → history version w' asked
  | history_read conn text w w' conn' action asked :
      history version w asked → connection_read conn text w = (w', Ok (conn', action)) →
      history version w' (asked ++ if refused text action then [conn_id conn] else [])
  | history_accept c w asked : history version w asked → history version (accept c w).1 asked
  | history_closed conn w asked : history version w asked → history version (connection_closed conn w).1 asked
  | history_write_error w asked :
      history version w asked → history version (with_clients (to_u64 (w_clients w - 1)) w) asked
  | history_destroyed conn w asked :
      history version w asked → history version (connection_destroyed conn w).1 asked
  | history_expires t w asked : history version w asked → history version (timer_expires t w).1 asked
  | history_completes fuel t w w' asked :
      history version w asked → timer_fits t w → timer_completes version fuel t w = (w', Ok tt) →
      history version w' asked
  | history_clock steady system w asked :
      history version w asked → w_steady w ≤ steady → history version (with_clocks steady system w) asked.

Section history.
Context (c : ConnId).

Definition asked_by (asked : list ConnId) : nat := length (filter (λ c', c' = c) asked).

Lemma asked_by_app l l' : asked_by (l ++ l') = (asked_by l + asked_by l')%nat.
Proof. unfold asked_by. by rewrite filter_app, length_app. Qed.

Lemma asked_by_one c' : asked_by [c'] = owns_direct c (ReplyTo c').
Proof. unfold asked_by. rewrite filter_cons, filter_nil. simpl. by case_decide; case_bool_decide. Qed.

Lemma respond_untouched conn s w :
  untouched c (owns_direct c (ReplyTo (conn_id conn))) w (respond conn s w).1.
Proof. exact (deliver_untouched c (ReplyTo (conn_id conn)) s w eq_refl). Qed.

Lemma handshake_untouched conn t w w' r :
  handshake_step conn t w = (w', Ok r) → untouched c 0 w w' ∧ conn_id r.1 = conn_id conn.
Proof.
  unfold handshake_step, register_replica. destruct (negb _); [intros [= <- <-]; by split|].
  destruct t; repeat case_match; intros [= <- <-]; by split.
Qed.

Lemma handle_ack_untouched conn parsed w w' a : handle_ack conn parsed w = (w', Ok a) → untouched c 0 w w'.
Proof. unfold handle_ack. repeat case_match; intros [= <- <-]; by split. Qed.

Definition answer_of (conn : Connection) (answered : bool) : nat :=
  if answered then owns_direct c (ReplyTo (conn_id conn)) else 0.

Lemma command_untouched conn command w w' conn' action :
  connection_command conn command w = (w', Ok (conn', action)) →
  untouched c (answer_of conn match action with AwaitWrite => true | _ => false end) w w'.
Proof.
  unfold connection_command. destruct (_ || _).
  { intros [= <- _ <-]. by apply (respond_untouched conn). }
  unfold mbind at 1, M_bind at 1, lift at 1. destruct (parse_command command) as [parsed| | |]; try done.
  unfold mbind at 1, M_bind at 1.
  destruct (handshake_step conn (cmd_type parsed) w) as [w1 [[conn1 error]| | |]] eqn:E; try done.
  apply handshake_untouched in E as [Hu Hid]. simpl in Hid.
  assert (∀ m w', untouched c m w1 w' → untouched c m w w') as Htrans.
  { intros m w2 [E1 E2 E3 E4 E5 E6 Hq Ha]. destruct Hu as [F1 F2 F3 F4 F5 F6 Gq Ga].
    split; try congruence; [auto|]. by rewrite Ha, Ga, Nat.add_0_r. }
  destruct error as [error|].
  - intros [= <- _ <-]. apply Htrans. cbn [answer_of]. rewrite <- Hid. apply respond_untouched.
  - destruct (is_ack conn1 parsed); [|by intros [= <- _ <-]].
    unfold mbind, M_bind. destruct (handle_ack conn1 parsed w1) as [w2 [[]| | |]] eqn:E; try done.
    intros [= <- _ <-]. apply Htrans. by eapply handle_ack_untouched.
Qed.

Lemma read_untouched conn text w w' conn' action :
  connection_read conn text w = (w', Ok (conn', action)) →
  untouched c (answer_of conn (refused text action)) w w'.
Proof.
  unfold connection_read. unfold mbind at 1, M_bind at 1, lift at 1.
  destruct (parse text) as [[[command n]|]| | |] eqn:Ep; try done.
  - intros E. apply command_untouched in E. unfold refused. rewrite Ep. by destruct action.
  - intros [= <- _ <-]. unfold refused. rewrite Ep. by apply (respond_untouched conn).
Qed.

Lemma holds_untouched m w w' n : untouched c m w w' → holds c w n → holds c w' (n + m).
Proof. intros Hu (ws & xs & Hl). exists ws, xs. by eapply ledger_untouched. Qed.

Lemma holds_same w w' n : untouched c 0 w w' → holds c w n → holds c w' n.
Proof. intros Hu Hw. rewrite <- (Nat.add_0_r n). by eapply holds_untouched. Qed.

Lemma holds_initial config steady system : holds c (initial_world config steady system) 0.
Proof.
  exists [], []. split; try done; apply refines_empty.
Qed.

Lemma holds_destroyed conn w n : holds c w n → holds c (connection_destroyed conn w).1 n.
Proof.
  intros Hw. assert (balanced c None (connection_destroyed conn)) as Hb
    by (apply balanced_bind; [|intros _]; apply balanced_clear).
  destruct (Hb w n (connection_destroyed conn w).1 tt Hw I eq_refl) as [_ Hh].
  cbn [from_option] in Hh. by rewrite Nat.add_0_r in Hh.
Qed.

Lemma history_holds version w asked : history version w asked → holds c w (asked_by asked).
Proof.
  induction 1 as [config steady system|fuel h request c' w w' asked _ IH Hf E|fuel h request w w' asked _ IH Hf E
    |conn text w w' conn' action asked _ IH E|c' w asked _ IH|conn w asked _ IH|w asked _ IH|conn w asked _ IH
    |t w asked _ IH|fuel t w w' asked _ IH Hf E|steady system w asked _ IH _].
  - apply holds_initial.
  - destruct (handle_balanced c version fuel h request (ReplyTo c') w eq_refl Hf _ _ _ IH I E) as [_ Hh].
    by rewrite asked_by_app, asked_by_one.
  - destruct (handle_balanced c version fuel h request ReplyDiscard w eq_refl Hf _ _ _ IH I E) as [_ Hh].
    cbn in Hh. by rewrite Nat.add_0_r in Hh.
  - rewrite asked_by_app. apply read_untouched in E. unfold answer_of in E.
    destruct (refused text action); [rewrite asked_by_one|]; by eapply holds_untouched.
  - eapply holds_same; [|exact IH]. by split.
  - eapply holds_same; [|exact IH]. unfold connection_closed, modify. cbn [fst].
    by destruct (registered_as_replica_ conn).
  - eapply holds_same; [|exact IH]. by split.
  - by apply holds_destroyed.
  - by apply expires_balanced.
  - by eapply timer_balanced.
  - eapply holds_same; [|exact IH]. by split.
Qed.
End history.

(** ** Property *)

(** C1. Every request is answered exactly once.  In every state of a running
    server, the requests of a connection that were executed or refused are as
    many as the replies written to it plus the reply callbacks kept for it: by
    clients blocked in BLPOP or XREAD, by the timers of WAIT, directly or through
    a transaction that is suspended in one of them.  So no reply is given twice,
    and when nobody is blocked and no WAIT is pending, none is missing.  The
    history may interleave any requests of any connections with timers and
    connection events, with four restrictions: the commands queued in a
    transaction do not include XRANGE and XREAD, an XREAD names each stream once,
    no timeout handler that was already queued runs after its client was served,
    and no exception escapes.  Outside them the code does give replies twice or
    lose them: [xread_duplicate_answered_twice], [blpop_served_after_timeout] and
    [xrange_catches_other_exceptions]. *)
Theorem one_reply_per_request (version : bytes) (w : World) (asked : list ConnId) (c : ConnId)
    (Hhistory : history version w asked) :
  (∃ ws xs, registry_refines (w_blpop w) ws ∧ registry_refines (w_xread w) xs ∧
     asked_by c asked = (answers c (w_out w) + debt c (w_execs w) (w_timers w) ws xs)%nat) ∧
  (answers c (w_out w) ≤ asked_by c asked)%nat ∧
  (id_to_keys_ (w_blpop w) = ∅ → id_to_keys_ (w_xread w) = ∅ →
   map_Forall (λ _ t, is_wait t = false) (w_timers w) → answers c (w_out w) = asked_by c asked).
Proof.
  destruct (history_holds c version w asked Hhistory) as (ws & xs & Hl). pose proof (l_sum _ _ _ _ _ Hl) as Hsum.
  split_and!; [exists ws, xs; split_and!; [apply Hl..|done]|lia|].
  intros Hws Hxs Ht. rewrite <- Hsum.
  rewrite (refines_nobody _ ws (l_blpop _ _ _ _ _ Hl) Hws), (refines_nobody _ xs (l_xread _ _ _ _ _ Hl) Hxs).
  unfold debt. rewrite (map_sum_ext _ (λ _, O)), map_sum_zero; [simpl; lia|].
  intros i t Hi. specialize (Ht i t Hi). unfold wait_owns, is_wait in *. by destruct (wait t).
Qed.

Lemma request_fits_quiet h request w cmd :
  parse_command request = Ok cmd → quiet_type (cmd_type cmd) = true → request_fits h request w.
Proof. intros Hp Hq cmd' Hp'. rewrite Hp in Hp'. injection Hp' as <-. split; [done|]. by destruct (cmd_type cmd). Qed.

Lemma history_send i l cmd w asked :
  history (b "7.0.0") w asked → parse_command (example_request l) = Ok cmd →
  quiet_type (cmd_type cmd) = true → (send i l w).2 = Ok tt →
  history (b "7.0.0") (send i l w).1 (asked ++ [i]).
Proof.
  intros Hh Hp Hq Hr. eapply history_request; [exact Hh|by eapply request_fits_quiet|].
  unfold send in *. by rewrite <- Hr, <- surjective_pairing.
Qed.

(** Client 1 blocks in BLPOP and is served by a push of client 2. *)
Definition blpop_blocked : World := (send 1 [b "BLPOP"; b "l"; b "0"] example_world).1.
Definition blpop_served : World := (send 2 [b "RPUSH"; b "l"; b "x"] blpop_blocked).1.

Lemma one_reply_per_request_witness :
  answers 1 (w_out blpop_blocked) = 0%nat ∧ answers 1 (w_out blpop_served) = 1%nat.
Proof.
  assert (history (b "7.0.0") blpop_blocked ([] ++ [1%N])) as H1.
  { eapply history_send; [apply history_start|by vm_compute|done|by vm_compute]. }
  assert (history (b "7.0.0") blpop_served (([] ++ [1%N]) ++ [2%N])) as H2.
  { eapply history_send; [exact H1|by vm_compute|done|by vm_compute]. }
  split; [by vm_compute|].
  destruct (one_reply_per_request (b "7.0.0") blpop_served (([] ++ [1%N]) ++ [2%N]) 1 H2) as (_ & _ & H).
  apply H; [by vm_compute|by vm_compute|].
  replace (w_timers blpop_served) with (∅ : gmap N Timer) by (by vm_compute). apply map_Forall_empty.
Defined.

(** Without the condition on XRANGE a reply is lost.  Client 2 is blocked in the
    BLPOP of a transaction whose next command throws.  Client 1's transaction
    is an XRANGE and an RPUSH that serves client 2: the exception of client 2's
    command leaves client 1's RPUSH and is caught by the XRANGE before it.
    Client 1 reads that its RPUSH failed, although the element was pushed, and
    client 2, which nobody will serve again, never gets a reply. *)
Definition lost_reply : World :=
  ((send 2 [b "MULTI"];; send 2 [b "BLPOP"; b "l"; b "0"];; send 2 [b "LRANGE"; b "l"; b "x"; b "0"];;
    send 2 [b "EXEC"];;
    send 1 [b "MULTI"];; send 1 [b "XRANGE"; b "s"; b "-"; b "+"];; send 1 [b "RPUSH"; b "l"; b "v"];;
    send 1 [b "EXEC"]) example_world).1.

Theorem xrange_catches_other_exceptions :
  answers 1 (w_out lost_reply) = 4%nat ∧ answers 2 (w_out lost_reply) = 3%nat ∧
  last (w_out lost_reply) = Some (Response 1 (b "*2" ++ CRLF ++ b "*0" ++ CRLF ++ b "-ERR stoll" ++ CRLF)) ∧
  w_blpop lost_reply = mkRegistry ∅ ∅ 2.
Proof. split_and!; vm_compute; reflexivity. Qed.
