(* ===== verification/Replies.v ===== *)
(** * What the server writes to its clients

    The reply texts are built with [std::format] in many places.  This file
    gives them a grammar, RESP2's, and shows that every text that a command, a
    timer or the network code hands to a reply callback belongs to it.  A text
    of the grammar is self-delimiting: a reader that follows RESP2 takes
    exactly its bytes, whatever follows ([skip_framed]).

    Two texts are outside RESP2 and are named as such: the WRONGTYPE reply of
    GET and LPOP, which has no line end, and the FULLRESYNC reply of PSYNC with
    the payload behind it. *)

From S2P Require Import Prelude CharConv Resp StreamId StoreValue StringStore ListStore StreamStore Store Blocking WatchManager TransactionManager ReplicaRegistry Command ServerConfig World BasicCommands ListCommands StreamCommands TransactionCommands CommandRegistry Dispatch Invariants Transactions BlockedClients BlockedReaders WaitCommand Connection Server Termination OneReply.

(** ** The grammar *)

#[warnings="-register-all"]
Inductive reply (other : bytes → Prop) : bytes → Prop :=
  | reply_simple s : find_crlf s = None → reply other ("+"%char :: s ++ CRLF)
  | reply_error s : find_crlf s = None → reply other ("-"%char :: s ++ CRLF)
  | reply_integer z : reply other (integer_reply z)
  | reply_bulk s : reply other (bulk s)
  | reply_null : reply other null_bulk
  | reply_array l : Forall (reply other) l → reply other (array_header (zlen l) ++ concat l)
  | reply_null_array : reply other null_array
  | reply_other s : other s → reply other s.

Section reply_ind.
Context (other P : bytes → Prop).
Context (Hsimple : ∀ s, find_crlf s = None → P ("+"%char :: s ++ CRLF)).
Context (Herror : ∀ s, find_crlf s = None → P ("-"%char :: s ++ CRLF)).
Context (Hinteger : ∀ z, P (integer_reply z)) (Hbulk : ∀ s, P (bulk s)) (Hnull : P null_bulk).
Context (Harray : ∀ l, Forall P l → P (array_header (zlen l) ++ concat l)).
Context (Hnull_array : P null_array) (Hother : ∀ s, other s → P s).

(** Induction with the hypothesis for the elements of an array. *)
Fixpoint reply_elim s (Hs : reply other s) : P s :=
  match Hs with
  | reply_simple _ s H => Hsimple s H
  | reply_error _ s H => Herror s H
  | reply_integer _ z => Hinteger z
  | reply_bulk _ s => Hbulk s
  | reply_null _ => Hnull
  | reply_array _ l H => Harray l
      ((fix elems l (H : Forall (reply other) l) : Forall P l :=
          match H with
          | List.Forall_nil _ => List.Forall_nil _
          | List.Forall_cons _ x l Hx Hl => List.Forall_cons _ x l (reply_elim x Hx) (elems l Hl)
          end) l H)
  | reply_null_array _ => Hnull_array
  | reply_other _ s H => Hother s H
  end.
End reply_ind.

(** ** A reader of RESP2 replies *)

(** Skips [pending] replies; an array adds its elements to them. *)
Fixpoint skip (fuel pending : nat) (s : bytes) : option bytes :=
  match pending, fuel with
  | O, _ => Some s
  | S _, O => None
  | S pending, S fuel =>
      match s with
      | [] => None
      | c :: s =>
          match find_crlf s with
          | None => None
          | Some n =>
              let line := take n s in
              let rest := drop (n + 2) s in
              if bool_decide (c = "+"%char) || bool_decide (c = "-"%char) || bool_decide (c = ":"%char)
              then skip fuel pending rest
              else if bool_decide (line = b "-1") then skip fuel pending rest
              else
                let count := Z.to_nat (digits_value line) in
                if bool_decide (c = "$"%char) then
                  if bool_decide (take 2 (drop count rest) = CRLF)
                  then skip fuel pending (drop (count + 2) rest) else None
                else if bool_decide (c = "*"%char) then skip fuel (count + pending) rest
                else None
          end
      end
  end.

Definition skip_reply (s : bytes) : option bytes := skip (length s) 1 s.

(** [n] rounds take exactly [s] off. *)
Definition framed (s : bytes) : Prop := ∃ n, (n ≤ length s)%nat ∧
  ∀ fuel pending r, skip (n + fuel) (S pending) (s ++ r) = skip fuel pending r.

Lemma skip_head fuel pending c line r :
  find_crlf line = None →
  skip (S fuel) (S pending) (c :: line ++ CRLF ++ r) =
    if bool_decide (c = "+"%char) || bool_decide (c = "-"%char) || bool_decide (c = ":"%char)
    then skip fuel pending r
    else if bool_decide (line = b "-1") then skip fuel pending r
    else
      let count := Z.to_nat (digits_value line) in
      if bool_decide (c = "$"%char) then
        if bool_decide (take 2 (drop count r) = CRLF) then skip fuel pending (drop (count + 2) r) else None
      else if bool_decide (c = "*"%char) then skip fuel (count + pending) r
      else None.
Proof.
  intros Hl. cbn [skip]. rewrite (find_crlf_line line r Hl).
  replace (drop (length line + 2) (line ++ CRLF ++ r)) with r.
  - by rewrite take_app_length.
  - rewrite <- drop_drop, drop_app_length. done.
Qed.

Lemma framed_line c s :
  bool_decide (c = "+"%char) || bool_decide (c = "-"%char) || bool_decide (c = ":"%char) = true →
  find_crlf s = None → framed (c :: s ++ CRLF).
Proof.
  intros Hc Hs. exists 1%nat. split; [simpl; lia|]. intros fuel pending r.
  rewrite <- app_comm_cons, <- app_assoc. change (1 + fuel)%nat with (S fuel).
  by rewrite skip_head, Hc.
Qed.

Lemma to_string_line z : find_crlf (to_string z) = None.
Proof.
  unfold to_string. destruct (Z.ltb_spec z 0); [|by apply no_crlf_digits].
  cbn [find_crlf]. rewrite no_crlf_digits by lia. rewrite bool_decide_eq_false_2; [done|]. by intros [= ? _].
Qed.

Lemma length_not_null n : 0 ≤ n → to_string n ≠ b "-1".
Proof.
  intros Hn. rewrite to_string_nonneg by done. destruct (digits_head n Hn) as (c & ds & -> & Hc).
  by intros [= -> _].
Qed.

Lemma digits_length n : 0 ≤ n → digits_value (to_string n) = n.
Proof. intros Hn. rewrite to_string_nonneg by done. by destruct (digits_spec n Hn). Qed.

Lemma framed_bulk s : framed (bulk s).
Proof.
  exists 1%nat. split; [simpl; lia|]. intros fuel pending r. change (1 + fuel)%nat with (S fuel).
  assert (0 ≤ zlen s) as Hn by (unfold zlen; lia). unfold bulk. rewrite <- app_comm_cons, <- !app_assoc.
  rewrite skip_head by apply to_string_line. cbn [bool_decide orb]. rewrite !bool_decide_eq_false_2 by done.
  cbn [orb]. rewrite bool_decide_eq_false_2 by (by apply length_not_null). cbv zeta.
  rewrite digits_length by done. unfold zlen. rewrite Nat2Z.id, drop_app_length.
  rewrite !bool_decide_eq_true_2 by done.
  by rewrite <- drop_drop, drop_app_length.
Qed.

Lemma framed_concat l : Forall framed l → ∃ n, (n ≤ length (concat l))%nat ∧
  ∀ fuel pending r, skip (n + fuel) (length l + pending) (concat l ++ r) = skip fuel pending r.
Proof.
  induction 1 as [|s l (n & Hn & Hs) _ (m & Hm & Hl)]; [by exists O|].
  exists (n + m)%nat. cbn [concat length]. rewrite length_app. split; [lia|]. intros fuel pending r.
  rewrite <- app_assoc, <- Nat.add_assoc. change (S (length l) + pending)%nat with (S (length l + pending)).
  by rewrite Hs, Hl.
Qed.

Lemma framed_array l : Forall framed l → framed (array_header (zlen l) ++ concat l).
Proof.
  intros (n & Hn & Hl)%framed_concat. exists (S n). unfold array_header.
  split; [rewrite length_app; simpl; lia|]. intros fuel pending r. assert (0 ≤ zlen l) as H0 by (unfold zlen; lia).
  rewrite <- app_assoc, <- app_comm_cons, <- app_assoc. change (S n + fuel)%nat with (S (n + fuel)).
  rewrite skip_head by apply to_string_line. rewrite !bool_decide_eq_false_2 by done.
  cbn [orb]. rewrite bool_decide_eq_false_2 by (by apply length_not_null). cbv zeta.
  rewrite digits_length by done. unfold zlen. rewrite Nat2Z.id. apply Hl.
Qed.

Lemma skip_framed s r : reply (λ _, False) s → skip_reply (s ++ r) = Some r.
Proof.
  intros Hs. assert (framed s) as (n & Hn & Hf).
  { revert s Hs. apply reply_elim; try done.
    - intros s. by apply framed_line.
    - intros s. by apply framed_line.
    - intros z. apply (framed_line ":"%char); [done|apply to_string_line].
    - apply framed_bulk.
    - exists 1%nat. split; [simpl; lia|done].
    - apply framed_array.
    - exists 1%nat. split; [simpl; lia|done]. }
  unfold skip_reply. rewrite length_app. replace (length s + length r)%nat with (n + (length s - n + length r))%nat by lia.
  rewrite Hf. by destruct (length s - n + length r)%nat.
Qed.

(** ** Texts without a line break *)

Definition no_lf (s : bytes) : bool := forallb (λ c, negb (bool_decide (c = ascii_of_nat 10))) s.

Lemma no_lf_line s : no_lf s = true → find_crlf s = None.
Proof.
  induction s as [|c s IH]; [done|]. intros [Hc Hs]%andb_true_iff. cbn [find_crlf]. rewrite IH by done.
  rewrite bool_decide_eq_false_2; [done|]. destruct s as [|d s]; [done|]. intros [= _ ->].
  by apply andb_true_iff in Hs as [? _].
Qed.

Lemma no_lf_app s t : no_lf (s ++ t) = no_lf s && no_lf t.
Proof. apply forallb_app. Qed.

Lemma no_lf_number n : no_lf (to_string (Z.of_nat n)) = true.
Proof.
  rewrite to_string_nonneg by lia. destruct (digits_spec (Z.of_nat n)) as (_ & Hd & _); [lia|].
  apply forallb_forall. intros c Hc. rewrite List.Forall_forall in Hd. specialize (Hd c Hc).
  apply negb_true_iff, bool_decide_eq_false_2. by intros ->.
Qed.

(** What [what()] gives is quoted in an error reply. *)
Definition exn_ok (e : exn) : Prop := no_lf (exn_what e) = true.

Lemma range_check_ok n size : exn_ok (range_check n size).
Proof. unfold exn_ok, range_check. cbn [exn_what]. by rewrite !no_lf_app, !no_lf_number. Qed.

Definition outcome_typed {A} (o : outcome A) : Prop := ∀ e, o = Throw e → exn_ok e.

Create HintDb typed.

Lemma obind_typed {A B : Type} (o : outcome A) (f : A → outcome B) :
  outcome_typed o → (∀ a, outcome_typed (f a)) → outcome_typed (obind o f).
Proof. intros Ho Hf. destruct o; simpl; [apply Hf|..]; intros e' [= ->]; by apply Ho. Qed.

Lemma throw_typed {A} e : exn_ok e → outcome_typed (Throw e : outcome A).
Proof. by intros He e' [= <-]. Qed.

Lemma Ok_typed {A} (a : A) : outcome_typed (Ok a).
Proof. by intros e. Qed.

Ltac outcome_typed :=
  repeat first
    [ simple apply Ok_typed
    | solve [auto 3 with typed]
    | simple apply throw_typed; solve [done | apply range_check_ok]
    | simple apply obind_typed; [|intros]
    | intros ?e; discriminate
    | case_match ].

Lemma stoull_typed s : outcome_typed (stoull s).
Proof. unfold stoull. outcome_typed. Qed.

Lemma stoll_typed s : outcome_typed (stoll s).
Proof. unfold stoll. outcome_typed. Qed.

Lemma stod_typed s : outcome_typed (stod s).
Proof. unfold stod, stod_finite. outcome_typed. Qed.

Lemma truncate_typed d : outcome_typed (truncate d).
Proof. unfold truncate. outcome_typed. Qed.

Lemma parse_command_typed request : outcome_typed (parse_command request).
Proof. unfold parse_command. outcome_typed. Qed.

#[export] Hint Resolve stoull_typed stoll_typed stod_typed truncate_typed parse_command_typed : typed.

Lemma expiry_options_typed options : outcome_typed (expiry_options options).
Proof. revert options. fix IH 1. intros [|opt [|value rest]]; cbn [expiry_options]; outcome_typed. Qed.

Lemma rethrow_typed {A} (o : outcome A) : outcome_typed (rethrow_invalid o).
Proof. destruct o; simpl; outcome_typed. Qed.

Lemma parse_stream_bound_typed s start : outcome_typed (parse_stream_bound s start).
Proof. unfold parse_stream_bound. outcome_typed. Qed.

#[export] Hint Resolve expiry_options_typed rethrow_typed parse_stream_bound_typed : typed.

Lemma generate_stream_id_typed now id last_id : outcome_typed (generate_stream_id now id last_id).
Proof.
  unfold generate_stream_id, parse_stream_id, parse_last_id, resolve_seq, validate_id. outcome_typed.
Qed.

Lemma xrange_typed key start_ end_ d : outcome_typed (xrange key start_ end_ d).
Proof.
  assert (∀ s e es, outcome_typed (xrange_loop s e es)).
  { intros s e es. induction es; cbn [xrange_loop]; outcome_typed. }
  unfold xrange. outcome_typed.
Qed.

Lemma xread_typed keys ids d : outcome_typed (xread keys ids d).
Proof.
  assert (∀ t es, outcome_typed (xread_entries t es)).
  { intros t es. induction es; cbn [xread_entries]; outcome_typed. }
  revert ids. induction keys; intros [|]; cbn [xread]; outcome_typed.
Qed.

#[export] Hint Resolve generate_stream_id_typed xrange_typed xread_typed : typed.

Lemma resolve_ids_typed d keys ids : outcome_typed (resolve_stream_ids d keys ids).
Proof.
  revert ids. induction keys; intros [|]; cbn [resolve_stream_ids]; outcome_typed.
  unfold resolve_stream_id. outcome_typed.
Qed.

Lemma parse_xread_args_typed cmd : outcome_typed (parse_xread_args cmd).
Proof.
  unfold parse_xread_args. destruct (_ ≫= _) as [text|]; [|outcome_typed].
  destruct (stod text); outcome_typed.
Qed.

#[export] Hint Resolve resolve_ids_typed parse_xread_args_typed : typed.

(** ** The state *)

Section typed.
Context (strict : bool).

(** The texts outside RESP2; none if [strict]. *)
Definition deviant (s : bytes) : Prop :=
  strict = false ∧ (s = wrong_type ∨ ∃ config offset, s = fullresync_reply config offset).

Abbreviation reply := (reply deviant).

(** The commands considered: the name, which error replies quote, has no line
    feed; if [strict], GET, LPOP and PSYNC are left out. *)
Definition speaks (cmd : Command) : bool :=
  no_lf (cmd_name cmd) &&
  match cmd_type cmd with Get | LPop | Psync => negb strict | _ => true end.

Definition spoken (request : RespValue) : Prop := ∀ cmd, parse_command request = Ok cmd → speaks cmd = true.

(** The results stored so far are replies. *)
Record exec_typed (c : ExecContext) : Prop := {
  exec_same_length : length (exec_results c) = length (exec_commands c);
  exec_stored : Forall reply (take (exec_index c) (exec_results c));
  exec_spoken : Forall spoken (exec_commands c);
}.

Definition output_typed (o : Output) : Prop :=
  match o with Response _ s => reply s | Propagated _ _ => True end.

Record replies_ok (w : World) : Prop := {
  ok_out : Forall output_typed (w_out w);
  ok_exec_results : map_Forall (λ _, exec_typed) (w_execs w);
  ok_queued : ∀ h, Forall spoken (queued_commands_ (tm_of h w));
}.

(** [m] keeps the invariant, and what it throws can be quoted in a reply. *)
Definition typed {A} (m : M A) : Prop := ∀ w, replies_ok w →
  replies_ok (m w).1 ∧ ∀ e, (m w).2 = Throw e → exn_ok e.

Lemma typed_ret {A} (a : A) : typed (mret a).
Proof. by intros w Hw. Qed.

Lemma typed_gets {A} (f : World → A) : typed (gets f).
Proof. by intros w Hw. Qed.

Lemma typed_lift {A} (o : outcome A) : outcome_typed o → typed (lift o).
Proof. by intros Ho w Hw. Qed.

Lemma typed_bind {A B} (m : M A) (f : A → M B) : typed m → (∀ a, typed (f a)) → typed (m ≫= f).
Proof.
  intros Hm Hf w Hw. unfold mbind, M_bind. destruct (Hm w Hw) as [Hw' He].
  destruct (m w) as [w' [a|e| |]]; simpl in *; [by apply Hf|split; [done|]; intros e' [= <-]; by apply He|by split..].
Qed.

(** The value of [m] satisfies [Q]. *)
Lemma typed_bind_post {A B} (Q : A → Prop) (m : M A) (f : A → M B) :
  typed m → (∀ w a, replies_ok w → (m w).2 = Ok a → Q a) → (∀ a, Q a → typed (f a)) → typed (m ≫= f).
Proof.
  intros Hm HQ Hf w Hw. unfold mbind, M_bind. destruct (Hm w Hw) as [Hw' He]. specialize (HQ w).
  destruct (m w) as [w' [a|e| |]]; simpl in *; [by apply Hf; auto|split; [done|]; intros e' [= <-]; by apply He|by split..].
Qed.

Lemma typed_try {A} (m : M A) (handler : exn → M A) :
  typed m → (∀ e, exn_ok e → typed (handler e)) → typed (try_catch m handler).
Proof.
  intros Hm Hh w Hw. unfold try_catch. destruct (Hm w Hw) as [Hw' He].
  destruct (m w) as [w' [a|e| |]]; simpl in *; [by split|by apply Hh; auto|by split..].
Qed.

Lemma typed_if {A} (cond : bool) (m m' : M A) : typed m → typed m' → typed (if cond then m else m').
Proof. by destruct cond. Qed.

(** An update that leaves replies, contexts and queues alone. *)
Lemma typed_frame (f : World → World) :
  (∀ w, w_out (f w) = w_out w ∧ w_execs (f w) = w_execs w ∧ w_tms (f w) = w_tms w) → typed (modify f).
Proof.
  intros Hf w [H1 H2 H3]. destruct (Hf w) as (E1 & E2 & E3). split; [|done]. simpl.
  split; [by rewrite E1|by rewrite E2|]. intros h. unfold tm_of. rewrite E3. apply H3.
Qed.

Lemma typed_on_store {A} (f : Data → A * Data) : typed (on_store f).
Proof. intros w [H1 H2 H3]. unfold on_store. destruct (f (w_store w)). split; [by split|done]. Qed.

Lemma typed_on_store_outcome {A} (f : Data → Data * outcome A) :
  (∀ d, outcome_typed (f d).2) → typed (on_store_outcome f).
Proof.
  intros Hf w [H1 H2 H3]. unfold on_store_outcome. specialize (Hf (w_store w)).
  destruct (f (w_store w)). split; [by split|done].
Qed.

Lemma typed_on_tm h f :
  (∀ tm wm, Forall spoken (queued_commands_ tm) → Forall spoken (queued_commands_ (f tm wm).1)) →
  typed (on_tm h f).
Proof.
  intros Hf w [H1 H2 H3]. unfold on_tm, modify. specialize (Hf (tm_of h w) (w_watch w) (H3 h)).
  destruct (f (tm_of h w) (w_watch w)) as [tm wm]. split; [|done]. split; try done. intros h'. cbn [fst].
  cbn [fst]. change (tm_of h' (with_watch wm (set_tm h tm w))) with (tm_of h' (set_tm h tm w)).
  rewrite tm_of_set. by case_decide.
Qed.

Lemma typed_notify key : typed (notify key).
Proof.
  intros w Hw. split; [|done]. unfold notify, modify. cbn [fst]. generalize (notify_write key (w_watch w)).
  intros l. revert w Hw. induction l as [|h l IH]; intros w Hw; [done|]. apply IH. destruct Hw as [H1 H2 H3].
  split; try done. intros h'. unfold mark_dirty_of. rewrite tm_of_set. case_decide; [|done]. apply H3.
Qed.

Lemma typed_posts w (posts : list (ConnId * bytes)) r :
  replies_ok w → replies_ok (with_out (w_out w ++ ((λ '(c, s), Propagated c s) <$> posts)) (with_replicas r w)).
Proof.
  intros [H1 H2 H3]. split; try done. cbn [w_out with_out]. apply Forall_app. split; [done|].
  apply Forall_fmap, Forall_true. by intros [].
Qed.

Lemma typed_propagate data : typed (propagate_all data).
Proof.
  intros w Hw. split; [|done]. unfold propagate_all, modify. cbn [fst].
  destruct (propagate data (w_replicas w)). by apply typed_posts.
Qed.

Lemma typed_getack : typed request_getack_all.
Proof.
  intros w Hw. split; [|done]. unfold request_getack_all, modify. cbn [fst].
  destruct (request_getack (w_replicas w)). by apply typed_posts.
Qed.

Lemma typed_cancel t : typed (cancel_timer t).
Proof. apply typed_frame. intros w. by repeat case_match. Qed.

Lemma typed_start t : typed (start_timer t).
Proof. intros w [H1 H2 H3]. split; [by split|done]. Qed.

Lemma typed_register_blpop keys c : typed (register_blpop keys c).
Proof. intros w [H1 H2 H3]. unfold register_blpop. destruct (register_callbacks _ _ _). split; [by split|done]. Qed.

Lemma typed_register_xread keys c : typed (register_xread keys c).
Proof. intros w [H1 H2 H3]. unfold register_xread. destruct (register_callbacks _ _ _). split; [by split|done]. Qed.

Lemma typed_unregister_blpop i : typed (unregister_blpop i).
Proof. by apply typed_frame. Qed.

Lemma typed_unregister_xread i : typed (unregister_xread i).
Proof. by apply typed_frame. Qed.

Lemma typed_begin h : typed (on_tm h (λ tm wm, (begin tm, wm))).
Proof. apply typed_on_tm. constructor. Qed.

Lemma typed_clear h : typed (on_tm h clear_watches).
Proof. by apply typed_on_tm. Qed.

Lemma typed_reset h : typed (on_tm h reset).
Proof. apply typed_on_tm. constructor. Qed.

(** ** Texts *)

(** A constant line. *)
Definition literal (s : bytes) : bool :=
  match s with
  | c :: rest =>
      let n := (length rest - 2)%nat in
      (bool_decide (c = "+"%char) || bool_decide (c = "-"%char)) &&
      bool_decide (drop n rest = CRLF) && no_lf (take n rest)
  | [] => false
  end.

Lemma reply_literal s : literal s = true → reply s.
Proof.
  destruct s as [|c rest]; [done|]. unfold literal. cbv zeta. set (n := (length rest - 2)%nat).
  intros [[Hc Hd%bool_decide_eq_true]%andb_true_iff Hn%no_lf_line]%andb_true_iff.
  rewrite <- (take_drop n rest), Hd.
  apply orb_true_iff in Hc as [->%bool_decide_eq_true | ->%bool_decide_eq_true];
    [by apply reply_simple|by apply reply_error].
Qed.

Lemma reply_error_line body : no_lf body = true → reply ("-"%char :: body ++ CRLF).
Proof. intros Hb. by apply reply_error, no_lf_line. Qed.

Lemma reply_error_text e : exn_ok e → reply (error_reply e).
Proof.
  intros He. unfold error_reply. change (b "-ERR " ++ exn_what e ++ CRLF)
    with ("-"%char :: b "ERR " ++ exn_what e ++ CRLF).
  rewrite (assoc_L (++)). apply reply_error_line. by rewrite no_lf_app.
Qed.

Lemma reply_unknown name : no_lf name = true → reply (unknown_command name).
Proof.
  intros Hn. unfold unknown_command.
  change (b "-ERR unknown command '" ++ name ++ b "'" ++ CRLF)
    with ("-"%char :: b "ERR unknown command '" ++ name ++ b "'" ++ CRLF).
  rewrite (assoc_L (++) name), (assoc_L (++)). apply reply_error_line. by rewrite !no_lf_app, Hn.
Qed.

Lemma reply_wrong_args name : no_lf name = true → reply (wrong_args name).
Proof.
  intros Hn. unfold wrong_args.
  change (b "-ERR wrong number of arguments for '" ++ name ++ b "' command" ++ CRLF)
    with ("-"%char :: b "ERR wrong number of arguments for '" ++ name ++ b "' command" ++ CRLF).
  rewrite (assoc_L (++) name), (assoc_L (++)). apply reply_error_line. by rewrite !no_lf_app, Hn.
Qed.

Lemma check_args_typed cmd n err : no_lf (cmd_name cmd) = true → check_args cmd n = Some err → reply err.
Proof. intros Hn. unfold check_args. case_bool_decide; [|done]. intros [= <-]. by apply reply_wrong_args. Qed.

Lemma reply_elements (l : list bytes) n text :
  Forall reply l → n = zlen l → text = concat l → reply (array_header n ++ text).
Proof. intros Hl -> ->. by apply reply_array. Qed.

Lemma reply_bulks l : Forall reply (bulk <$> l).
Proof. apply Forall_fmap, Forall_true. intros s. apply reply_bulk. Qed.

Lemma reply_bulk_array l : reply (bulk_array l).
Proof.
  eapply reply_elements; [apply reply_bulks| |done]. unfold zlen. by rewrite length_fmap.
Qed.

Lemma reply_key_value key value : reply (key_value_reply key value).
Proof.
  apply (reply_elements [bulk key; bulk value]); [|done|by simpl; rewrite app_nil_r].
  repeat constructor.
Qed.

Lemma reply_fields l :
  reply (array_header (2 * zlen l) ++ concat ((λ '(field, value), bulk field ++ bulk value) <$> l)).
Proof.
  apply (reply_elements (concat ((λ '(field, value), [bulk field; bulk value]) <$> l))).
  - apply Forall_concat, Forall_fmap, Forall_true. intros [field value]. repeat constructor.
  - assert (length (concat ((λ '(field, value), [bulk field; bulk value]) <$> l)) = 2 * length l)%nat as E
      by (induction l as [|[f v] l IH]; [done|]; rewrite fmap_cons; cbn [concat]; rewrite length_app, IH; simpl; lia).
    unfold zlen. lia.
  - induction l as [|[f v] l IH]; [done|]. rewrite !fmap_cons. cbn [concat app]. rewrite IH.
    by rewrite <- app_assoc.
Qed.

Lemma reply_entry e : reply (format_entry e).
Proof.
  apply (reply_elements [bulk (entry_id e); array_header (2 * zlen (fields e)) ++
    concat ((λ '(field, value), bulk field ++ bulk value) <$> fields e)]); [|done|].
  - constructor; [apply reply_bulk|]. constructor; [apply reply_fields|constructor].
  - cbn [concat]. by rewrite app_nil_r.
Qed.

Lemma reply_entries es : reply (format_entries es).
Proof.
  apply (reply_elements (format_entry <$> es)); [| |done].
  - apply Forall_fmap, Forall_true. apply reply_entry.
  - unfold zlen. by rewrite length_fmap.
Qed.

Lemma reply_streams results : reply (format_stream_entries results).
Proof.
  unfold format_stream_entries. case_bool_decide; [apply reply_null_array|].
  apply (reply_elements ((λ '(key, es), array_header 2 ++ bulk key ++ format_entries es) <$> results)); [| |done].
  - apply Forall_fmap, Forall_true. intros [key es].
    apply (reply_elements [bulk key; format_entries es]); [|done|cbn [concat]; by rewrite app_nil_r].
    constructor; [apply reply_bulk|]. constructor; [apply reply_entries|constructor].
  - unfold zlen. by rewrite length_fmap.
Qed.

Lemma reply_type t : reply (b "+" ++ StoreType_to_string t ++ CRLF).
Proof. apply reply_literal. by destruct t. Qed.

Lemma incr_error_reply now key d e : (incr now key d).1 = Unexpected e → reply e.
Proof.
  assert (reply not_an_integer) by (by apply reply_literal).
  unfold incr. intros E. repeat case_match; simplify_eq/=; done.
Qed.

Lemma xadd_outcome_typed now key id flds d : outcome_typed (xadd now key id flds d).2.
Proof.
  unfold xadd. case_match; [outcome_typed|].
  pose proof (generate_stream_id_typed now id (last_entry_id (as_stream (at_or_default d key)))) as Hg.
  destruct (generate_stream_id _ _ _) as [|[]| |]; simpl; try outcome_typed; apply throw_typed, Hg; done.
Qed.

Lemma xadd_error_reply now key id flds d e : (xadd now key id flds d).2 = Ok (Unexpected e) → reply (e ++ CRLF).
Proof.
  unfold xadd. case_match; [intros [= <-]; by apply reply_literal|].
  pose proof (generate_stream_id_typed now id (last_entry_id (as_stream (at_or_default d key)))) as Hg.
  destruct (generate_stream_id _ _ _) as [|[what| |]| |]; intros [= <-].
  exact (reply_error_text (InvalidArgument what) (Hg _ eq_refl)).
Qed.

(** The only error text that GET and LPOP pass on. *)
Lemma get_error_text now key d e : (get now key d).1 = Unexpected e → e = key_not_found ∨ e = wrong_type.
Proof. unfold get. intros E. repeat case_match; simplify_eq/=; auto. Qed.

Lemma lpop_error_text key count d e : (lpop key count d).1 = Unexpected e → e = key_not_found ∨ e = wrong_type.
Proof. unfold lpop. intros E. repeat case_match; simplify_eq/=; auto. Qed.

Lemma passed_on e :
  strict = false → e = key_not_found ∨ e = wrong_type → contains (b "-WRONGTYPE") e = true → reply e.
Proof. intros Hs [-> | ->] Hc; [done|]. apply reply_other. split; [done|]. by left. Qed.

(** ** Commands *)

Lemma on_store_value {A} (f : Data → A * Data) w a : (on_store f w).2 = Ok a → a = (f (w_store w)).1.
Proof. unfold on_store. destruct (f (w_store w)). by intros [= <-]. Qed.

Lemma on_store_outcome_value {A} (f : Data → Data * outcome A) w a :
  (on_store_outcome f w).2 = Ok a → (f (w_store w)).2 = Ok a.
Proof. unfold on_store_outcome. by destruct (f (w_store w)). Qed.

Section commands.
Context (call : Task → M unit) (redis_version : bytes).
Context (Hreply : ∀ k s, reply s → typed (call (TReply k s))).
Context (Hserve : ∀ key, typed (call (TServeBlpop key))).
Context (Hnext : ∀ ctx, typed (call (TRunNext ctx))).

Lemma typed_literal k s : literal s = true → typed (call (TReply k s)).
Proof. intros Hs. by apply Hreply, reply_literal. Qed.

Lemma store_set_typed now key value ttl d : outcome_typed (store_set now key value ttl d).2.
Proof. unfold store_set, set_ttl. outcome_typed. Qed.

Hint Resolve typed_ret typed_gets typed_on_store typed_notify typed_propagate typed_getack typed_cancel
  typed_start typed_register_blpop typed_register_xread typed_unregister_blpop typed_unregister_xread
  typed_begin typed_clear typed_reset Hserve Hnext store_set_typed : typed.
Hint Resolve reply_bulk reply_null reply_integer reply_null_array reply_bulk_array reply_key_value
  reply_entries reply_streams reply_type reply_error_text reply_unknown reply_wrong_args : typed.
Hint Resolve check_args_typed : typed.

Ltac type_check :=
  repeat first
    [ progress intros
    | solve [auto 2 with typed]
    | simple apply typed_literal; solve [reflexivity]
    | simple apply Hreply; solve [eauto 3 with typed]
    | simple apply typed_lift; solve [outcome_typed]
    | simple apply typed_on_store_outcome; solve [auto with typed]
    | simple apply typed_bind
    | simple apply typed_try
    | simple apply typed_if
    | case_match ].

Lemma typed_blpop_immediate keys : typed (blpop_immediate keys).
Proof. induction keys as [|key keys IH]; cbn [blpop_immediate]; type_check. Qed.

Lemma typed_serve_readers waiters : typed (serve_readers call waiters).
Proof. induction waiters as [|x waiters IH]; cbn [serve_readers]; unfold xread_callback; type_check. Qed.

Lemma typed_watch h keys : typed (on_tm h (λ tm wm, fold_left (watch_one h) keys (tm, wm))).
Proof. apply typed_on_tm. intros tm wm Hq. by rewrite watch_queue. Qed.

Lemma typed_get cmd k : speaks cmd = true → cmd_type cmd = Get → typed (execute_get call cmd k).
Proof.
  unfold speaks. intros [Hn Hs]%andb_true_iff Ht. rewrite Ht in Hs. apply negb_true_iff in Hs.
  unfold execute_get, arg. case_match; [type_check|]. apply typed_bind; [type_check|intros key].
  apply typed_bind; [type_check|intros now].
  apply (typed_bind_post (λ v, ∀ e, v = Unexpected e → e = key_not_found ∨ e = wrong_type)); [type_check|..].
  - intros w v _ ->%on_store_value e. apply get_error_text.
  - intros v Hv. destruct v as [v|e]; [type_check|]. case_match; [|type_check].
    apply Hreply, passed_on; [done|by apply Hv|done].
Qed.

Lemma typed_lpop cmd k : speaks cmd = true → cmd_type cmd = LPop → typed (execute_lpop call cmd k).
Proof.
  unfold speaks. intros [Hn Hs]%andb_true_iff Ht. rewrite Ht in Hs. apply negb_true_iff in Hs.
  unfold execute_lpop, arg. case_match; [type_check|]. apply typed_bind; [type_check|intros key].
  apply typed_bind; [type_check|intros count].
  apply (typed_bind_post (λ v, ∀ e, v = Unexpected e → e = key_not_found ∨ e = wrong_type)); [type_check|..].
  - intros w v _ ->%on_store_value e. apply lpop_error_text.
  - intros v Hv. destruct v as [v|e]; [type_check|]. case_match; [|type_check].
    apply Hreply, passed_on; [done|by apply Hv|done].
Qed.

Lemma typed_incr cmd k : speaks cmd = true → typed (execute_incr call cmd k).
Proof.
  intros [Hn _]%andb_true_iff. unfold execute_incr, arg. case_match; [type_check|].
  apply typed_bind; [type_check|intros key]. apply typed_bind; [type_check|intros now].
  apply (typed_bind_post (λ v, ∀ e, v = Unexpected e → reply e)); [type_check|..].
  - intros w v _ ->%on_store_value e. apply incr_error_reply.
  - intros v Hv. destruct v; type_check.
Qed.

Lemma typed_xadd cmd k : typed (execute_xadd call cmd k).
Proof.
  pose proof typed_serve_readers. unfold execute_xadd, arg. apply typed_if; [type_check|].
  apply typed_bind; [type_check|intros key]. apply typed_bind; [type_check|intros id].
  apply typed_bind; [type_check|intros now].
  apply (typed_bind_post (λ v, ∀ e, v = Unexpected e → reply (e ++ CRLF))).
  - apply typed_on_store_outcome. intros d. apply xadd_outcome_typed.
  - intros w v _ Hv%on_store_outcome_value e ->. by apply xadd_error_reply in Hv.
  - intros v Hv. unfold serve_xread_waiters. destruct v; type_check.
Qed.

Lemma typed_psync h cmd k : speaks cmd = true → cmd_type cmd = Psync → typed (execute_psync call h cmd k).
Proof.
  unfold speaks. intros [Hn Hs]%andb_true_iff Ht. rewrite Ht in Hs. apply negb_true_iff in Hs.
  unfold execute_psync. case_match; [type_check|]. apply typed_bind; [type_check|intros config].
  apply typed_if; [type_check|]. apply typed_bind; [type_check|intros offset].
  apply Hreply, reply_other. split; [done|]. right. by eexists _, _.
Qed.

Lemma typed_exec h k : typed (execute_exec call h k).
Proof.
  intros w Hw. unfold execute_exec. rewrite bind_gets. set (tm := tm_of (h_id h) w).
  destruct (is_active tm); cbn [negb]; [|by apply typed_literal].
  destruct (is_dirty tm).
  { assert (typed (on_tm (h_id h) reset;; call (TReply k null_array))) as H by type_check. by apply H. }
  cbn [pop_queued_commands fst]. set (popped := on_tm _ _).
  assert (typed popped) as Hpop by (apply typed_on_tm; constructor).
  destruct (Hpop w Hw) as [Hw1 _]. set (w1 := (popped w).1) in *.
  rewrite (bind_Ok popped _ w w1 tt eq_refl).
  case_bool_decide.
  { apply (Hreply k (array_header 0)); [|done]. exact (reply_array deviant [] (List.Forall_nil _)). }
  pose proof (ok_queued _ Hw (h_id h) : Forall spoken (queued_commands_ tm)) as Hq.
  unfold new_exec, mbind, M_bind. apply Hnext. destruct Hw1 as [H1 H2 H3]. split; try done.
  apply map_Forall_insert_2; [|done]. split; cbn; [apply length_replicate|by rewrite take_0|done].
Qed.

Lemma typed_execute h cmd k body :
  speaks cmd = true → execute redis_version call h cmd k = Some body → typed body.
Proof.
  pose proof typed_blpop_immediate. pose proof typed_watch. intros Hs.
  assert (no_lf (cmd_name cmd) = true) as Hn by (by apply andb_true_iff in Hs as [? _]).
  rewrite execute_table. unfold command_table.
  destruct (h_kind h), (cmd_type cmd) eqn:Et; intros [= <-];
    first [by apply typed_get | by apply typed_lpop | by apply typed_incr | by apply typed_xadd
          | by apply typed_psync | by apply typed_exec
          | unfold execute_ping, execute_info, execute_echo, execute_set, execute_type,
              execute_rpush, execute_lpush, execute_lrange, execute_llen,
              execute_blpop, execute_xrange, execute_xread, execute_watch, execute_unwatch,
              execute_wait, execute_multi, execute_discard, execute_replconf,
              setup_xread_blocking, wait_poll, arg, parse_expiry, seconds_to_ns; type_check ].
Qed.

(** ** Transactions that go on *)

Lemma advanced_typed ctx res c w :
  w_execs w !! ctx = Some c → (exec_index c < length (exec_results c))%nat → reply res →
  replies_ok w → replies_ok (advanced ctx res c w).
Proof.
  intros Hc Hi Hres [H1 H2 H3]. split; try done. apply map_Forall_insert_2; [|done].
  destruct (H2 _ _ Hc) as [Hl Hs Hq]. split; cbn; [by rewrite length_insert| |done].
  rewrite (take_S_r _ _ res) by (by apply list_lookup_insert_eq).
  apply Forall_app. split; [by rewrite take_insert_ge by lia|]. constructor; [done|constructor].
Qed.

Lemma typed_advance (m : M unit) (f : ExecContext → World → World) ctx res :
  reply res → (∀ c w, replies_ok w → replies_ok (f c w) ∧ w_execs (f c w) = w_execs w) →
  (∀ w, m w = match w_execs w !! ctx with
              | None => (w, UB)
              | Some c => if bool_decide (exec_index c < length (exec_results c))%nat
                          then call (TRunNext ctx) (advanced ctx res c (f c w))
                          else (w, Throw (range_check (exec_index c) (length (exec_results c))))
              end) →
  typed m.
Proof.
  intros Hres Hf Hm w Hw. rewrite Hm. destruct (w_execs w !! ctx) as [c|] eqn:E; [|by split].
  case_bool_decide; [|split; [done|intros e [= <-]; apply range_check_ok]].
  destruct (Hf c w Hw) as [Hw' Ee]. apply Hnext, advanced_typed; [by rewrite Ee|done..].
Qed.

Lemma typed_exec_callback ctx t req res : reply res → typed (exec_callback call ctx t req res).
Proof.
  intros Hres. apply (typed_advance _ (exec_propagates t req) ctx res); [done| |intros; apply exec_callback_eq].
  intros c w Hw. unfold exec_propagates. case_match; [|done]. split; [by apply typed_propagate|].
  unfold propagate_all, modify. cbn [fst]. by destruct (propagate _ _).
Qed.

Lemma typed_run_next ctx : typed (run_next call (execute redis_version call) ctx).
Proof.
  apply (typed_bind_post exec_typed).
  { intros w Hw. unfold get_exec. by destruct (w_execs w !! ctx). }
  { intros w c Hw. unfold get_exec. cbn. destruct (w_execs w !! ctx) eqn:E; [|done]. intros [= <-].
    exact (ok_exec_results _ Hw _ _ E). }
  intros c [Hl Hs Hq]. case_bool_decide as Hi.
  { apply Hreply, reply_array. by rewrite Hi, <- Hl, take_ge in Hs by lia. }
  apply (typed_bind_post (λ req, req ∈ exec_commands c)).
  { apply typed_lift. outcome_typed. }
  { intros w req _. simpl. destruct (_ !! _) eqn:E; [|done]. intros [= <-]. by eapply list_elem_of_lookup_2. }
  intros next_req Hreq. apply (typed_bind_post (λ cmd, parse_command next_req = Ok cmd)).
  { apply typed_lift, parse_command_typed. }
  { done. }
  intros next_cmd Hcmd. rewrite Forall_forall in Hq. pose proof (Hq next_req Hreq next_cmd Hcmd) as Hspeaks.
  destruct (execute _ _ _ _ _) as [body|] eqn:Eb; [by eapply typed_execute|].
  apply (typed_advance _ (λ _ w, w) ctx (unknown_command (cmd_name next_cmd)));
    [|by intros|intros; apply advance_eq].
  apply reply_unknown. by apply andb_true_iff in Hspeaks as [? _].
Qed.

Lemma typed_serve_blpop key : typed (serve_blpop_waiters call key).
Proof. unfold serve_blpop_waiters, blpop_callback. type_check. Qed.
End commands.

(** ** Callbacks, requests, timers and connections *)

Lemma typed_run version fuel :
  (∀ k s, reply s → typed (run version fuel (TReply k s))) ∧
  (∀ key, typed (run version fuel (TServeBlpop key))) ∧
  (∀ ctx, typed (run version fuel (TRunNext ctx))).
Proof.
  induction fuel as [|fuel (IHr & IHs & IHn)]; [split_and!; intros; by apply typed_lift|].
  cbn [run]. split_and!.
  - intros [c| |raw k|ctx t req] s Hs; cbn [run_task].
    + intros w [H1 H2 H3]. split; [|done]. split; try done. cbn. apply Forall_app. split; [done|].
      constructor; [done|constructor].
    + apply typed_ret.
    + apply typed_bind; [by apply IHr|intros; apply typed_propagate].
    + by apply typed_exec_callback.
  - intros key. by apply typed_serve_blpop.
  - intros ctx. by apply typed_run_next.
Qed.

Lemma typed_handle version fuel h request k : spoken request → typed (handle version fuel h request k).
Proof.
  intros Hsp. destruct (typed_run version fuel) as (Hr & Hs & Hn). unfold handle.
  apply typed_if; [by apply Hr, reply_literal|].
  apply (typed_bind_post (λ cmd, parse_command request = Ok cmd)).
  { apply typed_lift, parse_command_typed. }
  { done. }
  intros cmd Ec. pose proof (Hsp cmd Ec) as Hspeaks. assert (no_lf (cmd_name cmd) = true) as Hname
    by (by apply andb_true_iff in Hspeaks as [? _]).
  assert (∀ k' body, execute version (run version fuel) h cmd k' = Some body → typed body) as Hbody
    by (intros; by eapply typed_execute).
  assert (typed (run version fuel (TReply k (unknown_command (cmd_name cmd))))) as Hunknown
    by (by apply Hr, reply_unknown).
  unfold dispatch. apply typed_bind; [apply typed_gets|intros tm]. apply typed_if.
  { destruct (execute _ _ _ _ _) eqn:E; [|done]. apply typed_if; [by apply Hr, reply_literal|by eapply Hbody]. }
  apply typed_if.
  - apply typed_bind; [|by intros; apply Hr, reply_literal]. apply typed_on_tm. intros tm' wm Hq. cbn.
    apply Forall_app. split; [done|]. constructor; [done|constructor].
  - cbv zeta. destruct (execute _ _ _ _ _) eqn:E; [by eapply Hbody|done].
Qed.

Lemma typed_timer version fuel t : typed (timer_completes version fuel t).
Proof.
  destruct (typed_run version fuel) as (Hr & Hs & Hn). unfold timer_completes.
  apply typed_bind; [apply typed_gets|intros timers]. case_match; [|apply typed_ret]. case_match; [|apply typed_ret].
  apply typed_bind; [by apply typed_frame|intros _]. case_match; unfold blpop_timeout, xread_timeout, wait_poll.
  - apply typed_bind; [apply typed_unregister_blpop|intros; apply Hr, reply_null_array].
  - apply typed_bind; [apply typed_unregister_xread|intros; apply Hr, reply_null_array].
  - apply typed_bind; [apply typed_gets|intros count]. apply typed_bind; [apply typed_gets|intros now].
    apply typed_if; [apply Hr, reply_integer|]. apply typed_bind; [apply typed_start|intros; apply typed_ret].
Qed.

Lemma typed_expires t : typed (timer_expires t).
Proof. apply typed_frame. intros w. by repeat case_match. Qed.

Lemma typed_respond conn s : literal s = true → typed (respond conn s).
Proof.
  intros Hs w [H1 H2 H3]. split; [|done]. split; try done. cbn. apply Forall_app. split; [done|].
  constructor; [|done]. by apply reply_literal.
Qed.

Lemma typed_handle_ack conn parsed : typed (handle_ack conn parsed).
Proof. unfold handle_ack. repeat case_match; try apply typed_ret. by apply typed_frame. Qed.

Lemma typed_register_replica conn : typed (register_replica conn).
Proof. unfold register_replica. case_match; [apply typed_ret|]. intros w [H1 H2 H3]. split; [by split|done]. Qed.

Lemma typed_handshake conn t : typed (handshake_step conn t).
Proof.
  unfold handshake_step. case_match; [apply typed_ret|]. destruct t; try apply typed_ret;
    case_match; try apply typed_ret.
  apply typed_bind; [apply typed_register_replica|intros; apply typed_ret].
Qed.

Lemma parse_typed text : outcome_typed (parse text).
Proof.
  intros e E. assert (only_reserve_throws (parse text)) as Ht
    by (unfold parse; destruct text; [done|apply parse_loop_throws]).
  rewrite E in Ht. simpl in Ht. by subst e.
Qed.

Lemma typed_connection_read conn text : typed (connection_read conn text).
Proof.
  apply typed_bind; [apply typed_lift, parse_typed|]. intros [[command n]|].
  2: { apply typed_bind; [by apply typed_respond|intros; apply typed_ret]. }
  unfold connection_command. apply typed_if.
  { apply typed_bind; [by apply typed_respond|intros; apply typed_ret]. }
  apply typed_bind; [apply typed_lift, parse_command_typed|intros parsed].
  apply (typed_bind_post (λ r : Connection * option bytes, from_option literal true r.2 = true)).
  - apply typed_handshake.
  - intros w r _. unfold handshake_step, register_replica. destruct (negb _); [by intros [= <-]|].
    destruct (cmd_type parsed); repeat case_match; by intros [= <-].
  - intros [conn' [error|]] He.
    + apply typed_bind; [by apply typed_respond|intros; apply typed_ret].
    + apply typed_if; [|apply typed_ret]. apply typed_bind; [apply typed_handle_ack|intros; apply typed_ret].
Qed.

(** ** All states *)

(** The events of the server; requests are of the kind considered. *)
Inductive speaking_step (version : bytes) : World → World → Prop :=
  | speak_handle fuel h request k w :
      spoken request → speaking_step version w (handle version fuel h request k w).1
  | speak_expires t w : speaking_step version w (timer_expires t w).1
  | speak_completes fuel t w : speaking_step version w (timer_completes version fuel t w).1
  | speak_read conn text w : speaking_step version w (connection_read conn text w).1
  | speak_closed conn w : speaking_step version w (connection_closed conn w).1
  | speak_destroyed conn w : speaking_step version w (connection_destroyed conn w).1
  | speak_accept c w : speaking_step version w (accept c w).1
  | speak_clock steady system w :
      w_steady w ≤ steady → speaking_step version w (with_clocks steady system w).

Lemma speaking_step_ok version w w' : speaking_step version w w' → replies_ok w → replies_ok w'.
Proof.
  intros Hstep Hw. destruct Hstep as [fuel h request k w Hs|t w|fuel t w|conn text w|conn w|conn w|c w|steady system w _].
  - by apply typed_handle.
  - by apply typed_expires.
  - by apply typed_timer.
  - by apply typed_connection_read.
  - apply (typed_frame (λ w, (connection_closed conn w).1)); [|done]. intros w'. cbn.
    by destruct (registered_as_replica_ conn).
  - assert (typed (connection_destroyed conn)) as H
      by (apply typed_bind; [|intros _]; apply typed_clear). by apply H.
  - by destruct Hw.
  - by destruct Hw.
Qed.

Lemma replies_ok_initial config steady system : replies_ok (initial_world config steady system).
Proof. split; [constructor|apply map_Forall_empty|]. intros h. unfold tm_of. cbn. rewrite lookup_empty. constructor. Qed.
End typed.

Lemma strict_reply s : reply (deviant true) s → reply (λ _, False) s.
Proof.
  revert s. apply reply_elim; intros; try (by econstructor). by destruct H.
Qed.

(** ** Properties *)

(** C11. Replies are RESP2.  Whatever requests the clients send (with command
    names that contain no line feed, which an error reply would quote), in any
    interleaving with timers and connection events, every text the server
    writes to a connection is a RESP2 reply, arrays of transactions, streams
    and blocked clients included, or one of two known exceptions: the WRONGTYPE
    text of GET and LPOP, which has no line end, and the FULLRESYNC reply of
    PSYNC.  Without these three commands there is no exception, and a client
    that reads the reply takes exactly its bytes, whatever follows. *)
Theorem replies_well_typed (version : bytes) (strict : bool) (config : ServerConfig) (steady system : Z)
    (w : World) (c : ConnId) (s : bytes)
    (Hreach : rtc (speaking_step strict version) (initial_world config steady system) w)
    (Hwritten : Response c s ∈ w_out w) :
  reply (deviant strict) s ∧ (strict = true → ∀ rest, skip_reply (s ++ rest) = Some rest).
Proof.
  assert (replies_ok strict w) as [Hout _ _].
  { pose proof (replies_ok_initial strict config steady system) as H0. revert H0.
    induction Hreach as [|w1 w2 w3 Hstep _ IH]; [done|]. intros H0. by apply IH; eauto using speaking_step_ok. }
  rewrite Forall_forall in Hout. specialize (Hout _ Hwritten). simpl in Hout. split; [done|].
  intros -> rest. by apply skip_framed, strict_reply.
Qed.

(** A transaction with a stream read and a refused INCR. *)
Definition spoken_1 : World := (send 1 [b "XADD"; b "s"; b "1-1"; b "f"; b "v"] example_world).1.
Definition spoken_2 : World := (send 1 [b "MULTI"] spoken_1).1.
Definition spoken_3 : World := (send 1 [b "XREAD"; b "STREAMS"; b "s"; b "0"] spoken_2).1.
Definition spoken_4 : World := (send 1 [b "INCR"; b "s"] spoken_3).1.
Definition spoken_5 : World := (send 1 [b "EXEC"] spoken_4).1.

Definition exec_text : bytes :=
  b "*2" ++ CRLF ++ format_stream_entries [(b "s", [mkEntry (b "1-1") [(b "f", b "v")]])] ++ not_an_integer.

Lemma send_spoken i l cmd w :
  parse_command (example_request l) = Ok cmd → speaks true cmd = true →
  speaking_step true (b "7.0.0") w (send i l w).1.
Proof.
  intros Hp Hs. apply speak_handle. intros cmd' Hp'. rewrite Hp in Hp'. by injection Hp' as <-.
Qed.

Lemma replies_well_typed_witness :
  last (w_out spoken_5) = Some (Response 1 exec_text) ∧
  skip_reply (exec_text ++ b "+PONG" ++ CRLF) = Some (b "+PONG" ++ CRLF).
Proof.
  assert (last (w_out spoken_5) = Some (Response 1 exec_text)) as Hlast by (by vm_compute).
  split; [exact Hlast|].
  assert (rtc (speaking_step true (b "7.0.0")) example_world spoken_5) as Hreach.
  { apply (rtc_l _ _ spoken_1); [exact (send_spoken 1 [b "XADD"; b "s"; b "1-1"; b "f"; b "v"]
      (mkCommand XAdd (b "XADD") [b "s"; b "1-1"; b "f"; b "v"]) example_world eq_refl eq_refl)|].
    apply (rtc_l _ _ spoken_2); [exact (send_spoken 1 [b "MULTI"] (mkCommand Multi (b "MULTI") []) spoken_1
      eq_refl eq_refl)|].
    apply (rtc_l _ _ spoken_3); [exact (send_spoken 1 [b "XREAD"; b "STREAMS"; b "s"; b "0"]
      (mkCommand XRead (b "XREAD") [b "STREAMS"; b "s"; b "0"]) spoken_2 eq_refl eq_refl)|].
    apply (rtc_l _ _ spoken_4); [exact (send_spoken 1 [b "INCR"; b "s"] (mkCommand Incr (b "INCR") [b "s"])
      spoken_3 eq_refl eq_refl)|].
    apply (rtc_l _ _ spoken_5); [exact (send_spoken 1 [b "EXEC"] (mkCommand Exec (b "EXEC") []) spoken_4
      eq_refl eq_refl)|]. apply rtc_refl. }
  exact (proj2 (replies_well_typed (b "7.0.0") true (master_config (replicate 40 7%nat)) 0 1000 spoken_5 1
    exec_text Hreach (last_Some_elem_of _ _ Hlast)) eq_refl (b "+PONG" ++ CRLF)).
Defined.

(** A name with a line break is quoted as it is: the reply to one request reads
    as two replies. *)
Theorem command_name_injects_reply :
  let name := b "x" ++ CRLF ++ b "+OK" in
  let w := (send 1 [name] example_world).1 in
  w_out w = [Response 1 (b "-ERR unknown command 'x" ++ CRLF ++ b "+OK'" ++ CRLF)] ∧
  skip_reply (b "-ERR unknown command 'x" ++ CRLF ++ b "+OK'" ++ CRLF) = Some (b "+OK'" ++ CRLF).
Proof. split; by vm_compute. Qed.
