(* ===== verification/Network.v ===== *)
(** * Connections in the network: reads, writes and the count of clients

    Models what the completion handlers of src/net/Connection.cpp and
    src/net/Server.cpp start next.  A connection keeps itself alive through its
    pending operations: a read, a command posted to the store thread, or the
    write of a reply, which starts the next read.  A [Peer] counts them.  The
    replies that have been handed to a connection are its [Response]s in the
    output of [World]; [peer_written] says how many of them are on the wire.

    The file composes the connections with the store thread: that each
    request is answered once (OneReply.v) is what makes a connection do one
    thing at a time and be counted off once. *)

From S2P Require Import Prelude CharConv Resp StreamId StoreValue StringStore ListStore StreamStore Store Blocking WatchManager TransactionManager ReplicaRegistry Command ServerConfig World BasicCommands ListCommands StreamCommands TransactionCommands CommandRegistry Dispatch Invariants Transactions BlockedClients BlockedReaders WaitCommand Connection Server Termination OneReply.

Record Peer := mkPeer {
  peer_conn : Connection;
  (** pending [async_read_until]s *)
  peer_reads : nat;
  (** commands posted to the store thread *)
  peer_posted : list (Handler * RespValue);
  (** completed writes of replies *)
  peer_written : nat;
}.

Record Network := mkNetwork {
  net_world : World;
  net_peers : gmap ConnId Peer;
}.

Definition initial_network (config : ServerConfig) (steady system : Z) : Network :=
  mkNetwork (initial_world config steady system) ∅.

(** [Connection::do_read]: one more read is pending. *)
Definition do_read (p : Peer) : Peer :=
  mkPeer (peer_conn p) (S (peer_reads p)) (peer_posted p) (peer_written p).

(** The completion handler of a read has been entered. *)
Definition take_read (p : Peer) : Peer :=
  mkPeer (peer_conn p) (pred (peer_reads p)) (peer_posted p) (peer_written p).

Definition with_conn (conn : Connection) (p : Peer) : Peer :=
  mkPeer conn (peer_reads p) (peer_posted p) (peer_written p).

(** A reply is on the wire, or its write has failed. *)
Definition take_write (p : Peer) : Peer :=
  mkPeer (peer_conn p) (peer_reads p) (peer_posted p) (S (peer_written p)).

Definition post (h : Handler) (command : RespValue) (p : Peer) : Peer :=
  mkPeer (peer_conn p) (peer_reads p) (peer_posted p ++ [(h, command)]) (peer_written p).

(** [Connection::start]. *)
Definition start_connection (conn : Connection) : Peer := do_read (mkPeer conn 0 [] 0).

(** What the completion handler of a read starts.  The parse error is written
    synchronously, before the next read. *)
Definition after_read (text : bytes) (action : Action) (p : Peer) : Peer :=
  match action with
  | ReadOn => do_read (if refused text action then take_write p else p)
  | AwaitWrite => p
  | PostCommand h command => post h command p
  end.

(** [on_disconnect_]. *)
Definition on_disconnect (w : World) : World := with_clients (to_u64 (w_clients w - 1)) w.

(** The completion handler of a write; on an error only [on_disconnect_] is
    called, and the replica stays registered. *)
Definition write_completes (error : bool) (p : Peer) (w : World) : Peer * World :=
  if error then (take_write p, on_disconnect w) else (do_read (take_write p), w).

(** Replies that are not yet on the wire. *)
Definition unwritten (c : ConnId) (p : Peer) (w : World) : nat := answers c (w_out w) - peer_written p.

(** The events of the whole program.  An exception ends it, so the steps are
    those in which no exception escapes.  With [fits] the requests and timer
    handlers are those of [history], which give one reply each; without it they
    are arbitrary. *)
Inductive net_step (version : bytes) (fits : bool) : Network → Network → Prop :=
  | net_accept c w w' conn peers :
      peers !! c = None → accept c w = (w', Ok conn) →
      net_step version fits (mkNetwork w peers) (mkNetwork w' (<[c := start_connection conn]> peers))
  | net_accept_error n : net_step version fits n n
  | net_read c p text w w' conn' action peers :
      peers !! c = Some p → (0 < peer_reads p)%nat →
      connection_read (peer_conn p) text w = (w', Ok (conn', action)) →
      net_step version fits (mkNetwork w peers)
        (mkNetwork w' (<[c := after_read text action (with_conn conn' (take_read p))]> peers))
  | net_read_error c p w peers :
      peers !! c = Some p → (0 < peer_reads p)%nat →
      net_step version fits (mkNetwork w peers)
        (mkNetwork (connection_closed (peer_conn p) w).1 (<[c := take_read p]> peers))
  | net_run fuel c p h request rest w w' peers :
      peers !! c = Some p → peer_posted p = (h, request) :: rest → (fits = true → request_fits h request w) →
      handle version fuel h request (ReplyTo c) w = (w', Ok tt) →
      net_step version fits (mkNetwork w peers)
        (mkNetwork w' (<[c := mkPeer (peer_conn p) (peer_reads p) rest (peer_written p)]> peers))
  | net_write error c p w peers :
      peers !! c = Some p → (0 < unwritten c p w)%nat →
      net_step version fits (mkNetwork w peers)
        (mkNetwork (write_completes error p w).2 (<[c := (write_completes error p w).1]> peers))
  | net_destroyed c p w peers :
      peers !! c = Some p →
      net_step version fits (mkNetwork w peers) (mkNetwork (connection_destroyed (peer_conn p) w).1 peers)
  | net_expires t w peers : net_step version fits (mkNetwork w peers) (mkNetwork (timer_expires t w).1 peers)
  | net_completes fuel t w w' peers :
      (fits = true → timer_fits t w) → timer_completes version fuel t w = (w', Ok tt) →
      net_step version fits (mkNetwork w peers) (mkNetwork w' peers)
  | net_replicated fuel h request w w' peers :
      (fits = true → request_fits h request w) → handle version fuel h request ReplyDiscard w = (w', Ok tt) →
      net_step version fits (mkNetwork w peers) (mkNetwork w' peers)
  | net_clock steady system w peers :
      w_steady w ≤ steady → net_step version fits (mkNetwork w peers) (mkNetwork (with_clocks steady system w) peers).

(** ** What commands do not touch *)

(** The clocks, the number of clients and the configuration. *)
Definition fixed (w : World) : Z * Z * Z * ServerConfig := (w_steady w, w_system w, w_clients w, w_config w).

(** The later state has these as they were, and all that was written. *)
Definition advances (w w' : World) : Prop := fixed w' = fixed w ∧ w_out w `prefix_of` w_out w'.

#[export] Instance advances_refl : Reflexive advances.
Proof. by split. Qed.

#[export] Instance advances_trans : Transitive advances.
Proof. intros w1 w2 w3 [E1 P1] [E2 P2]. split; [congruence|by etrans]. Qed.

Definition keeps {A} (m : M A) : Prop := ∀ w, advances w (m w).1.

Create HintDb keeps.

Lemma keeps_pure {A} (m : M A) : (∀ w, (m w).1 = w) → keeps m.
Proof. intros Hm w. by rewrite Hm. Qed.

Lemma keeps_bind {A B} (m : M A) (f : A → M B) : keeps m → (∀ a, keeps (f a)) → keeps (m ≫= f).
Proof.
  intros Hm Hf w. unfold mbind, M_bind. specialize (Hm w). destruct (m w) as [w' [a| | |]]; simpl in *; try done.
  etrans; [exact Hm|apply Hf].
Qed.

Lemma keeps_try {A} (m : M A) (handler : exn → M A) :
  keeps m → (∀ e, keeps (handler e)) → keeps (try_catch m handler).
Proof.
  intros Hm Hh w. unfold try_catch. specialize (Hm w). destruct (m w) as [w' [a|e| |]]; simpl in *; try done.
  etrans; [exact Hm|apply Hh].
Qed.

Lemma keeps_modify (f : World → World) : (∀ w, advances w (f w)) → keeps (modify f).
Proof. intros Hf w. apply Hf. Qed.

Lemma keeps_ret {A} (a : A) : keeps (mret a).
Proof. by apply keeps_pure. Qed.

Lemma keeps_gets {A} (f : World → A) : keeps (gets f).
Proof. by apply keeps_pure. Qed.

Lemma keeps_lift {A} (o : outcome A) : keeps (lift o).
Proof. by apply keeps_pure. Qed.

Lemma keeps_get_exec ctx : keeps (get_exec ctx).
Proof. by apply keeps_pure. Qed.

Lemma keeps_on_store {A} (f : Data → A * Data) : keeps (on_store f).
Proof. intros w. unfold on_store. by destruct (f (w_store w)). Qed.

Lemma keeps_on_store_outcome {A} (f : Data → Data * outcome A) : keeps (on_store_outcome f).
Proof. intros w. unfold on_store_outcome. by destruct (f (w_store w)). Qed.

Lemma keeps_on_tm h f : keeps (on_tm h f).
Proof. intros w. unfold on_tm, modify. by destruct (f _ _). Qed.

Lemma keeps_notify key : keeps (notify key).
Proof.
  intros w. unfold notify, modify. cbn [fst]. generalize (notify_write key (w_watch w)). intros l.
  revert w. induction l as [|h l IH]; intros w; [done|]. cbn [fold_left]. etrans; [|apply IH]. by split.
Qed.

Lemma advances_write w o : advances w (with_out (w_out w ++ o) w).
Proof. split; [done|]. by apply prefix_app_r. Qed.

Lemma keeps_propagate data : keeps (propagate_all data).
Proof.
  intros w. unfold propagate_all, modify. cbn [fst]. destruct (propagate _ _) as [posts r].
  split; [done|]. by apply prefix_app_r.
Qed.

Lemma keeps_getack : keeps request_getack_all.
Proof.
  intros w. unfold request_getack_all, modify. cbn [fst]. destruct (request_getack _) as [posts r].
  split; [done|]. by apply prefix_app_r.
Qed.

Lemma keeps_cancel t : keeps (cancel_timer t).
Proof. intros w. unfold cancel_timer, modify. cbn [fst]. by repeat case_match. Qed.

Lemma keeps_start t : keeps (start_timer t).
Proof. by intros w. Qed.

Lemma keeps_new_exec c : keeps (new_exec c).
Proof. by intros w. Qed.

Lemma keeps_put_exec ctx c : keeps (put_exec ctx c).
Proof. by intros w. Qed.

Lemma keeps_register_blpop keys c : keeps (register_blpop keys c).
Proof. intros w. unfold register_blpop. by destruct (register_callbacks _ _ _). Qed.

Lemma keeps_register_xread keys c : keeps (register_xread keys c).
Proof. intros w. unfold register_xread. by destruct (register_callbacks _ _ _). Qed.

#[export] Hint Resolve keeps_ret keeps_gets keeps_lift keeps_on_store keeps_on_store_outcome keeps_on_tm
  keeps_notify keeps_propagate keeps_getack keeps_cancel keeps_start keeps_get_exec keeps_new_exec keeps_put_exec
  keeps_register_blpop keeps_register_xread : keeps.

Ltac keep :=
  repeat first
    [ progress intros
    | solve [auto 2 with keeps]
    | simple apply keeps_bind
    | simple apply keeps_try
    | case_match
    | simple apply keeps_modify; first [done | intros; apply advances_write] ].

Section keeps.
Context (version : bytes) (call : Task → M unit) (Hcall : ∀ t, keeps (call t)).
Hint Resolve Hcall : keeps.

Lemma keeps_blpop_immediate keys : keeps (blpop_immediate keys).
Proof. induction keys; cbn [blpop_immediate]; keep. Qed.

Lemma keeps_serve_readers waiters : keeps (serve_readers call waiters).
Proof. induction waiters; cbn [serve_readers]; unfold xread_callback, unregister_xread; keep. Qed.

Lemma keeps_execute h cmd k body : execute version call h cmd k = Some body → keeps body.
Proof.
  pose proof keeps_blpop_immediate. pose proof keeps_serve_readers.
  rewrite execute_table. unfold command_table. destruct (h_kind h), (cmd_type cmd); intros [= <-];
  unfold execute_ping, execute_info, execute_echo, execute_set, execute_get, execute_type,
    execute_incr, execute_rpush, execute_lpush, execute_lrange, execute_llen, execute_lpop,
    execute_blpop, execute_xadd, execute_xrange, execute_xread, execute_watch, execute_unwatch,
    execute_wait, execute_multi, execute_exec, execute_discard, execute_replconf, execute_psync,
    setup_xread_blocking, serve_xread_waiters, wait_poll, arg; keep.
Qed.

Lemma keeps_run_task t : keeps (run_task version call t).
Proof.
  destruct t as [[c| |raw k|ctx t req] s|ctx|key]; cbn [run_task]; try (by keep).
  - unfold exec_callback, store_result, next_index. keep.
  - unfold run_next. apply keeps_bind; [keep|intros c]. case_match; [keep|].
    apply keeps_bind; [keep|intros req]. apply keeps_bind; [keep|intros cmd].
    destruct (execute _ _ _ _ _) eqn:E; [by eapply keeps_execute|]. unfold store_result, next_index. keep.
  - unfold serve_blpop_waiters, blpop_callback, unregister_blpop. keep.
Qed.
End keeps.

Lemma keeps_run version fuel t : keeps (run version fuel t).
Proof.
  revert t. induction fuel as [|fuel IH]; intros t; cbn [run]; [apply keeps_lift|]. by apply keeps_run_task.
Qed.

#[export] Hint Resolve keeps_run : keeps.

Lemma keeps_handle version fuel h request k : keeps (handle version fuel h request k).
Proof.
  unfold handle. case_match; [apply keeps_run|]. apply keeps_bind; [keep|intros cmd].
  unfold dispatch. apply keeps_bind; [keep|intros tm]. cbv zeta.
  assert (∀ k' body, execute version (run version fuel) h cmd k' = Some body → keeps body) as Hb
    by (intros; eapply keeps_execute; [apply keeps_run|done]).
  destruct (always_direct _); [destruct (execute _ _ _ _ _) eqn:E; keep; by eapply Hb|].
  destruct (is_active tm); [keep|]. destruct (execute _ _ _ _ _) eqn:E; [by eapply Hb|keep].
Qed.

Lemma keeps_timer version fuel t : keeps (timer_completes version fuel t).
Proof.
  unfold timer_completes, blpop_timeout, xread_timeout, wait_poll, unregister_blpop, unregister_xread. keep.
Qed.

Lemma keeps_register_replica conn : keeps (register_replica conn).
Proof. unfold register_replica. case_match; [apply keeps_ret|]. by intros w. Qed.

Lemma keeps_connection_read conn text : keeps (connection_read conn text).
Proof.
  pose proof keeps_register_replica.
  unfold connection_read, connection_command, handshake_step, respond, handle_ack. keep.
Qed.

Lemma advances_answers c w w' : advances w w' → (answers c (w_out w) ≤ answers c (w_out w'))%nat.
Proof. intros [_ [l ->]]. rewrite answers_app. lia. Qed.

(** ** The invariant *)

(** What keeps a connection alive: pending reads, posted commands, and
    requests whose reply is not yet written. *)
Definition tokens (asked : list ConnId) (p : Peer) : nat :=
  peer_reads p + length (peer_posted p) + (asked_by (conn_id (peer_conn p)) asked - peer_written p).

Record net_ok (version : bytes) (n : Network) (asked : list ConnId) : Prop := {
  n_history : history version (net_world n) asked;
  n_ids : map_Forall (λ c p, conn_id (peer_conn p) = c) (net_peers n);
  n_written : map_Forall (λ c p, (peer_written p ≤ answers c (w_out (net_world n)))%nat) (net_peers n);
  n_strangers : ∀ c, net_peers n !! c = None → asked_by c asked = O;
  n_single : map_Forall (λ _ p, (tokens asked p ≤ 1)%nat) (net_peers n);
  n_clients : w_clients (net_world n) = to_u64 (Z.of_nat (map_sum (tokens asked) (net_peers n)));
}.

Lemma answers_asked version w asked c :
  history version w asked → (answers c (w_out w) ≤ asked_by c asked)%nat.
Proof. intros (ws & xs & Hl)%(history_holds c). pose proof (l_sum _ _ _ _ _ Hl). lia. Qed.

Lemma to_u64_shift a x : to_u64 (to_u64 a + x) = to_u64 (a + x).
Proof. unfold to_u64. by rewrite Zplus_mod_idemp_l. Qed.

(** A step of one connection. *)
Lemma net_ok_update version w w' peers asked asked' c p p' :
  net_ok version (mkNetwork w peers) asked → peers !! c = Some p →
  history version w' asked' → (∀ c', c' ≠ c → asked_by c' asked' = asked_by c' asked) →
  (∀ c', (answers c' (w_out w) ≤ answers c' (w_out w'))%nat) →
  conn_id (peer_conn p') = c → (peer_written p' ≤ answers c (w_out w'))%nat → (tokens asked' p' ≤ 1)%nat →
  w_clients w' = to_u64 (w_clients w + (Z.of_nat (tokens asked' p') - Z.of_nat (tokens asked p))) →
  net_ok version (mkNetwork w' (<[c := p']> peers)) asked'.
Proof.
  intros [H1 H2 H3 H4 H5 H6] Hp Hh Hasked Hans Hid Hwr Htok Hcl. cbn [net_world net_peers] in *.
  assert (∀ c' p0, delete c peers !! c' = Some p0 → tokens asked' p0 = tokens asked p0) as Hsame.
  { intros c' p0 [Hne Hp0]%lookup_delete_Some. unfold tokens. rewrite (H2 _ _ Hp0). by rewrite Hasked. }
  split; cbn [net_world net_peers]; try done.
  - by apply map_Forall_insert_2.
  - apply map_Forall_insert_2; [done|]. intros c' p0 Hp0. specialize (H3 _ _ Hp0). specialize (Hans c'). simpl in *. lia.
  - intros c' [Hn Hne]%lookup_insert_None. rewrite Hasked by done. by apply H4.
  - intros c' p0. rewrite lookup_insert. case_decide as Hc'; [by intros [= <-]|].
    intros Hp0. rewrite (Hsame c'); [by eapply H5|]. by rewrite lookup_delete_ne.
  - rewrite Hcl, H6, to_u64_shift, map_sum_insert, (map_sum_delete _ c peers), Hp. cbn [from_option].
    rewrite (map_sum_ext (tokens asked') (tokens asked)); [|intros c' p0 Hp0; by eapply Hsame].
    f_equal. lia.
Qed.

(** A step of the store thread that no connection takes part in. *)
Lemma net_ok_world version w w' peers asked :
  net_ok version (mkNetwork w peers) asked → history version w' asked → advances w w' →
  net_ok version (mkNetwork w' peers) asked.
Proof.
  intros [H1 H2 H3 H4 H5 H6] Hh Hadv. split; cbn [net_world net_peers] in *; try done.
  - intros c p Hp. specialize (H3 _ _ Hp). pose proof (advances_answers c _ _ Hadv). simpl in *. lia.
  - destruct Hadv as [[= _ _ -> _] _]. done.
Qed.

Lemma clients_same version w w' peers asked (a b : nat) :
  net_ok version (mkNetwork w peers) asked → w_clients w' = w_clients w → a = b →
  w_clients w' = to_u64 (w_clients w + (Z.of_nat a - Z.of_nat b)).
Proof.
  intros Hn -> ->. pose proof (n_clients _ _ _ Hn) as E. cbn [net_world] in E. rewrite E, to_u64_shift. f_equal. lia.
Qed.

Lemma read_conn_id conn text w w' conn' action :
  connection_read conn text w = (w', Ok (conn', action)) → conn_id conn' = conn_id conn.
Proof.
  unfold connection_read. unfold mbind at 1, M_bind at 1, lift at 1.
  destruct (parse text) as [[[command n]|]| | |]; try done; [|by intros [= _ <- _]].
  unfold connection_command. destruct (_ || _); [by intros [= _ <- _]|].
  unfold mbind at 1, M_bind at 1, lift at 1. destruct (parse_command command) as [parsed| | |]; try done.
  unfold mbind at 1, M_bind at 1.
  destruct (handshake_step conn (cmd_type parsed) w) as [w1 [[conn1 error]| | |]] eqn:E; try done.
  apply (handshake_untouched 0) in E as [_ Hid]. simpl in Hid.
  destruct error as [error|]; [by intros [= _ <- _]|].
  destruct (is_ack conn1 parsed); [|by intros [= _ <- _]].
  unfold mbind, M_bind. destruct (handle_ack conn1 parsed w1) as [w2 [[]| | |]]; try done. by intros [= _ <- _].
Qed.

Lemma asked_by_other c c' l : c' ≠ c → asked_by c' (l ++ [c]) = asked_by c' l.
Proof.
  intros Hne. rewrite asked_by_app, asked_by_one. simpl. rewrite bool_decide_eq_false_2 by congruence. lia.
Qed.

Lemma asked_by_same c l : asked_by c (l ++ [c]) = S (asked_by c l).
Proof. rewrite asked_by_app, asked_by_one. simpl. rewrite bool_decide_eq_true_2 by done. lia. Qed.

Lemma advances_clients w w' : advances w w' → w_clients w' = w_clients w.
Proof. by intros [[= _ _ E _] _]. Qed.

Section steps.
Context (version : bytes) (w w' : World) (peers : gmap ConnId Peer) (asked : list ConnId) (c : ConnId) (p : Peer).
Context (Hn : net_ok version (mkNetwork w peers) asked) (Hp : peers !! c = Some p).

(** What the invariant says of the connection that takes a step. *)
Lemma peer_facts :
  conn_id (peer_conn p) = c ∧
  (peer_written p ≤ answers c (w_out w) ≤ asked_by c asked)%nat ∧
  tokens asked p = (peer_reads p + length (peer_posted p) + (asked_by c asked - peer_written p))%nat ∧
  (tokens asked p ≤ 1)%nat.
Proof.
  destruct Hn as [H1 H2 H3 H4 H5 H6]. pose proof (H2 _ _ Hp) as Hid. simpl in Hid. split_and!; [done|..].
  - exact (H3 _ _ Hp).
  - by eapply answers_asked.
  - unfold tokens. by rewrite Hid.
  - exact (H5 _ _ Hp).
Qed.

Lemma net_read_ok text conn' action :
  (0 < peer_reads p)%nat → connection_read (peer_conn p) text w = (w', Ok (conn', action)) →
  net_ok version (mkNetwork w' (<[c := after_read text action (with_conn conn' (take_read p))]> peers))
    (asked ++ if refused text action then [c] else []).
Proof.
  intros Hr E. destruct peer_facts as (Hid & Hwr & Htok & Hone).
  pose proof (keeps_connection_read (peer_conn p) text w) as Hadv. rewrite E in Hadv. cbn [fst] in Hadv.
  pose proof (read_conn_id _ _ _ _ _ _ E) as Hid'. rewrite Hid in Hid'.
  pose proof (u_answers _ _ _ _ (read_untouched c _ _ _ _ _ _ E)) as Hans.
  pose proof (history_read version (peer_conn p) text w w' conn' action asked (n_history _ _ _ Hn) E) as Hh.
  rewrite Hid in Hh. unfold answer_of in Hans. cbn [owns_direct] in Hans. rewrite Hid in Hans.
  rewrite bool_decide_eq_true_2 in Hans by done.
  set (p' := after_read text action (with_conn conn' (take_read p))).
  set (asked' := asked ++ if refused text action then [c] else []) in *.
  assert (asked_by c asked' = if refused text action then S (asked_by c asked) else asked_by c asked) as Hasked
    by (unfold asked'; destruct (refused text action); [apply asked_by_same|by rewrite app_nil_r]).
  assert (conn_id (peer_conn p') = c ∧ tokens asked' p' = tokens asked p ∧
    (peer_written p' ≤ answers c (w_out w'))%nat) as (F1 & F2 & F3).
  { unfold p', after_read. rewrite Htok, Hans. unfold tokens.
    destruct action as [| |h command]; [destruct (refused text ReadOn) eqn:Er| |]; cbn in *; rewrite ?Er in *; cbn;
      (split_and!; [done| |lia]); rewrite Hid', Hasked; rewrite ?length_app; simpl; lia. }
  eapply net_ok_update; [exact Hn|exact Hp|exact Hh| |intros; by apply advances_answers|exact F1|exact F3|lia|].
  - intros c' Hne. unfold asked'. destruct (refused _ _); [by apply asked_by_other|by rewrite app_nil_r].
  - eapply clients_same; [exact Hn|by apply advances_clients|done].
Qed.

Lemma net_run_ok fuel h request rest :
  peer_posted p = (h, request) :: rest → request_fits h request w →
  handle version fuel h request (ReplyTo c) w = (w', Ok tt) →
  net_ok version (mkNetwork w' (<[c := mkPeer (peer_conn p) (peer_reads p) rest (peer_written p)]> peers)) (asked ++ [c]).
Proof.
  intros Hq Hf E. destruct peer_facts as (Hid & Hwr & Htok & Hone). rewrite Hq in Htok. simpl in Htok.
  pose proof (keeps_handle version fuel h request (ReplyTo c) w) as Hadv. rewrite E in Hadv. cbn [fst] in Hadv.
  pose proof (advances_answers c _ _ Hadv). set (p' := mkPeer _ _ rest _).
  assert (tokens (asked ++ [c]) p' = tokens asked p) as Hsame
    by (rewrite Htok; unfold tokens; cbn; rewrite Hid, asked_by_same; lia).
  eapply net_ok_update; [exact Hn|exact Hp|eapply history_request; [apply (n_history _ _ _ Hn)|exact Hf|exact E]
    |intros; by apply asked_by_other|intros; by apply advances_answers|done|unfold p'; cbn [peer_written]; lia|lia|].
  eapply clients_same; [exact Hn|by apply advances_clients|done].
Qed.

Lemma net_write_ok error :
  (0 < unwritten c p w)%nat →
  net_ok version (mkNetwork (write_completes error p w).2 (<[c := (write_completes error p w).1]> peers)) asked.
Proof.
  intros Hu. destruct peer_facts as (Hid & Hwr & Htok & Hone). unfold unwritten in Hu.
  unfold write_completes. destruct error; cbn [fst snd].
  - assert (S (tokens asked (take_write p)) = tokens asked p) as Hless
      by (rewrite Htok; unfold tokens; cbn; rewrite Hid; lia).
    eapply net_ok_update; [exact Hn|exact Hp|apply history_write_error, (n_history _ _ _ Hn)|done|done|done|cbn [peer_written take_write do_read w_out with_clients on_disconnect]; lia|lia|].
    cbn [w_clients with_clients on_disconnect]. f_equal. lia.
  - assert (tokens asked (do_read (take_write p)) = tokens asked p) as Hsame
      by (rewrite Htok; unfold tokens; cbn; rewrite Hid; lia).
    eapply net_ok_update; [exact Hn|exact Hp|apply (n_history _ _ _ Hn)|done|done|done|cbn [peer_written take_write do_read w_out with_clients on_disconnect]; lia|lia|].
    by eapply clients_same.
Qed.

Lemma net_read_error_ok :
  (0 < peer_reads p)%nat →
  net_ok version (mkNetwork (connection_closed (peer_conn p) w).1 (<[c := take_read p]> peers)) asked.
Proof.
  intros Hr. destruct peer_facts as (Hid & Hwr & Htok & Hone).
  assert (S (tokens asked (take_read p)) = tokens asked p) as Hless
    by (rewrite Htok; unfold tokens; cbn; rewrite Hid; lia).
  assert (w_out (connection_closed (peer_conn p) w).1 = w_out w ∧
    w_clients (connection_closed (peer_conn p) w).1 = to_u64 (w_clients w - 1)) as [Eo Ec]
    by (unfold connection_closed, modify; cbn; by destruct (registered_as_replica_ _)).
  eapply net_ok_update; [exact Hn|exact Hp|apply history_closed, (n_history _ _ _ Hn)|done|intros; by rewrite Eo|done
    |rewrite Eo; cbn [peer_written take_read]; lia|lia|]. rewrite Ec. f_equal. lia.
Qed.
End steps.

Lemma net_accept_ok version w w' conn peers asked c :
  net_ok version (mkNetwork w peers) asked → peers !! c = None → accept c w = (w', Ok conn) →
  net_ok version (mkNetwork w' (<[c := start_connection conn]> peers)) asked.
Proof.
  intros Hn Hc [= <- <-]. destruct Hn as [H1 H2 H3 H4 H5 H6]. cbn [net_world net_peers] in *.
  assert (tokens asked (start_connection (new_connection c)) = 1%nat) as Htok
    by (unfold tokens; cbn; rewrite (H4 c Hc); lia).
  split; cbn [net_world net_peers].
  - exact (history_accept version c w asked H1).
  - by apply map_Forall_insert_2.
  - apply map_Forall_insert_2; [simpl; lia|done].
  - intros c' [Hn _]%lookup_insert_None. by apply H4.
  - apply map_Forall_insert_2; [lia|done].
  - rewrite map_sum_insert, delete_id, Htok by done. cbn [w_clients with_clients]. rewrite H6, to_u64_shift.
    f_equal. lia.
Qed.

Lemma net_step_ok version n n' asked :
  net_step version true n n' → net_ok version n asked → ∃ asked', net_ok version n' asked'.
Proof.
  intros Hstep Hn. destruct Hstep as [c w w' conn peers Hc E|n|c p text w w' conn' action peers Hp Hr E
    |c p w peers Hp Hr|fuel c p h request rest w w' peers Hp Hq Hf E|error c p w peers Hp Hu|c p w peers Hp
    |t w peers|fuel t w w' peers Hf E|fuel h request w w' peers Hf E|steady system w peers Hs].
  - exists asked. by eapply net_accept_ok.
  - by exists asked.
  - eexists. by eapply net_read_ok.
  - exists asked. by eapply net_read_error_ok.
  - eexists. specialize (Hf eq_refl). by eapply net_run_ok.
  - exists asked. by apply net_write_ok.
  - exists asked. eapply net_ok_world; [exact Hn|apply history_destroyed, (n_history _ _ _ Hn)|].
    assert (keeps (connection_destroyed (peer_conn p))) as Hk by (unfold connection_destroyed; keep). apply Hk.
  - exists asked. eapply net_ok_world; [exact Hn|apply history_expires, (n_history _ _ _ Hn)|].
    unfold timer_expires, modify. cbn [fst]. by repeat case_match.
  - exists asked. specialize (Hf eq_refl). eapply net_ok_world; [exact Hn|eapply history_completes; [apply (n_history _ _ _ Hn)|done..]|].
    pose proof (keeps_timer version fuel t w) as Hk. by rewrite E in Hk.
  - exists asked. specialize (Hf eq_refl). eapply net_ok_world; [exact Hn|eapply history_replicated; [apply (n_history _ _ _ Hn)|done..]|].
    pose proof (keeps_handle version fuel h request ReplyDiscard w) as Hk. by rewrite E in Hk.
  - exists asked. destruct Hn as [H1 H2 H3 H4 H5 H6]. split; try done. by apply history_clock.
Qed.

Lemma net_ok_initial version config steady system : net_ok version (initial_network config steady system) [].
Proof. split; try done; try apply map_Forall_empty. apply history_start. Qed.

(** ** Property *)

(** C12. A connection does one thing at a time, and is counted off once.  Take
    a run of the program: connections are accepted, their reads bring
    requests or fail, the store thread executes posted commands, timers fire,
    replies are written or fail to be written; no exception escapes, no XRANGE or
    XREAD is queued in a transaction, an XREAD names each stream once, and no
    timeout handler that was already queued runs after its client was served
    (otherwise a request may get two replies, and each starts a read).  At every moment each connection
    has at most one of: a pending read, a posted command, a reply on its way,
    a request whose reply callback is kept (the difference between the requests
    and the replies).  So no two reads share its buffer, and no two replies are
    written at once.  INFO's [connected_clients] is the number of the
    connections that have one; it never underflows. *)
Theorem one_activity_per_connection (version : bytes) (config : ServerConfig) (steady system : Z) (n : Network)
    (Hreach : rtc (net_step version true) (initial_network config steady system) n) :
  ∃ asked, history version (net_world n) asked ∧
    map_Forall (λ c p, (peer_reads p + length (peer_posted p) + unwritten c p (net_world n) +
      (asked_by c asked - answers c (w_out (net_world n))) ≤ 1)%nat) (net_peers n) ∧
    (Z.of_nat (size (net_peers n)) ≤ ULLONG_MAX →
     w_clients (net_world n) = Z.of_nat (map_sum (tokens asked) (net_peers n)) ∧
     (map_sum (tokens asked) (net_peers n) ≤ size (net_peers n))%nat).
Proof.
  assert (∃ asked, net_ok version n asked) as (asked & Hn).
  { assert (∃ asked, net_ok version (initial_network config steady system) asked) as H0
      by (eexists; apply net_ok_initial).
    revert H0. induction Hreach as [|n1 n2 n3 Hstep _ IH]; [done|]. intros [asked H0].
    apply IH. by eapply net_step_ok. }
  exists asked. split_and!; [apply Hn| |].
  - intros c p Hp. destruct n as [w peers].
    destruct (peer_facts version w peers asked c p Hn Hp) as (_ & Hwr & Htok & Hone).
    unfold unwritten. cbn [net_world]. lia.
  - intros Hsize. assert (map_sum (tokens asked) (net_peers n) ≤ size (net_peers n))%nat as Hle
      by (apply map_sum_le_size, (n_single _ _ _ Hn)).
    split; [|done]. rewrite (n_clients _ _ _ Hn). unfold to_u64. apply Z.mod_small. unfold ULLONG_MAX in Hsize. lia.
Qed.

(** Client 1 connects, sends PING and gets its reply. *)
Definition ping_text : bytes := serialize (example_request [b "PING"]).
Definition ping_conn : Connection := with_handshake (new_connection 1) HPinged 0.
Definition ping_accepted : World := (accept 1 example_world).1.
Definition ping_read : World := (connection_read (new_connection 1) ping_text ping_accepted).1.
Definition ping_run : World :=
  (handle (b "7.0.0") 1 (client_handler ping_conn) (example_request [b "PING"]) (ReplyTo 1) ping_read).1.

Definition ping_peers : gmap ConnId Peer := {[1%N := mkPeer ping_conn 1 [] 1]}.

Lemma ping_reachable :
  rtc (net_step (b "7.0.0") true) (initial_network (master_config (replicate 40 7%nat)) 0 1000)
    (mkNetwork ping_run ping_peers).
Proof.
  eapply (rtc_l _ _ (mkNetwork ping_accepted {[1%N := start_connection (new_connection 1)]})).
  { by apply (net_accept _ _ 1 example_world ping_accepted (new_connection 1) ∅). }
  eapply (rtc_l _ _ (mkNetwork ping_read
    {[1%N := mkPeer ping_conn 0 [(client_handler ping_conn, example_request [b "PING"])] 0]})).
  { pose proof (net_read (b "7.0.0") true 1 (start_connection (new_connection 1)) ping_text ping_accepted ping_read
      ping_conn (PostCommand (client_handler ping_conn) (example_request [b "PING"]))
      {[1%N := start_connection (new_connection 1)]}) as H.
    rewrite lookup_singleton_eq, insert_singleton_eq in H. apply H; [done|simpl; lia|by vm_compute]. }
  eapply (rtc_l _ _ (mkNetwork ping_run {[1%N := mkPeer ping_conn 0 [] 0]})).
  { pose proof (net_run (b "7.0.0") true 1 1 (mkPeer ping_conn 0 [(client_handler ping_conn, example_request [b "PING"])] 0)
      (client_handler ping_conn) (example_request [b "PING"]) [] ping_read ping_run
      {[1%N := mkPeer ping_conn 0 [(client_handler ping_conn, example_request [b "PING"])] 0]}) as H.
    rewrite lookup_singleton_eq, insert_singleton_eq in H. apply H; [done|done| |by vm_compute].
    intros _. by apply (request_fits_quiet _ _ _ (mkCommand Ping (b "PING") [])). }
  eapply rtc_l; [|apply rtc_refl].
  pose proof (net_write (b "7.0.0") true false 1 (mkPeer ping_conn 0 [] 0) ping_run {[1%N := mkPeer ping_conn 0 [] 0]}) as H.
  rewrite lookup_singleton_eq, insert_singleton_eq in H. apply H; [done|]. vm_compute. lia.
Qed.

Lemma one_activity_per_connection_witness :
  ∃ asked, history (b "7.0.0") ping_run asked ∧
    w_clients ping_run = Z.of_nat (map_sum (tokens asked) ping_peers) ∧ w_clients ping_run = 1.
Proof.
  destruct (one_activity_per_connection (b "7.0.0") (master_config (replicate 40 7%nat)) 0 1000
    (mkNetwork ping_run ping_peers) ping_reachable) as (asked & Hh & _ & Hc).
  exists asked. split; [exact Hh|]. split; [|by vm_compute].
  apply Hc. unfold ping_peers. cbn [net_peers]. rewrite map_size_singleton. vm_compute. discriminate.
Defined.
