(* ===== verification/Threads.v ===== *)
(** * Which thread touches what

    main.cpp runs the completion handlers of connections on four network
    threads and everything that was posted to [store_ctx] on one store thread,
    without locks around the data, the blocking and watch managers, the
    transactions and the timers.  That is sound if the network threads leave
    these alone.  The file shows that the handlers of src/net/Connection.cpp and
    src/net/Server.cpp do, whatever state they find, and what the destructor of a
    connection, which does not, changes at most. *)

From S2P Require Import Prelude CharConv Resp StreamId StoreValue StringStore ListStore StreamStore Store Blocking WatchManager TransactionManager ReplicaRegistry Command ServerConfig World BasicCommands ListCommands StreamCommands TransactionCommands CommandRegistry Dispatch Invariants Connection Network.

(** [w] with the state of the store thread taken from [v]: everything but the
    replica registry (which has a mutex), the output queues of the sockets, the
    atomic number of clients, the clocks and the configuration. *)
Definition with_store_side (v w : World) : World :=
  mkWorld (w_store v) (w_blpop v) (w_xread v) (w_watch v) (w_tms v) (w_replicas w) (w_timers v)
    (w_next_timer v) (w_execs v) (w_next_exec v) (w_out w) (w_steady w) (w_system w) (w_clients w) (w_config w).

(** A computation neither reads nor writes the state of the store thread. *)
Definition confined {A} (m : M A) : Prop :=
  ∀ v w, m (with_store_side v w) = (with_store_side v (m w).1, (m w).2).

Lemma with_store_side_id w : with_store_side w w = w.
Proof. by destruct w. Qed.

Lemma confined_ret {A} (a : A) : confined (mret a).
Proof. done. Qed.

Lemma confined_lift {A} (o : outcome A) : confined (lift o).
Proof. done. Qed.

Lemma confined_bind {A B} (m : M A) (f : A → M B) : confined m → (∀ a, confined (f a)) → confined (m ≫= f).
Proof.
  intros Hm Hf v w. unfold mbind, M_bind. rewrite Hm. destruct (m w) as [w' [a| | |]]; try done. apply Hf.
Qed.

Create HintDb confined.
#[export] Hint Resolve confined_ret confined_lift : confined.

Ltac confine :=
  repeat first
    [ progress intros
    | solve [auto 2 with confined]
    | simple apply confined_bind
    | case_match
    | solve [intros v w; done] ].

Lemma confined_register conn : confined (register_replica conn).
Proof. unfold register_replica. confine. Qed.
#[export] Hint Resolve confined_register : confined.

Lemma confined_read conn text : confined (connection_read conn text).
Proof. unfold connection_read, connection_command, handshake_step, respond, handle_ack. confine. Qed.

Lemma confined_closed conn : confined (connection_closed conn).
Proof. intros v w. unfold connection_closed, modify. by destruct (registered_as_replica_ conn). Qed.

(** What runs on the network threads: the completion handlers of connections,
    and the destructor of a connection whose last reference such a handler held. *)
Inductive NetworkEvent :=
  | Accepted (c : ConnId)
  | ReadDone (conn : Connection) (text : bytes)
  | ReadFailed (conn : Connection)
  | WriteDone (error : bool) (p : Peer)
  | Destroyed (conn : Connection).

Definition network_event (e : NetworkEvent) : M unit :=
  match e with
  | Accepted c => accept c;; mret tt
  | ReadDone conn text => connection_read conn text;; mret tt
  | ReadFailed conn => connection_closed conn
  | WriteDone error p => modify (λ w, (write_completes error p w).2)
  | Destroyed conn => connection_destroyed conn
  end.

(** ** The destructor *)

Definition handlers_of (conn : Connection) : list HandlerId :=
  [h_id (client_handler conn); h_id (replication_handler conn)].

Definition unwatched (tm : TransactionManager) : TransactionManager :=
  mkTM (in_transaction_ tm) (dirty_ tm) (queued_commands_ tm) ∅.

(** [w'] is [w] but for the watch manager and the watched keys of the handlers [hs]. *)
Definition unwatches (hs : list HandlerId) (w w' : World) : Prop :=
  w' = with_watch (w_watch w') (with_tms (w_tms w') w) ∧
  ∀ h, tm_of h w' = if decide (h ∈ hs) then unwatched (tm_of h w) else tm_of h w.

Lemma clear_watches_unwatches h w : unwatches [h] w (on_tm h clear_watches w).1.
Proof.
  split; [by destruct w|]. intros h'. unfold on_tm, modify, clear_watches. simpl. unfold tm_of at 1. simpl.
  case_decide as E.
  - apply list_elem_of_singleton in E as ->. by rewrite lookup_insert_eq.
  - rewrite lookup_insert_ne; [done|]. intros ->. by apply E, list_elem_of_singleton.
Qed.

Lemma unwatches_trans h hs w1 w2 w3 : unwatches [h] w1 w2 → unwatches hs w2 w3 → unwatches (h :: hs) w1 w3.
Proof.
  intros [E1 T1] [E2 T2]. split; [by rewrite E2, E1; destruct w1|]. intros h'. rewrite T2, T1.
  unfold unwatched. repeat case_decide; set_solver.
Qed.

(** ** Property *)

(** C13. The network threads stay out of the store thread's state.  What the
    handlers of accepts, reads and writes do, to the replica registry, the
    replies and the number of clients, is the same whatever the store thread has
    in the data, the blocked clients, the watches, the transactions and the
    timers at that moment, and they leave all of it as it is: a handler that
    runs beside the store thread cannot see or disturb a command half done.  The
    one exception is the destructor of a connection, which runs where the last
    reference is dropped, usually in such a handler: it changes the watch manager
    and empties the watched keys of the connection's own two command handlers,
    and nothing else.  (The handlers of a replica's session, which run on the
    network threads too, work on the state of the session alone: see
    [link_step].) *)
Theorem network_threads_confined (e : NetworkEvent) (v w : World) :
  match e with
  | Destroyed conn =>
      (network_event e w).2 = Ok tt ∧ unwatches (handlers_of conn) w (network_event e w).1
  | _ =>
      network_event e (with_store_side v w) = (with_store_side v (network_event e w).1, (network_event e w).2) ∧
      (network_event e w).1 = with_store_side w (network_event e w).1
  end.
Proof.
  assert (∀ m : M unit, confined m →
    m (with_store_side v w) = (with_store_side v (m w).1, (m w).2) ∧ (m w).1 = with_store_side w (m w).1) as Hconf.
  { intros m Hc. split; [apply Hc|]. pose proof (Hc w w) as E. rewrite with_store_side_id in E. by rewrite E at 1. }
  destruct e as [c|conn text|conn|error p|conn]; [apply Hconf..|]; cbn [network_event].
  - by intros v' w'.
  - apply confined_bind; [apply confined_read|confine].
  - apply confined_closed.
  - intros v' w'. by destruct error.
  - split; [done|]. unfold connection_destroyed, handlers_of.
    apply (unwatches_trans _ _ _ (on_tm (h_id (client_handler conn)) clear_watches w).1);
      apply clear_watches_unwatches.
Qed.

(** The destructor of a connection is not confined: it runs where the last
    reference to the connection is dropped, for example in a read handler, and
    takes the connection's watches out of the watch manager that the store
    thread uses. *)
Definition watching : World :=
  (handle (b "7.0.0") 5 (client_handler (new_connection 1)) (example_request [b "WATCH"; b "k"]) (ReplyTo 1) example_world).1.

Example destructor_not_confined :
  watchers_ (w_watch watching) ≠ ∅ ∧ watchers_ (w_watch (connection_destroyed (new_connection 1) watching).1) = ∅.
Proof. split; [|by vm_compute]. intros E. apply (f_equal size) in E. by vm_compute in E. Qed.
