(* ===== verification/OptimisticLocking.v ===== *)
(** * Optimistic locking over a whole history

    WATCH promises that EXEC runs its queue only if the watched key is what it
    was.  The invariant [guarded] follows a watched key from WATCH to EXEC
    through everything that the other connections, their transactions, the
    blocked clients and the timers do: either the key has its value, or the
    watching transaction is dirty.  Three changes are not announced by the code:
    an expired key is deleted when somebody looks at it, an XADD that is refused
    leaves an empty stream, and BLPOP takes elements.  [same_value] allows the
    first two, which remove or add nothing but an expired value or no value at
    all; the third is excluded ([harmless]). *)

From S2P Require Import Prelude CharConv Resp StreamId StoreValue StringStore ListStore StreamStore Store StoreCalls Blocking WatchManager TransactionManager ReplicaRegistry Command ServerConfig World BasicCommands ListCommands StreamCommands TransactionCommands CommandRegistry Dispatch Invariants Transactions Connection Server.

(** ** Values that count as unchanged *)

Definition gone (now : Z) (v : option StoreValue) : bool := from_option (is_expired now) true v.

Definition valueless (v : option StoreValue) : Prop :=
  match v with None => True | Some sv => value_ sv = VStream (mkStream []) end.

(** At time [now], [v] is what [v0] has become without a write. *)
Definition same_value (now : Z) (v0 v : option StoreValue) : Prop :=
  v = v0 ∨ (gone now v0 = true ∧ valueless v).

Lemma gone_mono now now' v : now ≤ now' → gone now v = true → gone now' v = true.
Proof.
  intros Hle. destruct v as [sv|]; [|done]. unfold gone, is_expired. simpl.
  destruct (expires_at_ sv); [|done]. intros H%Z.ltb_lt. apply Z.ltb_lt. lia.
Qed.

Lemma same_value_mono now now' v0 v : now ≤ now' → same_value now v0 v → same_value now' v0 v.
Proof. intros Hle [->|[Hg Hv]]; [by left|]. right. eauto using gone_mono. Qed.

Lemma same_value_expired now v0 sv :
  same_value now v0 (Some sv) → is_expired now sv = true → same_value now v0 None.
Proof. intros [<-|[Hg _]] He; by right. Qed.

Lemma same_value_stream now v0 sv :
  same_value now v0 None → value_ sv = VStream (mkStream []) → same_value now v0 (Some sv).
Proof. intros [<-|[Hg _]] He; by right. Qed.

(** *** Operations that change nothing else unannounced *)

Lemma get_same now key0 key v0 d :
  same_value now v0 (d !! key) → same_value now v0 ((get now key0 d).2 !! key).
Proof.
  intros Hs. destruct (decide (key = key0)) as [->|Hne]; [|by rewrite (get_frames now key0 d key)].
  unfold get. destruct (d !! key0) as [sv|] eqn:Hk; [|cbn [snd]; by rewrite Hk]. destruct (is_expired now sv) eqn:He.
  - cbn [snd]. rewrite lookup_delete_eq. by eapply same_value_expired.
  - destruct (value_ sv); cbn [snd]; by rewrite Hk.
Qed.

Lemma store_type_same now key0 key v0 d :
  same_value now v0 (d !! key) → same_value now v0 ((store_type now key0 d).2 !! key).
Proof.
  intros Hs. destruct (decide (key = key0)) as [->|Hne]; [|by rewrite (store_type_frames now key0 d key)].
  unfold store_type. destruct (d !! key0) as [sv|] eqn:Hk; [|cbn [snd]; by rewrite Hk]. destruct (is_expired now sv) eqn:He.
  - cbn [snd]. rewrite lookup_delete_eq. by eapply same_value_expired.
  - cbn [snd]. by rewrite Hk.
Qed.

Lemma xadd_frames now key0 id flds d : frames key0 d (xadd now key0 id flds d).1.
Proof.
  unfold xadd. destruct (match d !! key0 with Some sv => _ | None => _ end); [done|].
  destruct (generate_stream_id _ _ _) as [?|[]| |]; simpl; eauto using frames_insert, frames_trans.
Qed.

(** An XADD that adds nothing. *)
Lemma xadd_refused_same now time key0 key id flds v0 d :
  (∀ new, (xadd time key0 id flds d).2 ≠ Ok (Expected new)) →
  same_value now v0 (d !! key) → same_value now v0 ((xadd time key0 id flds d).1 !! key).
Proof.
  intros Hr Hs. destruct (decide (key = key0)) as [->|Hne]; [|by rewrite (xadd_frames time key0 id flds d key)].
  revert Hr. unfold xadd, at_or_default. destruct (d !! key0) as [sv|] eqn:Hk.
  - destruct (is_stream sv) eqn:Hstream; cbn [negb]; [|intros _; cbn [fst]; by rewrite Hk].
    assert (set_value sv (VStream (as_stream sv)) = sv) as E.
    { unfold set_value, as_stream, is_stream in *. destruct sv as [[] ?]; done. }
    change (default default_StoreValue (Some sv)) with sv. destruct (generate_stream_id _ _ _) as [new|[]| |]; intros Hr; cbn [fst];
      rewrite ?lookup_insert_eq, ?E; try done. by destruct (Hr new).
  - destruct (generate_stream_id _ _ _) as [new|[]| |]; intros Hr; cbn [fst]; rewrite ?lookup_insert_eq;
      try (by apply same_value_stream). by destruct (Hr new).
Qed.

(** ** The invariant *)

Section locking.
(** Handler [hid] watches [key], whose value was [v0]. *)
Context (hid : HandlerId) (key : bytes) (v0 : option StoreValue).

(** Commands that keep the promise: BLPOP does not name the key, and the
    watching handler does not end its own watch. *)
Definition harmless (h : HandlerId) (cmd : Command) : Prop :=
  match cmd_type cmd with
  | BLPop => key ∉ args cmd
  | Exec | Discard | Unwatch => h ≠ hid
  | _ => True
  end.

Definition harmless_request (h : HandlerId) (request : RespValue) : Prop :=
  ∀ cmd, parse_command request = Ok cmd → harmless h cmd.

(** Nobody is blocked in BLPOP on the key, and no queued command will be. *)
Record unthreatened (w : World) : Prop := {
  safe_blpop : registry_find key (w_blpop w) = None;
  safe_queues : ∀ h, Forall (harmless_request h) (queued_commands_ (tm_of h w));
  safe_execs : map_Forall (λ _ c, Forall (harmless_request (h_id (exec_handler c))) (exec_commands c)) (w_execs w);
}.

Record guarded (w : World) : Prop := {
  guarded_ok : server_ok w;
  guarded_safe : unthreatened w;
  guarded_watched : is_Some (watched_keys_ (tm_of hid w) !! key);
  guarded_value : is_dirty (tm_of hid w) = true ∨ same_value (w_steady w) v0 (w_store w !! key);
}.

Definition guards {A} (m : M A) : Prop := ∀ w, guarded w → guarded (m w).1.

Create HintDb guards.

(** *** The monad *)

Lemma guards_pure {A} (m : M A) : (∀ w, (m w).1 = w) → guards m.
Proof. intros Hm w Hw. by rewrite Hm. Qed.

Lemma guards_bind_post {A B} (Q : A → Prop) (m : M A) (f : A → M B) :
  guards m → (∀ w w' a, guarded w → m w = (w', Ok a) → Q a) → (∀ a, Q a → guards (f a)) → guards (m ≫= f).
Proof.
  intros Hm HQ Hf w Hw. unfold mbind, M_bind. pose proof (Hm w Hw) as Hw'.
  destruct (m w) as [w' [a| | |]] eqn:E; try done. apply (Hf a); [exact (HQ w w' a Hw E)|done].
Qed.

Lemma guards_bind {A B} (m : M A) (f : A → M B) : guards m → (∀ a, guards (f a)) → guards (m ≫= f).
Proof. intros Hm Hf. by apply (guards_bind_post (λ _, True)). Qed.

Lemma guards_try {A} (m : M A) (handler : exn → M A) :
  guards m → (∀ e, guards (handler e)) → guards (try_catch m handler).
Proof.
  intros Hm Hh w Hw. unfold try_catch. pose proof (Hm w Hw) as Hw'.
  destruct (m w) as [w' [a|e| |]]; try done. by apply Hh.
Qed.

Lemma guards_if {A} (c : bool) (m m' : M A) : guards m → guards m' → guards (if c then m else m').
Proof. by destruct c. Qed.

Lemma guards_ret {A} (a : A) : guards (mret a).
Proof. by apply guards_pure. Qed.

Lemma guards_gets {A} (f : World → A) : guards (gets f).
Proof. by apply guards_pure. Qed.

Lemma guards_lift {A} (o : outcome A) : guards (lift o).
Proof. by apply guards_pure. Qed.

(** *** Operations on the state *)

(** An update outside the watched part of the state. *)
Lemma guards_frame {A} (m : M A) :
  preserves m →
  (∀ w, w_store (m w).1 = w_store w ∧ w_blpop (m w).1 = w_blpop w ∧ w_tms (m w).1 = w_tms w ∧
        w_execs (m w).1 = w_execs w ∧ w_steady (m w).1 = w_steady w) →
  guards m.
Proof.
  intros Hp Hm w [H1 [H2 H3 H4] H5 H6]. destruct (Hm w) as (E1 & E2 & E3 & E4 & E5).
  assert (∀ h, tm_of h (m w).1 = tm_of h w) as Et by (intros h; unfold tm_of; by rewrite E3).
  split; [by apply Hp| |by rewrite Et|by rewrite Et, E1, E5].
  split; [by rewrite E2|intros h; by rewrite Et|by rewrite E4].
Qed.

(** Another value of the data that leaves the key alone. *)
Lemma guarded_store w d :
  guarded w → lists_nonempty d →
  (same_value (w_steady w) v0 (w_store w !! key) → same_value (w_steady w) v0 (d !! key)) →
  guarded (with_store d w).
Proof.
  intros [H1 [H2 H3 H4] H5 H6] Hd Hs. split; [by apply server_ok_store|by split|done|].
  destruct H6 as [|H6]; [by left|]. right. by apply Hs.
Qed.

(** What a notification does to the transaction managers. *)
Lemma notify_tm key0 w h :
  ∃ dirty, tm_of h (notify key0 w).1 =
      mkTM (in_transaction_ (tm_of h w)) dirty (queued_commands_ (tm_of h w)) (watched_keys_ (tm_of h w)) ∧
    (dirty_ (tm_of h w) = true → dirty = true) ∧ w_execs (notify key0 w).1 = w_execs w ∧
    w_steady (notify key0 w).1 = w_steady w ∧ w_blpop (notify key0 w).1 = w_blpop w ∧
    w_store (notify key0 w).1 = w_store w.
Proof.
  unfold notify, modify. cbn [fst]. generalize (notify_write key0 (w_watch w)). intros l. revert w.
  induction l as [|x l IH]; intros w; cbn [fold_left].
  - exists (dirty_ (tm_of h w)). split_and!; try done. by destruct (tm_of h w).
  - destruct (IH (mark_dirty_of w x)) as (dirty & E & Hd & E1 & E2 & E3 & E4). exists dirty.
    rewrite E, E1, E2, E3, E4. unfold mark_dirty_of in *. rewrite tm_of_set in *.
    destruct (decide (h = x)) as [->|]; split_and!; try done. intros _. by apply Hd.
Qed.

(** A write to any key, with its notification. *)
Lemma guarded_write key0 w d :
  guarded w → frames key0 (w_store w) d → lists_nonempty d → guarded (notify key0 (with_store d w)).1.
Proof.
  intros [H1 [H2 H3 H4] [i H5] H6] Hf Hd.
  assert (server_ok (with_store d w)) as Hok by (by apply server_ok_store).
  pose proof (notify_tm key0 (with_store d w)) as Hn.
  split; [by apply preserves_notify|split| |].
  - destruct (Hn 0%N) as (_ & _ & _ & _ & _ & -> & _). exact H2.
  - intros h. destruct (Hn h) as (? & -> & _). apply H3.
  - destruct (Hn 0%N) as (_ & _ & _ & -> & _). exact H4.
  - destruct (Hn hid) as (? & -> & _). by exists i.
  - destruct (decide (key = key0)) as [<-|Hne].
    + left. by apply (notify_dirty key (with_store d w) hid i); [apply ok_watch|].
    + destruct (Hn hid) as (dirty & E & Hdirty & _ & Es & _ & Ed). rewrite E, Es, Ed. cbn [is_dirty dirty_ w_store with_store].
      destruct H6 as [H6|H6]; [left; by apply Hdirty|right]. by rewrite (Hf key Hne).
Qed.

Lemma guards_on_store_frame {A} (key0 : bytes) (f : Data → A * Data) :
  key0 ≠ key → (∀ d, frames key0 d (f d).2) → (∀ d, lists_nonempty d → lists_nonempty (f d).2) →
  guards (on_store f).
Proof.
  intros Hne Hf Hl w Hw. unfold on_store. specialize (Hf (w_store w)). specialize (Hl _ (ok_lists _ (guarded_ok _ Hw))).
  destruct (f (w_store w)) as [a d]. cbn [fst snd] in *. apply guarded_store; [done..|]. by rewrite (Hf key).
Qed.

(** *** Transaction managers *)

(** What an operation of handler [h] must respect. *)
Definition tm_op_safe (h : HandlerId) (f : TransactionManager → WatchManager → TransactionManager * WatchManager) : Prop :=
  ∀ tm wm,
    (Forall (harmless_request h) (queued_commands_ tm) → Forall (harmless_request h) (queued_commands_ (f tm wm).1)) ∧
    (h = hid → (is_Some (watched_keys_ tm !! key) → is_Some (watched_keys_ (f tm wm).1 !! key)) ∧
               (dirty_ tm = true → dirty_ (f tm wm).1 = true)).

Lemma guards_on_tm h f : tm_op_ok h f → tm_op_safe h f → guards (on_tm h f).
Proof.
  intros Hok Hf w Hw. pose proof (preserves_on_tm h f Hok w (guarded_ok _ Hw)) as Hok'.
  destruct Hw as [H1 [H2 H3 H4] H5 H6], (Hf (tm_of h w) (w_watch w)) as [Hq Hh].
  unfold on_tm, modify in *. destruct (f (tm_of h w) (w_watch w)) as [tm wm]. cbn [fst] in *.
  assert (∀ h', tm_of h' (with_watch wm (set_tm h tm w)) = if decide (h' = h) then tm else tm_of h' w) as Et
    by (intros h'; apply (tm_of_set h h' tm w)).
  split; [done|split; [done| |done]| |]; [intros h'|..]; rewrite Et.
  - destruct (decide (h' = h)) as [->|]; [by apply Hq|done].
  - destruct (decide (hid = h)) as [<-|]; [by apply Hh|done].
  - destruct (decide (hid = h)) as [<-|]; [|done]. destruct H6 as [H6|H6]; [left; by apply Hh|by right].
Qed.

Lemma safe_queue h request :
  harmless_request h request → tm_op_safe h (λ tm wm, (queue_command request tm, wm)).
Proof. intros Hr tm wm. split; [|done]. intros Hq. apply Forall_app. by repeat constructor. Qed.

Lemma safe_begin h : tm_op_safe h (λ tm wm, (begin tm, wm)).
Proof. intros tm wm. split; [constructor|done]. Qed.

(** The watching handler does none of these. *)
Lemma safe_clear h : h ≠ hid → tm_op_safe h clear_watches.
Proof. by intros Hne tm wm. Qed.

Lemma safe_reset h : h ≠ hid → tm_op_safe h reset.
Proof. intros Hne tm wm. split; [constructor|done]. Qed.

Lemma safe_pop_reset h : h ≠ hid → tm_op_safe h (λ tm wm, reset (snd (pop_queued_commands tm)) wm).
Proof. intros Hne tm wm. split; [constructor|done]. Qed.

Lemma safe_watch h keys : tm_op_safe h (λ tm wm, fold_left (watch_one h) keys (tm, wm)).
Proof.
  enough (∀ tm wm, let tm' := (fold_left (watch_one h) keys (tm, wm)).1 in
    queued_commands_ tm' = queued_commands_ tm ∧ dirty_ tm' = dirty_ tm ∧
    (is_Some (watched_keys_ tm !! key) → is_Some (watched_keys_ tm' !! key))) as H.
  { intros tm wm. destruct (H tm wm) as (-> & -> & ?). done. }
  induction keys as [|k keys IH]; intros tm wm; [done|]. cbn [fold_left].
  destruct (watch_one h (tm, wm) k) as [tm1 wm1] eqn:E. cbv zeta. destruct (IH tm1 wm1) as (-> & -> & Hk).
  enough (queued_commands_ tm1 = queued_commands_ tm ∧ dirty_ tm1 = dirty_ tm ∧
    (is_Some (watched_keys_ tm !! key) → is_Some (watched_keys_ tm1 !! key))) as (-> & -> & Hk')
    by (split_and!; auto).
  revert E. unfold watch_one, watch_key. destruct (watched_keys_ tm !! k) as [j|] eqn:Ek; [by intros [= <- _]|].
  destruct (watch k h wm) as [id wm']. unfold associate_watch_id. cbn [watched_keys_ in_transaction_ dirty_ queued_commands_].
  rewrite lookup_insert_eq, insert_insert_eq. intros [= <- _]. split_and!; [done..|]. cbn [watched_keys_].
  destruct (decide (k = key)) as [->|]; [by rewrite lookup_insert_eq; eexists|]. by rewrite lookup_insert_ne.
Qed.

(** *** The blocking registry *)

Lemma find_register {C} (r : BlockingRegistry C) keys callback :
  key ∉ keys → registry_find key r = None → registry_find key (register_callbacks keys callback r).2 = None.
Proof.
  unfold registry_find. intros Hk Hr. cbn [register_callbacks snd callbacks_].
  destruct (register_fold_lookup (next_id_ r) callback keys (callbacks_ r) key) as [H1 H2].
  rewrite Hr, (registrations_of_not_in key) in H1 by done. cbn [default app] in H1.
  destruct (fold_left _ _ _ !! key) as [l|]; [|done]. cbn in H1. subst l. by destruct H2; [rewrite Hr|].
Qed.

Lemma find_unregister {C} (r : BlockingRegistry C) i :
  registry_find key r = None → registry_find key (unregister i r) = None.
Proof.
  unfold registry_find, unregister. intros Hr. destruct (id_to_keys_ r !! i) as [keys|]; [|done]. cbn [callbacks_].
  rewrite unregister_fold_lookup, Hr. by destruct (decide _).
Qed.

Lemma guarded_blpop w r :
  guarded w → registry_ok r → registry_find key r = None → guarded (with_blpop r w).
Proof. intros [[? ? ? ? ?] [? ? ?] ? ?] Hok Hr. by repeat split. Qed.

Lemma guards_register_blpop keys callback : key ∉ keys → guards (register_blpop keys callback).
Proof.
  intros Hk w Hw. pose proof (ok_blpop _ (guarded_ok _ Hw)) as [ws Hr]. unfold register_blpop.
  pose proof (find_register (w_blpop w) keys callback Hk (safe_blpop _ (guarded_safe _ Hw))) as Hf.
  pose proof (register_refines _ ws keys callback Hr) as H.
  destruct (register_callbacks keys callback (w_blpop w)) as [i r]. cbn [fst snd] in *.
  apply guarded_blpop; [done| |done]. eexists. apply H.
Qed.

Lemma guards_unregister_blpop i : guards (unregister_blpop i).
Proof.
  intros w Hw. pose proof (ok_blpop _ (guarded_ok _ Hw)) as [ws Hr].
  apply guarded_blpop; [done| |apply find_unregister, safe_blpop, guarded_safe, Hw].
  eexists. by apply unregister_refines.
Qed.

(** *** Contexts of running transactions *)

Definition exec_safe (c : ExecContext) : Prop :=
  exec_ok c ∧ Forall (harmless_request (h_id (exec_handler c))) (exec_commands c).

Lemma guarded_exec w ctx c next : guarded w → exec_safe c → guarded (with_execs (<[ctx := c]> (w_execs w)) next w).
Proof.
  intros [[? ? ? ? ?] [? ? ?] ? ?] [Hok Hc]. repeat split; try done; by apply map_Forall_insert_2.
Qed.

Lemma guards_get_exec {A} ctx (f : ExecContext → M A) :
  (∀ c, exec_safe c → guards (f c)) → guards (get_exec ctx ≫= f).
Proof.
  intros Hf. apply (guards_bind_post exec_safe); [by apply guards_pure| |done].
  intros w w' c Hw. unfold get_exec. destruct (w_execs w !! ctx) as [c'|] eqn:E; [|done]. intros [= _ <-].
  split; [by eapply (ok_execs _ (guarded_ok _ Hw))|by eapply (safe_execs _ (guarded_safe _ Hw))].
Qed.

Lemma guards_put_exec ctx c : exec_safe c → guards (put_exec ctx c).
Proof. intros Hc w Hw. by apply guarded_exec. Qed.

Lemma guards_new_exec c : exec_safe c → guards (new_exec c).
Proof. intros Hc w Hw. by apply guarded_exec. Qed.

Lemma guards_store_result ctx res : guards (store_result ctx res).
Proof.
  apply guards_get_exec. intros c [Hok Hc]. case_bool_decide; [|apply guards_lift].
  apply guards_put_exec. split; [|done]. unfold exec_ok. cbn. by rewrite length_insert.
Qed.

Lemma guards_next_index ctx : guards (next_index ctx).
Proof. apply guards_get_exec. intros c Hc. by apply guards_put_exec. Qed.

(** *** Operations outside the watched part *)

Ltac guards_frame :=
  apply guards_frame; [auto with preserves|intros w; try (unfold propagate_all, request_getack_all, cancel_timer, modify; cbn [fst]; repeat case_match); by split_and!].

Lemma guards_propagate data : guards (propagate_all data).
Proof. guards_frame. Qed.

Lemma guards_getack : guards request_getack_all.
Proof. guards_frame. Qed.

Lemma guards_cancel t : guards (cancel_timer t).
Proof. guards_frame. Qed.

Lemma guards_start t : guards (start_timer t).
Proof. guards_frame. Qed.

Lemma guards_register_xread keys callback : guards (register_xread keys callback).
Proof. guards_frame. Qed.

Lemma guards_unregister_xread i : guards (unregister_xread i).
Proof. guards_frame. Qed.

Hint Resolve guards_ret guards_gets guards_lift guards_propagate guards_getack guards_cancel guards_start
  guards_register_xread guards_unregister_xread guards_unregister_blpop guards_store_result guards_next_index : guards.

(** ** Store operations with their notifications *)

Lemma guarded_same w d :
  guarded w → lists_nonempty d → (∀ now, same_value now v0 (w_store w !! key) → same_value now v0 (d !! key)) →
  guarded (with_store d w).
Proof. intros Hw Hd Hs. apply guarded_store; auto. Qed.

Lemma guarded_notify {A} key0 (m : M A) w d :
  guarded w → frames key0 (w_store w) d → lists_nonempty d → guards m →
  guarded ((notify key0;; m) (with_store d w)).1.
Proof.
  intros Hw Hf Hd Hm. pose proof (guarded_write key0 w d Hw Hf Hd) as H. unfold mbind, M_bind.
  unfold notify, modify in *. by apply Hm.
Qed.

Lemma guards_store_set {A} now key0 value ttl (m : M A) :
  guards m → guards (on_store_outcome (store_set now key0 value ttl);; notify key0;; m).
Proof.
  intros Hm w Hw. pose proof (store_set_frames now key0 value ttl (w_store w)) as Hf.
  pose proof (store_set_failed now key0 value ttl (w_store w)) as Hs.
  pose proof (nonempty_set now key0 value ttl _ (ok_lists _ (guarded_ok _ Hw))) as Hl.
  unfold mbind at 1, M_bind at 1, on_store_outcome. destruct (store_set _ _ _ _ _) as [d [[]| | |]]; cbn [fst snd] in *;
    [by apply guarded_notify|rewrite <- Hs by done; by destruct w..].
Qed.

Lemma guards_incr now key0 (m : Z → M unit) (m' : bytes → M unit) :
  (∀ z, guards (m z)) → (∀ e, guards (m' e)) →
  guards (result ← on_store (incr now key0);
          match result with Expected value => notify key0;; m value | Unexpected error => m' error end).
Proof.
  intros Hm Hm' w Hw. rewrite bind_on_store. pose proof (incr_frames now key0 (w_store w)) as Hf.
  pose proof (incr_error_same now key0 (w_store w)) as He.
  pose proof (nonempty_incr now key0 _ (ok_lists _ (guarded_ok _ Hw))) as Hl.
  destruct (incr _ _ _) as [[z|e] d]; cbn [fst snd] in *; [by apply guarded_notify|].
  rewrite (He e) by done. apply Hm'. by destruct w.
Qed.

Lemma guards_lpop key0 count (m : list bytes → M unit) (m' : bytes → M unit) :
  (∀ l, guards (m l)) → (∀ e, guards (m' e)) →
  guards (values ← on_store (lpop key0 count);
          match values with Unexpected error => m' error | Expected values => notify key0;; m values end).
Proof.
  intros Hm Hm' w Hw. rewrite bind_on_store. pose proof (lpop_frames key0 count (w_store w)) as Hf.
  pose proof (lpop_error_same key0 count (w_store w)) as He.
  pose proof (lpop_preserves_nonempty key0 count _ (ok_lists _ (guarded_ok _ Hw))) as Hl.
  destruct (lpop _ _ _) as [[l|e] d]; cbn [fst snd] in *; [by apply guarded_notify|].
  rewrite (He e) by done. apply Hm'. by destruct w.
Qed.

Lemma guards_push {A : Type} (key0 : bytes) (f : Data → Z * Data) (m : Z → M A) :
  (∀ d : Data, frames key0 d (f d).2) → (∀ d, lists_nonempty d → lists_nonempty (f d).2) → (∀ z, guards (m z)) →
  guards (length ← on_store f; notify key0;; m length).
Proof.
  intros Hf Hl Hm w Hw. rewrite bind_on_store. specialize (Hf (w_store w)).
  specialize (Hl _ (ok_lists _ (guarded_ok _ Hw))). by apply guarded_notify.
Qed.

Lemma guards_get {A} key0 (m : expected bytes → M A) :
  (∀ v, guards (m v)) → guards (now ← gets w_steady; value ← on_store (get now key0); m value).
Proof.
  intros Hm w Hw. rewrite bind_gets, bind_on_store. apply Hm.
  apply guarded_store; [done|by apply nonempty_get, ok_lists, guarded_ok|apply get_same].
Qed.

Lemma guards_type {A} key0 (m : StoreType → M A) :
  (∀ v, guards (m v)) → guards (now ← gets w_steady; type ← on_store (store_type now key0); m type).
Proof.
  intros Hm w Hw. rewrite bind_gets, bind_on_store. apply Hm.
  apply guarded_store; [done|by apply nonempty_type, ok_lists, guarded_ok|apply store_type_same].
Qed.

Lemma guards_xadd now key0 id flds (m : bytes → M unit) (m' : bytes → M unit) :
  (∀ id, guards (m id)) → (∀ e, guards (m' e)) →
  guards (result ← on_store_outcome (xadd now key0 id flds);
          match result with Expected id => notify key0;; m id | Unexpected error => m' error end).
Proof.
  intros Hm Hm' w Hw. unfold mbind at 1, M_bind at 1, on_store_outcome.
  pose proof (xadd_frames now key0 id flds (w_store w)) as Hf.
  pose proof (nonempty_xadd now key0 id flds _ (ok_lists _ (guarded_ok _ Hw))) as Hl.
  assert (∀ d r, xadd now key0 id flds (w_store w) = (d, r) → (∀ new, r ≠ Ok (Expected new)) →
    guarded (with_store d w)) as Hr.
  { intros d r E Hne. apply guarded_same; [done|by rewrite E in Hl|]. intros t.
    pose proof (xadd_refused_same t now key0 key id flds v0 (w_store w)) as H. rewrite E in H. by apply H. }
  destruct (xadd _ _ _ _ _) as [d [[new|e]| | |]]; cbn [fst snd] in *;
    [by apply guarded_notify|apply Hm'|..]; by eapply Hr.
Qed.

Hint Resolve guards_store_set guards_incr guards_lpop guards_push guards_get guards_type guards_xadd : guards.

(** Follow the structure of a command. *)
Ltac follow :=
  repeat first
    [ progress intros
    | solve [eauto 4 with guards]
    | simple apply guards_get
    | simple apply guards_type
    | simple apply guards_incr
    | simple apply guards_lpop
    | simple apply guards_xadd
    | simple apply guards_push; [by intros d; apply frames_insert|eauto with preserves|]
    | simple apply guards_store_set
    | simple apply guards_bind
    | simple apply guards_try
    | simple apply guards_if
    | case_match ].

(** ** Commands *)

Section commands.
Context (call : Task → M unit) (Hcall : ∀ t, guards (call t)) (redis_version : bytes).

Hint Resolve Hcall : guards.

Lemma guards_blpop_immediate keys : key ∉ keys → guards (blpop_immediate keys).
Proof.
  induction keys as [|key0 keys IH]; intros Hk; cbn [blpop_immediate]; [follow|].
  apply not_elem_of_cons in Hk as [Hne Hk]. apply guards_bind; [|follow; by apply IH].
  apply (guards_on_store_frame key0); [done|apply lpop_frames|apply lpop_preserves_nonempty].
Qed.

Lemma guards_execute_blpop cmd k : key ∉ args cmd → guards (execute_blpop call cmd k).
Proof.
  intros Hk. assert (key ∉ take (length (args cmd) - 1) (args cmd)) as Hk'.
  { intros Hin. apply Hk. by eapply subseteq_take. }
  pose proof (guards_blpop_immediate _ Hk'). pose proof (λ c, guards_register_blpop _ c Hk').
  unfold execute_blpop, arg. follow.
Qed.

Lemma guards_serve_readers waiters : guards (serve_readers call waiters).
Proof. induction waiters as [|x waiters IH]; cbn [serve_readers]; unfold xread_callback; follow. Qed.

Hint Resolve guards_execute_blpop guards_serve_readers : guards.
Hint Resolve guards_on_tm tm_op_local tm_op_clear tm_op_reset tm_op_pop_reset tm_op_watch
  safe_begin safe_clear safe_reset safe_pop_reset safe_watch : guards.

(** EXEC of another handler opens a context with the commands of its queue. *)
Lemma guards_execute_exec h k : h_id h ≠ hid → guards (execute_exec call h k).
Proof.
  intros Hne. apply (guards_bind_post (λ tm, Forall (harmless_request (h_id h)) (queued_commands_ tm)));
    [apply guards_gets|intros w w' tm Hw [= _ <-]; apply safe_queues, guarded_safe, Hw|].
  intros tm Hq. do 2 (apply guards_if; [follow|]). apply guards_bind; [by eauto with guards|intros _].
  apply guards_if; [follow|]. apply guards_bind; [|follow]. apply guards_new_exec. split; [apply length_replicate|exact Hq].
Qed.

Lemma guards_execute h cmd k body :
  harmless (h_id h) cmd → execute redis_version call h cmd k = Some body → guards body.
Proof.
  unfold harmless. intros Hh. rewrite execute_table. unfold command_table.
  destruct (h_kind h), (cmd_type cmd) eqn:Et; intros [= <-]; try (by apply guards_execute_exec);
  unfold execute_ping, execute_info, execute_echo, execute_set, execute_get, execute_type,
    execute_incr, execute_rpush, execute_lpush, execute_lrange, execute_llen, execute_lpop,
    execute_xadd, execute_xrange, execute_xread, execute_watch, execute_unwatch,
    execute_wait, execute_multi, execute_discard, execute_replconf, execute_psync,
    setup_xread_blocking, serve_xread_waiters, wait_poll, arg; follow.
Qed.

Lemma guards_run_next ctx : guards (run_next call (execute redis_version call) ctx).
Proof.
  apply guards_get_exec. intros c [Hok Hc]. apply guards_if; [follow|].
  apply (guards_bind_post (λ request, harmless_request (h_id (exec_handler c)) request)); [apply guards_lift| |].
  { intros w w' request _. destruct (exec_commands c !! exec_index c) as [r|] eqn:E; intros [= _ <-].
    by eapply Forall_lookup_1. }
  intros request Hr. apply (guards_bind_post (harmless (h_id (exec_handler c)))); [apply guards_lift| |].
  { intros w w' cmd _. unfold lift. intros [= _ E]. by apply Hr. }
  intros cmd Hcmd. destruct (execute _ _ _ _ _) eqn:E; [by eapply guards_execute|follow].
Qed.

Lemma guards_serve_blpop key0 : guards (serve_blpop_waiters call key0).
Proof.
  apply (guards_bind_post (λ queue, key0 = key → queue = None)); [apply guards_gets| |].
  { intros w w' queue Hw [= _ <-] ->. apply safe_blpop, guarded_safe, Hw. }
  intros [[|reg queue]|] Hq; [follow| |follow]. assert (key0 ≠ key) as Hne by (intros E; by apply Hq in E).
  apply guards_bind; [apply (guards_on_store_frame key0); [done|apply lpop_frames|apply lpop_preserves_nonempty]|].
  unfold blpop_callback. follow.
Qed.

Lemma guards_run_task t : guards (run_task redis_version call t).
Proof.
  destruct t as [[c| |raw k|ctx t req] s|ctx|key0]; cbn [run_task]; [| | | |apply guards_run_next|apply guards_serve_blpop].
  - apply guards_frame; [preserves_frame|by intros w].
  - follow.
  - follow.
  - unfold exec_callback. follow. by apply guards_pure.
Qed.
End commands.

Lemma guards_run version fuel t : guards (run version fuel t).
Proof.
  revert t. induction fuel as [|fuel IH]; intros t; simpl; [apply guards_lift|]. by apply guards_run_task.
Qed.

Hint Resolve guards_run : guards.

Lemma guards_handle version fuel h request k :
  harmless_request (h_id h) request → guards (handle version fuel h request k).
Proof.
  intros Hr. unfold handle. apply guards_if; [follow|].
  apply (guards_bind_post (harmless (h_id h))); [apply guards_lift|intros w w' cmd _ [= _ E]; by apply Hr|].
  intros cmd Hcmd. unfold dispatch. follow; try (by eapply guards_execute; eauto with guards).
  apply guards_on_tm; [by apply tm_op_local|by apply safe_queue].
Qed.

(** ** Timers and connections *)

Lemma guards_timer_expires t : guards (timer_expires t).
Proof.
  apply guards_frame; [auto with preserves|]. intros w. unfold timer_expires, modify. cbn [fst].
  repeat case_match; by split_and!.
Qed.

Lemma guards_timer_completes version fuel t : guards (timer_completes version fuel t).
Proof.
  unfold timer_completes, blpop_timeout, xread_timeout, wait_poll. follow.
  apply guards_frame; [preserves_frame|by intros w].
Qed.

Lemma guards_respond conn text : guards (respond conn text).
Proof. apply guards_frame; [auto with preserves|by intros w]. Qed.

Lemma guards_register_replica conn : guards (register_replica conn).
Proof.
  apply guards_frame; [apply preserves_register_replica|]. intros w. unfold register_replica. by case_match.
Qed.

Lemma guards_handle_ack conn parsed : guards (handle_ack conn parsed).
Proof.
  apply guards_frame; [auto with preserves|]. intros w. unfold handle_ack. repeat case_match; by split_and!.
Qed.

Hint Resolve guards_respond guards_register_replica guards_handle_ack : guards.

Lemma guards_connection_read conn text : guards (connection_read conn text).
Proof. unfold connection_read, connection_command, handshake_step. follow. Qed.

Lemma guards_closed conn : guards (connection_closed conn).
Proof.
  apply guards_frame; [auto with preserves|]. intros w. unfold connection_closed, modify. by case_match.
Qed.

Lemma guards_destroyed conn :
  h_id (client_handler conn) ≠ hid → h_id (replication_handler conn) ≠ hid → guards (connection_destroyed conn).
Proof.
  intros H1 H2. apply guards_bind; [|intros _]; (apply guards_on_tm; [apply tm_op_clear|by apply safe_clear]).
Qed.

Lemma guards_accept c : guards (accept c).
Proof. apply guards_frame; [auto with preserves|by intros w]. Qed.

(** Everything that can happen between WATCH and EXEC: the events of
    [server_step], with harmless requests, and the watching connection alive. *)
Inductive locking_step (version : bytes) : World → World → Prop :=
  | lock_handle fuel h request k w :
      harmless_request (h_id h) request → locking_step version w (handle version fuel h request k w).1
  | lock_expires t w : locking_step version w (timer_expires t w).1
  | lock_completes fuel t w : locking_step version w (timer_completes version fuel t w).1
  | lock_read conn text w : locking_step version w (connection_read conn text w).1
  | lock_closed conn w : locking_step version w (connection_closed conn w).1
  | lock_destroyed conn w :
      h_id (client_handler conn) ≠ hid → h_id (replication_handler conn) ≠ hid →
      locking_step version w (connection_destroyed conn w).1
  | lock_accept c w : locking_step version w (accept c w).1
  | lock_clock steady system w :
      w_steady w ≤ steady → locking_step version w (with_clocks steady system w).

Lemma locking_step_guarded version w w' : locking_step version w w' → guarded w → guarded w'.
Proof.
  intros Hstep Hw. destruct Hstep as [fuel h request k w Hr|t w|fuel t w|conn text w|conn w|conn w H1 H2|c w|steady system w Ht].
  - by apply guards_handle.
  - by apply guards_timer_expires.
  - by apply guards_timer_completes.
  - by apply guards_connection_read.
  - by apply guards_closed.
  - by apply guards_destroyed.
  - by apply guards_accept.
  - destruct Hw as [[(subs & ? & ?) ? ? ? ?] [? ? ?] ? Hv]. repeat split; try done; [by exists subs|].
    destruct Hv as [Hv|Hv]; [by left|]. right. by eapply same_value_mono.
Qed.
End locking.

Lemma locking_run hid key v0 version w w' :
  rtc (locking_step hid key version) w w' → guarded hid key v0 w → guarded hid key v0 w'.
Proof. induction 1 as [|w1 w2 w3 Hstep _ IH]; eauto using locking_step_guarded. Qed.

(** ** Property *)

(** C4. Optimistic locking, over a whole history.  Connection [h] watches [key] in a
    state [w] of the server in which nobody is blocked in BLPOP on the key.  Then
    anything may happen, in any order and any number of times: requests of any
    clients and replicas, transactions of other clients, also suspended and
    resumed ones, blocked clients that are served or time out, connections that
    come and go, commands that raise an exception, [h]'s own commands and its
    MULTI with its queue; only BLPOP on the key itself, and EXEC, DISCARD and
    UNWATCH of [h], are left out.  If at the end the key does not hold the value it had in
    [w] (an expired value may have been removed, a missing one may have become
    an empty stream), the EXEC of [h] runs nothing: it replies with the null
    array and leaves the data and the replicas alone. *)
Theorem exec_only_if_unchanged (version : bytes) (fuel : nat) (h : Handler) (request : RespValue) (cmd : Command)
    (c : ConnId) (key : bytes) (w w' : World)
    (Hok : server_ok w) (Hsafe : unthreatened (h_id h) key w)
    (Hwatched : is_Some (watched_keys_ (tm_of (h_id h) w) !! key))
    (Hrun : rtc (locking_step (h_id h) key version) w w')
    (Hclient : h_kind h = Client) (Hactive : is_active (tm_of (h_id h) w') = true)
    (Harray : type request = Array) (Hcmd : parse_command request = Ok cmd) (Hexec : cmd_type cmd = Exec)
    (Hchanged : ¬ same_value (w_steady w') (w_store w !! key) (w_store w' !! key)) :
  ∃ w2, handle version (S fuel) h request (ReplyTo c) w' = (w2, Ok tt) ∧
    w_out w2 = w_out w' ++ [Response c null_array] ∧
    w_store w2 = w_store w' ∧ w_replicas w2 = w_replicas w' ∧ w_execs w2 = w_execs w'.
Proof.
  assert (guarded (h_id h) key (w_store w !! key) w) as Hw by (split; try done; right; by left).
  apply (locking_run _ _ _ _ _ _ Hrun) in Hw. destruct (guarded_value _ _ _ _ Hw) as [Hdirty|]; [|done].
  erewrite exec_dirty by done. destruct (reset (tm_of (h_id h) w') (w_watch w')) as [tm wm]. by eexists.
Qed.

(** Connection 1 watches [l]. *)
Definition watching_l : World := (send 1 [b "WATCH"; b "l"] example_world).1.

(** Connection 3 blocks on another list, connection 2 pushes onto [l] in a
    transaction, connection 1 opens its own and queues a command. *)
Definition others : list (N * list bytes) :=
  [(3%N, [b "BLPOP"; b "m"; b "0"]); (2%N, [b "MULTI"]); (2%N, [b "RPUSH"; b "l"; b "x"]); (2%N, [b "EXEC"]);
   (1%N, [b "MULTI"]); (1%N, [b "SET"; b "k"; b "v"])].

Definition sends (l : list (N * list bytes)) (w : World) : World :=
  fold_left (λ w '(i, words), (send i words w).1) l w.

(** [harmless] of a request, decided. *)
Definition harmless_words (hid : HandlerId) (key : bytes) (i : N) (words : list bytes) : bool :=
  match parse_command (example_request words) with
  | Ok cmd =>
      match cmd_type cmd with
      | BLPop => bool_decide (key ∉ args cmd)
      | Exec | Discard | Unwatch => bool_decide (i ≠ hid)
      | _ => true
      end
  | _ => true
  end.

Lemma sends_run hid key l w :
  Forall (λ '(i, words), harmless_words hid key i words = true) l →
  rtc (locking_step hid key (b "7.0.0")) w (sends l w).
Proof.
  intros Hl. revert w. induction Hl as [|[i words] l Hx _ IH]; intros w; [constructor|].
  eapply rtc_l; [|apply IH]. apply lock_handle. intros cmd Hp. unfold harmless_words in Hx. rewrite Hp in Hx.
  unfold harmless. destruct (cmd_type cmd); try done; by apply bool_decide_eq_true in Hx.
Qed.

Lemma watching_l_safe : unthreatened 1 (b "l") watching_l.
Proof.
  split; [reflexivity| |].
  - intros h. assert (∃ tm, w_tms watching_l = {[1%N := tm]} ∧ queued_commands_ tm = []) as (tm & E & Eq)
      by (eexists; split; [vm_compute; reflexivity|reflexivity]).
    unfold tm_of. rewrite E. destruct (decide (h = 1%N)) as [->|Hne].
    + rewrite lookup_singleton_eq. cbn. rewrite Eq. constructor.
    + rewrite lookup_singleton_ne by done. constructor.
  - assert (w_execs watching_l = ∅) as -> by (vm_compute; reflexivity). apply map_Forall_empty.
Qed.

Lemma exec_only_if_unchanged_witness :
  ∃ w2, send 1 [b "EXEC"] (sends others watching_l) = (w2, Ok tt) ∧
    w_out w2 = w_out (sends others watching_l) ++ [Response 1 null_array] ∧
    w_store w2 = w_store (sends others watching_l).
Proof.
  assert (server_ok watching_l) as Hok by (apply send_preserves, server_ok_initial).
  assert (is_Some (watched_keys_ (tm_of 1 watching_l) !! b "l")) as Hw by (eexists; vm_compute; reflexivity).
  assert (rtc (locking_step 1 (b "l") (b "7.0.0")) watching_l (sends others watching_l)) as Hrun
    by (apply sends_run; repeat constructor).
  assert (is_active (tm_of 1 (sends others watching_l)) = true) as Ha by (vm_compute; reflexivity).
  assert (¬ same_value (w_steady (sends others watching_l)) (w_store watching_l !! b "l")
    (w_store (sends others watching_l) !! b "l")) as Hc.
  { vm_compute. intros [E|[_ E]]; discriminate. }
  destruct (exec_only_if_unchanged (b "7.0.0") 19 (example_handler 1) (example_request [b "EXEC"])
    (mkCommand Exec (b "EXEC") []) 1 (b "l") watching_l (sends others watching_l) Hok watching_l_safe Hw Hrun
    eq_refl Ha eq_refl eq_refl eq_refl Hc) as (w2 & E1 & E2 & E3 & _).
  exists w2. split; [exact E1|]. split; [exact E2|exact E3].
Defined.
