(* ===== verification/EndToEnd.v ===== *)
(** * From bytes to bytes

    Composes one round of a connection: the bytes of a read, the parser, the
    handshake, the command handler on the store thread and the reply.  What a
    client writes with SET another client reads with GET, as bytes on the wire,
    until its deadline. *)

From S2P Require Import Prelude CharConv Resp StreamId StoreValue StringStore ListStore StreamStore Store Blocking WatchManager TransactionManager ReplicaRegistry Command ServerConfig World BasicCommands ListCommands StreamCommands TransactionCommands CommandRegistry Dispatch Invariants Transactions BlockedClients Connection.

(** The bytes of a request as clients send it: an array of bulk strings. *)
Definition request_of (words : list bytes) : RespValue := mkResp Array [] (bulk_value <$> words).
Definition client_text (words : list bytes) : bytes := serialize (request_of words).

(** One read of a connection, and the command it posts to the store thread. *)
Definition serve_read (version : bytes) (fuel : nat) (conn : Connection) (text : bytes) : M Connection :=
  r ← connection_read conn text;
  let '(conn', action) := r in
  match action with
  | PostCommand h command =>
      handle version fuel h command (ReplyTo (conn_id conn));;
      mret conn'
  | AwaitWrite | ReadOn => mret conn'
  end.

(** Sizes that the parser's [int]s can hold. *)
Definition sendable (words : list bytes) : Prop :=
  zlen words ≤ INT_MAX ∧ Forall (λ s, zlen s ≤ INT_MAX) words.

Lemma sendable_wf words : sendable words → wf_resp (request_of words) = true.
Proof.
  intros [Hn Hw]. unfold request_of. cbn [wf_resp type str elements is_nil]. unfold zlen in *. rewrite length_fmap.
  apply andb_true_iff. split; [by apply Z.leb_le|]. clear Hn. induction Hw as [|s words Hs _ IH]; [done|].
  rewrite fmap_cons. cbn [forallb]. rewrite IH, andb_true_r. cbn. rewrite andb_true_r. by apply Z.leb_le.
Qed.

(** Commands that make a connection a client's. *)
Definition client_command (t : CommandType) : bool :=
  match t with Ping | Replconf | Psync => false | _ => true end.

Lemma parse_request word words :
  parse_command (request_of (word :: words)) = Ok (mkCommand (parse_type word) word words).
Proof.
  unfold parse_command, request_of. cbn. do 2 f_equal. change (map str (bulk_value <$> words)) with (str <$> (bulk_value <$> words)).
  rewrite <- list_fmap_compose. by apply list_fmap_id.
Qed.

(** A client's command reaches the store thread as it was sent. *)
Lemma serve_client version fuel conn word words w :
  sendable (word :: words) → mode_ conn ≠ ModeReplication → client_command (parse_type word) = true →
  serve_read version fuel conn (client_text (word :: words)) w =
    (handle version fuel (client_handler conn) (request_of (word :: words)) (ReplyTo (conn_id conn));;
     mret (with_mode conn ModeClient)) w.
Proof.
  intros Hs Hm Hc. unfold serve_read, connection_read, client_text.
  rewrite (parse_serialize _ (sendable_wf _ Hs)).
  assert (connection_command conn (request_of (word :: words)) w =
    (w, Ok (with_mode conn ModeClient, PostCommand (client_handler conn) (request_of (word :: words))))) as E.
  { unfold connection_command. cbn [request_of type elements fmap list_fmap]. rewrite bool_decide_eq_true_2 by done.
    cbn [negb orb]. rewrite bool_decide_eq_false_2 by done. fold (bulk_value <$> words).
    change (mkResp Array [] (bulk_value word :: (bulk_value <$> words))) with (request_of (word :: words)).
    rewrite parse_request. rewrite (bind_Ok _ _ _ w (mkCommand (parse_type word) word words)) by done.
    cbn [cmd_type]. assert (handshake_step conn (parse_type word) w = (w, Ok (with_mode conn ModeClient, None))) as Hh.
    { unfold handshake_step. destruct conn as [i m st n r rid]. cbn [mode_] in *. destruct m; [|done|done].
      cbn. by destruct (parse_type word). }
    rewrite (bind_Ok _ _ _ _ _ Hh). cbv beta iota. unfold is_ack, select_handler. cbn [mode_ with_mode].
    rewrite !bool_decide_eq_false_2 by done. done. }
  rewrite (bind_Ok _ _ _ w (with_mode conn ModeClient, PostCommand (client_handler conn) (request_of (word :: words)))).
  - done.
  - rewrite (bind_Ok _ _ _ w (Some (request_of (word :: words), length (serialize (request_of (word :: words)))))) by done.
    exact E.
Qed.

(** ** SET and GET *)

(** What SET stores at time [now]. *)
Definition stored (now : Z) (value : bytes) (ttl : option Z) : StoreValue :=
  mkValue (VString value) ((λ ms, now + ms * 1000000) <$> ttl).

(** The expiry options are accepted and their arithmetic fits 64 bits. *)
Definition ttl_ok (now : Z) (ttl : option Z) : bool :=
  from_option (λ ms, (0 <? ms) && fits_i64 (ms * 1000000) && fits_i64 (now + ms * 1000000)) true ttl.

Lemma execute_set_stores call cmd k w key value options ttl :
  args cmd = key :: value :: options → parse_expiry cmd = Ok ttl → ttl_ok (w_steady w) ttl = true →
  execute_set call cmd k w =
    (notify key;; call (TReply k ok_reply)) (with_store (<[key := stored (w_steady w) value ttl]> (w_store w)) w).
Proof.
  intros Ha Hp Ht. unfold execute_set, check_args. rewrite Ha, bool_decide_eq_false_2 by (simpl; lia).
  rewrite Hp, (bind_Ok _ _ _ w ttl) by done.
  assert (from_option (λ ttl, ttl <=? 0) false ttl = false) as ->.
  { destruct ttl as [ms|]; [|done]. cbn in *. apply Z.leb_gt. apply andb_true_iff in Ht as [[Ht _]%andb_true_iff _].
    by apply Z.ltb_lt. }
  rewrite (bind_Ok _ _ _ _ _ (arg_Some cmd 0 key w ltac:(by rewrite Ha))).
  rewrite (bind_Ok _ _ _ _ _ (arg_Some cmd 1 value w ltac:(by rewrite Ha))), bind_gets.
  unfold mbind at 1, M_bind at 1, on_store_outcome, store_set, set_ttl, stored.
  destruct ttl as [ms|]; [|done]. cbn in Ht. apply andb_true_iff in Ht as [[_ H1]%andb_true_iff H2].
  rewrite H1, H2. done.
Qed.

Lemma execute_get_reads call cmd k w key rest sv value :
  args cmd = key :: rest → w_store w !! key = Some sv → value_ sv = VString value →
  execute_get call cmd k w =
    if is_expired (w_steady w) sv then call (TReply k null_bulk) (with_store (delete key (w_store w)) w)
    else call (TReply k (bulk value)) w.
Proof.
  intros Ha Hk Hv. unfold execute_get, check_args. rewrite Ha, bool_decide_eq_false_2 by (simpl; lia).
  rewrite (bind_Ok _ _ _ _ _ (arg_Some cmd 0 key w ltac:(by rewrite Ha))), bind_gets, bind_on_store.
  unfold get. rewrite Hk. destruct (is_expired _ sv); [done|]. rewrite Hv. cbn [fst snd]. by destruct w.
Qed.

Lemma notify_frame key w : w_store (notify key w).1 = w_store w ∧ w_out (notify key w).1 = w_out w.
Proof.
  split; [|exact (local_out (notify key) w (local_notify key))]. unfold notify, modify. cbn [fst].
  apply (fold_mark (notify_write key (w_watch w)) w 0).
Qed.

(** A direct command of a client outside MULTI. *)
Lemma handle_direct version fuel h word words c w :
  h_kind h = Client → is_active (tm_of (h_id h) w) = false → always_direct (parse_type word) = false →
  ∃ k, plain k = true ∧ (reply_depth k ≤ 2)%nat ∧ (∀ s, responses_of k s = [Response c s]) ∧
    (is_write_command (parse_type word) = false → k = ReplyTo c) ∧
    handle version fuel h (request_of (word :: words)) (ReplyTo c) w =
      match command_table version (run version fuel) h (mkCommand (parse_type word) word words) k with
      | Some body => body w
      | None => run version fuel (TReply (ReplyTo c) (unknown_command word)) w
      end.
Proof.
  intros Hk Ha Hd. rewrite (handle_command _ _ _ (request_of (word :: words)) _ _ _ eq_refl (parse_request word words)). unfold dispatch.
  rewrite bind_gets, Ha. cbn [cmd_type cmd_name]. rewrite Hd.
  destruct (dispatch_reply h (parse_type word) (serialize (request_of (word :: words))) c) as [Hp Hr].
  eexists. split; [exact Hp|]. split; [exact Hr|]. split; [intros s; by destruct (_ && _)|].
  split; [intros ->; by rewrite andb_false_r|]. rewrite execute_table. by destruct (command_table _ _ _ _ _).
Qed.

(** ** Property *)

(** C21. SET and GET over the wire.  A client sends SET with any key and value (any
    bytes) and any accepted expiry options, in one read of its connection: it is
    answered OK.  As long as nobody else has written the key since, another connection (or the same one)
    that sends GET for the key gets exactly one reply.  Up to the deadline
    these bytes, read by a RESP parser, are the value that was sent; after the
    deadline they are the null value, and the key is gone. *)
Theorem set_get_roundtrip (version : bytes) (fuel : nat) (conn1 conn2 : Connection) (w : World)
    (set_word get_word key value : bytes) (options : list bytes) (ttl : option Z)
    (Hmode1 : mode_ conn1 ≠ ModeReplication) (Hmode2 : mode_ conn2 ≠ ModeReplication)
    (Hset : parse_type set_word = Set_) (Hget : parse_type get_word = Get)
    (Hsend1 : sendable (set_word :: key :: value :: options)) (Hsend2 : sendable [get_word; key])
    (Hoptions : parse_expiry (mkCommand Set_ set_word (key :: value :: options)) = Ok ttl)
    (Httl : ttl_ok (w_steady w) ttl = true) (Hactive1 : is_active (tm_of (h_id (client_handler conn1)) w) = false)
    (Hfuel : (2 ≤ fuel)%nat) :
  ∃ w1, serve_read version fuel conn1 (client_text (set_word :: key :: value :: options)) w =
      (w1, Ok (with_mode conn1 ModeClient)) ∧
    response_part (w_out w1) = response_part (w_out w) ++ [Response (conn_id conn1) ok_reply] ∧
    ∀ w2, w_store w2 !! key = w_store w1 !! key → is_active (tm_of (h_id (client_handler conn2)) w2) = false →
      let expired := from_option (λ ms, w_steady w + ms * 1000000 <? w_steady w2) false ttl in
      ∃ w3 text, serve_read version fuel conn2 (client_text [get_word; key]) w2 = (w3, Ok (with_mode conn2 ModeClient)) ∧
        w_out w3 = w_out w2 ++ [Response (conn_id conn2) text] ∧
        parse text = Ok (Some (if expired then mkResp Null [] [] else bulk_value value, length text)) ∧
        w_store w3 = if expired then delete key (w_store w2) else w_store w2.
Proof.
  rewrite serve_client by (done || by rewrite Hset).
  destruct (handle_direct version fuel (client_handler conn1) set_word (key :: value :: options) (conn_id conn1) w)
    as (k1 & Hp1 & Hd1 & Hr1 & _ & E1); [done|done|by rewrite Hset|]. rewrite Hset in E1. cbn [command_table h_kind client_handler cmd_type] in E1.
  rewrite (execute_set_stores _ _ _ _ key value options ttl) in E1 by done.
  set (w0 := (notify key (with_store (<[key := stored (w_steady w) value ttl]> (w_store w)) w)).1) in *.
  rewrite (bind_Ok _ _ _ w0 tt eq_refl), run_deliver in E1 by (done || lia).
  rewrite (bind_Ok _ _ _ _ _ E1). eexists. split; [reflexivity|].
  assert (w_out w0 = w_out w ∧ w_store w0 !! key = Some (stored (w_steady w) value ttl)) as [Eo Es].
  { destruct (notify_frame key (with_store (<[key := stored (w_steady w) value ttl]> (w_store w)) w)) as [E3 E4].
    split; [exact E4|]. unfold w0. rewrite E3. apply lookup_insert_eq. }
  rewrite deliver_responses, Eo, Hr1. split; [done|]. intros w2 Hk Ha2. destruct (deliver_frame k1 ok_reply w0) as (Ed & _).
  rewrite Ed, Es in Hk. rewrite serve_client by (done || by rewrite Hget).
  destruct (handle_direct version fuel (client_handler conn2) get_word [key] (conn_id conn2) w2)
    as (k2 & Hp2 & Hd2 & _ & Hk2 & E2); [done|done|by rewrite Hget|]. rewrite Hget in E2, Hk2. rewrite Hk2 in * by done.
  cbn [command_table h_kind client_handler cmd_type] in E2. rewrite (execute_get_reads _ _ _ _ key [] _ value) in E2 by done.
  assert (is_expired (w_steady w2) (stored (w_steady w) value ttl) =
    from_option (λ ms, w_steady w + ms * 1000000 <? w_steady w2) false ttl) as Ee by (by destruct ttl).
  rewrite Ee in E2. cbv zeta. destruct (from_option _ false ttl); rewrite run_deliver in E2 by (done || (simpl; lia));
    rewrite (bind_Ok _ _ _ _ _ E2); eexists _, _; (split; [reflexivity|]); (split; [reflexivity|]); split; try done.
  apply (parse_serialize (bulk_value value)). destruct Hsend1 as [_ Hw]. cbn. rewrite andb_true_r. apply Z.leb_le.
  by inversion_clear Hw as [|? ? _ Hw']; inversion_clear Hw' as [|? ? _ Hw'']; inversion_clear Hw''.
Qed.

(** A value with a line break, for half a second. *)
Definition two_lines : bytes := b "one" ++ CRLF ++ b "two".

Lemma set_get_roundtrip_witness :
  ∃ w1 w3 w4 text text',
    serve_read (b "7.0.0") 20 (new_connection 1) (client_text [b "set"; b "k"; two_lines; b "PX"; b "500"]) example_world =
      (w1, Ok (with_mode (new_connection 1) ModeClient)) ∧
    serve_read (b "7.0.0") 20 (new_connection 2) (client_text [b "GET"; b "k"]) (with_clocks 500000000 0 w1) =
      (w3, Ok (with_mode (new_connection 2) ModeClient)) ∧
    last (w_out w3) = Some (Response 2 text) ∧ parse text = Ok (Some (bulk_value two_lines, length text)) ∧
    serve_read (b "7.0.0") 20 (new_connection 2) (client_text [b "GET"; b "k"]) (with_clocks 500000001 0 w1) =
      (w4, Ok (with_mode (new_connection 2) ModeClient)) ∧
    last (w_out w4) = Some (Response 2 text') ∧ parse text' = Ok (Some (mkResp Null [] [], length text')).
Proof.
  assert (sendable [b "set"; b "k"; two_lines; b "PX"; b "500"]) as H1 by (split; [done|repeat constructor; done]).
  assert (sendable [b "GET"; b "k"]) as H2 by (split; [done|repeat constructor; done]).
  destruct (set_get_roundtrip (b "7.0.0") 20 (new_connection 1) (new_connection 2) example_world (b "set") (b "GET")
    (b "k") two_lines [b "PX"; b "500"] (Some 500) ltac:(done) ltac:(done) eq_refl eq_refl H1 H2 eq_refl eq_refl eq_refl
    ltac:(lia)) as (w1 & E1 & _ & Hget).
  assert (∀ t, is_active (tm_of (h_id (client_handler (new_connection 2))) (with_clocks t 0 w1)) = false) as Ha.
  { intros t. change (is_active (tm_of (h_id (client_handler (new_connection 2))) w1) = false).
    assert (w1 = (serve_read (b "7.0.0") 20 (new_connection 1) (client_text [b "set"; b "k"; two_lines; b "PX"; b "500"])
      example_world).1) as -> by (by rewrite E1). vm_compute. reflexivity. }
  destruct (Hget (with_clocks 500000000 0 w1) eq_refl (Ha _)) as (w3 & text & F1 & F2 & F3 & _).
  destruct (Hget (with_clocks 500000001 0 w1) eq_refl (Ha _)) as (w4 & text' & G1 & G2 & G3 & _).
  exists w1, w3, w4, text, text'. split; [exact E1|]. split; [exact F1|].
  rewrite F2, G2, !last_snoc. split; [reflexivity|]. split; [exact F3|]. split; [exact G1|]. split; [reflexivity|exact G3].
Defined.
