(* ===== verification/Main.v ===== *)
(** * Start-up: environment, arguments and the address of the master

    Models the configuration part of src/main.cpp and the parsing in
    [ReplicationManager::start] of src/replication/ReplicationManager.cpp. *)

From S2P Require Import Prelude CharConv ServerConfig.

Definition starts_with (prefix s : bytes) : bool := bool_decide (take (length prefix) s = prefix).

(** [from_chars(..., port)] leaves [port] alone on an error. *)
Definition read_port (text : bytes) (port : Z) : Z * bool :=
  match from_chars_int text with
  | FcOk p _ => (p, true)
  | _ => (port, false)
  end.

(** The first [REDIS_PORT=] entry decides. *)
Fixpoint env_port (env : list bytes) (port : Z) : Z :=
  match env with
  | [] => port
  | entry :: env =>
      if starts_with (b "REDIS_PORT=") entry then fst (read_port (drop 11 entry) port)
      else env_port env port
  end.

Record Options := mkOptions {
  opt_port : Z;
  opt_config : ServerConfig;
  opt_errors : list bytes;
}.

Definition with_port (o : Options) (port : Z) : Options := mkOptions port (opt_config o) (opt_errors o).
Definition with_error (o : Options) (e : bytes) : Options :=
  mkOptions (opt_port o) (opt_config o) (opt_errors o ++ [e]).

(** The loop over the arguments behind the program name; [draws] are the random
    draws of the replica's id. *)
Fixpoint parse_args (draws : list nat) (l : list bytes) (o : Options) : Options :=
  match l with
  | [] => o
  | arg :: rest =>
      if bool_decide (arg = b "--port") then
        match rest with
        | port_str :: rest =>
            let '(port, ok) := read_port port_str (opt_port o) in
            parse_args draws rest
              (if ok : bool then with_port o port
               else with_error o (b "Invalid port argument: '" ++ port_str ++ b "'" ++ [LF]))
        | [] => o
        end
      else if bool_decide (arg = b "--replicaof") then
        match rest with
        | host :: replica_port :: rest =>
            parse_args draws rest
              (mkOptions (opt_port o) (replica_config draws (host ++ b " " ++ replica_port)) (opt_errors o))
        | [_] => with_error o (b "Invalid --replicaof argument: expected 'host port'" ++ [LF])
        | [] => o
        end
      else parse_args draws rest o
  end.

Definition configure (draws draws' : list nat) (env argv : list bytes) : Options :=
  parse_args draws' (drop 1 argv) (mkOptions (env_port env 6379) (master_config draws) []).

(** [iss >> word]: a word and the rest of the stream. *)
Fixpoint take_word (s : bytes) : bytes * bytes :=
  match s with
  | c :: s' => if is_space c then ([], s) else let '(w, r) := take_word s' in (c :: w, r)
  | [] => ([], [])
  end.

(** [iss >> host >> port] on [replicaof]; [None] is no connection. *)
Definition master_address (config : ServerConfig) : option (bytes * bytes) :=
  match is_replica config, replicaof config with
  | true, Some address =>
      let '(host, rest) := take_word (skip_space address) in
      let '(port, _) := take_word (skip_space rest) in
      if bool_decide (host = []) || bool_decide (port = []) then None else Some (host, port)
  | _, _ => None
  end.
