(* ===== verification/Reader.v ===== *)
(** * Readers of a byte stream

    A reader consumes a buffer that the network extends in arbitrary pieces: as
    long as it can take a step it does, otherwise it waits for more bytes.
    [StreamReader] is what a protocol promises such a loop: a step that was
    possible stays the same step when more bytes arrive, and steps make
    progress.  The theorems on [drive] are proved against this interface; the
    replication session discharges it with the properties of the RESP parser. *)

From S2P Require Import Prelude.

(** [step s buf] is [Ok None] when the bytes do not suffice, and otherwise the
    next state, the number of bytes consumed and what is emitted. *)
Class StreamReader (St Out : Type) := {
  step : St → bytes → outcome (option (St * nat * list Out));
  rank : St → nat;
  step_stable : ∀ s buf more, step s buf ≠ Ok None → step s (buf ++ more) = step s buf;
  step_consumed : ∀ s buf s' n out, step s buf = Ok (Some (s', n, out)) → (n ≤ length buf)%nat;
  step_progress : ∀ s buf s' n out, step s buf = Ok (Some (s', n, out)) → (rank s' < rank s + n)%nat;
  step_total : ∀ s buf, step s buf ≠ NoFuel;
}.

Section reader.
Context {St Out : Type} `{StreamReader St Out}.

(** Steps until the buffer does not allow another: what is emitted, and the
    state and buffer left, or the exception that ended the loop. *)
Fixpoint drive_aux (fuel : nat) (s : St) (buf : bytes) : list Out * outcome (St * bytes) :=
  match fuel with
  | O => ([], NoFuel)
  | S fuel =>
      match step s buf with
      | Ok None => ([], Ok (s, buf))
      | Ok (Some (s', n, out)) =>
          let '(out', r) := drive_aux fuel s' (drop n buf) in (out ++ out', r)
      | Throw e => ([], Throw e)
      | UB => ([], UB)
      | NoFuel => ([], NoFuel)
      end
  end.

(** The loop, with fuel for every step it can take. *)
Definition drive (s : St) (buf : bytes) : list Out * outcome (St * bytes) :=
  drive_aux (S (rank s + length buf)) s buf.

(** The same input in pieces, each appended to the buffer when the loop has
    stopped. *)
Fixpoint feed (s : St) (buf : bytes) (chunks : list bytes) : list Out * outcome (St * bytes) :=
  match chunks with
  | [] => drive s buf
  | chunk :: chunks =>
      match drive s buf with
      | (out, Ok (s', buf')) =>
          let '(out', r) := feed s' (buf' ++ chunk) chunks in (out ++ out', r)
      | (out, r) => (out, r)
      end
  end.

Lemma drive_aux_fuel f1 f2 s buf :
  (rank s + length buf < f1)%nat → (rank s + length buf < f2)%nat →
  drive_aux f1 s buf = drive_aux f2 s buf.
Proof.
  revert f2 s buf. induction f1 as [|f1 IH]; intros [|f2] s buf H1 H2; try lia. simpl.
  destruct (step s buf) as [[[[s' n] out]|]| | |] eqn:E; try done.
  apply step_progress in E as Hp. apply step_consumed in E as Hc.
  rewrite (IH f2) by (rewrite length_drop; lia). done.
Qed.

Lemma drive_unfold s buf :
  drive s buf =
  match step s buf with
  | Ok None => ([], Ok (s, buf))
  | Ok (Some (s', n, out)) =>
      let '(out', r) := drive s' (drop n buf) in (out ++ out', r)
  | Throw e => ([], Throw e)
  | UB => ([], UB)
  | NoFuel => ([], NoFuel)
  end.
Proof.
  unfold drive at 1. cbn [drive_aux].
  destruct (step s buf) as [[[[s' n] out]|]| | |] eqn:E; try done.
  apply step_progress in E as Hp. apply step_consumed in E as Hc.
  unfold drive. erewrite drive_aux_fuel; [reflexivity|..]; rewrite length_drop; lia.
Qed.

(** Induction along the steps of the loop. *)
Lemma drive_ind (P : St → bytes → Prop) :
  (∀ s buf, (∀ s' n out, step s buf = Ok (Some (s', n, out)) → P s' (drop n buf)) → P s buf) →
  ∀ s buf, P s buf.
Proof.
  intros HP. enough (∀ k s buf, (rank s + length buf < k)%nat → P s buf) by eauto.
  induction k as [|k IH]; intros s buf Hk; [lia|]. apply HP. intros s' n out E.
  apply step_progress in E as Hp. apply step_consumed in E as Hc.
  apply IH. rewrite length_drop. lia.
Qed.

Lemma drive_total s buf : snd (drive s buf) ≠ NoFuel.
Proof.
  revert s buf. apply drive_ind. intros s buf IH. rewrite drive_unfold.
  pose proof (step_total s buf). destruct (step s buf) as [[[[s' n] out]|]| | |] eqn:E; try done.
  specialize (IH s' n out eq_refl). by destruct (drive s' (drop n buf)).
Qed.

(** More bytes do not change what the loop did with the bytes it had. *)
Lemma drive_app s buf more :
  drive s (buf ++ more) =
  match drive s buf with
  | (out, Ok (s', buf')) => let '(out', r) := drive s' (buf' ++ more) in (out ++ out', r)
  | (out, r) => (out, r)
  end.
Proof.
  revert s buf. apply (drive_ind (λ s buf, _)). intros s buf IH.
  rewrite (drive_unfold s buf).
  destruct (step s buf) as [[[[s' n] out]|]| | |] eqn:E;
    [|by destruct (drive s (buf ++ more))|..];
    rewrite drive_unfold, step_stable, E by (by rewrite E); try done.
  apply step_consumed in E as Hc. rewrite drop_app_le, (IH s' n out eq_refl) by done.
  destruct (drive s' (drop n buf)) as [out1 [[s1 b1]| | |]]; try done.
  destruct (drive s1 (b1 ++ more)) as [out2 r]. by rewrite (assoc_L (++)).
Qed.

Lemma feed_concat s buf chunks : feed s buf chunks = drive s (buf ++ concat chunks).
Proof.
  revert s buf. induction chunks as [|chunk chunks IH]; intros s buf; simpl.
  - by rewrite app_nil_r.
  - rewrite drive_app. destruct (drive s buf) as [out [[s' buf']| | |]]; try done.
    by rewrite IH, (assoc_L (++)).
Qed.
End reader.
