(* ===== verification/ReplicationSession.v ===== *)
(** * The replica's session with its master

    Models src/replication/ReplicationSession.cpp: the handshake (PING,
    REPLCONF listening-port, REPLCONF capa, PSYNC), the transfer of the RDB
    payload, and the loop that takes propagated commands out of the buffer,
    counts their bytes and posts them to the store thread.  A [step] of the
    session is one completion handler of an [async_read]; it is possible once
    the buffer holds what that read waits for.  The timer of the periodic
    acknowledgements is a step relation of its own.  Failed reads and writes of
    the session are in ReplicaLink.v. *)

From S2P Require Import Prelude CharConv Resp WatchManager ReplicaRegistry Command ServerConfig World BasicCommands TransactionCommands Reader.

Inductive Phase :=
  | AwaitPong | AwaitPort | AwaitCapa | AwaitPsync
  | RdbHeader | RdbBody (size : Z)
  | Streaming
  | Stopped.

#[export] Instance Phase_eq_dec : EqDecision Phase.
Proof. solve_decision. Defined.

Record Session := mkSession {
  phase : Phase;
  replica_offset_ : Z;
  listening_port_ : Z;
}.

Inductive SessionOut :=
  (** [async_write] of a message *)
  | Sent (message : bytes)
  (** a command for [handler_] on the store thread *)
  | Posted (command : RespValue).

Definition encode_array (parts : list bytes) : bytes :=
  serialize (mkResp Array [] (bulk_value <$> parts)).

Definition is_getack (command : RespValue) : bool :=
  bool_decide (type command = Array) &&
  match elements command with
  | e0 :: e1 :: _ =>
      bool_decide (lowercase (str e0) = b "replconf") && bool_decide (lowercase (str e1) = b "getack")
  | _ => false
  end.

Definition ping_message : bytes := encode_array [b "PING"].
Definition port_message (s : Session) : bytes :=
  encode_array [b "REPLCONF"; b "listening-port"; to_string (listening_port_ s)].
Definition capa_message : bytes := encode_array [b "REPLCONF"; b "capa"; b "psync2"].
Definition psync_message : bytes := encode_array [b "PSYNC"; b "?"; b "-1"].
Definition ack_message (offset : Z) : bytes :=
  encode_array [b "REPLCONF"; b "ACK"; to_string offset].

(** [start()]: the first message is sent, its reply awaited. *)
Definition start_session (listening_port : Z) : Session * list SessionOut :=
  (mkSession AwaitPong 0 listening_port, [Sent ping_message]).

Definition goto (s : Session) (p : Phase) : Session := mkSession p (replica_offset_ s) (listening_port_ s).
Definition with_offset (s : Session) (offset : Z) : Session :=
  mkSession (phase s) offset (listening_port_ s).

(** The text behind the last space ([rfind]), if there is one. *)
Definition after_last_space (reply : bytes) : option bytes :=
  match split_at " "%char (reverse reply) with
  | Some (before, _) => Some (reverse before)
  | None => None
  end.

Definition parse_fullresync_offset (reply : bytes) (s : Session) : Session :=
  match after_last_space reply with
  | None => s
  | Some offset_part =>
      match from_chars_size offset_part with
      | FcOk offset _ => with_offset s offset
      | _ => s
      end
  end.

(** The bytes up to and including the first CRLF, as [async_read_until]
    delivers them. *)
Definition next_line (buf : bytes) : option (bytes * nat) :=
  match find_crlf buf with
  | Some i => Some (take (i + 2) buf, (i + 2)%nat)
  | None => None
  end.

(** [read_reply]: the line is parsed on its own; a line that is no reply stops
    the session. *)
Definition read_reply (s : Session) (buf : bytes) (on_reply : RespValue → Session * list SessionOut)
    : outcome (option (Session * nat * list SessionOut)) :=
  match next_line buf with
  | None => Ok None
  | Some (line, n) =>
      let! parsed := parse line in
      match parsed with
      | None => Ok (Some (goto s Stopped, n, []))
      | Some (reply, _) => let '(s', out) := on_reply reply in Ok (Some (s', n, out))
      end
  end.

(** The reply to PSYNC. *)
Definition psync_reply (s : Session) (reply : RespValue) : Session * list SessionOut :=
  let s := if bool_decide (type reply = SimpleString)
           then parse_fullresync_offset (str reply) s else s in
  (goto s RdbHeader, []).

Definition receive_rdb (s : Session) (buf : bytes)
    : outcome (option (Session * nat * list SessionOut)) :=
  match next_line buf with
  | None => Ok None
  | Some (line, n) =>
      let size :=
        match line with
        | c :: _ =>
            if bool_decide (c = "$"%char) then
              match from_chars_size (substr line 1 (length line - 3)) with
              | FcOk size _ => Some size
              | _ => None
              end
            else None
        | [] => None
        end in
      Ok (Some (goto s (from_option RdbBody Stopped size), n, []))
  end.

Definition receive_rdb_body (size : Z) (s : Session) (buf : bytes)
    : outcome (option (Session * nat * list SessionOut)) :=
  if size <=? zlen buf then Ok (Some (goto s Streaming, Z.to_nat size, []))
  else Ok None.

(** [send_ack()]; the timer that follows is in [ack_step]. *)
Definition send_ack (s : Session) : list SessionOut := [Sent (ack_message (replica_offset_ s))].

Definition try_process_one_buffered_command (s : Session) (buf : bytes)
    : outcome (option (Session * nat * list SessionOut)) :=
  if bool_decide (length buf = 0%nat) then Ok None
  else
    let! command_opt := parse buf in
    match command_opt with
    | None => Ok None
    | Some (command, consumed) =>
        let s := with_offset s (to_u64 (replica_offset_ s + Z.of_nat consumed)) in
        if is_getack command then Ok (Some (s, consumed, send_ack s))
        else Ok (Some (s, consumed, [Posted command]))
    end.

Definition session_step (s : Session) (buf : bytes)
    : outcome (option (Session * nat * list SessionOut)) :=
  match phase s with
  | AwaitPong => read_reply s buf (λ _, (goto s AwaitPort, [Sent (port_message s)]))
  | AwaitPort => read_reply s buf (λ _, (goto s AwaitCapa, [Sent capa_message]))
  | AwaitCapa => read_reply s buf (λ _, (goto s AwaitPsync, [Sent psync_message]))
  | AwaitPsync => read_reply s buf (psync_reply s)
  | RdbHeader => receive_rdb s buf
  | RdbBody size => receive_rdb_body size s buf
  | Streaming => try_process_one_buffered_command s buf
  | Stopped => Ok None
  end.

Definition session_rank (s : Session) : nat :=
  match phase s with
  | AwaitPong => 6 | AwaitPort => 5 | AwaitCapa => 4 | AwaitPsync => 3
  | RdbHeader => 2 | RdbBody _ => 1 | Streaming => 0 | Stopped => 0
  end%nat.

(** ** The session as a stream reader *)

Lemma next_line_app buf more r : next_line buf = Some r → next_line (buf ++ more) = Some r.
Proof.
  unfold next_line. destruct (find_crlf buf) as [i|] eqn:E; [|done]. intros [= <-].
  apply find_crlf_bound in E as Hb. rewrite (find_crlf_app _ _ _ E).
  by rewrite take_app_le by lia.
Qed.

Lemma next_line_bound buf line n : next_line buf = Some (line, n) → (2 ≤ n ≤ length buf)%nat.
Proof.
  unfold next_line. destruct (find_crlf buf) as [i|] eqn:E; [|done]. intros [= <- <-].
  apply find_crlf_bound in E. lia.
Qed.

Lemma read_reply_stable s buf more k :
  read_reply s buf k ≠ Ok None → read_reply s (buf ++ more) k = read_reply s buf k.
Proof.
  unfold read_reply. destruct (next_line buf) as [[line n]|] eqn:E; [|done].
  by rewrite (next_line_app _ _ _ E).
Qed.

Lemma session_step_stable s buf more :
  session_step s buf ≠ Ok None → session_step s (buf ++ more) = session_step s buf.
Proof.
  unfold session_step. destruct (phase s) as [| | | | |size| |];
    try apply read_reply_stable; [| |intros Hne|done].
  - unfold receive_rdb. destruct (next_line buf) as [[line n]|] eqn:E; [|done].
    by rewrite (next_line_app _ _ _ E).
  - unfold receive_rdb_body. destruct (Z.leb_spec size (zlen buf)); [|done]. intros _.
    destruct (Z.leb_spec size (zlen (buf ++ more))) as [|Hlt]; [done|].
    rewrite zlen_app in Hlt. pose proof (zlen_nonneg more). lia.
  - unfold try_process_one_buffered_command in *.
    destruct buf as [|c buf]; [by contradict Hne|]. simpl length in *.
    rewrite bool_decide_eq_false_2 in * by lia. cbn [app].
    rewrite app_comm_cons, (parse_stable (c :: buf) more (parse (c :: buf))); [done..|].
    intros E. rewrite E in Hne. by contradict Hne.
Qed.

(** A reply leads to the next phase of the handshake, or stops the session. *)
Lemma read_reply_step s buf k s' n out :
  read_reply s buf k = Ok (Some (s', n, out)) →
  (2 ≤ n ≤ length buf)%nat ∧ (s' = goto s Stopped ∨ ∃ reply, s' = fst (k reply)).
Proof.
  unfold read_reply. destruct (next_line buf) as [[line m]|] eqn:E; [|done].
  apply next_line_bound in E. destruct (parse line) as [[[reply c]|]| | |]; [| |done..]; cbn [obind].
  - destruct (k reply) as [s1 out1] eqn:Ek. intros [= <- <- <-].
    split; [done|]. right. exists reply. by rewrite Ek.
  - intros [= <- <- <-]. split; [done|by left].
Qed.

Lemma psync_reply_phase s reply : phase (fst (psync_reply s reply)) = RdbHeader.
Proof. done. Qed.

Lemma session_step_spec s buf s' n out :
  session_step s buf = Ok (Some (s', n, out)) →
  (n ≤ length buf)%nat ∧ (session_rank s' < session_rank s + n)%nat.
Proof.
  unfold session_step, session_rank. destruct (phase s) as [| | | | |size| |] eqn:Hp;
    try (intros [Hn [->|[reply ->]]]%read_reply_step; simpl; lia); [| | |done].
  - unfold receive_rdb. destruct (next_line buf) as [[line m]|] eqn:E; [|done].
    apply next_line_bound in E. intros [= <- <- <-]. split; [lia|].
    unfold from_option, goto. simpl. repeat case_match; try lia; simplify_eq.
  - unfold receive_rdb_body. destruct (Z.leb_spec size (zlen buf)); [|done].
    intros [= <- <- <-]. unfold zlen in *. simpl. lia.
  - unfold try_process_one_buffered_command. case_bool_decide; [done|].
    destruct (parse buf) as [[[v c]|]| | |] eqn:P; simpl; try done.
    apply parse_consumed in P. destruct (is_getack v); intros [= <- <- <-];
      cbn [with_offset phase]; rewrite Hp; lia.
Qed.

Lemma session_step_total s buf : session_step s buf ≠ NoFuel.
Proof.
  assert (∀ k, read_reply s buf k ≠ NoFuel) as Hread.
  { intros k. unfold read_reply. destruct (next_line buf) as [[line n]|]; [|done].
    pose proof (parse_total line). destruct (parse line) as [[[v c]|]| | |]; simpl; try done.
    by destruct (k v). }
  unfold session_step. destruct (phase s); try apply Hread; try done.
  - unfold receive_rdb. by destruct (next_line buf) as [[line n]|].
  - unfold receive_rdb_body. by case_match.
  - unfold try_process_one_buffered_command. case_bool_decide; [done|].
    pose proof (parse_total buf). destruct (parse buf) as [[[v c]|]| | |]; simpl; try done.
    by destruct (is_getack v).
Qed.

#[export] Instance session_reader : StreamReader Session SessionOut := {
  step := session_step;
  rank := session_rank;
  step_stable := session_step_stable;
  step_consumed s buf s' n out E := proj1 (session_step_spec s buf s' n out E);
  step_progress s buf s' n out E := proj2 (session_step_spec s buf s' n out E);
  step_total := session_step_total;
}.

(** ** What a well-behaved master makes the session do *)

(** The specification of the command loop: every command counts, a GETACK is
    answered with the offset behind it, all others are posted. *)
Fixpoint replay (offset : Z) (commands : list RespValue) : list SessionOut * Z :=
  match commands with
  | [] => ([], offset)
  | command :: commands =>
      let offset := to_u64 (offset + zlen (serialize command)) in
      let '(out, final) := replay offset commands in
      ((if is_getack command then [Sent (ack_message offset)] else [Posted command]) ++ out,
       final)
  end.

Lemma serialize_nonempty v : wf_resp v = true → serialize v ≠ [].
Proof.
  intros Hwf E. apply parse_serialize in Hwf. rewrite E in Hwf. done.
Qed.

Lemma drive_commands commands s :
  phase s = Streaming → forallb wf_resp commands = true →
  drive s (concat (serialize <$> commands)) =
    ((replay (replica_offset_ s) commands).1,
     Ok (with_offset s (replay (replica_offset_ s) commands).2, [])).
Proof.
  revert s. induction commands as [|v commands IH]; intros s Hp Hwf.
  - rewrite drive_unfold. cbn [step session_reader concat fmap list_fmap]. unfold session_step.
    rewrite Hp. simpl. by destruct s.
  - cbn [forallb] in Hwf. apply andb_prop in Hwf as [Hv Hwf].
    rewrite fmap_cons. cbn [concat]. rewrite drive_unfold. cbn [step session_reader].
    unfold session_step, try_process_one_buffered_command. rewrite Hp.
    rewrite bool_decide_eq_false_2
      by (pose proof (serialize_nonempty v Hv); destruct (serialize v); simpl; [done|lia]).
    rewrite parse_serialize_app by done. cbn [obind].
    set (off := to_u64 _). cbn [replay]. fold (zlen (serialize v)) in off. fold off.
    destruct (is_getack v); rewrite drop_app_length, IH by done;
      cbn [with_offset replica_offset_ phase listening_port_ send_ack];
      by destruct (replay off commands).
Qed.

(** The offset and the posted commands in closed form. *)
Lemma replay_spec offset commands :
  0 ≤ offset → offset + zlen (concat (serialize <$> commands)) ≤ ULLONG_MAX →
  (replay offset commands).2 = offset + zlen (concat (serialize <$> commands)) ∧
  omap (λ o, match o with Posted c => Some c | _ => None end) (replay offset commands).1 =
    List.filter (λ c, negb (is_getack c)) commands.
Proof.
  revert offset. induction commands as [|v commands IH]; intros offset H0 Hmax.
  - split; [simpl; unfold zlen; simpl; lia|done].
  - rewrite fmap_cons in *. cbn [concat] in *. rewrite zlen_app in Hmax.
    pose proof (zlen_nonneg (serialize v)). pose proof (zlen_nonneg (concat (serialize <$> commands))).
    cbn [replay]. assert (to_u64 (offset + zlen (serialize v)) = offset + zlen (serialize v)) as ->
      by (unfold to_u64; limits; rewrite Z.mod_small; lia).
    destruct (IH (offset + zlen (serialize v))) as [IH1 IH2]; [lia..|].
    destruct (replay _ commands) as [out final]. cbn [fst snd] in *. split.
    + rewrite zlen_app. lia.
    + cbn [List.filter]. rewrite omap_app, IH2. by destruct (is_getack v).
Qed.

(** A reply that is one line: ["+PONG\r\n"], ["+OK\r\n"], ... *)
Definition simple_line (text : bytes) : bytes := "+"%char :: text ++ CRLF.

Lemma read_reply_line s text rest k :
  find_crlf text = None →
  read_reply s (simple_line text ++ rest) k =
    let '(s', out) := k (mkResp SimpleString text []) in
    Ok (Some (s', length (simple_line text), out)).
Proof.
  intros Ht. unfold read_reply, next_line, simple_line.
  assert (find_crlf ("+"%char :: text) = None) as Hc.
  { cbn [find_crlf]. rewrite Ht. by rewrite bool_decide_eq_false_2 by (intros [=]). }
  assert (simple_line text ++ rest = ("+"%char :: text) ++ CRLF ++ rest) as E
    by (unfold simple_line; cbn [app]; by rewrite <- (assoc_L (++))).
  unfold simple_line in E. rewrite E, find_crlf_line, <- E by done.
  rewrite take_app_length' by (cbn [length]; rewrite length_app; simpl; lia).
  change (parse ("+"%char :: text ++ CRLF)) with (parse (serialize (mkResp SimpleString text []))).
  rewrite parse_serialize; cbn [obind].
  - replace (length ("+"%char :: text) + 2)%nat with (length ("+"%char :: text ++ CRLF))
      by (cbn [length]; rewrite length_app; simpl; lia). done.
  - simpl. unfold no_crlf. by rewrite bool_decide_eq_true_2.
Qed.

Lemma drive_reply s text rest k s' out :
  find_crlf text = None → (∀ buf, session_step s buf = read_reply s buf k) →
  k (mkResp SimpleString text []) = (s', out) →
  drive s (simple_line text ++ rest) = let '(out', r) := drive s' rest in (out ++ out', r).
Proof.
  intros Ht Hstep Hk. rewrite drive_unfold. cbn [step session_reader].
  rewrite Hstep, read_reply_line, Hk by done. by rewrite drop_app_length.
Qed.

(** The reply to PSYNC seeds the offset. *)
Lemma fullresync_offset s replid offset :
  0 ≤ offset ≤ ULLONG_MAX →
  parse_fullresync_offset (b "FULLRESYNC " ++ replid ++ b " " ++ to_string offset) s = with_offset s offset.
Proof.
  intros Ho. unfold parse_fullresync_offset, after_last_space.
  rewrite to_string_nonneg by lia. destruct (digits_spec offset) as (_ & Hall & _); [lia|].
  rewrite !reverse_app. change (reverse (b " ")) with [" "%char].
  rewrite <- !(assoc_L (++)). cbn [app].
  rewrite split_at_app; cycle 1.
  { rewrite elem_of_reverse. intros Hin. rewrite Forall_forall in Hall. by apply Hall in Hin. }
  rewrite reverse_involutive. unfold from_chars_size.
  pose proof (from_chars_digits false 0 ULLONG_MAX offset []) as E. rewrite app_nil_r in E.
  rewrite E; [done|lia|done|]. unfold in_range. lia.
Qed.

Definition rdb_header : bytes := b "$" ++ to_string (zlen rdb_payload) ++ CRLF.

Lemma drive_rdb s rest :
  phase s = RdbHeader →
  drive s (rdb_header ++ rdb_payload ++ rest) =
    let '(out, r) := drive (goto s Streaming) rest in (out, r).
Proof.
  intros Hp. rewrite drive_unfold. cbn [step session_reader]. unfold session_step. rewrite Hp.
  unfold receive_rdb. rewrite (next_line_app rdb_header _ (rdb_header, 5%nat)) by reflexivity.
  change (drop 5 (rdb_header ++ rdb_payload ++ rest)) with (rdb_payload ++ rest).
  set (s1 := goto _ _). assert (s1 = goto s (RdbBody 18)) as -> by reflexivity.
  rewrite drive_unfold. cbn [step session_reader]. unfold session_step. cbn [phase goto].
  unfold receive_rdb_body. rewrite zlen_app.
  destruct (Z.leb_spec 18 (zlen rdb_payload + zlen rest)) as [_|Hlt].
  - change (drop (Z.to_nat 18) (rdb_payload ++ rest)) with rest. unfold goto. simpl.
    by destruct (drive _ rest).
  - pose proof (zlen_nonneg rest). change (zlen rdb_payload) with 18 in Hlt. lia.
Qed.

Lemma no_CR_no_crlf s : CR ∉ s → find_crlf s = None.
Proof.
  induction s as [|c s IH]; intros Hin; [done|]. apply not_elem_of_cons in Hin as [Hc Hs].
  cbn [find_crlf]. rewrite (IH Hs), bool_decide_eq_false_2; [done|]. intros E. injection E as E _.
  by apply Hc.
Qed.

Lemma digits_no_CR z : 0 ≤ z → CR ∉ digits z.
Proof.
  intros Hz Hin. destruct (digits_spec z Hz) as (_ & Hall & _).
  rewrite Forall_forall in Hall. by apply Hall in Hin.
Qed.

Definition posted (out : list SessionOut) : list RespValue :=
  omap (λ o, match o with Posted command => Some command | _ => None end) out.

(** The master's side of the handshake, then a stream of commands. *)
Definition master_output (config : ServerConfig) (offset : Z) (commands : list RespValue) : bytes :=
  (b "+PONG" ++ CRLF) ++ ok_reply ++ ok_reply ++ fullresync_reply config offset ++
  concat (serialize <$> commands).

Lemma drive_handshake config offset port commands :
  CR ∉ master_replid config → 0 ≤ offset ≤ ULLONG_MAX →
  drive (mkSession AwaitPong 0 port) (master_output config offset commands) =
    let '(out, r) := drive (mkSession Streaming offset port) (concat (serialize <$> commands)) in
    ([Sent (port_message (mkSession AwaitPong 0 port)); Sent capa_message; Sent psync_message] ++ out, r).
Proof.
  intros Hid Ho. unfold master_output, fullresync_reply.
  change (b "+PONG" ++ CRLF) with (simple_line (b "PONG")). change ok_reply with (simple_line (b "OK")).
  do 3 (erewrite drive_reply by (done || (intros; reflexivity))).
  set (text := b "FULLRESYNC " ++ master_replid config ++ b " " ++ to_string offset).
  assert (∀ rest, (b "+FULLRESYNC " ++ master_replid config ++ b " " ++ to_string offset ++ CRLF ++
     b "$" ++ to_string (zlen rdb_payload) ++ CRLF ++ rdb_payload) ++ rest =
     simple_line text ++ rdb_header ++ rdb_payload ++ rest) as ->.
  { intros rest. unfold simple_line, text, rdb_header. change (b "+FULLRESYNC ") with ("+"%char :: b "FULLRESYNC ").
    cbn [app]. by rewrite <- !(assoc_L (++)). }
  erewrite (drive_reply _ text); [|apply no_CR_no_crlf|intros; reflexivity|].
  2:{ unfold text. rewrite to_string_nonneg by lia. rewrite !not_elem_of_app.
    split_and!; [by apply (bool_decide_unpack _)|done|by apply (bool_decide_unpack _)|].
    apply digits_no_CR. lia. }
  2:{ unfold psync_reply. cbn [type str]. rewrite bool_decide_eq_true_2 by done.
    unfold text. by rewrite fullresync_offset. }
  rewrite drive_rdb by done. unfold goto, with_offset. simpl.
  by destruct (drive _ _) as [out r].
Qed.

(** ** Properties *)

(** C16. Full synchronisation.  A replica that talks to a master of this
    implementation sends exactly PING, REPLCONF listening-port, REPLCONF capa and
    PSYNC, skips the RDB payload, takes over the offset announced by FULLRESYNC,
    and processes all commands behind it, however the master's bytes are cut into
    network reads: nothing is left in the buffer and the offset is the announced
    one plus the bytes of the commands. *)
Theorem session_full_sync (config : ServerConfig) (port offset : Z) (commands : list RespValue)
    (chunks : list bytes) (Hid : CR ∉ master_replid config) (Ho : 0 ≤ offset)
    (Hmax : offset + zlen (concat (serialize <$> commands)) ≤ ULLONG_MAX)
    (Hwf : forallb wf_resp commands = true)
    (Hchunks : concat chunks = master_output config offset commands) :
  let '(s0, out0) := start_session port in
  let '(out, r) := feed s0 [] chunks in
  out0 ++ out =
    [Sent ping_message; Sent (port_message s0); Sent capa_message; Sent psync_message] ++
    (replay offset commands).1 ∧
  r = Ok (mkSession Streaming (offset + zlen (concat (serialize <$> commands))) port, []).
Proof.
  unfold start_session. rewrite feed_concat. cbn [app]. rewrite Hchunks.
  pose proof (zlen_nonneg (concat (serialize <$> commands))).
  rewrite drive_handshake by (done || lia). rewrite drive_commands by done.
  cbn [replica_offset_]. destruct (replay_spec offset commands) as [Hoff _]; [lia..|].
  split; [done|]. unfold with_offset. cbn [phase listening_port_]. by rewrite Hoff.
Qed.

Definition example_set : RespValue := mkResp Array [] (bulk_value <$> [b "SET"; b "a"; b "1"]).

(** The master's bytes one at a time. *)
Definition example_config : ServerConfig := master_config (replicate 40 7%nat).
Definition example_chunks : list bytes :=
  (λ c, [c]) <$> master_output example_config 100 [example_set; getack_command].

Lemma session_full_sync_witness :
  let '(s0, out0) := start_session 6380 in
  let '(out, r) := feed s0 [] example_chunks in
  out0 ++ out =
    [Sent ping_message; Sent (port_message s0); Sent capa_message; Sent psync_message] ++
    (replay 100 [example_set; getack_command]).1 ∧
  r = Ok (mkSession Streaming (100 + zlen (concat (serialize <$> [example_set; getack_command]))) 6380, []).
Proof.
  exact (session_full_sync example_config 6380 100 [example_set; getack_command] example_chunks
    ltac:(apply (bool_decide_unpack _); vm_compute; exact I) ltac:(lia) ltac:(vm_compute; congruence)
    ltac:(reflexivity) ltac:(vm_compute; reflexivity)).
Defined.

(** C15. Replica and master agree.  Take a replica that is registered with the
    master and whose session streams from the master's current offset.  Whatever
    the registry then does (commands propagated, GETACKs requested, other
    replicas added or removed, acknowledgements), and however the bytes written
    to the replica's connection are cut into reads, the replica executes
    exactly the propagated commands in order, without the GETACKs, and its
    offset ends equal to the master's. *)
Theorem replica_mirrors_master (i : N) (c : ConnId) (r : ReplicaRegistry) (ops : list replica_op)
    (s : Session) (chunks : list bytes)
    (Hreg : sole_writer i c r) (Hops : Forall (op_keeps i c) ops)
    (Hwf : forallb wf_resp (concat (op_commands <$> ops)) = true)
    (Hs : phase s = Streaming) (Hsync : replica_offset_ s = master_offset r)
    (Ho : 0 ≤ master_offset r) (Hmax : master_offset (replica_run r ops).2 ≤ ULLONG_MAX)
    (Hchunks : concat chunks = sent_to c (replica_run r ops).1) :
  ∃ s' out, feed s [] chunks = (out, Ok (s', [])) ∧
    replica_offset_ s' = master_offset (replica_run r ops).2 ∧
    posted out = List.filter (λ command, negb (is_getack command)) (concat (op_commands <$> ops)).
Proof.
  pose proof (replica_run_stream i c r ops Hreg Hops) as H.
  destruct (replica_run r ops) as [posts r']. cbn [fst snd] in *. destruct H as (Hsent & Hoff & _).
  rewrite Hoff, Hsent in Hmax. rewrite Hoff, feed_concat, Hchunks, Hsent. cbn [app].
  rewrite drive_commands by done. rewrite Hsync.
  destruct (replay_spec (master_offset r) (concat (op_commands <$> ops))) as [Hfin Hpost]; [lia..|].
  eexists _, _. split; [reflexivity|]. split; [exact Hfin|exact Hpost].
Qed.

Lemma sole_writer_first (c : ConnId) : sole_writer 0 c (snd (add c empty_replicas)).
Proof.
  split_and!; [by eexists| |done]. intros j s Hj.
  change (<[0%N := mkReplica c 0]> (∅ : gmap N ReplicaState) !! j = Some s) in Hj.
  apply lookup_insert_Some in Hj as [[<- _]|[_ Hj]]; [done|by rewrite lookup_empty in Hj].
Qed.

Lemma replica_mirrors_master_witness :
  ∃ s' out, feed (mkSession Streaming 0 6380) []
      [serialize example_set ++ take 5 (serialize getack_command); drop 5 (serialize getack_command)] =
    (out, Ok (s', [])) ∧ replica_offset_ s' = 64 ∧ posted out = [example_set].
Proof.
  destruct (replica_mirrors_master 0 7 (snd (add 7 empty_replicas))
    [OpPropagate example_set; OpAdd 8; OpGetack] (mkSession Streaming 0 6380)
    [serialize example_set ++ take 5 (serialize getack_command); drop 5 (serialize getack_command)]
    (sole_writer_first 7) ltac:(by repeat constructor) ltac:(reflexivity) ltac:(reflexivity)
    ltac:(reflexivity) ltac:(vm_compute; congruence) ltac:(vm_compute; congruence)
    ltac:(vm_compute; reflexivity)) as (s' & out & Hf & Ho & Hp).
  exists s', out. split_and!; [exact Hf|rewrite Ho; vm_compute; reflexivity|rewrite Hp; vm_compute; reflexivity].
Defined.

(** ** The acknowledgement heartbeat

    [ack_timer_] of a streaming session: whether a wait is pending, how many
    expired waits have their handler queued, and how many ACK messages are being
    written.  [expires_after] aborts a pending wait (its handler then returns at
    once) but cannot take back a queued handler. *)

Record AckTimer := mkAck {
  ack_armed : bool;
  ack_queued : nat;
  ack_writing : nat;
}.

Definition schedule_ack (a : AckTimer) : AckTimer := mkAck true (ack_queued a) (ack_writing a).

(** [send_ack()]: a write is started. *)
Definition start_ack_write (a : AckTimer) : AckTimer :=
  mkAck (ack_armed a) (ack_queued a) (S (ack_writing a)).

(** A request or the timer has [send_ack()] called; a write of an
    acknowledgement fails; all other steps are silent. *)
Inductive AckLabel := AckRequested | AckPeriodic | AckFailed | AckSilent.

#[export] Instance AckLabel_eq_dec : EqDecision AckLabel.
Proof. solve_decision. Defined.

Inductive ack_step : AckLabel → AckTimer → AckTimer → Prop :=
  (** GETACK arrives, in [try_process_one_buffered_command] *)
  | ack_requested a : ack_step AckRequested a (start_ack_write a)
  (** the second is over *)
  | ack_expires queued writing :
      ack_step AckSilent (mkAck true queued writing) (mkAck false (S queued) writing)
  (** the handler of [schedule_ack] runs *)
  | ack_fires armed queued writing :
      ack_step AckPeriodic (mkAck armed (S queued) writing) (start_ack_write (mkAck armed queued writing))
  (** [on_sent] of [send_ack] *)
  | ack_sent armed queued writing :
      ack_step AckSilent (mkAck armed queued (S writing)) (schedule_ack (mkAck armed queued writing))
  (** [send_array] returns on a write error without calling [on_sent] *)
  | ack_failed armed queued writing :
      ack_step AckFailed (mkAck armed queued (S writing)) (mkAck armed queued writing).

(** [start_command_loop]: the buffered commands first, with [getacks] requests
    among them, then the timer. *)
Definition start_command_loop (getacks : nat) : AckTimer := schedule_ack (mkAck false 0 getacks).

(** Whatever happens, with the number of writes that have failed. *)
Inductive ack_reachable (getacks : nat) : nat → AckTimer → Prop :=
  | ack_start : ack_reachable getacks 0 (start_command_loop getacks)
  | ack_next failures label a a' :
      ack_reachable getacks failures a → ack_step label a a' →
      ack_reachable getacks (if decide (label = AckFailed) then S failures else failures) a'.

(** Something will happen: the timer runs, or a handler or a write is under
    way. *)
Definition ack_alive (a : AckTimer) : Prop :=
  ack_armed a = true ∨ (0 < ack_queued a)%nat ∨ (0 < ack_writing a)%nat.

Lemma ack_step_alive label a a' : label ≠ AckFailed → ack_step label a a' → ack_alive a → ack_alive a'.
Proof. unfold ack_alive. intros Hl Hs Ha. destruct Hs; simpl in *; (done || auto with lia). Qed.

(** A session that is not alive got there by a failed write. *)
Lemma ack_reachable_alive getacks failures a :
  ack_reachable getacks failures a → ack_alive a ∨ (0 < failures)%nat.
Proof.
  induction 1 as [|failures label a a' _ IH Hs]; [by left; left|]. case_decide as Hl; [right; lia|].
  destruct IH as [IH|IH]; [left; by eapply ack_step_alive|by right].
Qed.

Lemma ack_alive_sends a :
  ack_alive a →
  ∃ n a' a'' queued, nsteps (ack_step AckSilent) n a a' ∧ (n ≤ 2)%nat ∧
    ack_queued a' = S queued ∧ ack_step AckPeriodic a' a'' ∧ ack_queued a'' = queued.
Proof.
  intros Hal. destruct a as [armed [|queued] writing].
  - destruct armed.
    + exists 1%nat. do 3 eexists. split_and!; [eapply nsteps_once; constructor|lia|done|constructor|done].
    + destruct writing as [|writing]; [destruct Hal as [|[|]]; simpl in *; (done || lia)|].
      exists 2%nat. do 3 eexists.
      split_and!; [eapply nsteps_l; [constructor|]; eapply nsteps_once; constructor|lia|done|constructor|done].
  - exists 0%nat. do 3 eexists. split_and!; [constructor|lia|done|constructor|done].
Qed.

(** C38. The heartbeat of a replica stops only after a failed write.  Whatever
    GETACK requests, timer expirations, completed and failed writes have
    happened, in whatever order, and although restarting the timer aborts the
    wait that was pending: either the session has a wait, a handler or a write
    under way, and without any further request from the master and without
    another failure it sends the next acknowledgement after at most two silent
    steps; or a write of an acknowledgement has failed, the timer is not armed,
    and nothing but a GETACK of the master ever starts another one.  As long as
    no write has failed the first is the case. *)
Theorem ack_heartbeat (getacks failures : nat) (a : AckTimer) (Ha : ack_reachable getacks failures a) :
  (ack_alive a ∧
   ∃ n a' a'' queued, nsteps (ack_step AckSilent) n a a' ∧ (n ≤ 2)%nat ∧
     ack_queued a' = S queued ∧ ack_step AckPeriodic a' a'' ∧ ack_queued a'' = queued) ∨
  ((0 < failures)%nat ∧ a = mkAck false 0 0 ∧
   ∀ label a', ack_step label a a' → label = AckRequested ∧ a' = start_ack_write a).
Proof.
  assert (ack_alive a ∨ a = mkAck false 0 0) as [Hal| ->].
  { destruct a as [[] [|queued] [|writing]]; unfold ack_alive; simpl; auto with lia. }
  - left. split; [done|by apply ack_alive_sends].
  - right. split_and!; [|done|by inversion 1].
    destruct (ack_reachable_alive _ _ _ Ha) as [[|[|]]|]; simpl in *; (done || lia).
Qed.

Lemma ack_heartbeat_witness :
  (∃ n a' a'' queued, nsteps (ack_step AckSilent) n (start_ack_write (mkAck false 0 0)) a' ∧ (n ≤ 2)%nat ∧
     ack_queued a' = S queued ∧ ack_step AckPeriodic a' a'' ∧ ack_queued a'' = queued) ∧
  ∀ label a', ack_step label (mkAck false 0 0) a' → label = AckRequested.
Proof.
  assert (ack_reachable 0 0 (start_ack_write (mkAck false 0 0))) as Hwriting.
  { apply (ack_next 0 0 AckPeriodic (mkAck false 1 0)); [|apply (ack_fires false 0 0)].
    apply (ack_next 0 0 AckSilent (mkAck true 0 0)); [apply ack_start|apply ack_expires]. }
  pose proof (ack_next 0 0 AckFailed _ _ Hwriting (ack_failed false 0 0)) as Hfailed.
  split.
  - destruct (ack_heartbeat 0 0 _ Hwriting) as [[_ Hsent]|[Hlt _]]; [exact Hsent|inversion Hlt].
  - intros label a' Hs.
    destruct (ack_heartbeat 0 1 _ Hfailed) as [[[H|[H|H]] _]|(_ & _ & H)];
      [discriminate H|inversion H..|exact (proj1 (H label a' Hs))].
Defined.

(** Two requests in one read start two writes on the socket at once, which
    Asio forbids. *)
Lemma ack_writes_overlap : ∃ a, ack_reachable 0 0 a ∧ ack_writing a = 2%nat.
Proof.
  exists (mkAck true 0 2). split; [|done].
  apply (ack_next 0 0 AckRequested (mkAck true 0 1)); [|apply (ack_requested (mkAck true 0 1))].
  apply (ack_next 0 0 AckRequested (mkAck true 0 0)); [apply ack_start|apply (ack_requested (mkAck true 0 0))].
Qed.

(** A failed write of an acknowledgement ends the heartbeat: [on_sent] does not
    rearm the timer, and only a GETACK starts another write. *)
Lemma ack_failure_ends_heartbeat label a' :
  ack_step AckFailed (mkAck false 0 1) (mkAck false 0 0) ∧
  (ack_step label (mkAck false 0 0) a' → label = AckRequested).
Proof. split; [constructor|]. by inversion 1. Qed.
