(* ===== verification/Acknowledgements.v ===== *)
(** * What an acknowledgement means

    Composes the master's registry, the replica's session, the connection that
    reads the acknowledgement and the count of WAIT: src/replication/
    ReplicaRegistry.cpp, ReplicationSession.cpp, net/Connection.cpp and
    command/impl/ReplicationCommands.cpp.  A replica that WAIT counts has received
    all that was propagated before. *)

From S2P Require Import Prelude CharConv Resp StreamId StoreValue StringStore ListStore StreamStore Store Blocking WatchManager TransactionManager ReplicaRegistry Command ServerConfig World BasicCommands ListCommands StreamCommands TransactionCommands CommandRegistry Dispatch Connection Reader ReplicationSession.

(** The bytes of a stream of commands. *)
Definition encoded (commands : list RespValue) : bytes := concat (serialize <$> commands).

Lemma encoded_app l k : encoded (l ++ k) = encoded l ++ encoded k.
Proof. unfold encoded. by rewrite fmap_app, concat_app. Qed.

(** ** A session that has received a part of the stream *)

(** It processes the complete commands and keeps the begun one. *)
Lemma drive_prefix commands p q s :
  phase s = Streaming → forallb wf_resp commands = true → encoded commands = p ++ q →
  ∃ done todo rest, commands = done ++ todo ∧ p = encoded done ++ rest ∧
    (rest = [] ∨ ∃ v todo' k, todo = v :: todo' ∧ serialize v = rest ++ k ∧ k ≠ []) ∧
    drive s p = ((replay (replica_offset_ s) done).1, Ok (with_offset s (replay (replica_offset_ s) done).2, rest)).
Proof.
  revert p s. induction commands as [|v commands IH]; intros p s Hp Hwf Hpq.
  { symmetry in Hpq. apply app_eq_nil in Hpq as [-> ->]. exists [], [], []. split_and!; try done; [by left|].
    exact (drive_commands [] s Hp eq_refl). }
  cbn [forallb] in Hwf. apply andb_prop in Hwf as [Hv Hwf]. unfold encoded in Hpq. rewrite fmap_cons in Hpq. cbn [concat] in Hpq.
  assert ((∃ k, serialize v = p ++ k ∧ k ≠ []) ∨ ∃ p', p = serialize v ++ p' ∧ encoded commands = p' ++ q) as [(k & Hk & Hne)|(p' & -> & Hp')].
  { apply app_eq_inv in Hpq as [(k & Hk & Hq)|(k & Hk & Hq)]; [|by right; exists k].
    destruct k as [|x k]; [right; exists []; rewrite app_nil_r in *; by split_and!|left; by exists (x :: k)]. }
  - exists [], (v :: commands), p. split_and!; try done; [right; by exists v, commands, k|].
    rewrite drive_unfold. cbn [step session_reader]. unfold session_step, try_process_one_buffered_command. rewrite Hp.
    rewrite (parse_strict_prefix v p k) by done. case_bool_decide; by destruct s.
  - destruct (IH p' (with_offset s (to_u64 (replica_offset_ s + zlen (serialize v))))) as (dn & todo & rest & -> & -> & Hrest & Hdrive);
      [done..|]. exists (v :: dn), todo, rest. split_and!; try done.
    { unfold encoded. rewrite fmap_cons. cbn [concat]. by rewrite (assoc_L (++)). }
    rewrite drive_unfold. cbn [step session_reader]. unfold session_step, try_process_one_buffered_command. rewrite Hp.
    rewrite bool_decide_eq_false_2
      by (pose proof (serialize_nonempty v Hv); destruct (serialize v); simpl; [done|lia]).
    rewrite parse_serialize_app by done. cbn [obind replay]. fold (zlen (serialize v)). set (off := to_u64 _) in *.
    cbn [with_offset replica_offset_] in Hdrive. destruct (is_getack v); rewrite drop_app_length, Hdrive;
      cbn [with_offset replica_offset_ phase listening_port_ send_ack]; by destruct (replay off dn).
Qed.

(** *** Counting bytes *)

Lemma encoded_pos v commands : wf_resp v = true → 0 < zlen (encoded (v :: commands)).
Proof.
  intros Hv. unfold encoded. rewrite fmap_cons. cbn [concat]. rewrite zlen_app. pose proof (serialize_nonempty v Hv) as Hne.
  pose proof (zlen_nonneg (concat (serialize <$> commands))). unfold zlen in *. destruct (serialize v); [done|]. cbn [length]. lia.
Qed.

(** Of two splits of a stream, the one with more bytes has more commands. *)
Lemma encoded_order first second dn todo :
  forallb wf_resp (first ++ second) = true → first ++ second = dn ++ todo →
  zlen (encoded first) ≤ zlen (encoded dn) ↔ first `prefix_of` dn.
Proof.
  intros Hwf E. split.
  - intros Hle. apply app_eq_inv in E as [(k & -> & ->)|(k & -> & ->)]; [|by exists k].
    destruct k as [|v k]; [by rewrite app_nil_r|]. exfalso. rewrite !forallb_app in Hwf. cbn [forallb] in Hwf.
    apply andb_prop in Hwf as [[_ [Hv _]%andb_prop]%andb_prop _].
    rewrite encoded_app, zlen_app in Hle. pose proof (encoded_pos v k Hv). lia.
  - intros [k ->]. rewrite encoded_app, zlen_app. pose proof (zlen_nonneg (encoded k)). lia.
Qed.

(** The bytes before a begun command contain a command exactly if it is done. *)
Lemma received_order first second dn todo rest :
  forallb wf_resp (first ++ second) = true → first ++ second = dn ++ todo →
  (rest = [] ∨ ∃ v todo' k, todo = v :: todo' ∧ serialize v = rest ++ k ∧ k ≠ []) →
  first `prefix_of` dn ↔ encoded first `prefix_of` encoded dn ++ rest.
Proof.
  intros Hwf E Hrest. split.
  - intros [k ->]. rewrite encoded_app, <- (assoc_L (++)). by apply prefix_app_r.
  - intros [tail Htail]. rewrite <- encoded_order by done. apply app_eq_inv in E as [(k & -> & ->)|(k & -> & ->)].
    + destruct k as [|v k]; [by rewrite app_nil_r|]. exfalso.
      apply (f_equal zlen) in Htail. rewrite encoded_app, !zlen_app in Htail. pose proof (zlen_nonneg tail).
      rewrite !forallb_app in Hwf. cbn [forallb] in Hwf. apply andb_prop in Hwf as [[_ [Hv _]%andb_prop]%andb_prop _].
      destruct Hrest as [->|(v' & todo' & k' & [= <- _] & Hs & Hne)].
      * pose proof (encoded_pos v k Hv). change (zlen []) with 0 in Htail. lia.
      * unfold encoded in Htail. rewrite fmap_cons in Htail. cbn [concat] in Htail. rewrite Hs, !zlen_app in Htail.
        pose proof (zlen_nonneg (concat (serialize <$> k))). unfold zlen in *. destruct k'; [done|]. cbn [length] in *. lia.
    + rewrite encoded_app, zlen_app. pose proof (zlen_nonneg (encoded k)). lia.
Qed.

(** ** The master reads an acknowledgement *)

Lemma digits_aux_length fuel z acc : (length (digits_aux fuel z acc) ≤ fuel + length acc)%nat.
Proof.
  revert z acc. induction fuel as [|fuel IH]; intros z acc; [done|]. cbn [digits_aux].
  destruct (z <? 10); [simpl; lia|]. etrans; [apply IH|]. simpl. lia.
Qed.

(** A printed 64-bit number is short. *)
Lemma to_string_short z : 0 ≤ z ≤ LLONG_MAX → zlen (to_string z) ≤ INT_MAX.
Proof.
  intros Hz. rewrite to_string_nonneg by lia. unfold digits, zlen.
  pose proof (digits_aux_length (S (Z.to_nat (Z.log2 z))) z []) as H. cbn [length] in H.
  assert (Z.log2 z < 63) by (destruct (decide (z = 0)) as [->|]; [done|]; apply Z.log2_lt_pow2; unfold LLONG_MAX in *; lia).
  unfold INT_MAX. lia.
Qed.

Lemma read_ack conn offset w :
  mode_ conn = ModeReplication → 0 ≤ offset ≤ LLONG_MAX →
  connection_read conn (ack_message offset) w =
    (with_replicas (record_ack (replica_id_ conn) offset (w_replicas w)) w, Ok (conn, ReadOn)).
Proof.
  intros Hm Ho. unfold connection_read, ack_message, encode_array. rewrite parse_serialize.
  2:{ cbn [wf_resp type str elements is_nil fmap list_fmap forallb bulk_value]. rewrite !andb_true_r.
      pose proof (to_string_short offset Ho). apply andb_true_iff. split; [done|]. by apply Z.leb_le. }
  set (request := mkResp Array [] _). erewrite bind_Ok by reflexivity. unfold connection_command.
  cbn [request type elements fmap list_fmap]. rewrite bool_decide_eq_true_2 by done. cbn [negb orb].
  rewrite bool_decide_eq_false_2 by done.
  rewrite (bind_Ok _ _ _ w (mkCommand Replconf (b "REPLCONF") [b "ACK"; to_string offset])) by done. cbn [cmd_type].
  rewrite (bind_Ok _ _ _ w (conn, None)) by (unfold handshake_step; by rewrite Hm). cbv beta iota.
  unfold is_ack. rewrite Hm. cbn [args cmd_type]. rewrite !bool_decide_eq_true_2 by done. cbn [andb].
  unfold handle_ack, from_chars_llong. cbn [args].
  assert (from_chars true LLONG_MIN LLONG_MAX (to_string offset) = FcOk offset []) as ->; [|done].
  rewrite <- (app_nil_r (to_string offset)). apply from_chars_to_string; [done|].
  unfold in_range. limits. apply andb_true_iff. split; apply Z.leb_le; lia.
Qed.

(** What the registry counts after the acknowledgement. *)
Lemma count_after_ack i offset target r state :
  replicas_ r !! i = Some state →
  count_acked_at_least target (record_ack i offset r) =
    count_acked_at_least target (remove i r) + (if target <=? offset then 1 else 0).
Proof.
  intros Hi. unfold record_ack. rewrite Hi. unfold count_acked_at_least. cbn [replicas_ remove].
  rewrite <- (insert_delete_eq (replicas_ r)).
  exact (count_map_insert (λ '(_, state), target <=? acked_offset_ state) (delete i (replicas_ r)) i
    (mkReplica (write_fn state) offset) (lookup_delete_eq _ _)).
Qed.

(** ** Property *)

(** C19. What WAIT counts.  A replica is registered on connection [c] and streams
    from the master's offset.  The master propagates the commands of [ops1], then
    a WAIT starts, and the master goes on with [ops2].  The replica has received
    any part of the bytes written to it, cut into any reads, and acknowledges
    its offset; the master reads the acknowledgement.  Then WAIT counts this
    replica exactly if the replica has received every byte that was propagated before
    the WAIT, and in that case its session has handed all commands of [ops1] to its
    store thread, in order and before all others. *)
Theorem wait_counts_received (i : N) (c : ConnId) (r : ReplicaRegistry) (ops1 ops2 : list replica_op)
    (s : Session) (chunks : list bytes) (conn : Connection) (w : World) (state : ReplicaState)
    (Hreg : sole_writer i c r) (Hops : Forall (op_keeps i c) (ops1 ++ ops2))
    (Hwf : forallb wf_resp (concat (op_commands <$> ops1 ++ ops2)) = true)
    (Hs : phase s = Streaming) (Hsync : replica_offset_ s = master_offset r) (Ho : 0 ≤ master_offset r)
    (Hmax : master_offset (replica_run r (ops1 ++ ops2)).2 ≤ LLONG_MAX)
    (Hreceived : concat chunks `prefix_of` sent_to c (replica_run r (ops1 ++ ops2)).1)
    (Hmode : mode_ conn = ModeReplication) (Hid : replica_id_ conn = i)
    (Hknown : replicas_ (w_replicas w) !! i = Some state) :
  let target := master_offset (replica_run r ops1).2 in
  let before := sent_to c (replica_run r ops1).1 in
  ∃ s' out rest w', feed s [] chunks = (out, Ok (s', rest)) ∧
    connection_read conn (ack_message (replica_offset_ s')) w = (w', Ok (conn, ReadOn)) ∧
    count_acked_at_least target (w_replicas w') =
      count_acked_at_least target (remove i (w_replicas w)) +
      (if bool_decide (before `prefix_of` concat chunks) then 1 else 0) ∧
    (before `prefix_of` concat chunks →
      List.filter (λ command, negb (is_getack command)) (concat (op_commands <$> ops1)) `prefix_of` posted out).
Proof.
  pose proof (replica_run_stream i c r _ Hreg Hops) as H. apply Forall_app in Hops as [Hops1 _].
  pose proof (replica_run_stream i c r _ Hreg Hops1) as H1.
  destruct (replica_run r (ops1 ++ ops2)) as [posts r2], (replica_run r ops1) as [posts1 r1]. cbn [fst snd] in *.
  destruct H as (Hsent & Hoff & _), H1 as (Hsent1 & Hoff1 & _). rewrite Hsent, Hoff, Hsent1, Hoff1 in *.
  rewrite fmap_app, concat_app in *. set (first := concat (op_commands <$> ops1)) in *. set (second := concat (op_commands <$> ops2)) in *.
  fold (encoded (first ++ second)) in Hreceived, Hmax. fold (encoded first). destruct Hreceived as [q Hq].
  destruct (drive_prefix _ _ _ s Hs Hwf Hq) as (dn & todo & rest & E & Hp & Hrest & Hdrive).
  assert (zlen (encoded dn) ≤ zlen (encoded (first ++ second))) as Hle
    by (rewrite E, encoded_app, zlen_app; pose proof (zlen_nonneg (encoded todo)); lia).
  pose proof (zlen_nonneg (encoded dn)) as Hnonneg.
  destruct (replay_spec (replica_offset_ s) dn) as [Hfin Hpost]; [lia|fold (encoded dn); limits; lia|]. fold (encoded dn) in Hfin.
  rewrite feed_concat. cbn [app]. rewrite Hdrive, Hfin. eexists _, _, _, _. split; [reflexivity|]. cbn [with_offset replica_offset_].
  rewrite read_ack by (done || lia). split; [reflexivity|]. cbn [with_replicas w_replicas].
  rewrite Hid, (count_after_ack i _ _ _ state Hknown).
  pose proof (encoded_order first second dn todo Hwf E) as Ho1. pose proof (received_order first second dn todo rest Hwf E Hrest) as Ho2.
  rewrite Hp. split.
  - f_equal. destruct (Z.leb_spec (master_offset r + zlen (encoded first)) (replica_offset_ s + zlen (encoded dn)));
      case_bool_decide as Hb; try done; exfalso; [apply Hb, Ho2, Ho1; lia|apply Ho2, Ho1 in Hb; lia].
  - intros Hb%Ho2. destruct Hb as [k ->]. unfold posted. rewrite Hpost, List.filter_app. by apply prefix_app_r.
Qed.

(** One replica on connection 7; it has received the commands propagated before
    WAIT and five bytes of the next. *)
Definition replica_conn : Connection := mkConn 7 ModeReplication HReplconf2 2 true 0.
Definition one_replica : ReplicaRegistry := snd (add 7 empty_replicas).
Definition with_one_replica : World := with_replicas one_replica (initial_world example_config 0 1000).
Definition received_chunks : list bytes :=
  [serialize example_set ++ take 9 (serialize getack_command);
   drop 9 (serialize getack_command) ++ take 5 (serialize example_set)].

Lemma wait_counts_received_witness :
  ∃ s' out rest w', feed (mkSession Streaming 0 6380) [] received_chunks = (out, Ok (s', rest)) ∧
    connection_read replica_conn (ack_message (replica_offset_ s')) with_one_replica = (w', Ok (replica_conn, ReadOn)) ∧
    count_acked_at_least 64 (w_replicas w') = 1 ∧ [example_set] `prefix_of` posted out.
Proof.
  destruct (wait_counts_received 0 7 one_replica [OpPropagate example_set; OpGetack] [OpPropagate example_set]
    (mkSession Streaming 0 6380) received_chunks replica_conn with_one_replica (mkReplica 7 0)
    (sole_writer_first 7) ltac:(by repeat constructor) ltac:(reflexivity) eq_refl eq_refl ltac:(done)
    ltac:(vm_compute; congruence) ltac:(exists (drop 5 (serialize example_set)); vm_compute; reflexivity)
    eq_refl eq_refl ltac:(reflexivity)) as (s' & out & rest & w' & E1 & E2 & E3 & E4).
  assert (sent_to 7 (replica_run one_replica [OpPropagate example_set; OpGetack]).1 `prefix_of` concat received_chunks) as Hp
    by (exists (take 5 (serialize example_set)); vm_compute; reflexivity).
  exists s', out, rest, w'. split; [exact E1|]. split; [exact E2|].
  rewrite bool_decide_eq_true_2 in E3 by exact Hp. split; [|exact (E4 Hp)]. exact E3.
Defined.
