(* ===== verification/ReplicaLink.v ===== *)
(** * The replication session on its socket

    Models the asynchronous operations of src/replication/ReplicationSession.cpp
    and their failures: a session has a write of the handshake or a read of its
    main chain pending, or neither; beside it runs the acknowledgement timer.
    [send_array] calls [on_sent] only for a write that succeeded, and every read
    handler returns on an error, so a failure ends the chain it belongs to.

    The bytes that have arrived and are not consumed are [link_buf]; how they
    are spread over the socket and [buf_] makes no difference, since every read
    takes what it needs from the front. *)

From S2P Require Import Prelude CharConv Resp WatchManager ReplicaRegistry Command ServerConfig World BasicCommands TransactionCommands Reader ReplicationSession.

(** The pending operation of the main chain. *)
Inductive Pending := PendingWrite | PendingRead | NothingPending.

#[export] Instance Pending_eq_dec : EqDecision Pending.
Proof. solve_decision. Defined.

Record Link := mkLink {
  link_session : Session;
  link_buf : bytes;
  link_pending : Pending;
  link_ack : AckTimer;
  (** messages written and commands posted, oldest first *)
  link_out : list SessionOut;
}.

(** The session before its timer is armed. *)
Definition no_ack : AckTimer := mkAck false 0 0.

Definition start_link (listening_port : Z) : Link :=
  let '(s, out) := start_session listening_port in mkLink s [] PendingWrite no_ack out.

(** What the handler of a read leaves pending: the write of the next handshake
    message, another read, or nothing. *)
Definition next_pending (s : Session) : Pending :=
  match phase s with
  | AwaitPong | AwaitPort | AwaitCapa | AwaitPsync => PendingWrite
  | RdbHeader | RdbBody _ | Streaming => PendingRead
  | Stopped => NothingPending
  end.

Definition count_sent (out : list SessionOut) : nat :=
  length (List.filter (λ o, match o with Sent _ => true | Posted _ => false end) out).

(** [send_ack()] for each of the GETACKs in a read. *)
Definition add_ack_writes (n : nat) (a : AckTimer) : AckTimer :=
  mkAck (ack_armed a) (ack_queued a) (ack_writing a + n).

(** [receive_commands()]: every complete command in the buffer; an exception of
    the parser ends the process. *)
Definition receive_commands (s : Session) (buf : bytes) : outcome (Session * bytes * list SessionOut) :=
  let '(out, r) := drive s buf in
  let! rest := r in
  Ok (rest, out).

(** The completion handler of a read that succeeded: a step of the
    handshake or the transfer, which may start the command loop, or the
    commands of the stream (where a read without new bytes changes nothing).
    [None]: the bytes do not suffice, the read is not complete. *)
Definition read_completes (l : Link) : outcome (option Link) :=
  let s := link_session l in
  if bool_decide (phase s = Streaming) then
    let! (s', buf', out) := receive_commands s (link_buf l) in
    Ok (Some (mkLink s' buf' PendingRead (add_ack_writes (count_sent out) (link_ack l)) (link_out l ++ out)))
  else
    let! r := session_step s (link_buf l) in
    match r with
    | None => Ok None
    | Some (s', n, out) =>
        if bool_decide (phase s' = Streaming) then
          let! (s'', buf', out') := receive_commands s' (drop n (link_buf l)) in
          Ok (Some (mkLink s'' buf' PendingRead (start_command_loop (count_sent out'))
            (link_out l ++ out ++ out')))
        else
          Ok (Some (mkLink s' (drop n (link_buf l)) (next_pending s') (link_ack l) (link_out l ++ out)))
    end.

Definition with_pending (p : Pending) (l : Link) : Link :=
  mkLink (link_session l) (link_buf l) p (link_ack l) (link_out l).
Definition with_buf (buf : bytes) (l : Link) : Link :=
  mkLink (link_session l) buf (link_pending l) (link_ack l) (link_out l).

(** A step of the timer; the periodic one writes the current offset. *)
Definition after_ack (label : AckLabel) (a : AckTimer) (l : Link) : Link :=
  mkLink (link_session l) (link_buf l) (link_pending l) a
    (link_out l ++ match label with AckPeriodic => send_ack (link_session l) | _ => [] end).

(** The events of a session, labelled with the bytes that arrive.  The
    requested acknowledgements are part of [read_completes]. *)
Inductive link_step : bytes → Link → Link → Prop :=
  | link_arrives bs l : link_step bs l (with_buf (link_buf l ++ bs) l)
  | link_write_done l :
      link_pending l = PendingWrite → link_step [] l (with_pending PendingRead l)
  | link_write_fails l :
      link_pending l = PendingWrite → link_step [] l (with_pending NothingPending l)
  | link_read_done l l' :
      link_pending l = PendingRead → read_completes l = Ok (Some l') → link_step [] l l'
  | link_read_fails l :
      link_pending l = PendingRead → link_step [] l (with_pending NothingPending l)
  | link_ack_step label a' l :
      label ≠ AckRequested → ack_step label (link_ack l) a' → link_step [] l (after_ack label a' l).

(** A run and all bytes that arrived in it. *)
Inductive link_run (l : Link) : bytes → Link → Prop :=
  | link_run_start : link_run l [] l
  | link_run_next received bs l1 l2 :
      link_run l received l1 → link_step bs l1 l2 → link_run l (received ++ bs) l2.

(** ** Commands posted along a run *)

Lemma posted_app out1 out2 : posted (out1 ++ out2) = posted out1 ++ posted out2.
Proof. apply omap_app. Qed.

Lemma posted_ack label s : posted (match label with AckPeriodic => send_ack s | _ => [] end) = [].
Proof. by destruct label. Qed.

(** The commands that a reader of the whole stream posts. *)
Definition stream_commands (s : Session) (stream : bytes) : list RespValue := posted (drive s stream).1.

Lemma stream_commands_app s stream more :
  stream_commands s stream `prefix_of` stream_commands s (stream ++ more).
Proof.
  unfold stream_commands. rewrite drive_app. destruct (drive s stream) as [out [[s' buf']| | |]]; try done.
  destruct (drive s' (buf' ++ more)) as [out' r]. cbn [fst]. rewrite posted_app. by apply prefix_app_r.
Qed.

(** The stream seen from a later point of the session. *)
Definition continues (s0 : Session) (stream : bytes) (out : list RespValue) (s : Session) (buf : bytes) : Prop :=
  ∀ more, stream_commands s0 (stream ++ more) = out ++ stream_commands s (buf ++ more) ∧
    (drive s0 (stream ++ more)).2 = (drive s (buf ++ more)).2.

Lemma continues_step s0 stream out s buf s' n o :
  continues s0 stream out s buf → session_step s buf = Ok (Some (s', n, o)) →
  continues s0 stream (out ++ posted o) s' (drop n buf).
Proof.
  intros Hc E more. destruct (Hc more) as [-> ->]. unfold stream_commands.
  rewrite (drive_unfold s). cbn [step session_reader]. rewrite session_step_stable, E by (by rewrite E).
  apply session_step_spec in E as [Hn _]. rewrite drop_app_le by done.
  destruct (drive s' _) as [o' r]. cbn [fst snd]. by rewrite posted_app, (assoc_L (++)).
Qed.

Lemma continues_drain s0 stream out s buf s' buf' o :
  continues s0 stream out s buf → receive_commands s buf = Ok (s', buf', o) →
  continues s0 stream (out ++ posted o) s' buf'.
Proof.
  unfold receive_commands. intros Hc E more. destruct (Hc more) as [-> ->]. unfold stream_commands.
  rewrite drive_app. destruct (drive s buf) as [o1 [[s1 b1]| | |]]; try done. injection E as -> -> ->.
  destruct (drive s' _) as [o' r]. cbn [fst snd]. by rewrite posted_app, (assoc_L (++)).
Qed.

(** As long as something is pending the session is where the reader of the
    stream is; afterwards it has posted a part of what the reader posts. *)
Definition link_ok (s0 : Session) (received : bytes) (l : Link) : Prop :=
  (link_pending l ≠ NothingPending →
    continues s0 received (posted (link_out l)) (link_session l) (link_buf l)) ∧
  posted (link_out l) `prefix_of` stream_commands s0 received.

Lemma continues_prefix s0 stream out s buf :
  continues s0 stream out s buf → out `prefix_of` stream_commands s0 stream.
Proof. intros Hc. destruct (Hc []) as [E _]. rewrite !app_nil_r in E. rewrite E. by apply prefix_app_r. Qed.

Lemma link_ok_continues s0 received l :
  continues s0 received (posted (link_out l)) (link_session l) (link_buf l) → link_ok s0 received l.
Proof. split; [done|]. by eapply continues_prefix. Qed.

Lemma read_completes_ok s0 received l l' :
  link_ok s0 received l → link_pending l = PendingRead → read_completes l = Ok (Some l') →
  link_ok s0 received l'.
Proof.
  intros [Hc _] Hp E. rewrite Hp in Hc. specialize (Hc ltac:(done)). apply link_ok_continues.
  unfold read_completes in E. case_bool_decide.
  - destruct (receive_commands _ _) as [[[s' buf'] o]| | |] eqn:Er; try done. injection E as <-.
    cbn [link_out link_session link_buf]. rewrite posted_app. by eapply continues_drain.
  - destruct (session_step _ _) as [[[[s' n] o]|]| | |] eqn:Es; try done. cbn [obind] in E.
    pose proof (continues_step _ _ _ _ _ _ _ _ Hc Es) as Hc'. case_bool_decide.
    + destruct (receive_commands _ _) as [[[s'' buf'] o']| | |] eqn:Er; try done. injection E as <-.
      cbn [link_out link_session link_buf]. rewrite !posted_app, (assoc_L (++)). by eapply continues_drain.
    + injection E as <-. cbn [link_out link_session link_buf]. by rewrite posted_app.
Qed.

Lemma link_step_ok s0 received bs l l' :
  link_step bs l l' → link_ok s0 received l → link_ok s0 (received ++ bs) l'.
Proof.
  intros Hs. destruct Hs as [bs l|l Hp|l Hp|l l' Hp E|l Hp|label a' l Hl Ha]; intros Hok;
    rewrite ?app_nil_r; try (by eapply read_completes_ok); destruct Hok as [Hc Hpre].
  - split; cbn [link_pending link_out link_session link_buf with_buf].
    + intros Hne more. rewrite <- !(assoc_L (++)). by apply Hc.
    + etrans; [exact Hpre|apply stream_commands_app].
  - split; [|done]. intros _. apply Hc. by rewrite Hp.
  - by split.
  - by split.
  - unfold link_ok, after_ack. cbn [link_pending link_out link_session link_buf].
    by rewrite posted_app, posted_ack, app_nil_r.
Qed.

Lemma link_run_ok s0 received l0 l :
  link_run l0 received l → link_ok s0 [] l0 → link_ok s0 received l.
Proof. induction 1 as [|received bs l1 l2 _ IH Hs]; intros H0; [done|]. eapply link_step_ok; eauto. Qed.

Lemma start_link_ok port : link_ok (mkSession AwaitPong 0 port) [] (start_link port).
Proof. apply link_ok_continues. by intros more. Qed.

(** A session with nothing pending only has its timer left. *)
Lemma dead_step bs l l' :
  link_step bs l l' → link_pending l = NothingPending →
  link_pending l' = NothingPending ∧ link_session l' = link_session l ∧
  posted (link_out l') = posted (link_out l).
Proof.
  intros Hs Hd. destruct Hs as [bs l|l Hp|l Hp|l l' Hp E|l Hp|label a' l Hl Ha]; try congruence; [done|].
  unfold after_ack. cbn [link_pending link_out link_session]. by rewrite posted_app, posted_ack, app_nil_r.
Qed.

Lemma dead_run received l l' :
  link_run l received l' → link_pending l = NothingPending →
  link_pending l' = NothingPending ∧ link_session l' = link_session l ∧
  posted (link_out l') = posted (link_out l).
Proof.
  intros Hr Hd. induction Hr as [|received bs l1 l2 _ (E1 & E2 & E3) Hs]; [done|].
  destruct (dead_step _ _ _ Hs E1) as (F1 & F2 & F3). by rewrite F1, F2, F3.
Qed.

(** ** Property *)

(** C17. Failures of a replica's link lose a tail of the stream and nothing
    else.  In every run of a session, with any of its writes and reads failing
    at any moment, any timing of the acknowledgements and any arrival of bytes,
    the commands posted to the store thread are a prefix, in order, of what a
    session that reads the same bytes without failures posts.  While a read is
    pending that needs more bytes the session is exactly where that one is: same
    phase and offset, same bytes left, same commands posted.  Once a read or a
    write of the handshake has failed, the session posts nothing and counts
    nothing any more, whatever arrives. *)
Theorem link_refines_reader (port : Z) (received : bytes) (l : Link)
    (Hrun : link_run (start_link port) received l) :
  let s0 := mkSession AwaitPong 0 port in
  posted (link_out l) `prefix_of` stream_commands s0 received ∧
  (link_pending l = PendingRead → session_step (link_session l) (link_buf l) = Ok None →
   (drive s0 received).2 = Ok (link_session l, link_buf l) ∧
   posted (link_out l) = stream_commands s0 received) ∧
  (link_pending l = NothingPending → ∀ more l', link_run l more l' →
   link_session l' = link_session l ∧ posted (link_out l') = posted (link_out l)).
Proof.
  cbv zeta. destruct (link_run_ok _ _ _ _ Hrun (start_link_ok port)) as [Hc Hpre].
  split_and!; [exact Hpre| |intros Hd more l' Hr; by apply (dead_run _ _ _ Hr Hd)].
  intros Hp Hstep. rewrite Hp in Hc. destruct (Hc ltac:(done) []) as [E1 E2].
  unfold stream_commands in E1. rewrite !app_nil_r in *.
  rewrite (drive_unfold (link_session l)) in E1, E2. cbn [step session_reader] in E1, E2.
  rewrite Hstep in E1, E2. split; [done|]. unfold stream_commands. rewrite E1. by rewrite app_nil_r.
Qed.

(** The handshake, the transfer and one command. *)
Definition example_stream : bytes := master_output example_config 100 [example_set].

(** The pending operations succeed one after another. *)
Fixpoint serve (fuel : nat) (l : Link) : Link :=
  match fuel with
  | O => l
  | S fuel =>
      match link_pending l with
      | PendingWrite => serve fuel (with_pending PendingRead l)
      | PendingRead => match read_completes l with Ok (Some l') => serve fuel l' | _ => l end
      | NothingPending => l
      end
  end.

Lemma serve_run l received fuel l1 :
  link_run l received l1 → link_run l received (serve fuel l1).
Proof.
  revert l1. induction fuel as [|fuel IH]; intros l1 Hr; [done|]. cbn [serve].
  destruct (link_pending l1) eqn:Hp; [| |done].
  - apply IH. rewrite <- (app_nil_r received). eapply link_run_next; [done|by constructor].
  - destruct (read_completes l1) as [[l2|]| | |] eqn:E; try done. apply IH.
    rewrite <- (app_nil_r received). eapply link_run_next; [done|by constructor].
Qed.

Lemma arrives_run port bs : link_run (start_link port) bs (with_buf bs (start_link port)).
Proof. exact (link_run_next _ [] bs _ _ (link_run_start _) (link_arrives bs (start_link port))). Qed.

Definition example_link : Link := serve 10 (with_buf example_stream (start_link 6380)).

Lemma link_refines_reader_witness :
  posted (link_out example_link) = [example_set] ∧
  posted (link_out example_link) `prefix_of` stream_commands (mkSession AwaitPong 0 6380) example_stream ∧
  ∀ more l', link_run (with_pending NothingPending example_link) more l' → posted (link_out l') = [example_set].
Proof.
  assert (link_run (start_link 6380) example_stream example_link) as Hr.
  { apply serve_run, arrives_run. }
  assert (link_run (start_link 6380) (example_stream ++ []) (with_pending NothingPending example_link)) as Hf.
  { eapply link_run_next; [exact Hr|]. apply link_read_fails. vm_compute. reflexivity. }
  assert (posted (link_out example_link) = [example_set]) as E by (vm_compute; reflexivity).
  split; [exact E|]. split; [exact (proj1 (link_refines_reader 6380 example_stream example_link Hr))|].
  intros more l' Hl'. rewrite <- E.
  exact (proj2 (proj2 (proj2 (link_refines_reader 6380 _ _ Hf)) eq_refl more l' Hl')).
Defined.

(** A read error ends the stream but not the heartbeat: the session, which no
    longer executes anything, goes on announcing its last offset. *)
Example ack_after_read_error :
  ∃ l l', link_run (start_link 6380) example_stream l ∧ link_pending l = NothingPending ∧
    link_run l [] l' ∧ link_out l' = link_out l ++ [Sent (ack_message 127)].
Proof.
  assert (∀ l bs1 bs2 l1 l2, link_run l bs1 l1 → link_step bs2 l1 l2 → bs2 = [] → link_run l bs1 l2) as Hnext.
  { intros l bs1 bs2 l1 l2 Hr Hs ->. rewrite <- (app_nil_r bs1). by eapply link_run_next. }
  exists (with_pending NothingPending example_link). eexists. split_and!; [|done| |].
  - eapply Hnext; [|apply link_read_fails; vm_compute; reflexivity|done]. apply serve_run, arrives_run.
  - eapply Hnext; [eapply Hnext; [apply link_run_start| |done]| |done].
    + apply (link_ack_step AckSilent (mkAck false 1 0)); [done|]. vm_compute. constructor.
    + apply (link_ack_step AckPeriodic (mkAck false 0 1)); [done|]. cbn. constructor.
  - vm_compute. reflexivity.
Qed.
