(* ===== verification/Logger.v ===== *)
(** * The logger

    Models src/util/Logger.hpp: the switch, and the lines on standard output,
    which the logger shares with [main].  The texts are formatted by the
    callers. *)

From S2P Require Import Prelude.

Record Console := mkConsole {
  enabled_ : bool;
  (** what has been written to [std::cout] *)
  stdout : bytes;
}.

Definition initial_console : Console := mkConsole true [].

Definition setEnabled (enabled : bool) (c : Console) : Console := mkConsole enabled (stdout c).

(** [std::cout << text]. *)
Definition print (text : bytes) (c : Console) : Console := mkConsole (enabled_ c) (stdout c ++ text).

Definition log (text : bytes) (c : Console) : Console :=
  if enabled_ c then print (text ++ [LF]) c else c.

(** A log is part of the output: one line behind what was there, or nothing. *)
Lemma log_prefix text c : stdout c `prefix_of` stdout (log text c).
Proof. unfold log. destruct (enabled_ c); [|done]. by apply prefix_app_r. Qed.

Lemma log_disabled text c : log text (setEnabled false c) = setEnabled false c.
Proof. done. Qed.
