(* ===== verification/Startup.v ===== *)
(** * Start-up: the server, the replication manager and their port

    Models [main] of src/main.cpp behind the parsing of Main.v (the server on
    its port, the replication manager, the lines on standard output) and
    [ReplicationManager] of src/replication/ReplicationManager.cpp.  Name
    resolution and connecting are parameters: a function that gives the result
    of [async_resolve], and one that gives the error of [async_connect]. *)

From S2P Require Import Prelude Logger CharConv Resp WatchManager ReplicaRegistry Command ServerConfig World BasicCommands TransactionCommands Connection Network Main Reader ReplicationSession ReplicaLink.

(** Conversion to [unsigned short]. *)
Definition to_u16 (z : Z) : Z := z mod 2 ^ 16.
Definition USHRT_MAX : Z := 2 ^ 16 - 1.

Record ReplicationManager := mkManager {
  config_ : ServerConfig;
  listening_port : Z;
}.

Record Process := mkProcess {
  (** the port of [acceptor_] *)
  server_port : Z;
  server_network : Network;
  replication_manager : ReplicationManager;
  console : Console;
  stderr : list bytes;
}.

(** The lines [main] prints before it starts its threads. *)
Definition banner (o : Options) : bytes :=
  b "Server is running on port " ++ to_string (opt_port o) ++ b "..." ++ [LF] ++
  match is_replica (opt_config o), replicaof (opt_config o) with
  | true, Some address => b "Server is running as a replica of " ++ address ++ [LF]
  | _, _ => b "Server is running as a master" ++ [LF]
  end.

(** ** The replication manager *)

Section manager.
Context {Endpoints : Type}.
(** [resolver_.async_resolve]: the text of an error, or the endpoints found. *)
Context (async_resolve : bytes → bytes → bytes + Endpoints).
(** [asio::async_connect]: the text of an error, if all endpoints fail. *)
Context (async_connect : Endpoints → option bytes).

Definition host_port (host port : bytes) : bytes := host ++ b ":" ++ port.

(** The handlers of the two asynchronous operations: what is logged, and the
    session that is started. *)
Definition connect_to_master (m : ReplicationManager) (host port : bytes) (c : Console) : Console * option Link :=
  match async_resolve host port with
  | inl message => (log (b "Replica resolve error (" ++ host_port host port ++ b "): " ++ message) c, None)
  | inr results =>
      match async_connect results with
      | Some message => (log (b "Replica connect error (" ++ host_port host port ++ b "): " ++ message) c, None)
      | None =>
          (log (b "Replica connected to master " ++ host_port host port) c, Some (start_link (listening_port m)))
      end
  end.

End manager.

(** [ReplicationManager::start]: what is logged, and the address to connect to. *)
Definition start_manager (m : ReplicationManager) (c : Console) : Console * option (bytes * bytes) :=
  match is_replica (config_ m), replicaof (config_ m) with
  | true, Some address =>
      match master_address (config_ m) with
      | Some host_port => (c, Some host_port)
      | None => (log (b "Invalid replicaof format: " ++ address) c, None)
      end
  | _, _ => (c, None)
  end.

(** [main] up to the threads; the constructors of [Server] and of
    [ReplicationManager] take the port as [unsigned short]. *)
Definition boot (draws draws' : list nat) (env argv : list bytes) (steady system : Z)
    : Process * option (bytes * bytes) :=
  let o := configure draws draws' env argv in
  let server_port := to_u16 (opt_port o) in
  let replication_manager := mkManager (opt_config o) (to_u16 (opt_port o)) in
  let '(c, address) := start_manager replication_manager initial_console in
  (mkProcess server_port (initial_network (opt_config o) steady system) replication_manager
     (print (banner o) c) (opt_errors o), address).

(** The threads run: the name is resolved and the session started. *)
Definition run_manager {Endpoints : Type} (async_resolve : bytes → bytes → bytes + Endpoints)
    (async_connect : Endpoints → option bytes) (p : Process) (address : option (bytes * bytes))
    : Console * option Link :=
  match address with
  | Some (host, port) => connect_to_master async_resolve async_connect (replication_manager p) host port (console p)
  | None => (console p, None)
  end.

(** ** The port *)

Lemma from_chars_range signed lo hi s v r : from_chars signed lo hi s = FcOk v r → lo ≤ v ≤ hi.
Proof.
  unfold from_chars.
  match goal with |- (let '(_, _) := ?m in _) = _ → _ => destruct m as [neg body] end.
  destruct (span_digits body) as [[|d ds] rest]; [done|]. cbv zeta.
  destruct (in_range lo hi _) eqn:E; [|done]. intros [= <- _]. unfold in_range in E. lia.
Qed.

Definition int_range (z : Z) : Prop := INT_MIN ≤ z ≤ INT_MAX.

Lemma read_port_range text port : int_range port → int_range (read_port text port).1.
Proof.
  intros Hp. unfold read_port, from_chars_int. destruct (from_chars _ _ _ _) as [v r| |] eqn:E; [|done..].
  by eapply from_chars_range.
Qed.

Lemma env_port_range env port : int_range port → int_range (env_port env port).
Proof.
  intros Hp. induction env as [|entry env IH]; [done|]. cbn [env_port].
  destruct (starts_with _ _); [by apply read_port_range|done].
Qed.

(** Induction along the options: [parse_args] takes one to three words. *)
Lemma args_ind (P : list bytes → Prop) :
  P [] → (∀ arg rest, (∀ n, P (drop n rest)) → P (arg :: rest)) → ∀ l, P l.
Proof.
  intros H0 Hs l. enough (∀ n, P (drop n l)) as H by (specialize (H 0%nat); by rewrite drop_0 in H).
  induction l as [|arg rest IH]; intros n; [by rewrite drop_nil|]. destruct n as [|n]; [|apply IH].
  cbn [drop]. by apply Hs.
Qed.

Lemma parse_args_range draws l o : int_range (opt_port o) → int_range (opt_port (parse_args draws l o)).
Proof.
  revert l o. apply (args_ind (λ l, ∀ o, _ → _)); [done|]. intros arg rest IH o Ho. cbn [parse_args].
  case_bool_decide; [|case_bool_decide; [|by apply (IH 0%nat)]].
  - destruct rest as [|port_str rest]; [done|]. pose proof (read_port_range port_str _ Ho) as Hr.
    destruct (read_port port_str (opt_port o)) as [port ok]. apply (IH 1%nat). by destruct ok.
  - destruct rest as [|host [|port rest]]; [done..|]. by apply (IH 2%nat).
Qed.

Lemma to_u16_range z : 0 ≤ to_u16 z ≤ USHRT_MAX.
Proof. unfold to_u16, USHRT_MAX. pose proof (Z.mod_pos_bound z (2 ^ 16)). lia. Qed.

Lemma to_u16_id z : to_u16 z = z ↔ 0 ≤ z ≤ USHRT_MAX.
Proof.
  split; [intros <-; apply to_u16_range|]. unfold to_u16, USHRT_MAX. intros ?. apply Z.mod_small. lia.
Qed.

(** C35. The port.  Whatever the environment and the arguments say, the configured
    port is a 32-bit integer and the server listens on a 16-bit port, the one its
    replication manager announces to the master.  It is the configured port, which
    the program prints, exactly if that lies between 0 and 65535; otherwise the
    server silently listens on another one, congruent to it. *)
Theorem listening_port_bounds (draws draws' : list nat) (env argv : list bytes) (steady system : Z) :
  let o := configure draws draws' env argv in
  let p := (boot draws draws' env argv steady system).1 in
  INT_MIN ≤ opt_port o ≤ INT_MAX ∧ 0 ≤ server_port p ≤ USHRT_MAX ∧
  listening_port (replication_manager p) = server_port p ∧
  (∃ k, opt_port o = server_port p + k * 65536) ∧
  (server_port p = opt_port o ↔ 0 ≤ opt_port o ≤ USHRT_MAX).
Proof.
  cbv zeta. unfold boot. destruct (start_manager _ _) as [c address]. cbn [fst server_port replication_manager listening_port].
  split; [|split; [apply to_u16_range|split; [done|split; [|apply to_u16_id]]]].
  - apply parse_args_range. cbn [opt_port]. apply env_port_range. unfold int_range. limits. lia.
  - exists (opt_port (configure draws draws' env argv) / 65536). unfold to_u16.
    change (2 ^ 16) with 65536. pose proof (Z.div_mod (opt_port (configure draws draws' env argv)) 65536). lia.
Qed.

(** The server listens on 4464 and says 70000. *)
Example port_wraps :
  let p := (boot [] [] [] [b "redis"; b "--port"; b "70000"] 0 0).1 in
  server_port p = 4464 ∧ stderr p = [] ∧
  stdout (console p) =
    b "Server is running on port 70000..." ++ [LF] ++ b "Server is running as a master" ++ [LF].
Proof. vm_compute. done. Qed.

(** ** The address of the master *)

(** Every option of the list has its values in the list. *)
Fixpoint complete_options (l : list bytes) : bool :=
  match l with
  | [] => true
  | arg :: rest =>
      if bool_decide (arg = b "--port") then
        match rest with _ :: rest => complete_options rest | [] => false end
      else if bool_decide (arg = b "--replicaof") then
        match rest with _ :: _ :: rest => complete_options rest | _ => false end
      else complete_options rest
  end.

Lemma parse_args_app draws l l' o :
  complete_options l = true → parse_args draws (l ++ l') o = parse_args draws l' (parse_args draws l o).
Proof.
  revert l o. apply (args_ind (λ l, ∀ o, _ → _)); [done|]. intros arg rest IH o. cbn [parse_args complete_options app].
  case_bool_decide; [|case_bool_decide; [|apply (IH 0%nat)]].
  - destruct rest as [|port_str rest]; [done|]. cbn [app]. destruct (read_port _ _) as [port ok]. apply (IH 1%nat).
  - destruct rest as [|host [|port rest]]; [done..|]. cbn [app]. apply (IH 2%nat).
Qed.

(** What [>>] reads as one word. *)
Definition is_word (s : bytes) : bool := negb (bool_decide (s = [])) && forallb (λ c, negb (is_space c)) s.

Lemma take_word_spec w rest :
  forallb (λ c, negb (is_space c)) w = true → (∀ c, head rest = Some c → is_space c = true) →
  take_word (w ++ rest) = (w, rest).
Proof.
  intros Hw Hr. induction w as [|c w IH].
  - destruct rest as [|c rest]; [done|]. cbn [app take_word]. by rewrite (Hr c).
  - cbn [forallb] in Hw. apply andb_true_iff in Hw as [Hc%negb_true_iff Hw].
    cbn [app take_word]. rewrite Hc, IH by done. done.
Qed.

Lemma skip_space_word w rest : is_word w = true → skip_space (w ++ rest) = w ++ rest.
Proof.
  unfold is_word. destruct w as [|c w]; [by rewrite bool_decide_eq_true_2|]. intros [_ Hw]%andb_true_iff.
  cbn [forallb] in Hw. apply andb_true_iff in Hw as [Hc%negb_true_iff _]. cbn [app skip_space]. by rewrite Hc.
Qed.

Lemma is_word_spec w : is_word w = true → w ≠ [] ∧ forallb (λ c, negb (is_space c)) w = true.
Proof. unfold is_word. intros [H1%negb_true_iff H2]%andb_true_iff. by case_bool_decide. Qed.

(** [std::format("{} {}")] and the stream extraction are inverse on words. *)
Lemma master_address_words draws host port :
  is_word host = true → is_word port = true →
  master_address (replica_config draws (host ++ b " " ++ port)) = Some (host, port).
Proof.
  intros Hh Hp. destruct (is_word_spec _ Hh) as [Hh0 Hh1]. destruct (is_word_spec _ Hp) as [Hp0 Hp1].
  unfold master_address. cbn. rewrite skip_space_word by done.
  rewrite (take_word_spec host) by (done || (intros c [= <-]; done)).
  assert (skip_space (b " " ++ port) = port) as Hs.
  { pose proof (skip_space_word port [] Hp) as E. rewrite app_nil_r in E. exact E. }
  change (" "%char :: port) with (b " " ++ port). rewrite Hs.
  pose proof (take_word_spec port [] Hp1 ltac:(done)) as E. rewrite app_nil_r in E. rewrite E.
  by rewrite !bool_decide_eq_false_2.
Qed.

(** A last [--replicaof] decides on the configuration. *)
Lemma configure_replicaof draws draws' env program options host port :
  complete_options options = true →
  configure draws draws' env (program :: options ++ [b "--replicaof"; host; port]) =
    let o := configure draws draws' env (program :: options) in
    mkOptions (opt_port o) (replica_config draws' (host ++ b " " ++ port)) (opt_errors o).
Proof.
  intros Hoptions. unfold configure. cbn [drop]. rewrite !drop_0, parse_args_app by done.
  cbn [parse_args]. by rewrite bool_decide_eq_false_2, bool_decide_eq_true_2.
Qed.

(** C34. [--replicaof host port] reaches the master's address.  After any complete
    options, among them other ports and masters, a last [--replicaof] makes the
    server a replica whose manager connects to exactly that host and port, although
    the two words are joined and taken apart again; if the address resolves and an
    endpoint accepts, the session that starts sends PING and announces the port the
    server listens on.  Otherwise there is no session, now or later, and the server
    is a replica of a master it never speaks to. *)
Theorem replicaof_reaches_master {Endpoints : Type} (resolve : bytes → bytes → bytes + Endpoints)
    (connect : Endpoints → option bytes) (draws draws' : list nat) (env options : list bytes)
    (program host port : bytes) (steady system : Z)
    (Hoptions : complete_options options = true) (Hhost : is_word host = true) (Hport : is_word port = true) :
  let '(p, address) := boot draws draws' env (program :: options ++ [b "--replicaof"; host; port]) steady system in
  address = Some (host, port) ∧ is_replica (w_config (net_world (server_network p))) = true ∧
  (run_manager resolve connect p address).2 =
    match resolve host port with
    | inr endpoints =>
        match connect endpoints with
        | None => Some (mkLink (mkSession AwaitPong 0 (server_port p)) [] PendingWrite no_ack [Sent ping_message])
        | Some _ => None
        end
    | inl _ => None
    end.
Proof.
  unfold boot. rewrite configure_replicaof by done.
  generalize (configure draws draws' env (program :: options)). intros o.
  unfold start_manager. cbn [config_ opt_config]. rewrite master_address_words by done.
  change (is_replica (replica_config draws' (host ++ b " " ++ port))) with true. cbn [replica_config replicaof].
  split_and!; [done..|]. unfold run_manager, connect_to_master. by repeat case_match.
Qed.

Definition example_resolve (host port : bytes) : bytes + nat :=
  if bool_decide (host = b "localhost") then inr 1%nat else inl (b "Host not found").

Lemma replicaof_reaches_master_witness :
  let '(p, address) := boot [] [] [] [b "redis"; b "--port"; b "6380"; b "--replicaof"; b "localhost"; b "6379"] 0 0 in
  (run_manager example_resolve (λ _, None) p address).2 =
  Some (mkLink (mkSession AwaitPong 0 6380) [] PendingWrite no_ack [Sent ping_message]).
Proof.
  exact (proj2 (proj2 (replicaof_reaches_master example_resolve (λ _, None)
    [] [] [] [b "--port"; b "6380"] (b "redis") (b "localhost") (b "6379") 0 0
    ltac:(reflexivity) ltac:(reflexivity) ltac:(reflexivity)))).
Defined.

(** An option without its value takes the next option for it. *)
Example port_swallows_replicaof :
  let p := (boot [] [] [] [b "redis"; b "--port"; b "--replicaof"; b "localhost"; b "6379"] 0 0).1 in
  server_port p = 6379 ∧ is_replica (config_ (replication_manager p)) = false ∧
  stderr p = [b "Invalid port argument: '--replicaof'" ++ [LF]].
Proof. vm_compute. done. Qed.
