(* ===== verification/Lifecycle.v ===== *)
(** * The threads of the process

    Models the end of [main] in src/main.cpp: the store thread, which holds a
    work guard on [store_ctx], the four threads that run [network_ctx], and what
    [main] does when they have returned.  [io_context::run] returns when the
    context has no outstanding work or was stopped; a pending operation and the
    handler it ends in count as work.  The accept of src/net/Server.cpp, the
    connections of Network.v and the operations of a replica's session are the
    work of [network_ctx]. *)

From S2P Require Import Prelude CharConv Resp WatchManager ReplicaRegistry ServerConfig World BasicCommands Connection OneReply Network Main Startup.

Inductive ThreadState := ThreadRunning | ThreadReturned.
#[export] Instance ThreadState_eq_dec : EqDecision ThreadState.
Proof. solve_decision. Defined.

(** Where [main] is: in [io_threads.clear()], in the destructor of
    [store_thread], or done. *)
Inductive MainPoint := JoiningIo | JoiningStore | MainReturned.

Record Program := mkProgram {
  prog_network : Network;
  (** pending [async_accept]s *)
  prog_accepts : nat;
  (** pending operations of the replication manager and its session *)
  prog_session : nat;
  prog_io : list ThreadState;
  prog_store : ThreadState;
  (** [store_ctx.stop()] was called *)
  prog_stopped : bool;
  prog_main : MainPoint;
}.

Definition num_io_threads : nat := 4.

(** [main] behind its output: [server.run()] has started the first accept, the
    replication manager the resolution of the master's name, and all threads
    are started. *)
Definition start_threads (p : Process) (address : option (bytes * bytes)) : Program :=
  mkProgram (server_network p) 1 (if address is Some _ then 1 else 0) (replicate num_io_threads ThreadRunning)
    ThreadRunning false JoiningIo.

(** The outstanding work of [network_ctx]. *)
Definition peer_work (w : World) (c : ConnId) (p : Peer) : nat := peer_reads p + unwritten c p w.
Definition network_work (p : Program) : nat :=
  prog_accepts p + prog_session p +
  map_fold (λ c peer n, peer_work (net_world (prog_network p)) c peer + n)%nat 0%nat (net_peers (prog_network p)).

Definition with_network (n : Network) (p : Program) : Program :=
  mkProgram n (prog_accepts p) (prog_session p) (prog_io p) (prog_store p) (prog_stopped p) (prog_main p).
Definition with_accepts (k : nat) (p : Program) : Program :=
  mkProgram (prog_network p) k (prog_session p) (prog_io p) (prog_store p) (prog_stopped p) (prog_main p).
Definition with_session (k : nat) (p : Program) : Program :=
  mkProgram (prog_network p) (prog_accepts p) k (prog_io p) (prog_store p) (prog_stopped p) (prog_main p).
Definition with_io (l : list ThreadState) (p : Program) : Program :=
  mkProgram (prog_network p) (prog_accepts p) (prog_session p) l (prog_store p) (prog_stopped p) (prog_main p).

(** [Server::do_accept] and its handler, with the connection accepted, or none
    after an error.  Both ways the handler ends in [do_accept()]. *)
Definition do_accept (p : Program) : Program := with_accepts (S (prog_accepts p)) p.
Definition accept_completes (c : option ConnId) (p : Program) : Program :=
  let n := prog_network p in
  let p := with_accepts (pred (prog_accepts p)) p in
  do_accept
    match c with
    | Some c =>
        match accept c (net_world n) with
        | (w, Ok conn) => with_network (mkNetwork w (<[c := start_connection conn]> (net_peers n))) p
        | _ => p
        end
    | None => p
    end.

Inductive program_step (version : bytes) : Program → Program → Prop :=
  | program_accept c p :
      ThreadRunning ∈ prog_io p → (0 < prog_accepts p)%nat →
      from_option (λ c, net_peers (prog_network p) !! c = None) True c →
      program_step version p (accept_completes c p)
  (* the other handlers, and the commands and timers of the store thread, any
     that end without an exception *)
  | program_event p n :
      ThreadRunning ∈ prog_io p ∨ prog_store p = ThreadRunning →
      net_step version false (prog_network p) n → dom (net_peers n) = dom (net_peers (prog_network p)) →
      program_step version p (with_network n p)
  | program_session p k :
      ThreadRunning ∈ prog_io p → (0 < prog_session p)%nat → program_step version p (with_session k p)
  (* [network_ctx.run()] returns *)
  | program_io_returns i p :
      prog_io p !! i = Some ThreadRunning → network_work p = 0%nat →
      program_step version p (with_io (<[i := ThreadReturned]> (prog_io p)) p)
  (* [io_threads.clear(); store_ctx.stop();] *)
  | program_joined p :
      prog_main p = JoiningIo → Forall (λ t, t = ThreadReturned) (prog_io p) →
      program_step version p
        (mkProgram (prog_network p) (prog_accepts p) (prog_session p) [] (prog_store p) true JoiningStore)
  (* [store_ctx.run()] returns: there is always work, so only after [stop] *)
  | program_store_returns p :
      prog_store p = ThreadRunning → prog_stopped p = true →
      program_step version p
        (mkProgram (prog_network p) (prog_accepts p) (prog_session p) (prog_io p) ThreadReturned true (prog_main p))
  | program_returns p :
      prog_main p = JoiningStore → prog_store p = ThreadReturned →
      program_step version p
        (mkProgram (prog_network p) (prog_accepts p) (prog_session p) (prog_io p) (prog_store p) (prog_stopped p)
           MainReturned).

(** ** The order of a shutdown *)

(** The store thread outlives the network threads, and [main] both. *)
Record orderly (p : Program) : Prop := {
  orderly_main : prog_main p = JoiningIo ↔ prog_stopped p = false;
  orderly_io : prog_stopped p = true → prog_io p = [];
  orderly_store : prog_store p = ThreadReturned → prog_stopped p = true;
  orderly_end : prog_main p = MainReturned → prog_store p = ThreadReturned;
}.

Lemma accept_frame c p :
  prog_accepts (accept_completes c p) = S (pred (prog_accepts p)) ∧ prog_io (accept_completes c p) = prog_io p ∧
  prog_store (accept_completes c p) = prog_store p ∧ prog_stopped (accept_completes c p) = prog_stopped p ∧
  prog_main (accept_completes c p) = prog_main p.
Proof. unfold accept_completes. destruct c as [c|]; [|done]. by destruct (accept c _) as [w []]. Qed.

(** Whatever the work of the network threads is, also if it could end. *)
Lemma shutdown_order version p p' : orderly p → rtc (program_step version) p p' → orderly p'.
Proof.
  intros Ho Hr. induction Hr as [|p p1 p' Hs _ IH]; [done|]. apply IH. clear IH p'. destruct Ho as [H1 H2 H3 H4].
  destruct Hs as [c p|p n|p k|i p Hi|p Hm Hall|p Hs Hst|p Hm Hs];
    [destruct (accept_frame c p) as (_ & E1 & E2 & E3 & E4); split; by rewrite ?E1, ?E2, ?E3, ?E4|by split..| | | |].
  - split; cbn; try done. intros E. by rewrite (H2 E) in Hi.
  - by split.
  - split; cbn; try done; [by rewrite H1, Hst|auto].
  - split; cbn; try done. split; [done|]. intros E. apply H1 in E. congruence.
Qed.

(** ** The server does not return *)

(** The state in which the threads are as they were started. *)
Record serving (p : Program) : Prop := {
  serving_accepts : prog_accepts p = 1%nat;
  serving_io : prog_io p = replicate num_io_threads ThreadRunning;
  serving_store : prog_store p = ThreadRunning;
  serving_stopped : prog_stopped p = false;
  serving_main : prog_main p = JoiningIo;
}.

Lemma serving_step version p p' : serving p → program_step version p p' → serving p'.
Proof.
  intros [H1 H2 H3 H4 H5]. destruct 1 as [c p|p n|p k|i p Hi Hw|p Hm Hall|p Hs Hst|p Hm Hs];
    [|by split..| | | |].
  - destruct (accept_frame c p) as (E0 & E1 & E2 & E3 & E4). split; rewrite ?E0, ?E1, ?E2, ?E3, ?E4; try done.
    by rewrite H1.
  - unfold network_work in Hw. lia.
  - rewrite H2 in Hall. by inversion Hall.
  - congruence.
  - congruence.
Qed.

(** ** Property *)

(** C14. The server keeps accepting and never returns.  In every state that the
    process reaches from its start, whatever connections, sessions and timers
    do and however many accepts have failed, exactly one accept is pending, all
    four network threads and the store thread are running and [main] is still
    waiting for the network threads; and a client that connects with any new
    connection can be accepted right then, and its first read is started. *)
Theorem server_keeps_accepting (version : bytes) (process : Process) (address : option (bytes * bytes))
    (p : Program) (c : ConnId)
    (Hreach : rtc (program_step version) (start_threads process address) p)
    (Hnew : net_peers (prog_network p) !! c = None) :
  serving p ∧
  ∃ p', program_step version p p' ∧ serving p' ∧
    ∃ peer, net_peers (prog_network p') !! c = Some peer ∧ peer_reads peer = 1%nat ∧
      w_clients (net_world (prog_network p')) = to_u64 (w_clients (net_world (prog_network p)) + 1).
Proof.
  assert (serving p) as Hp.
  { refine (rtc_ind_r _ (start_threads process address) _ _ p Hreach); [by split|].
    intros y z _ Hyz Hy. by eapply serving_step. }
  split; [done|].
  assert (program_step version p (accept_completes (Some c) p)) as Hstep.
  { apply program_accept; [rewrite (serving_io _ Hp); by left|rewrite (serving_accepts _ Hp); lia|done]. }
  exists (accept_completes (Some c) p). split; [done|]. split; [by eapply serving_step|].
  eexists. split; [apply lookup_insert_eq|]. done.
Qed.

(** A master with the default port; one accept fails, one succeeds. *)
Definition booted : Process * option (bytes * bytes) := boot (replicate 40 7%nat) [] [] [b "redis"] 0 1000.
Definition started : Program := start_threads booted.1 booted.2.
Definition one_connected : Program := accept_completes (Some 1%N) (accept_completes None started).

Lemma server_keeps_accepting_witness :
  serving one_connected ∧
  ∃ p', program_step (b "7.0.0") one_connected p' ∧
    ∃ peer, net_peers (prog_network p') !! 2%N = Some peer ∧ peer_reads peer = 1%nat ∧
      w_clients (net_world (prog_network p')) = 2.
Proof.
  assert (rtc (program_step (b "7.0.0")) started one_connected) as Hreach.
  { eapply rtc_l; [apply (program_accept _ None); [by left|apply Nat.ltb_lt; reflexivity|done]|].
    apply rtc_once, (program_accept _ (Some 1%N)); [by left|apply Nat.ltb_lt; reflexivity|done]. }
  destruct (server_keeps_accepting (b "7.0.0") booted.1 booted.2 one_connected 2 Hreach eq_refl)
    as (Hs & p' & Hstep & _ & peer & Hpeer & Hreads & Hclients).
  split; [exact Hs|]. exists p'. split; [exact Hstep|]. exists peer. split; [exact Hpeer|]. split; [exact Hreads|].
  rewrite Hclients. reflexivity.
Defined.

(** Without the pending accept the process would come to its end, in the order
    of [orderly]. *)
Example shutdown_without_accept version :
  ∃ p', rtc (program_step version) (with_accepts 0 started) p' ∧ prog_main p' = MainReturned ∧ orderly p'.
Proof.
  assert (∃ p', rtc (program_step version) (with_accepts 0 started) p' ∧ prog_main p' = MainReturned) as (p' & Hr & Hm).
  { eexists. split.
    - eapply rtc_l; [by apply (program_io_returns _ 0)|]. eapply rtc_l; [by apply (program_io_returns _ 1)|].
      eapply rtc_l; [by apply (program_io_returns _ 2)|]. eapply rtc_l; [by apply (program_io_returns _ 3)|].
      eapply rtc_l; [apply program_joined; [done|repeat constructor]|].
      eapply rtc_l; [by apply program_store_returns|]. apply rtc_once. by apply program_returns.
    - done. }
  exists p'. split_and!; [done|done|]. eapply (shutdown_order version); [|done]. by split.
Qed.
