(* ===== verification/Convergence.v ===== *)
(** * Replicas converge

    Composes the master's store thread (Dispatch.v), the replica registry, the
    replication session (ReplicationSession.v) and the replica's own command
    handler ([handler_] of src/replication/ReplicationSession.cpp): a replica
    that starts with the master's data and executes what it is sent ends with
    the master's data.

    The invariant [follows] says that the commands shipped so far, executed by
    the replica, give the master's data, or will do so with the write command
    that the master is just executing and has not shipped yet ([owed]). *)

From S2P Require Import Prelude CharConv Resp StreamId StoreValue StringStore ListStore StreamStore Store Blocking WatchManager TransactionManager ReplicaRegistry Command ServerConfig World BasicCommands ListCommands StreamCommands TransactionCommands CommandRegistry Dispatch Invariants WriteEffects Transactions BlockedClients BlockedReaders Termination OneReply Reader ReplicationSession.

(** ** The replica *)

(** [handler_] of a session: a client's commands, no replica registry. *)
Definition session_handler (i : HandlerId) : Handler := mkHandler i Client false false.

(** The commands of the stream, executed one after another with the replies
    thrown away. *)
Fixpoint apply_stream (version : bytes) (fuel : nat) (h : Handler) (commands : list RespValue) : M unit :=
  match commands with
  | [] => mret tt
  | command :: commands =>
      handle version fuel h command ReplyDiscard;;
      apply_stream version fuel h commands
  end.

(** A replica without blocked clients of its own. *)
Record replica_ready (h : Handler) (r : World) : Prop := {
  ready_inactive : is_active (tm_of (h_id h) r) = false;
  ready_blpop : callbacks_ (w_blpop r) = ∅;
  ready_xread : callbacks_ (w_xread r) = ∅;
  ready_store : permanent (w_store r);
}.

(** ** Requests that can be replicated *)

(** What may be queued in a transaction: no command that blocks on data, and
    none that catches the exceptions of what its reply starts. *)
Definition queueable (cmd : Command) : bool :=
  timeless cmd && match cmd_type cmd with XRead | XRange => false | _ => true end.

Definition request_ok (ok : Command → bool) (request : RespValue) : Prop :=
  type request = Array ∧ wf_resp request = true ∧ ∀ cmd, parse_command request = Ok cmd → ok cmd = true.

(** ** The master's state *)

(** Replies that write to a connection or nowhere. *)
Definition direct (k : Reply) : bool :=
  match k with ReplyTo _ | ReplyDiscard => true | _ => false end.

(** Replies that propagate nothing. *)
Definition settled (k : Reply) : bool :=
  match k with
  | ReplyExec _ t _ => negb (is_write_command t)
  | k => direct k
  end.

Definition calm_wait (t : TimerWait) : bool :=
  match t with
  | BlpopTimeout _ _ => false
  | XReadTimeout _ k => direct k
  | WaitPoll _ _ _ k => settled k
  end.

Record exec_calm (c : ExecContext) : Prop := {
  calm_commands : Forall (request_ok queueable) (exec_commands c);
  calm_handler : h_replicated (exec_handler c) = true;
  calm_reply : settled (exec_on_reply c) = true;
}.

(** No client is blocked in BLPOP, no transaction in XREAD, and every queued
    command can be replicated. *)
Record calm (w : World) : Prop := {
  calm_blpop : callbacks_ (w_blpop w) = ∅;
  calm_xread : ∃ ws, registry_refines (w_xread w) ws ∧
    Forall (λ x, direct (xread_reply (w_callback x)) = true) ws;
  calm_timers : map_Forall (λ _ t, calm_wait (wait t) = true) (w_timers w);
  calm_queues : ∀ h, Forall (request_ok queueable) (queued_commands_ (tm_of h w));
  calm_execs : map_Forall (λ _ c, exec_calm c) (w_execs w);
  calm_store : permanent (w_store w);
}.

(** The bytes written to connection [c] for its replica. *)
Definition shipped (c : ConnId) (out : list Output) : bytes :=
  concat (omap (λ o, match o with
                     | Propagated c' data => if bool_decide (c' = c) then Some data else None
                     | Response _ _ => None
                     end) out).

Lemma shipped_app c out out' : shipped c (out ++ out') = shipped c out ++ shipped c out'.
Proof. unfold shipped. by rewrite omap_app, concat_app. Qed.

Lemma shipped_posts c posts : shipped c ((λ '(c', s), Propagated c' s) <$> posts) = sent_to c posts.
Proof.
  unfold shipped, sent_to. induction posts as [|[c' s] posts IH]; [done|]. rewrite fmap_cons.
  cbn [omap list_omap]. case_bool_decide as E.
  - rewrite filter_cons_True by done. cbn [fmap list_fmap concat snd]. by rewrite <- IH.
  - rewrite filter_cons_False by done. exact IH.
Qed.

(** ** What the replica does with a write command *)

(** A write command that is shipped. *)
Record write_request (request : RespValue) (cmd : Command) : Prop := {
  wr_array : type request = Array;
  wr_wf : wf_resp request = true;
  wr_parse : parse_command request = Ok cmd;
  wr_write : is_write_command (cmd_type cmd) = true;
  wr_timeless : timeless cmd = true;
}.

Lemma changed_frame d w w' :
  changed d w w' →
  w_store w' = d ∧ w_blpop w' = w_blpop w ∧ w_xread w' = w_xread w ∧ w_timers w' = w_timers w ∧
  w_execs w' = w_execs w ∧ w_replicas w' = w_replicas w ∧ w_out w' = w_out w ∧
  (∀ h, is_active (tm_of h w') = is_active (tm_of h w)) ∧
  (∀ h, queued_commands_ (tm_of h w') = queued_commands_ (tm_of h w)).
Proof.
  intros [-> |[key ->]]; [done|]. unfold notify, modify. cbn [fst].
  change (w_watch (with_store d w)) with (w_watch w). generalize (notify_write key (w_watch w)). intros l.
  assert (∀ v, let v' := fold_left mark_dirty_of l v in
    w_store v' = w_store v ∧ w_blpop v' = w_blpop v ∧ w_xread v' = w_xread v ∧ w_timers v' = w_timers v ∧
    w_execs v' = w_execs v ∧ w_replicas v' = w_replicas v ∧ w_out v' = w_out v ∧
    (∀ h, is_active (tm_of h v') = is_active (tm_of h v)) ∧
    (∀ h, queued_commands_ (tm_of h v') = queued_commands_ (tm_of h v))) as H; [|apply (H (with_store d w))].
  induction l as [|x l IH]; intros v; [done|]. cbn [fold_left].
  destruct (IH (mark_dirty_of v x)) as (E1 & E2 & E3 & E4 & E5 & E6 & E7 & E8 & E9).
  cbv zeta. rewrite E1, E2, E3, E4, E5, E6, E7. split_and!; try done; intros h; rewrite ?E8, ?E9;
    unfold mark_dirty_of; rewrite tm_of_set; by destruct (decide (h = x)) as [->|].
Qed.

Lemma no_waiter {C} key (r : BlockingRegistry C) : callbacks_ r = ∅ → registry_find key r = None.
Proof. unfold registry_find. intros ->. apply lookup_empty. Qed.

(** Without blocked clients there is nobody to serve. *)
Lemma serve_nobody version fuel key w :
  callbacks_ (w_blpop w) = ∅ → run version (S fuel) (TServeBlpop key) w = (w, Ok tt).
Proof.
  intros Hb. cbn [run run_task]. unfold serve_blpop_waiters. by rewrite bind_gets, no_waiter.
Qed.

Lemma service_nobody version fuel serve w :
  service (run version (S fuel)) serve → callbacks_ (w_blpop w) = ∅ → callbacks_ (w_xread w) = ∅ →
  serve w = (w, Ok tt).
Proof.
  intros Hs Hb Hx. destruct Hs as [|key|key]; [done|by apply serve_nobody|].
  unfold serve_xread_waiters. by rewrite bind_gets, no_waiter.
Qed.

Lemma replica_applies version fuel h request cmd d r :
  h_kind h = Client → h_replicated h = false → write_request request cmd → replica_ready h r →
  write_effect cmd (w_store r) = Ok d →
  ∃ r', handle version (S fuel) h request ReplyDiscard r = (r', Ok tt) ∧ w_store r' = d ∧ replica_ready h r'.
Proof.
  intros Hk Hr [Ha Hwf Hp Hw Ht] [H1 H2 H3 H4] He.
  rewrite (handle_command _ _ _ _ _ _ _ Ha Hp). unfold dispatch. rewrite bind_gets, H1, Hr. cbn [andb].
  assert (always_direct (cmd_type cmd) = false) as -> by (by destruct (cmd_type cmd)).
  rewrite execute_write by done.
  pose proof (write_body_spec (run version (S fuel)) cmd ReplyDiscard r Ht H4 Hw) as Hspec.
  unfold implements in Hspec. rewrite He in Hspec. destruct Hspec as (r1 & serve & s & Hch & Hs & ->).
  destruct (changed_frame _ _ _ Hch) as (E1 & E2 & E3 & _ & _ & _ & _ & E8 & _).
  rewrite (bind_Ok _ _ _ _ _ (service_nobody version fuel serve r1 Hs ltac:(by rewrite E2) ltac:(by rewrite E3))).
  exists r1. split_and!; [done|done|]. split; [by rewrite E8|by rewrite E2|by rewrite E3|].
  rewrite E1. by eapply write_effect_permanent.
Qed.

(** A shipped write is not taken for a GETACK. *)
Lemma write_not_getack request cmd : write_request request cmd → is_getack request = false.
Proof.
  intros [Ha _ Hp Hw _]. unfold is_getack, parse_command in *. rewrite Ha, bool_decide_eq_true_2 by done.
  destruct (elements request) as [|e0 [|e1 es]]; [done..|]. injection Hp as <-. cbn [cmd_type] in Hw.
  case_bool_decide as E; [|done]. exfalso. rewrite <- parse_type_lowercase, E in Hw. by vm_compute in Hw.
Qed.

(** ** The invariant *)

(** The commands of a stream that the replica executes. *)
Definition executed (stream : list RespValue) : list RespValue :=
  List.filter (λ v, negb (is_getack v)) stream.

Lemma apply_stream_snoc version fuel h commands command r r1 r2 :
  apply_stream version fuel h commands r = (r1, Ok tt) →
  handle version fuel h command ReplyDiscard r1 = (r2, Ok tt) →
  apply_stream version fuel h (commands ++ [command]) r = (r2, Ok tt).
Proof.
  revert r. induction commands as [|x commands IH]; intros r; cbn [apply_stream app].
  - intros [= <-] E. by rewrite (bind_Ok _ _ _ _ _ E).
  - unfold mbind, M_bind. destruct (handle version fuel h x ReplyDiscard r) as [r' [[]| | |]]; try done. apply IH.
Qed.

Section follows.
Context (version : bytes).
(** The depth of calls on the replica, its handler and its state at the start. *)
Context (depth : nat) (h0 : Handler) (r0 : World) (Hclient : h_kind h0 = Client) (Hsession : h_replicated h0 = false).
(** The replica's id and connection, what was written to it before, and the
    offset at the start. *)
Context (i : N) (c : ConnId) (out0 : bytes) (off0 : Z).
Implicit Types (p q : option Command).

(** The data of master and replica, if the master is executing the write
    command [owed] and has not shipped it. *)
Definition matches (owed : option Command) (master replica : Data) : Prop :=
  match owed with
  | None => master = replica
  | Some cmd => write_effect cmd replica = Ok master
  end.

Record shipping (owed : option Command) (w : World) : Prop := {
  ship_writer : sole_writer i c (w_replicas w);
  ship_stream : ∃ stream r,
    shipped c (w_out w) = out0 ++ concat (serialize <$> stream) ∧ forallb wf_resp stream = true ∧
    master_offset (w_replicas w) = off0 + zlen (concat (serialize <$> stream)) ∧
    apply_stream version (S depth) h0 (executed stream) r0 = (r, Ok tt) ∧ replica_ready h0 r ∧
    matches owed (w_store w) (w_store r);
}.

Definition follows (owed : option Command) (w : World) : Prop := calm w ∧ shipping owed w.

(** A computation that, if it comes to its end, leads from [p] to [q]. *)
Definition stays {A} (p : option Command) (m : M A) (q : option Command) : Prop := ∀ w,
  follows p w → match (m w).2 with Ok _ => follows q (m w).1 | _ => True end.

Lemma stays_bind {A B} p q s (m : M A) (f : A → M B) :
  stays p m q → (∀ a, stays q (f a) s) → stays p (m ≫= f) s.
Proof.
  intros Hm Hf w Hw. unfold mbind, M_bind. specialize (Hm w Hw).
  destruct (m w) as [w' [a| | |]]; simpl in *; try done. by apply Hf.
Qed.

(** As [stays_bind], with a fact about the result. *)
Lemma stays_bind_post {A B} p q s (Q : A → Prop) (m : M A) (f : A → M B) :
  stays p m q → (∀ w a, follows p w → (m w).2 = Ok a → Q a) → (∀ a, Q a → stays q (f a) s) →
  stays p (m ≫= f) s.
Proof.
  intros Hm HQ Hf w Hw. unfold mbind, M_bind. specialize (Hm w Hw). specialize (HQ w).
  destruct (m w) as [w' [a| | |]]; simpl in *; try done. by apply Hf; eauto.
Qed.

Lemma stays_same {A} p (m : M A) :
  (∀ w, calm w → calm (m w).1) →
  (∀ w, w_store (m w).1 = w_store w ∧ w_replicas (m w).1 = w_replicas w ∧
        shipped c (w_out (m w).1) = shipped c (w_out w)) →
  stays p m p.
Proof.
  intros Hc Hs w [H1 [H2 H3]]. destruct (Hs w) as (E1 & E2 & E3). specialize (Hc w H1).
  destruct (m w) as [w' [a| | |]]; try done. cbn [fst snd] in *. split; [done|].
  split; [by rewrite E2|]. by rewrite E1, E2, E3.
Qed.

Lemma stays_pure {A} p (m : M A) : (∀ w, (m w).1 = w) → stays p m p.
Proof. intros Hm w Hw. rewrite Hm. by destruct (m w).2. Qed.

Lemma stays_ret {A} p (a : A) : stays p (mret a) p.
Proof. by apply stays_pure. Qed.

Lemma stays_gets {A} p (f : World → A) : stays p (gets f) p.
Proof. by apply stays_pure. Qed.

Lemma stays_lift {A} p (o : outcome A) : stays p (lift o) p.
Proof. by apply stays_pure. Qed.

Lemma stays_get_exec p ctx : stays p (get_exec ctx) p.
Proof. by apply stays_pure. Qed.

Lemma stays_if {A} p q (x : bool) (m m' : M A) : stays p m q → stays p m' q → stays p (if x then m else m') q.
Proof. by destruct x. Qed.

(** A store operation that changes nothing in data without deadlines. *)
Lemma stays_on_store {A} (p : option Command) (f : Data → A * Data) :
  (∀ d, permanent d → (f d).2 = d) → stays p (on_store f) p.
Proof.
  intros Hf w Hw. specialize (Hf _ (calm_store _ (proj1 Hw))). unfold on_store.
  destruct (f (w_store w)) as [a d]. simpl in *. subst d. by rewrite with_store_id.
Qed.

(** *** Pieces of the state *)

Lemma stays_respond p c' s : stays p (modify (λ w, with_out (w_out w ++ [Response c' s]) w)) p.
Proof.
  apply stays_same; [intros w [H1 H2 H3 H4 H5 H6]; by split|]. intros w. split_and!; [done..|].
  change (shipped c (w_out w ++ [Response c' s]) = shipped c (w_out w)). by rewrite shipped_app, app_nil_r.
Qed.

Lemma stays_cancel p t : stays p (cancel_timer t) p.
Proof.
  apply stays_same.
  - intros w [H1 H2 H3 H4 H5 H6]. unfold cancel_timer, modify. cbn [fst]. repeat case_match; split; try done.
    by apply map_Forall_delete.
  - intros w. unfold cancel_timer, modify. cbn [fst]. by repeat case_match.
Qed.

Lemma stays_start p t : calm_wait (wait t) = true → stays p (start_timer t) p.
Proof.
  intros Ht. apply stays_same; [|done]. intros w [H1 H2 H3 H4 H5 H6]. split; try done.
  by apply map_Forall_insert_2.
Qed.

Lemma stays_register_xread p keys x : direct (xread_reply x) = true → stays p (register_xread keys x) p.
Proof.
  intros Hx. unfold register_xread. apply stays_same.
  - intros w [H1 (ws & Hr & Hws) H3 H4 H5 H6]. pose proof (register_refines (w_xread w) ws keys x Hr) as Hreg.
    destruct (register_callbacks _ _ _) as [id r]. destruct Hreg as [Hreg _]. split; try done.
    eexists. split; [exact Hreg|]. by apply Forall_app; split; [|constructor].
  - intros w. by destruct (register_callbacks _ _ _).
Qed.

Lemma stays_unregister_xread p id : stays p (unregister_xread id) p.
Proof.
  apply stays_same; [|done]. intros w [H1 (ws & Hr & Hws) H3 H4 H5 H6]. split; try done.
  eexists. split; [by apply unregister_refines|]. by apply Forall_filter_keep.
Qed.

(** Operations on a transaction manager that leave the queue, or empty it. *)
Lemma stays_on_tm p h f :
  (∀ tm wm, Forall (request_ok queueable) (queued_commands_ tm) →
            Forall (request_ok queueable) (queued_commands_ (f tm wm).1)) →
  stays p (on_tm h f) p.
Proof.
  intros Hf. apply stays_same.
  - intros w [H1 H2 H3 H4 H5 H6]. unfold on_tm, modify. cbn [fst].
    specialize (Hf (tm_of h w) (w_watch w) (H4 h)). destruct (f _ _) as [tm wm]. split; try done.
    intros h'. change (tm_of h' (with_watch wm (set_tm h tm w))) with (tm_of h' (set_tm h tm w)).
    rewrite tm_of_set. by case_decide.
  - intros w. unfold on_tm, modify. cbn [fst]. by destruct (f _ _).
Qed.

Lemma stays_put_exec p ctx e : exec_calm e → stays p (put_exec ctx e) p.
Proof.
  intros He. apply stays_same; [|done]. intros w [H1 H2 H3 H4 H5 H6]. split; try done.
  by apply map_Forall_insert_2.
Qed.

Lemma stays_new_exec p e : exec_calm e → stays p (new_exec e) p.
Proof.
  intros He. apply stays_same; [|done]. intros w [H1 H2 H3 H4 H5 H6]. split; try done.
  by apply map_Forall_insert_2.
Qed.

(** A context that exists is calm. *)
Lemma stays_with_exec {A} p q ctx (f : ExecContext → M A) :
  (∀ e, exec_calm e → stays p (f e) q) → stays p (get_exec ctx ≫= f) q.
Proof.
  apply stays_bind_post; [apply stays_get_exec|]. intros w e [Hw _]. cbn.
  destruct (w_execs w !! ctx) as [e'|] eqn:E; [|done]. intros [= <-]. exact (calm_execs _ Hw _ _ E).
Qed.

(** *** Shipping *)

Lemma ship_command p q command w :
  wf_resp command = true → follows p w →
  (∀ stream r, apply_stream version (S depth) h0 (executed stream) r0 = (r, Ok tt) → replica_ready h0 r →
     matches p (w_store w) (w_store r) →
     ∃ r', apply_stream version (S depth) h0 (executed (stream ++ [command])) r0 = (r', Ok tt) ∧ replica_ready h0 r' ∧
       matches q (w_store w) (w_store r')) →
  follows q (propagate_all (serialize command) w).1.
Proof.
  intros Hwf [[H1 H2 H3 H4 H5 H6] [Hw (stream & r & E1 & E2 & E3 & E4 & E5 & E6)]] Hstep.
  destruct (Hstep stream r E4 E5 E6) as (r' & F4 & F5 & F6).
  pose proof (propagate_reaches i c (serialize command) (w_replicas w) Hw) as Hsent.
  unfold propagate_all, modify. cbn [fst]. destruct (propagate _ _) as [posts reg] eqn:Ep.
  injection Ep as _ <-. cbn [fst] in Hsent. split; [by split|]. split; [exact Hw|]. exists (stream ++ [command]), r'.
  cbn [w_out with_out with_replicas w_replicas w_store].
  rewrite shipped_app, shipped_posts, Hsent, E1, fmap_app, concat_app. cbn [fmap list_fmap concat].
  rewrite app_nil_r.
  split_and!; [by rewrite (assoc_L (++))| |unfold master_offset in *; cbn; rewrite zlen_app; lia|done..].
  rewrite forallb_app, E2. cbn [forallb]. by rewrite Hwf.
Qed.

Lemma executed_snoc stream command :
  executed (stream ++ [command]) = executed stream ++ (if is_getack command then [] else [command]).
Proof. unfold executed. rewrite List.filter_app. cbn [List.filter]. by destruct (is_getack command). Qed.

Lemma stays_propagate request cmd :
  write_request request cmd → stays (Some cmd) (propagate_all (serialize request)) None.
Proof.
  intros Hreq w Hw. apply (ship_command (Some cmd)); [by destruct Hreq|done|].
  intros stream r Ha Hr Hm. destruct (replica_applies version depth h0 request cmd (w_store w) r) as (r' & E1 & E2 & E3); [done..|].
  exists r'. rewrite executed_snoc, (write_not_getack _ _ Hreq). split_and!; [|done..]. by eapply apply_stream_snoc.
Qed.

Lemma stays_getack : stays None request_getack_all None.
Proof.
  intros w Hw. apply (ship_command None None getack_command); [done..|].
  intros stream r Ha Hr Hm. exists r. rewrite executed_snoc. change (is_getack getack_command) with true.
  by rewrite app_nil_r.
Qed.

(** *** Replies *)

(** Replies that ship [request]. *)
Definition ships (request : RespValue) (k : Reply) : Prop :=
  match k with
  | ReplyPropagate raw k => raw = serialize request ∧ direct k = true
  | ReplyExec _ t request' => request' = request ∧ is_write_command t = true
  | _ => False
  end.

(** What the commands expect of the calls they make. *)
Record calls_stay (call : Task → M unit) : Prop := {
  call_direct p k s : direct k = true → stays p (call (TReply k s)) p;
  call_direct_quiet k s w e : direct k = true → (call (TReply k s) w).2 ≠ Throw e;
  call_settled k s : settled k = true → stays None (call (TReply k s)) None;
  call_ships request cmd k s :
    write_request request cmd → ships request k → stays (Some cmd) (call (TReply k s)) None;
  call_serve p key : stays p (call (TServeBlpop key)) p;
  call_next ctx : stays None (call (TRunNext ctx)) None;
}.

(** An exception leaves the state as it was. *)
Definition clean {A} (m : M A) : Prop := ∀ w e, (m w).2 = Throw e → (m w).1 = w.

Lemma rollback_bind {A B} (m : M A) (f : A → M B) :
  (∀ w, (m w).1 = w) → (∀ a, clean (f a)) → clean (m ≫= f).
Proof.
  intros Hm Hf w e. unfold mbind, M_bind. specialize (Hm w). destruct (m w) as [w' [a| | |]]; simpl in *; subst; try done.
  apply Hf.
Qed.

Lemma clean_if {A} (x : bool) (m m' : M A) : clean m → clean m' → clean (if x then m else m').
Proof. by destruct x. Qed.

Lemma stays_try {A} p q (m : M A) (handler : exn → M A) :
  clean m → stays p m q → (∀ e, stays p (handler e) q) → stays p (try_catch m handler) q.
Proof.
  intros Hc Hm Hh w Hw. unfold try_catch. specialize (Hc w). specialize (Hm w Hw).
  destruct (m w) as [w' [a|e| |]]; simpl in *; try done. rewrite (Hc e eq_refl). by apply Hh.
Qed.

Create HintDb stays.
Hint Resolve stays_ret stays_gets stays_lift stays_cancel stays_unregister_xread stays_getack : stays.

Ltac stay :=
  repeat first
    [ progress intros
    | solve [auto 2 with stays]
    | simple eapply stays_bind
    | simple apply stays_if
    | case_match ].

Section commands.
Context (call : Task → M unit) (Hcall : calls_stay call).

Lemma stays_service p serve : service call serve → stays p serve p.
Proof.
  intros [|key|key]; [apply stays_ret|by apply call_serve|].
  unfold serve_xread_waiters.
  apply (stays_bind_post _ p _ (λ queue, Forall (λ reg, direct (xread_reply (reg_callback reg)) = true) (default [] queue)));
    [apply stays_gets| |].
  { intros w a [[H1 (ws & Hr & Hws) H3 H4 H5 H6] _] [= <-].
    by eapply (registry_callbacks (λ x, direct (xread_reply x) = true)). }
  intros queue. generalize (default [] queue). intros waiters Hq. clear queue.
  induction Hq as [|reg waiters Hreg _ IH]; cbn [serve_readers]; [apply stays_ret|].
  unfold xread_callback. pose proof (call_direct _ Hcall). stay.
Qed.

Lemma stays_write request cmd k :
  write_request request cmd → ships request k → stays None (write_body call cmd k) None.
Proof.
  intros Hreq Hk w Hw. destruct Hw as [Hcalm [Hwr (stream & r & E1 & E2 & E3 & E4 & E5 & E6)]].
  pose proof (write_body_spec call cmd k w (wr_timeless _ _ Hreq) (calm_store _ Hcalm) (wr_write _ _ Hreq)) as Hspec.
  unfold implements in Hspec. destruct (write_effect cmd (w_store w)) as [d| | |] eqn:He;
    try (destruct (write_body call cmd k w).2 as [[]| | |]; done).
  destruct Hspec as (w1 & serve & s & Hch & Hs & ->).
  apply (stays_bind (Some cmd) (Some cmd) None serve (λ _, call (TReply k s))).
  - by apply stays_service.
  - intros _. by eapply call_ships.
  - destruct (changed_frame _ _ _ Hch) as (F1 & F2 & F3 & F4 & F5 & F6 & F7 & _ & F9).
    destruct Hcalm as [H1 H2 H3 H4 H5 H6]. split; [split|].
    + by rewrite F2.
    + by rewrite F3.
    + by rewrite F4.
    + intros h. by rewrite F9.
    + by rewrite F5.
    + rewrite F1. by eapply write_effect_permanent.
    + split; [by rewrite F6|]. exists stream, r. rewrite F1, F6, F7. simpl in E6. split_and!; try done.
      simpl. by rewrite <- E6.
Qed.

(** The commands that change no data. *)
Section reads.
Context (k : Reply) (Hk : settled k = true).

Let Hsettled (s : bytes) : stays None (call (TReply k s)) None.
Proof. by apply call_settled. Qed.

Lemma get_permanent p now key : stays p (on_store (get now key)) p.
Proof. apply stays_on_store. intros d. apply get_timeless. Qed.

Lemma type_permanent p now key : stays p (on_store (store_type now key)) p.
Proof. apply stays_on_store. intros d. apply type_timeless. Qed.

Lemma stays_begin p h : stays p (on_tm h (λ tm wm, (begin tm, wm))) p.
Proof. apply stays_on_tm. constructor. Qed.

Lemma stays_reset p h : stays p (on_tm h reset) p.
Proof. apply stays_on_tm. constructor. Qed.

Lemma stays_clear p h : stays p (on_tm h clear_watches) p.
Proof. apply stays_on_tm. done. Qed.

Lemma stays_watch p h keys : stays p (on_tm h (λ tm wm, fold_left (watch_one h) keys (tm, wm))) p.
Proof. apply stays_on_tm. intros tm wm Hq. by rewrite watch_queue. Qed.

Hint Resolve Hsettled get_permanent type_permanent stays_begin stays_reset stays_clear stays_watch : stays.

Lemma stays_wait_poll target numreplicas deadline : stays None (wait_poll call target numreplicas deadline k) None.
Proof.
  unfold wait_poll. stay. by apply stays_start.
Qed.
Hint Resolve stays_wait_poll : stays.

Lemma stays_exec h : h_replicated h = true → stays None (execute_exec call h k) None.
Proof.
  intros Hh. unfold execute_exec.
  apply (stays_bind_post _ None _ (λ tm, Forall (request_ok queueable) (queued_commands_ tm))); [stay| |].
  { intros w tm [Hw _] [= <-]. apply (calm_queues _ Hw). }
  intros tm Hq. apply stays_if; [stay|]. apply stays_if; [stay|].
  cbn [pop_queued_commands fst]. eapply stays_bind; [apply stays_on_tm; constructor|intros _].
  apply stays_if; [stay|]. eapply stays_bind; [apply stays_new_exec; by split|intros ctx].
  by apply call_next.
Qed.

Lemma clean_reply (s : bytes) : direct k = true → clean (call (TReply k s)).
Proof. intros Hd w e E. by apply call_direct_quiet in E. Qed.

Lemma stays_xrange cmd : direct k = true → stays None (execute_xrange call cmd k) None.
Proof.
  intros Hd. unfold execute_xrange, arg. stay. apply stays_try; [|stay|stay].
  apply rollback_bind; [done|intros d]. apply rollback_bind; [done|intros es]. by apply clean_reply.
Qed.

Lemma stays_xread cmd : direct k = true → stays None (execute_xread call cmd k) None.
Proof.
  intros Hd. unfold execute_xread. eapply stays_bind; [stay|intros parsed]. apply stays_if; [stay|].
  do 2 (eapply stays_bind; [stay|intros ?]). apply stays_try; [| |stay].
  - apply rollback_bind; [done|intros results]. do 2 (apply clean_if; [by apply clean_reply|]).
    unfold setup_xread_blocking. do 3 (apply rollback_bind; [done|intros ?]). intros w e.
    unfold register_xread, start_timer, mbind, M_bind, mret, M_ret. by destruct (register_callbacks _ _ _).
  - unfold setup_xread_blocking. stay; [by apply stays_register_xread|by apply stays_start].
Qed.

Lemma stays_read version' h cmd body :
  h_replicated h = true → is_write_command (cmd_type cmd) = false →
  (match cmd_type cmd with XRead | XRange => direct k | _ => true end) = true →
  execute version' call h cmd k = Some body → stays None body None.
Proof.
  intros Hh Hw Hx. rewrite execute_table. unfold command_table.
  destruct (h_kind h), (cmd_type cmd); try discriminate Hw; intros [= <-];
    first [by apply stays_exec | by apply stays_xrange | by apply stays_xread
          | unfold execute_ping, execute_info, execute_echo, execute_get, execute_type, execute_lrange, execute_llen,
              execute_watch, execute_unwatch, execute_wait, execute_multi, execute_discard, execute_replconf,
              execute_psync, arg; stay ].
Qed.
End reads.

(** A command of either kind. *)
Lemma stays_execute version' h request cmd k body :
  h_replicated h = true → type request = Array → wf_resp request = true → parse_command request = Ok cmd →
  timeless cmd = true →
  (if is_write_command (cmd_type cmd) then ships request k
   else settled k = true ∧ (match cmd_type cmd with XRead | XRange => direct k | _ => true end) = true) →
  execute version' call h cmd k = Some body → stays None body None.
Proof.
  intros Hh Ha Hwf Hp Ht Hk He. destruct (is_write_command (cmd_type cmd)) eqn:Hw.
  - assert (h_kind h = Client) as Hkind.
    { rewrite execute_table in He. unfold command_table in He. by destruct (h_kind h), (cmd_type cmd). }
    rewrite execute_write in He by done. injection He as <-. by apply (stays_write request).
  - destruct Hk as [Hk Hx]. by eapply (stays_read k Hk).
Qed.

(** *** Transactions *)

Lemma stays_store_result p ctx res : stays p (store_result ctx res) p.
Proof.
  unfold store_result. apply stays_with_exec. intros e [H1 H2 H3]. apply stays_if; [|apply stays_lift].
  by apply stays_put_exec.
Qed.

Lemma stays_next_index p ctx : stays p (next_index ctx) p.
Proof. unfold next_index. apply stays_with_exec. intros e [H1 H2 H3]. by apply stays_put_exec. Qed.

Lemma stays_exec_callback p ctx t request s :
  (∀ e, exec_calm e → stays p (if h_replicated (exec_handler e) && is_write_command t
                               then propagate_all (serialize request) else mret tt) None) →
  stays p (exec_callback call ctx t request s) None.
Proof.
  intros Hship. unfold exec_callback. eapply stays_bind; [apply stays_store_result|intros _].
  apply stays_with_exec. intros e He. eapply stays_bind; [by apply Hship|intros _].
  eapply stays_bind; [apply stays_next_index|intros _]. by apply call_next.
Qed.

Lemma stays_run_next ctx : stays None (run_next call (execute version call) ctx) None.
Proof.
  unfold run_next. apply stays_with_exec. intros e [H1 H2 H3].
  apply stays_if; [by apply call_settled|].
  apply (stays_bind_post _ None _ (request_ok queueable)); [apply stays_lift| |].
  { intros w request _ E. cbn in E. destruct (exec_commands e !! exec_index e) eqn:El; [|done].
    injection E as <-. by eapply (Forall_lookup_1 _ _ _ _ H1). }
  intros request (Ha & Hwf & Hq).
  apply (stays_bind_post _ None _ (λ cmd, parse_command request = Ok cmd)); [apply stays_lift|done|].
  intros cmd Hp. specialize (Hq cmd Hp). apply andb_true_iff in Hq as [Ht Hx].
  destruct (execute _ _ _ _ _) as [body|] eqn:Ee.
  - eapply (stays_execute version _ request cmd); [done..| |exact Ee].
    destruct (is_write_command (cmd_type cmd)) eqn:Hw; [by split|].
    split; [by cbn; rewrite Hw|]. by destruct (cmd_type cmd).
  - eapply stays_bind; [apply stays_store_result|intros _].
    eapply stays_bind; [apply stays_next_index|intros _]. by apply call_next.
Qed.
End commands.

(** *** The interpretation of callbacks *)

Lemma stays_serve_blpop call p key : stays p (serve_blpop_waiters call key) p.
Proof.
  intros w Hw. unfold serve_blpop_waiters. by rewrite bind_gets, no_waiter by (by destruct Hw as [[]]).
Qed.

Lemma run_stays fuel : calls_stay (run version fuel).
Proof.
  induction fuel as [|fuel IH]; [by split; repeat intro|]. split; cbn [run run_task].
  - intros p k s Hk. destruct k; try discriminate Hk; [apply stays_respond|apply stays_ret].
  - intros k s w e Hk. by destruct k.
  - intros k s Hk. destruct k as [c'| | |ctx t request]; try discriminate Hk; [apply stays_respond|apply stays_ret|].
    apply stays_exec_callback; [done|]. intros e [_ -> _]. cbn in Hk. apply negb_true_iff in Hk. rewrite Hk.
    apply stays_ret.
  - intros request cmd k s Hreq Hk. destruct k as [| |raw k|ctx t request']; try done.
    + destruct Hk as [-> Hd]. eapply stays_bind; [by apply call_direct|intros _]. by apply stays_propagate.
    + destruct Hk as [-> Ht]. apply stays_exec_callback; [done|]. intros e [_ -> _]. rewrite Ht.
      by apply stays_propagate.
  - intros p key. apply stays_serve_blpop.
  - intros ctx. by apply stays_run_next.
Qed.

(** ** The events of the master *)

(** What a client may send, in a transaction and outside. *)
Definition admissible (active : bool) (request : RespValue) : Prop :=
  type request = Array → request_ok (if active then queueable else timeless) request.

Lemma stays_queue p h request :
  request_ok queueable request → stays p (on_tm h (λ tm wm, (queue_command request tm, wm))) p.
Proof. intros Hr. apply stays_on_tm. intros tm wm Hq. cbn. by apply Forall_app; split; [|constructor]. Qed.

Lemma handle_follows fuel h request c' w :
  h_replicated h = true → admissible (is_active (tm_of (h_id h) w)) request → follows None w →
  match (handle version fuel h request (ReplyTo c') w).2 with
  | Ok _ => follows None (handle version fuel h request (ReplyTo c') w).1
  | _ => True
  end.
Proof.
  intros Hh Hadm Hw. pose proof (run_stays fuel) as Hrun.
  assert (∀ s, stays None (run version fuel (TReply (ReplyTo c') s)) None) as Hreply by (intros; by apply call_direct).
  unfold handle. destruct (_ || _) eqn:Hshape; [by apply Hreply|].
  apply orb_false_iff in Hshape as [Ha%negb_false_iff%bool_decide_eq_true_1 _]. specialize (Hadm Ha) as (_ & Hwf & Hcmd).
  destruct (parse_command request) as [cmd| | |] eqn:Hp; try done.
  rewrite (bind_Ok _ _ _ w cmd) by done. specialize (Hcmd cmd eq_refl).
  unfold dispatch. rewrite bind_gets.
  assert (timeless cmd = true) as Ht.
  { destruct (is_active _); [|done]. by apply andb_true_iff in Hcmd as [? _]. }
  assert (∀ k' body, execute version (run version fuel) h cmd k' = Some body →
    (if is_write_command (cmd_type cmd) then ships request k' else k' = ReplyTo c') → stays None body None) as Hbody.
  { intros k' body He Hk'. eapply (stays_execute _ Hrun version h request cmd k'); [done..| |done].
    destruct (is_write_command (cmd_type cmd)); [done|]. subst k'. by destruct (cmd_type cmd). }
  destruct (always_direct (cmd_type cmd)) eqn:Hd.
  - assert (is_write_command (cmd_type cmd) = false) as Hnw by (by destruct (cmd_type cmd)). rewrite Hnw in Hbody.
    destruct (execute _ _ _ _ _) as [body|] eqn:Ee; [|by apply Hreply].
    destruct (_ && _); [by apply Hreply|]. by apply (Hbody (ReplyTo c') body).
  - destruct (is_active _).
    + apply (stays_bind None None None _ (λ _, run version fuel (TReply (ReplyTo c') (b "+QUEUED" ++ CRLF))));
        [|by intros _|done]. apply stays_queue. split_and!; [done..|].
      intros cmd' E. rewrite Hp in E. injection E as <-. exact Hcmd.
    + rewrite Hh. cbn [andb]. destruct (execute _ _ _ _ _) as [body|] eqn:Ee; [|by apply Hreply].
      apply (Hbody _ body Ee); [|done]. by destruct (is_write_command (cmd_type cmd)).
Qed.

Lemma timer_follows fuel t : stays None (timer_completes version fuel t) None.
Proof.
  pose proof (run_stays fuel) as Hrun. unfold timer_completes.
  apply (stays_bind_post _ None _ (map_Forall (λ _ t, calm_wait (wait t) = true))); [apply stays_gets| |].
  { intros w ts [Hw _] [= <-]. apply Hw. }
  intros ts Hts. destruct (ts !! t) as [timer|] eqn:Et; [|apply stays_ret]. apply stays_if; [|apply stays_ret].
  specialize (Hts t timer Et). cbn beta in Hts. eapply stays_bind.
  { apply stays_same; [|done]. intros w [H1 H2 H3 H4 H5 H6]. split; try done. by apply map_Forall_delete. }
  intros _. destruct (wait timer) as [id k|id k|target n deadline k]; [done| |].
  - unfold xread_timeout. eapply stays_bind; [apply stays_unregister_xread|intros _]. by apply call_direct.
  - by apply stays_wait_poll.
Qed.

Lemma timer_expires_follows t : stays None (timer_expires t) None.
Proof.
  apply stays_same.
  - intros w [H1 H2 H3 H4 H5 H6]. unfold timer_expires, modify. cbn [fst].
    destruct (w_timers w !! t) as [timer|] eqn:Et; [|done]. case_match; [|done]. split; try done.
    apply map_Forall_insert_2; [|done]. exact (H3 t timer Et).
  - intros w. unfold timer_expires, modify. cbn [fst]. by repeat case_match.
Qed.
End follows.

(** Requests of clients, timers and the passing of time, as long as no
    exception escapes. *)
Inductive master_step (version : bytes) : World → World → Prop :=
  | master_handle fuel h request c w w' :
      h_replicated h = true → admissible (is_active (tm_of (h_id h) w)) request →
      handle version fuel h request (ReplyTo c) w = (w', Ok tt) → master_step version w w'
  | master_expires t w : master_step version w (timer_expires t w).1
  | master_completes fuel t w w' :
      timer_completes version fuel t w = (w', Ok tt) → master_step version w w'
  | master_clock steady system w : master_step version w (with_clocks steady system w).

Lemma master_step_follows version depth h0 r0 i c out0 off0 w w' :
  h_kind h0 = Client → h_replicated h0 = false →
  master_step version w w' → follows version depth h0 r0 i c out0 off0 None w →
  follows version depth h0 r0 i c out0 off0 None w'.
Proof.
  intros Hk Hr Hstep Hw. destruct Hstep as [fuel h request c' w w' Hh Hadm E|t w|fuel t w w' E|steady system w].
  - pose proof (handle_follows version depth h0 r0 Hk Hr i c out0 off0 fuel h request c' w Hh Hadm Hw) as H.
    by rewrite E in H.
  - exact (timer_expires_follows version depth h0 r0 i c out0 off0 t w Hw).
  - pose proof (timer_follows version depth h0 r0 Hk Hr i c out0 off0 fuel t w Hw) as H. by rewrite E in H.
  - destruct Hw as [[H1 H2 H3 H4 H5 H6] [H7 H8]]. split; by split.
Qed.

Lemma master_run_follows version depth h0 r0 i c out0 off0 w w' :
  h_kind h0 = Client → h_replicated h0 = false →
  rtc (master_step version) w w' → follows version depth h0 r0 i c out0 off0 None w →
  follows version depth h0 r0 i c out0 off0 None w'.
Proof. intros Hk Hr Hrun. induction Hrun as [|w1 w2 w3 Hstep _ IH]; eauto using master_step_follows. Qed.

(** ** Property *)

(** C2. Replicas converge.  Take a master without deadlines on its keys, without
    clients blocked in BLPOP and without transactions suspended in XREAD ([calm]),
    and a replica that is registered with it, has the same data, no blocked
    clients of its own, and whose session streams from the master's offset.  Let
    any clients then send any requests in any order, with transactions, WATCH,
    WAIT, blocking XREAD and timers, but without BLPOP, without EX and PX options,
    without XADD [*], and with no XREAD or XRANGE inside a transaction, and such
    that no exception escapes on the master; no replica joins or leaves
    meanwhile.  However the bytes
    written to the replica's connection are cut into reads, the replica's session
    posts commands that its handler executes to the end without an exception, and
    then the replica's data and offset are the master's. *)
Theorem replica_converges (version : bytes) (depth : nat) (i : N) (c : ConnId) (w w' r : World) (id : HandlerId)
    (s : Session) (chunks : list bytes)
    (Hcalm : calm w) (Hwriter : sole_writer i c (w_replicas w))
    (Hready : replica_ready (session_handler id) r) (Hdata : w_store r = w_store w)
    (Hstreaming : phase s = Streaming) (Hsync : replica_offset_ s = master_offset (w_replicas w))
    (Hpos : 0 ≤ master_offset (w_replicas w)) (Hmax : master_offset (w_replicas w') ≤ ULLONG_MAX)
    (Hrun : rtc (master_step version) w w')
    (Hchunks : shipped c (w_out w') = shipped c (w_out w) ++ concat chunks) :
  ∃ s' out r', feed s [] chunks = (out, Ok (s', [])) ∧
    apply_stream version (S depth) (session_handler id) (posted out) r = (r', Ok tt) ∧
    w_store r' = w_store w' ∧ replica_offset_ s' = master_offset (w_replicas w').
Proof.
  assert (follows version depth (session_handler id) r i c (shipped c (w_out w)) (master_offset (w_replicas w)) None w') as Hw'.
  { assert (follows version depth (session_handler id) r i c (shipped c (w_out w)) (master_offset (w_replicas w)) None w) as H0.
    { split; [done|]. split; [done|]. exists [], r. rewrite app_nil_r. split_and!; try done.
      unfold zlen. simpl. lia. }
    by eapply (master_run_follows version depth (session_handler id)). }
  destruct Hw' as [_ [_ (stream & r' & E1 & E2 & E3 & E4 & _ & E6)]].
  rewrite E1 in Hchunks. apply app_inv_head in Hchunks.
  rewrite feed_concat, <- Hchunks. cbn [app]. rewrite drive_commands, Hsync by done.
  destruct (replay_spec (master_offset (w_replicas w)) stream) as [Hfin Hpost]; [lia..|].
  eexists _, _, r'. split; [reflexivity|]. cbn [with_offset replica_offset_].
  split_and!; [|done|by rewrite Hfin, E3]. by unfold posted; rewrite Hpost.
Qed.

(** *** Examples *)

(** A master with a replica on connection 7, and the replica. *)
Definition master_start : World := with_replicas (snd (add 7 empty_replicas)) example_world.
Definition replica_start : World :=
  initial_world (replica_config (replicate 40 7%nat) (b "localhost 6379")) 5000 9000.

Definition requests_of (l : list (N * list bytes)) : M unit :=
  foldr (λ '(i, words) m, send i words;; m) (mret tt) l.

Definition admissible_words (active : bool) (words : list bytes) : bool :=
  wf_resp (example_request words) &&
  match parse_command (example_request words) with
  | Ok cmd => if active then queueable cmd else timeless cmd
  | _ => true
  end.

Lemma send_master_step j words w :
  admissible_words (is_active (tm_of j w)) words = true → (send j words w).2 = Ok tt →
  master_step (b "7.0.0") w (send j words w).1.
Proof.
  intros [Hwf Hc]%andb_true_iff Hok. apply (master_handle _ 20 (example_handler j) (example_request words) j); [done| |].
  - intros Ha. split_and!; [done..|]. intros cmd E. rewrite E in Hc. cbn [h_id example_handler]. by destruct (is_active _).
  - destruct (send j words w) as [w' o] eqn:E. cbn [fst snd] in *. subst o. exact E.
Qed.

Fixpoint admissible_run (l : list (N * list bytes)) (w : World) : bool :=
  match l with
  | [] => true
  | (j, words) :: l =>
      admissible_words (is_active (tm_of j w)) words &&
      match send j words w with
      | (w', Ok _) => admissible_run l w'
      | _ => false
      end
  end.

Lemma requests_run l w :
  admissible_run l w = true → rtc (master_step (b "7.0.0")) w (requests_of l w).1.
Proof.
  revert w. induction l as [|[j words] l IH]; intros w; [intros _; apply rtc_refl|].
  cbn [admissible_run requests_of foldr]. intros [Ha Hs]%andb_true_iff.
  pose proof (send_master_step j words w Ha) as Hstep. unfold mbind, M_bind.
  destruct (send j words w) as [w' [[]| | |]]; try done. eapply rtc_l; [by apply Hstep|]. by apply IH.
Qed.

(** Two clients, a transaction that is aborted and one that is not. *)
Definition example_requests : list (N * list bytes) :=
  [(1%N, [b "SET"; b "a"; b "41"]); (1%N, [b "WATCH"; b "a"]); (1%N, [b "MULTI"]); (1%N, [b "SET"; b "a"; b "0"]);
   (2%N, [b "INCR"; b "a"]); (1%N, [b "EXEC"]); (2%N, [b "MULTI"]); (2%N, [b "RPUSH"; b "l"; b "x"; b "y"]);
   (2%N, [b "XADD"; b "s"; b "1-*"; b "f"; b "v"]); (2%N, [b "LPOP"; b "l"]); (2%N, [b "EXEC"]);
   (1%N, [b "WAIT"; b "1"; b "100"]); (2%N, [b "LPOP"; b "a"])].
Definition master_end : World := (requests_of example_requests master_start).1.

Lemma master_start_calm : calm master_start.
Proof.
  split; try done; try apply map_Forall_empty. exists []. split; [apply refines_empty|constructor].
Qed.

Lemma replica_converges_witness :
  ∃ s' out r', feed (mkSession Streaming 0 6380) [] [take 100 (shipped 7 (w_out master_end)); drop 100 (shipped 7 (w_out master_end))] =
      (out, Ok (s', [])) ∧
    apply_stream (b "7.0.0") 1 (session_handler 0) (posted out) replica_start = (r', Ok tt) ∧
    w_store r' = w_store master_end ∧ replica_offset_ s' = master_offset (w_replicas master_end).
Proof.
  assert (admissible_run example_requests master_start = true) as Hrun by (vm_compute; reflexivity).
  assert (replica_ready (session_handler 0) replica_start) as Hready by (by split).
  assert (master_offset (w_replicas master_end) ≤ ULLONG_MAX) as Hmax by (vm_compute; congruence).
  assert (w_store replica_start = w_store master_start) as Hdata by (vm_compute; reflexivity).
  assert (0 = master_offset (w_replicas master_start)) as Hoff by (vm_compute; reflexivity).
  assert (shipped 7 (w_out master_end) = shipped 7 (w_out master_start) ++
    concat [take 100 (shipped 7 (w_out master_end)); drop 100 (shipped 7 (w_out master_end))]) as Hchunks
    by (cbn [concat]; by rewrite app_nil_r, take_drop).
  apply (replica_converges (b "7.0.0") 0 0 7 master_start master_end replica_start 0 (mkSession Streaming 0 6380)
    _ master_start_calm (sole_writer_first 7) Hready Hdata); [done|exact Hoff|by rewrite <- Hoff|exact Hmax| |exact Hchunks].
  exact (requests_run example_requests master_start Hrun).
Defined.

(** *** Where replicas diverge *)

(** The commands shipped to connection 7. *)
Definition stream_of (w : World) : list RespValue :=
  posted (feed (mkSession Streaming 0 6380) [] [shipped 7 (w_out w)]).1.

Definition replica_of (w : World) : World :=
  (apply_stream (b "7.0.0") 20 (session_handler 0) (stream_of w) replica_start).1.

(** A BLPOP that timed out is propagated like one that popped: the replica
    blocks in it and gives the next element to a client that has long gone. *)
Definition blpop_timed_out : World :=
  ((send 1 [b "BLPOP"; b "l"; b "1"];; modify (with_clocks 2000000000 3000);; timer_expires 0;;
    timer_completes (b "7.0.0") 20 0;; send 2 [b "RPUSH"; b "l"; b "x"]) master_start).1.

Example timed_out_blpop_diverges :
  lrange (b "l") 0 (-1) (w_store blpop_timed_out) = [b "x"] ∧
  lrange (b "l") 0 (-1) (w_store (replica_of blpop_timed_out)) = [].
Proof. vm_compute. done. Qed.

(** A transaction blocked in XREAD is resumed by an XADD, and its writes are
    propagated before that XADD. *)
Definition exec_resumed : World :=
  (requests_of [(1%N, [b "MULTI"]); (1%N, [b "XREAD"; b "BLOCK"; b "0"; b "STREAMS"; b "s"; b "$"]);
     (1%N, [b "XADD"; b "s"; b "5-0"; b "f"; b "v"]); (1%N, [b "EXEC"]);
     (2%N, [b "XADD"; b "s"; b "3-0"; b "f"; b "v"])] master_start).1.

Example resumed_transaction_diverges :
  (λ sv, entry_id <$> entries (as_stream sv)) <$> w_store exec_resumed !! b "s" = Some [b "3-0"; b "5-0"] ∧
  (λ sv, entry_id <$> entries (as_stream sv)) <$> w_store (replica_of exec_resumed) !! b "s" = Some [b "5-0"].
Proof. vm_compute. done. Qed.

(** XADD with a generated id is propagated as it was sent: the replica generates
    another one, from its own clock. *)
Definition id_generated : World := (requests_of [(1%N, [b "XADD"; b "s"; b "*"; b "f"; b "v"])] master_start).1.

Definition late_replica_of (w : World) : World :=
  ((modify (with_clocks 0 2000);; apply_stream (b "7.0.0") 20 (session_handler 0) (stream_of w)) replica_start).1.

Example generated_id_diverges :
  (λ sv, entry_id <$> entries (as_stream sv)) <$> w_store id_generated !! b "s" = Some [b "1000-0"] ∧
  (λ sv, entry_id <$> entries (as_stream sv)) <$> w_store (late_replica_of id_generated) !! b "s" = Some [b "2000-0"].
Proof. vm_compute. done. Qed.
